(* ===== verification/_CoqProject ===== *)
-Q . S2P
Prelude.v
Text.v
Protocol.v
Input.v
Store.v
Policy.v
Quota.v
Authorization.v
Guard.v
Ledger.v
Trace.v
Executor.v
Traced.v
Concordance.v
Semantic.v
Review.v
Publication.v
Ratification.v
Sealing.v
Chronicle.v
Ratified.v
RatifiedRuns.v
Interleaved.v
Scanner.v
Redaction.v
Privacy.v
Pointers.v
Erasure.v
Classified.v
Kept.v
TreeBounds.v
CanonicalPolicy.v
PublicTrace.v
PrivacyRuns.v
Callback.v
Readiness.v
Destinations.v
Enrollments.v
Attempts.v
Delivery.v
Accounting.v
Delivered.v
Workers.v
CallbackRuns.v
