(* ===== verification/Prelude.v ===== *)
(** * Verification of the SMESH A2A gateway

    The gateway ([src/src]) speaks the A2A protocol to clients and hands their
    tasks to a SMESH mesh of workers.  A request passes the authorization and quota
    policies, the request guard ([guard.rs]) and the SDK, and reaches the executor
    ([executor.rs]), which translates the message, runs the worker, collects its
    artifacts and evidence, and asks the completion policy ([policy.rs]) whether
    the result may be published.  The task store ([store.rs]) keeps the tasks and
    their frozen listings; the guard re-checks everything that leaves the gateway
    against the policy's sealed receipts; the runtime trace ([runtime_trace.rs])
    keeps a bounded record of what happened.  Where a human must ratify a result,
    the delivery freezes a review packet and the ratification ledger
    ([ratification.rs]) records the review and the decision in a sealed SQLite
    database.  A restricted trace is made public by the privacy projection
    ([trace_privacy.rs]), which classifies and redacts every record under a policy,
    scans the result and writes the manifests that bind it.  Terminal events are
    delivered to enrolled callback URLs: a worker ([callback_worker.rs]) leases a
    delivery from the authority of the store, reserves its egress and sends a signed
    request through the transport of [push.rs].

    ** Files

    - [Prelude] (this file): the [result] and [action] monads, their inversion
      tactics, machine integers, stable sorting, generic list lemmas.
    - [Text]: [str], bytes, UTF-8, hexadecimal, big-endian framing; the classes
      [Sha256] and [HmacSha256] for the hash primitives.
    - [Protocol]: the A2A data types and errors ([vendor/a2a-lf]).
    - [Input]: [input.rs] (text extraction) and [task_state.rs] (the lifecycle
      matrix, as a test and as a step relation).
    - [Store]: [store.rs].  [StoreState] is the locked state; [create], [update],
      [get] and [store_list] are its methods; [store_step] is any of them.
    - [Policy]: [policy.rs].  Construction of a policy, normalization of evidence,
      the tally, [evaluate], receipts and checkpoints and their seals.
    - [Quota]: [quota.rs].  Policy documents with overrides, limits at a time,
      intents, leases, reconciliation plans.
    - [Authorization]: [authorization.rs].  Policy documents, principal resolution,
      the role matrix, the tenant selector of a request.
    - [Guard]: [guard.rs].  Every handler of the guard, over the interfaces
      [RequestHandler] (the SDK) and [CompletionPolicyStore] (a task store).
    - [Ledger]: the in-memory store as such a policy store ([server.rs]).
    - [Trace]: [runtime_trace.rs].  The capture, its retention, all record
      operations, the snapshot, the replay check.
    - [Executor]: [executor.rs] and [bridge.rs].  [execute] is the admission;
      [Execution] is the state shared by the worker task and the task that serves a
      cancel request, and [step] interleaves them at their await points.
    - [Traced]: the executor over the capture.
    - [Concordance]: [text_concordance.rs], the built-in workload.
    - [Semantic]: [semantic_evidence.rs], the signed evidence of its issuers.
    - [Review]: [ratification.rs], packets, commands and receipts, their
      validation, hashes and seals; the candidate a delivery prepares.
    - [Publication]: the transcript check of the durable stores
      ([sqlite_store.rs]) and the theorems on packets and publication.
    - [Ratification]: [ratification.rs], [RatificationLedger].  [Tables] are the
      rows of its five tables; [freeze_packet], [acknowledge_review],
      [decide_ratification] and the reads are its methods, [open] its constructor.
    - [Sealing]: what the sealed summary of the tables covers.
    - [Chronicle]: the contract of the ledger, packets and chains of receipts
      without tables, hashes of rows or text, and the refinement of each operation.
    - [Ratified]: runs of the ledger.  [RatifiedRuns]: a concrete run.
    - [Interleaved]: the ledger's commands as threads that hold its lock for one
      critical section at a time; [interleaving] is a move of any of them.
    - [Scanner]: [trace_privacy.rs], what counts as sensitive text and as a
      sensitive key.  [Redaction]: its policies, JSON pointers, classification and
      rules on records.  [Privacy]: packages of records, the scan, the manifests,
      [sanitize_public_trace_with_receipts] and [verify_sanitized_trace].
    - [Pointers]: pointers as sequences of tokens.  [Erasure]: a record with its
      hidden values erased, and what a rule does not look at.  [Classified]: the
      classification loop as a recursive definition, and what it publishes.
      [Kept]: values that redaction leaves alone.  [TreeBounds]: the bounds check
      against the tree.  [CanonicalPolicy]: the order of rules does not matter.
      [PublicTrace]: the theorems on the projection.  [PrivacyRuns]: a concrete run.
    - [Callback]: [push.rs].  URLs, addresses, signatures, retries, policies and one
      attempt ([send_enrollment]).  [Readiness]: the atomics of [PushReadiness], with
      calls interleaved at each access.
    - [Destinations]: what URLs and addresses are admitted.  [Enrollments]: what an
      accepted policy holds.  [Attempts]: what an attempt signs, sends and reads.
    - [Delivery]: [callback_worker.rs] and the records of [callback_authority.rs].
      [process_delivery] is [process], [run_worker] is [run]; an [Environment] answers
      every call from the calls made before, and the worker extends that log.
    - [Accounting]: the reserved bytes against the request.  [Delivered]: the
      protocol of a delivery as an automaton on calls, and that [process_delivery]
      follows it.  [Workers]: what a worker reports.  [CallbackRuns]: concrete runs.

    ** What the theorems show

    - Store: a stored task is never lost and moves only along the lifecycle matrix;
      terminal records are immutable; the ceilings on tasks, snapshots and bytes
      are invariants; following page tokens reads the frozen view exactly once,
      whatever happens in between; tokens resolve until they expire, and only in
      their scope.
    - Policy: an accepted snapshot carries the allow-listed, distinct, sufficient
      evidence the policy asks for; block reasons are exact; the decision does not
      depend on submission order; issued records verify; seals bind, up to an
      explicit hash collision.
    - Guard: only tasks with the record their state calls for are let out, and two
      completed tasks under one seal carry the same texts.
    - Executor: at most one final event per execution, sent last, by the party that
      won the claim, and traced; executions end within a fixed number of moves;
      completion is the policy's decision about the worker's own artifacts; what
      the executor publishes passes the guard.
    - Trace: captures are bounded, account for every required event, attribute a
      signal to one task, and replay; final events can be recorded.
    - Quota, authorization: limits in force, exact charges, binding digests, role
      separation for ratification, resolved contexts as quota subjects.
    - Workload: the artifact is the true concordance; proposals validate exactly;
      issuers sign only what they recomputed, and their records verify for exactly
      one candidate.
    - Ratification: the ledger's operations refine their contract, errors included,
      and refuse what the contract allows only when the retained capacity would be
      exceeded; a ledger changed by any operations opens again; rows are only added;
      a history is a review followed by decisions, and every receipt verifies;
      commands sent twice are recorded once.  These hold of commands that run one at
      a time, which [Interleaved] shows to be its uninterrupted threads; that rows
      are only added holds of every interleaving.  The seals of the ledger and of a packet
      bind their contents; what is published is what the reviewer was shown, and
      nothing of it is disclosed while the review is open; a public transcript is
      accepted exactly when replaying it gives the stored task.
    - Privacy: the public artifacts do not depend on values that a policy replaces
      or drops; a record is accepted exactly when every value it would publish has
      a rule, and rules keep only public data of fictional provenance; kept values
      are published where they were; the output passes the scanner at every depth;
      handles bind identifiers up to a hash collision; pointers and token sequences
      are in bijection; the bounds check measures exactly the tree; a policy does
      not depend on the order of its rules.
    - Callbacks: an accepted URL is its text, whatever the URL library; the address
      filter is the table of reserved ranges, and an attempt connects to a public
      address or not at all; its request verifies under the secret of its
      enrollment, signatures bind every field up to a collision, and the response is
      read within its limit; policies look up exactly one enrollment.  In every
      environment nothing is sent before the lease is renewed, the exact bytes are
      reserved and the fence is validated, only a success commits, retries stay
      within the policy and the life of the delivery, and settling comes last.  A
      worker is ready once, fatal after five failed claims; a generation is ready
      exactly when as many marks as workers have ended.
    - Error theorems state behaviour that is documented otherwise: a cancellation
      that ends without its final event, a context id that silences a traced
      execution, a completion with a binary artifact that no guarded read returns, a
      decision recorded for an account that made no review, two decisions that race
      and leave a ledger that does not open again, a short callback URL that panics.

    ** Conventions

    [u64] and [usize] are [N] bounded by [u64_max], [i32] and timestamps are [Z];
    overflow is written out ([checked_add], [saturating_add]). Strings and byte
    slices are [string]. Fallible code returns [result]; a panic is an error value
    of its own ([fault], [push_fault]) and shown unreachable but for the one an
    error theorem states. Statements about digests and seals do not assume
    injectivity: they conclude equality or an explicit collision. Code outside the
    repository is a class or an argument (hash primitives, JSON and base64 codecs,
    the signature check, the SDK handler, the clock, random draws, the dispatcher),
    and each property over such a parameter has a witness with a concrete instance.

    ** Bounds and fuel

    The retention loops of [Trace] run with the number of retained events as fuel;
    each iteration removes at least one, and the lemmas [retire_while_spec] and
    [make_room_spec] show that they stop by their own condition. The rank of a
    worker in [Executor] bounds its moves by 41 under the clamped limit of 16 mesh
    events. Ledgers keep their 64 MiB of retained bytes and SQLite's [i64] integers
    as they are in the code. The stack loops of [Redaction] and [Privacy] run with
    the number of JSON values as fuel, and [drain_fuel] and [walk_eq] show that they
    never use it up; decimal lengths take the binary size of the number. [wait] of
    [Delivery] takes one unit of fuel per renewal while a request is in flight,
    which nothing in the code bounds, and [worker_loop] one per turn: the theorems
    hold for every fuel, a wait that uses it up is reported as [StillSending], and
    more fuel than renewals until the sender answers avoids that. All other
    recursion is structural.

    ** Not modelled

    The SQLite and PostgreSQL task stores but for their transcript check, the
    durable dispatch and outbox, the configuration records of callbacks and the
    database side of their authority, artifact storage and its migration,
    authentication, TLS transport, telemetry, the lifeline and full-matrix
    harnesses, and the binaries: they are SQL, network and process code over the
    types modelled here. In the privacy projection, [Debug] output and the clearing
    of key memory are left out. The telemetry hand-off of the capture and reading
    policy documents from files are left out of the modelled components. Timeouts
    are modelled as choices of the environment, not as durations. Failures of SQLite
    itself and a poisoned lock are not modelled. Of callbacks, spawning and joining
    the worker tasks, telemetry, the system resolver and the overrides of debug
    builds are left out. *)

From stdpp Require Export base tactics list gmap sorting strings.

(** ** Results

    Rust's [Result<A, E>].  [x ← c; k] is the [?] operator followed by the rest
    of the function, [fail_if b e;; k] is [if b { return Err(e); } k]. *)

Inductive result (E A : Type) : Type :=
  | Ok (a : A)
  | Err (e : E).
Arguments Ok {_ _} _.
Arguments Err {_ _} _.

#[global] Instance result_ret E : MRet (result E) := fun _ a => Ok a.
#[global] Instance result_bind E : MBind (result E) := fun _ _ k c =>
  match c with Ok a => k a | Err e => Err e end.

Definition fail_if {E} (b : bool) (e : E) : result E unit :=
  if b then Err e else Ok tt.

Definition ok_or {E A} (o : option A) (e : E) : result E A :=
  match o with Some a => Ok a | None => Err e end.

Definition map_err {E F A} (f : E -> F) (c : result E A) : result F A :=
  match c with Ok a => Ok a | Err e => Err (f e) end.

Definition is_ok {E A} (c : result E A) : bool :=
  match c with Ok _ => true | Err _ => false end.

(** [Option::is_some_and], [is_none_or], [is_some] *)
Definition is_some_and {A} (o : option A) (p : A -> bool) : bool := match o with Some a => p a | None => false end.
Definition is_none_or {A} (o : option A) (p : A -> bool) : bool := match o with Some a => p a | None => true end.
Definition is_some {A} (o : option A) : bool := is_some_and o (fun _ => true).

(** A [for] loop whose body may return early: the accumulator is the state the
    loop mutates. *)
Fixpoint try_fold {E S A} (f : S -> A -> result E S) (s : S) (l : list A) : result E S :=
  match l with
  | [] => Ok s
  | x :: l => s' ← f s x; try_fold f s' l
  end.

(** [for x in l { f(x)?; }] *)
Fixpoint try_each {E A} (f : A -> result E unit) (l : list A) : result E unit :=
  match l with
  | [] => Ok tt
  | x :: l => f x;; try_each f l
  end.

(** [l.iter().map(f).collect::<Result<Vec<_>, _>>()] *)
Fixpoint try_map {E A B} (f : A -> result E B) (l : list A) : result E (list B) :=
  match l with
  | [] => Ok []
  | x :: l => y ← f x; ys ← try_map f l; Ok (y :: ys)
  end.

Section result_lemmas.
Context {E : Type}.

Lemma bind_Ok_inv {A B} (c : result E A) (k : A -> result E B) b :
  c ≫= k = Ok b <-> exists a, c = Ok a /\ k a = Ok b.
Proof. destruct c; naive_solver. Qed.

(** Unlike [injection], leaves the two values as they are. *)
Lemma Ok_inj {A} (a b : A) : Ok (E:=E) a = Ok b -> a = b.
Proof. by intros [= ->]. Qed.

Lemma fail_if_Ok (b : bool) (e : E) u : fail_if b e = Ok u <-> b = false.
Proof. destruct b, u; naive_solver. Qed.

Lemma ok_or_Ok {A} (o : option A) (e : E) a : ok_or o e = Ok a <-> o = Some a.
Proof. destruct o; naive_solver. Qed.

Lemma map_err_Ok {F A} (f : E -> F) (c : result E A) a :
  map_err f c = Ok a <-> c = Ok a.
Proof. destruct c; naive_solver. Qed.

Lemma is_ok_true {A} (c : result E A) : is_ok c = true <-> exists a, c = Ok a.
Proof. destruct c; naive_solver. Qed.

Lemma try_each_Ok {A} (f : A -> result E unit) l u :
  try_each f l = Ok u <-> Forall (fun x => f x = Ok tt) l.
Proof.
  destruct u. induction l as [|x l IH]; simpl; [by split|].
  rewrite Forall_cons, <- IH, bind_Ok_inv.
  split; [intros [[] [-> ->]]; done | intros [-> ->]; by exists tt].
Qed.

Lemma try_map_Ok {A B} (f : A -> result E B) l l' :
  try_map f l = Ok l' <-> Forall2 (fun x y => f x = Ok y) l l'.
Proof.
  revert l'. induction l as [|x l IH]; intros l'; simpl.
  - split; [intros [= <-]; constructor | by inversion 1].
  - rewrite bind_Ok_inv. setoid_rewrite bind_Ok_inv. split.
    + intros (y & Hy & ys & Hys & [= <-]). constructor; [done | by apply IH].
    + inversion 1 as [|? y ? ys Hy Hys]; subst.
      exists y. split; [done|]. exists ys. by rewrite IH.
Qed.

Lemma try_fold_snoc {S A} (f : S -> A -> result E S) s l x :
  try_fold f s (l ++ [x]) = (r ← try_fold f s l; f r x).
Proof.
  revert s. induction l as [|y l IH]; intros s; cbn [app try_fold].
  - simpl. by destruct (f s x).
  - destruct (f s y); [apply IH|done].
Qed.

(** Loop rule for [try_fold]: an invariant indexed by the processed prefix. *)
Lemma try_fold_ind {S A} (f : S -> A -> result E S) (P : list A -> S -> Prop) s l s' :
  P [] s ->
  (forall pre x st st', P pre st -> x ∈ l -> f st x = Ok st' -> P (pre ++ [x]) st') ->
  try_fold f s l = Ok s' -> P l s'.
Proof.
  intros H0 Hstep.
  cut (forall suf pre st, pre ++ suf = l -> P pre st -> try_fold f st suf = Ok s' -> P l s').
  { intros Hgen. by apply (Hgen l [] s). }
  induction suf as [|x suf IH]; intros pre st Hl HP; simpl.
  - intros [= <-]. rewrite app_nil_r in Hl. by subst.
  - rewrite bind_Ok_inv. intros (st' & Hf & Hrest).
    apply (IH (pre ++ [x]) st'); [by rewrite <- app_assoc | | done].
    eapply Hstep; [done | | done]. subst. set_solver.
Qed.
End result_lemmas.

(** A computation whose only error is [e]. *)
Definition errs {E A} (e : E) (c : result E A) : Prop := forall e', c = Err e' -> e' = e.

Create HintDb errs.

Lemma errs_Ok {E A} (e : E) (a : A) : errs e (Ok a).
Proof. by intros e'. Qed.
Lemma errs_Err {E A} (e : E) : errs (A:=A) e (Err e).
Proof. by intros e' [= <-]. Qed.
Lemma errs_fail_if {E} (e : E) b : errs e (fail_if b e).
Proof. destruct b; [apply errs_Err|apply errs_Ok]. Qed.
Lemma errs_ok_or {E A} (e : E) (o : option A) : errs e (ok_or o e).
Proof. destruct o; [apply errs_Ok|apply errs_Err]. Qed.
Lemma errs_map_err {E F A} (e : E) (c : result F A) : errs e (map_err (fun _ => e) c).
Proof. destruct c; [apply errs_Ok|apply errs_Err]. Qed.
Lemma errs_bind {E A B} (e : E) (c : result E A) (k : A -> result E B) :
  errs e c -> (forall a, errs e (k a)) -> errs e (c ≫= k).
Proof. intros Hc Hk e'. destruct c as [a|e0]; [apply Hk|]. intros [= <-]. by apply Hc. Qed.
Lemma errs_try_map {E A B} (e : E) (f : A -> result E B) l :
  (forall x, errs e (f x)) -> errs e (try_map f l).
Proof.
  intros Hf. induction l as [|x l IH]; simpl; [apply errs_Ok|].
  apply errs_bind; [done|]. intros y. apply errs_bind; [done|]. intros ys. apply errs_Ok.
Qed.
#[export] Hint Resolve errs_Ok errs_Err errs_fail_if errs_ok_or errs_map_err errs_bind errs_try_map : errs.

(** [inv_ok] peels a successful computation: every [?] and every guard on the
    path to an [Ok] becomes a hypothesis. *)
Ltac inv_ok_step :=
  match goal with
  | H : Ok _ = Ok _ |- _ => injection H as H; try subst
  | H : Err _ = Ok _ |- _ => discriminate H
  | H : Ok _ = Err _ |- _ => discriminate H
  | H : _ ≫= _ = Ok _ |- _ =>
      apply bind_Ok_inv in H; let a := fresh "a" in let Ha := fresh "Hok" in
      destruct H as (a & Ha & H);
      try match type of a with unit => destruct a | prod _ _ => destruct a end
  | H : fail_if _ _ = Ok _ |- _ => apply fail_if_Ok in H
  | H : ok_or _ _ = Ok _ |- _ => apply ok_or_Ok in H
  | H : map_err _ _ = Ok _ |- _ => apply map_err_Ok in H
  | H : _ || _ = false |- _ => apply orb_false_iff in H; destruct H
  | H : _ && _ = true |- _ => apply andb_true_iff in H; destruct H
  | H : negb _ = false |- _ => apply negb_false_iff in H
  | H : negb _ = true |- _ => apply negb_true_iff in H
  end.
Ltac reflect_step :=
  match goal with
  | H : N.leb _ _ = true |- _ => apply N.leb_le in H
  | H : N.leb _ _ = false |- _ => apply N.leb_gt in H
  | H : N.ltb _ _ = true |- _ => apply N.ltb_lt in H
  | H : N.ltb _ _ = false |- _ => apply N.ltb_ge in H
  | H : N.eqb _ _ = true |- _ => apply N.eqb_eq in H
  | H : N.eqb _ _ = false |- _ => apply N.eqb_neq in H
  | H : Z.eqb _ _ = true |- _ => apply Z.eqb_eq in H
  | H : Z.eqb _ _ = false |- _ => apply Z.eqb_neq in H
  | H : Z.leb _ _ = true |- _ => apply Z.leb_le in H
  | H : Z.leb _ _ = false |- _ => apply Z.leb_gt in H
  | H : Z.ltb _ _ = true |- _ => apply Z.ltb_lt in H
  | H : Z.ltb _ _ = false |- _ => apply Z.ltb_ge in H
  | H : Nat.leb _ _ = true |- _ => apply Nat.leb_le in H
  | H : Nat.leb _ _ = false |- _ => apply Nat.leb_gt in H
  | H : Nat.ltb _ _ = true |- _ => apply Nat.ltb_lt in H
  | H : Nat.ltb _ _ = false |- _ => apply Nat.ltb_ge in H
  | H : Nat.eqb _ _ = true |- _ => apply Nat.eqb_eq in H
  | H : Nat.eqb _ _ = false |- _ => apply Nat.eqb_neq in H
  | H : bool_decide _ = true |- _ => apply bool_decide_eq_true in H
  | H : bool_decide _ = false |- _ => apply bool_decide_eq_false in H
  end.
Ltac inv_ok := repeat inv_ok_step; repeat reflect_step.

(** ** Machine integers

    Unsigned integers are [N] (so they are never negative) and signed integers
    are [Z].  The target is 64-bit, so [usize] and [u64] share their maximum. *)

Definition u16_max : N := 65535.
Definition u32_max : N := 4294967295.
Definition u64_max : N := 18446744073709551615.
Definition usize_max : N := u64_max.
Definition i32_max : Z := 2147483647.

Definition checked_add (a b : N) : option N :=
  if (a + b <=? u64_max)%N then Some (a + b)%N else None.
Definition checked_mul (a b : N) : option N :=
  if (a * b <=? u64_max)%N then Some (a * b)%N else None.
Definition saturating_add (a b : N) : N := N.min (a + b) u64_max.
Definition saturating_sub (a b : N) : N := (a - b)%N.

(** [usize::try_from(i)] on a signed integer. *)
Definition usize_of_Z (z : Z) : option nat :=
  if (z <? 0)%Z then None else Some (Z.to_nat z).

(** [i32::try_from(n).unwrap_or(i32::MAX)] *)
Definition i32_of_len (n : nat) : Z :=
  if (Z.of_nat n <=? i32_max)%Z then Z.of_nat n else i32_max.

Definition len {A} (l : list A) : N := N.of_nat (length l).

Lemma checked_add_Some a b c :
  checked_add a b = Some c <-> c = (a + b)%N /\ (a + b <= u64_max)%N.
Proof. unfold checked_add. destruct (N.leb_spec (a + b) u64_max); naive_solver lia. Qed.

Lemma checked_mul_Some a b c :
  checked_mul a b = Some c <-> c = (a * b)%N /\ (a * b <= u64_max)%N.
Proof. unfold checked_mul. destruct (N.leb_spec (a * b) u64_max); naive_solver lia. Qed.

Lemma len_nil {A} : len (A:=A) [] = 0%N.
Proof. done. Qed.
Lemma len_cons {A} (x : A) l : len (x :: l) = (len l + 1)%N.
Proof. unfold len. simpl. lia. Qed.
Lemma len_app {A} (l k : list A) : len (l ++ k) = (len l + len k)%N.
Proof. unfold len. rewrite length_app. lia. Qed.

#[global] Instance len_Proper {A} : Proper ((≡ₚ) ==> (=)) (len (A:=A)).
Proof. intros l k Hp. unfold len. by rewrite Hp. Qed.

(** ** Stable sorting

    [slice::sort_by] is a stable sort.  Insertion of each element in front of
    the elements it is not greater than, from the right, is one; for a total
    preorder any stable sort returns the same list. *)

Section sort_by.
Context {A : Type} (leb : A -> A -> bool).

Fixpoint sort_insert (x : A) (l : list A) : list A :=
  match l with
  | [] => [x]
  | y :: l' => if leb x y then x :: l else y :: sort_insert x l'
  end.

Definition sort_by (l : list A) : list A := foldr sort_insert [] l.

Lemma sort_insert_perm x l : sort_insert x l ≡ₚ x :: l.
Proof.
  induction l as [|y l IH]; simpl; [done|]. destruct (leb x y); [done|].
  rewrite IH. apply Permutation_swap.
Qed.

Lemma sort_by_perm l : sort_by l ≡ₚ l.
Proof. induction l as [|x l IH]; simpl; [done|]. by rewrite sort_insert_perm, IH. Qed.

Lemma sort_by_elem x l : x ∈ sort_by l <-> x ∈ l.
Proof. by rewrite sort_by_perm. Qed.

Lemma sort_by_length l : length (sort_by l) = length l.
Proof. by rewrite sort_by_perm. Qed.

Context (leb_trans : forall x y z, leb x y = true -> leb y z = true -> leb x z = true).
Context (leb_total : forall x y, leb x y = true \/ leb y x = true).

Lemma sort_insert_sorted x l :
  StronglySorted leb l -> StronglySorted leb (sort_insert x l).
Proof.
  induction 1 as [|y l Hl IH Hy]; simpl; [by repeat constructor|].
  destruct (leb x y) eqn:Hxy.
  - constructor; [by constructor|]. constructor; [by rewrite Hxy|].
    eapply Forall_impl; [exact Hy|]. intros z Hz%Is_true_true. simpl.
    apply Is_true_true. eauto.
  - constructor; [done|]. rewrite sort_insert_perm. constructor; [|done].
    destruct (leb_total x y) as [|Hyx]; [congruence|]. by rewrite Hyx.
Qed.

Lemma sort_by_sorted l : StronglySorted leb (sort_by l).
Proof. induction l; simpl; [constructor|]. by apply sort_insert_sorted. Qed.

(** When distinct elements of the list are never equivalent, the sorted list
    depends on the elements only, not on the order they were presented in. *)
Lemma sort_by_unique l1 l2 :
  (forall x y, x ∈ l1 -> y ∈ l1 -> leb x y = true -> leb y x = true -> x = y) ->
  l1 ≡ₚ l2 -> sort_by l1 = sort_by l2.
Proof.
  intros Hanti Hp. apply (StronglySorted_unique_strong leb).
  - intros x y Hx Hy Hxy%Is_true_true Hyx%Is_true_true.
    rewrite sort_by_elem in Hx. rewrite sort_by_elem, <- Hp in Hy. eauto.
  - apply sort_by_sorted.
  - apply sort_by_sorted.
  - by rewrite !sort_by_perm.
Qed.

(** A list that is already sorted is left alone. *)
Lemma sort_by_id l : StronglySorted leb l -> sort_by l = l.
Proof using Type.
  induction 1 as [|x l Hl IH Hx]; simpl; [done|]. rewrite IH.
  destruct l as [|y l]; [done|]. simpl.
  apply Forall_cons in Hx as [Hxy%Is_true_true _]. by rewrite Hxy.
Qed.
End sort_by.

(** [l.windows(2).any(|w| f(w[0], w[1]))] *)
Fixpoint windows2_any {A} (f : A -> A -> bool) (l : list A) : bool :=
  match l with
  | x :: ((y :: _) as l') => f x y || windows2_any f l'
  | _ => false
  end.

(** On a sorted list, comparing neighbours finds every duplicate. *)
Lemma windows2_any_NoDup {A} `{EqDecision A} (leb : A -> A -> bool) (l : list A) :
  (forall x y, leb x y = true -> leb y x = true -> x = y) ->
  StronglySorted leb l ->
  windows2_any (fun x y => bool_decide (x = y)) l = false <-> NoDup l.
Proof.
  intros Hanti. induction 1 as [|x l Hl IH Hx]; [by split; [constructor|]|].
  destruct l as [|y l]; [simpl; split; [intros; apply NoDup_singleton | done]|].
  change (windows2_any _ (x :: y :: l))
    with (bool_decide (x = y) || windows2_any (fun x y => bool_decide (x = y)) (y :: l)).
  rewrite orb_false_iff, IH, bool_decide_eq_false, (NoDup_cons x).
  split; [|set_solver]. intros [Hne Hnd]. split; [|done].
  intros [->|Hin]%elem_of_cons; [done|].
  apply Forall_cons in Hx as [Hxy Hx].
  apply StronglySorted_cons in Hl as [Hy _].
  rewrite Forall_forall in Hx, Hy.
  apply Hne, Hanti; apply Is_true_true; [done|]. by apply Hy.
Qed.


(** ** Ordering

    Rust's [Ord]: a comparison whose [Eq] is equality.  Tuples and [Option]
    derive it lexicographically, with [None] first. *)

Class TotalCmp (A : Type) := {
  cmp : A -> A -> comparison;
  cmp_eq : forall x y, cmp x y = Eq <-> x = y;
  cmp_antisym : forall x y, cmp y x = CompOpp (cmp x y);
  cmp_lt_trans : forall x y z, cmp x y = Lt -> cmp y z = Lt -> cmp x z = Lt }.

Definition then_with (c d : comparison) : comparison :=
  match c with Eq => d | _ => c end.

Definition not_gt (c : comparison) : bool :=
  match c with Gt => false | _ => true end.

Lemma cmp_refl `{TotalCmp A} x : cmp x x = Eq.
Proof. by apply cmp_eq. Qed.

#[global] Program Instance N_cmp : TotalCmp N := {| cmp := N.compare |}.
Next Obligation. apply N.compare_eq_iff. Qed.
Next Obligation. intros x y. apply N.compare_antisym. Qed.
Next Obligation. intros x y z. rewrite !N.compare_lt_iff. lia. Qed.

#[global] Program Instance Z_cmp : TotalCmp Z := {| cmp := Z.compare |}.
Next Obligation. apply Z.compare_eq_iff. Qed.
Next Obligation. intros x y. apply Z.compare_antisym. Qed.
Next Obligation. intros x y z. rewrite !Z.compare_lt_iff. lia. Qed.

Lemma string_compare_lt_trans s1 s2 s3 :
  String.compare s1 s2 = Lt -> String.compare s2 s3 = Lt -> String.compare s1 s3 = Lt.
Proof.
  revert s2 s3. induction s1 as [|a s1 IH]; intros [|b s2] [|c s3]; simpl; try done.
  unfold Ascii.compare.
  destruct (N.compare_spec (Ascii.N_of_ascii a) (Ascii.N_of_ascii b)) as [Hab|Hab|Hab]; try done;
  destruct (N.compare_spec (Ascii.N_of_ascii b) (Ascii.N_of_ascii c)) as [Hbc|Hbc|Hbc]; try done;
  intros H1 H2.
  - rewrite Hab, Hbc, N.compare_refl. eauto.
  - by rewrite Hab, (proj2 (N.compare_lt_iff _ _) Hbc).
  - by rewrite <- Hbc, (proj2 (N.compare_lt_iff _ _) Hab).
  - by rewrite (proj2 (N.compare_lt_iff _ _) (N.lt_trans _ _ _ Hab Hbc)).
Qed.

(** [str] and [String] compare by their UTF-8 bytes. *)
#[global] Program Instance string_cmp : TotalCmp string := {| cmp := String.compare |}.
Next Obligation.
  intros s1 s2. split; [apply String.compare_eq_iff|]. intros <-.
  induction s1 as [|a s1 IH]; simpl; [done|]. unfold Ascii.compare. by rewrite N.compare_refl.
Qed.
Next Obligation. intros x y. apply String.compare_antisym. Qed.
Next Obligation. apply string_compare_lt_trans. Qed.

#[global] Program Instance prod_cmp `{TotalCmp A, TotalCmp B} : TotalCmp (A * B) :=
  {| cmp x y := then_with (cmp x.1 y.1) (cmp x.2 y.2) |}.
Next Obligation.
  intros A ? B ? [a b] [a' b']; simpl. split.
  - destruct (cmp a a') eqn:Ha; simpl; try done. apply cmp_eq in Ha as ->.
    by intros ->%cmp_eq.
  - intros [= -> ->]. by rewrite !cmp_refl.
Qed.
Next Obligation.
  intros A ? B ? [a b] [a' b']; simpl. rewrite (cmp_antisym a a'), (cmp_antisym b b').
  by destruct (cmp a a').
Qed.
Next Obligation.
  intros A ? B ? [a b] [a' b'] [a'' b'']; simpl.
  destruct (cmp a a') eqn:Ha; simpl; try done; intros H1;
  destruct (cmp a' a'') eqn:Ha'; simpl; try done; intros H2.
  - apply cmp_eq in Ha as ->, Ha' as ->. rewrite cmp_refl. simpl. by eapply cmp_lt_trans.
  - apply cmp_eq in Ha as ->. by rewrite Ha'.
  - apply cmp_eq in Ha' as ->. by rewrite Ha.
  - by rewrite (cmp_lt_trans _ _ _ Ha Ha').
Qed.

#[global] Program Instance option_cmp `{TotalCmp A} : TotalCmp (option A) :=
  {| cmp x y := match x, y with
                | None, None => Eq | None, Some _ => Lt | Some _, None => Gt
                | Some a, Some b => cmp a b end |}.
Next Obligation.
  intros A ? [a|] [b|]; simpl; try done. rewrite cmp_eq. naive_solver.
Qed.
Next Obligation. intros A ? [a|] [b|]; simpl; try done. apply cmp_antisym. Qed.
Next Obligation. intros A ? [a|] [b|] [c|]; simpl; try done. apply cmp_lt_trans. Qed.

(** Reversed order, for a comparison written [b.cmp(a)]. *)
Record desc (A : Type) := Desc { undesc : A }.
Arguments Desc {_} _.
Arguments undesc {_} _.

#[global] Program Instance desc_cmp `{TotalCmp A} : TotalCmp (desc A) :=
  {| cmp x y := cmp (undesc y) (undesc x) |}.
Next Obligation. intros A ? [x] [y]. simpl. rewrite cmp_eq. naive_solver. Qed.
Next Obligation. intros A ? [x] [y]. apply cmp_antisym. Qed.
Next Obligation. intros A ? [x] [y] [z] H1 H2. by eapply cmp_lt_trans. Qed.

(** A derived [Ord]: compare by an injective key (a variant's position, a
    struct's fields in declaration order). *)
Program Definition inj_cmp {A K} `{TotalCmp K} (key : A -> K)
    (Hinj : forall x y, key x = key y -> x = y) : TotalCmp A :=
  {| cmp x y := cmp (key x) (key y) |}.
Next Obligation. intros A K ? key Hinj x y. simpl. rewrite cmp_eq. naive_solver. Qed.
Next Obligation. intros A K ? key Hinj x y. apply cmp_antisym. Qed.
Next Obligation. intros A K ? key Hinj x y z. apply cmp_lt_trans. Qed.

(** [sort_by_key(key)] and [sort_by(|a, b| key(a).cmp(&key(b)))] *)
Section sort_by_key.
Context {A K : Type} `{TotalCmp K} (key : A -> K).

Definition key_leb (x y : A) : bool := not_gt (cmp (key x) (key y)).
Definition sort_by_key (l : list A) : list A := sort_by key_leb l.

Lemma key_leb_trans x y z : key_leb x y = true -> key_leb y z = true -> key_leb x z = true.
Proof.
  unfold key_leb.
  destruct (cmp (key x) (key y)) eqn:H1; destruct (cmp (key y) (key z)) eqn:H2; try done.
  - apply cmp_eq in H1 as ->. by rewrite H2.
  - apply cmp_eq in H1 as ->. by rewrite H2.
  - apply cmp_eq in H2 as <-. by rewrite H1.
  - by rewrite (cmp_lt_trans _ _ _ H1 H2).
Qed.

Lemma key_leb_total x y : key_leb x y = true \/ key_leb y x = true.
Proof.
  unfold key_leb. rewrite (cmp_antisym (key x) (key y)).
  destruct (cmp (key x) (key y)); auto.
Qed.

Lemma key_leb_antisym x y : key_leb x y = true -> key_leb y x = true -> key x = key y.
Proof.
  unfold key_leb. rewrite (cmp_antisym (key x) (key y)).
  destruct (cmp (key x) (key y)) eqn:Hc; simpl; try done. by intros _ _; apply cmp_eq.
Qed.

Lemma sort_by_key_perm l : sort_by_key l ≡ₚ l.
Proof. apply sort_by_perm. Qed.

Lemma sort_by_key_elem x l : x ∈ sort_by_key l <-> x ∈ l.
Proof. apply sort_by_elem. Qed.

Lemma sort_by_key_sorted l : StronglySorted key_leb (sort_by_key l).
Proof. apply sort_by_sorted; [apply key_leb_trans | apply key_leb_total]. Qed.

Lemma sort_by_key_unique l1 l2 :
  (forall x y, x ∈ l1 -> y ∈ l1 -> key x = key y -> x = y) ->
  l1 ≡ₚ l2 -> sort_by_key l1 = sort_by_key l2.
Proof.
  intros Hinj. apply sort_by_unique; [apply key_leb_trans | apply key_leb_total|].
  eauto using key_leb_antisym.
Qed.
End sort_by_key.

(** Distinct keys make the key injective on the list. *)
Lemma NoDup_fmap_inj_on {A K} (key : A -> K) (l : list A) :
  NoDup (key <$> l) -> forall x y, x ∈ l -> y ∈ l -> key x = key y -> x = y.
Proof.
  induction l as [|a l IH]; intros Hnd x y Hx Hy Hk; [by apply not_elem_of_nil in Hx|].
  rewrite fmap_cons, NoDup_cons in Hnd. destruct Hnd as [Hna Hnd].
  apply elem_of_cons in Hx as [->|Hx]; apply elem_of_cons in Hy as [->|Hy]; try done.
  - destruct Hna. rewrite Hk. by apply list_elem_of_fmap_2.
  - destruct Hna. rewrite <- Hk. by apply list_elem_of_fmap_2.
  - by apply IH.
Qed.

Lemma StronglySorted_weaken_in {A} (R Q : A -> A -> Prop) (l : list A) :
  (forall x y, x ∈ l -> y ∈ l -> R x y -> Q x y) -> StronglySorted R l -> StronglySorted Q l.
Proof.
  intros Himpl Hs. induction Hs as [|x l Hl IH Hx]; constructor.
  - apply IH. intros y z Hy Hz. apply Himpl; by right.
  - rewrite Forall_forall in *. intros y Hy. apply Himpl; [by left|by right|auto].
Qed.

Lemma StronglySorted_weaken {A} (R Q : A -> A -> Prop) (l : list A) :
  (forall x y, R x y -> Q x y) -> StronglySorted R l -> StronglySorted Q l.
Proof. intros Himpl. apply StronglySorted_weaken_in. auto. Qed.

(** Selecting related elements of two related lists. *)
Lemma Forall2_filter {A B} (R : A -> B -> Prop) (P : A -> Prop) (Q : B -> Prop)
    `{forall x, Decision (P x), forall y, Decision (Q y)} l k :
  (forall x y, R x y -> P x <-> Q y) -> Forall2 R l k -> Forall2 R (filter P l) (filter Q k).
Proof.
  intros HPQ. induction 1 as [|x y l k Hxy _ IH]; [constructor|]. rewrite !filter_cons.
  specialize (HPQ x y Hxy). destruct (decide (P x)), (decide (Q y)); [by constructor|tauto..|done].
Qed.

(** Sorting related lists by corresponding keys keeps them related. *)
Lemma Forall2_sort {A B K} `{TotalCmp K} (R : A -> B -> Prop) (f : A -> K) (g : B -> K) l k :
  (forall x y, R x y -> g y = f x) -> Forall2 R l k -> Forall2 R (sort_by_key f l) (sort_by_key g k).
Proof.
  intros Hfg. assert (Hins : forall x y l k, R x y -> Forall2 R l k ->
    Forall2 R (sort_insert (key_leb f) x l) (sort_insert (key_leb g) y k)).
  { intros x y l' k' Hxy. induction 1 as [|a b l' k' Hab Hl IH]; [by repeat constructor|]. simpl.
    unfold key_leb at 1 3. rewrite (Hfg x y Hxy), (Hfg a b Hab).
    destruct (not_gt _); by repeat constructor. }
  induction 1 as [|x y l k Hxy _ IH]; [constructor|]. by apply Hins.
Qed.

Lemma not_gt_then c d : not_gt (then_with c d) = true <-> c = Lt \/ c = Eq /\ not_gt d = true.
Proof. destruct c; naive_solver. Qed.

(** If the images are the same collection, so are the elements, or two different
    elements share their image. *)
Lemma fmap_perm_collision {A B} `{EqDecision A} (f : A -> B) (l k : list A) :
  f <$> l ≡ₚ f <$> k -> l ≡ₚ k \/ exists x y, x <> y /\ f x = f y.
Proof.
  revert k. induction l as [|x l IH]; intros k Hp; simpl in Hp.
  { apply Permutation_nil_l in Hp. left. by destruct k. }
  assert (Hin : f x ∈ f <$> k) by (rewrite <- Hp; by left).
  apply list_elem_of_fmap in Hin as (y & Hy & Hin).
  destruct (decide (x = y)) as [<-|Hne]; [|right; by exists x, y].
  apply elem_of_Permutation in Hin as [k' Hk]. rewrite Hk in Hp |- *. simpl in Hp.
  apply Permutation_cons_inv in Hp. destruct (IH k' Hp) as [->|Hc]; [by left|by right].
Qed.

(** ** Effects

    An asynchronous handler: a computation on the world it shares with other
    parties.  An early return keeps the changes made before it. *)

Definition action (W E A : Type) : Type := W -> W * result E A.

#[global] Instance action_ret W E : MRet (action W E) := fun _ a w => (w, Ok a).
#[global] Instance action_bind W E : MBind (action W E) := fun _ _ k c w =>
  match c w with
  | (w, Ok a) => k a w
  | (w, Err e) => (w, Err e)
  end.

(** A call that does not touch the world. *)
Definition pure_ {W E A} (r : result E A) : action W E A := fun w => (w, r).

(** [match call().await { Ok(..) => .., Err(..) => .. }]: the outcome as a value. *)
Definition attempt {W E A} (c : action W E A) : action W E (result E A) := fun w =>
  let '(w, r) := c w in (w, Ok r).

(** [for x in l { f(x).await?; }] *)
Fixpoint act_each {W E A} (f : A -> action W E unit) (l : list A) : action W E unit :=
  match l with
  | [] => mret tt
  | x :: l => f x;; act_each f l
  end.

Lemma action_bind_Ok {W E A B} (c : action W E A) (k : A -> action W E B) w w' b :
  (c ≫= k) w = (w', Ok b) <-> exists a w1, c w = (w1, Ok a) /\ k a w1 = (w', Ok b).
Proof.
  unfold mbind, action_bind. destruct (c w) as [w1 [a|e]]; [naive_solver|].
  split; [intros [=] | intros (? & ? & [=] & _)].
Qed.

Lemma pure_Ok {W E A} (r : result E A) (w w' : W) a : pure_ r w = (w', Ok a) <-> w' = w /\ r = Ok a.
Proof. unfold pure_. naive_solver. Qed.

Lemma attempt_Ok {W E A} (c : action W E A) (w w' : W) r : attempt c w = (w', Ok r) <-> c w = (w', r).
Proof. unfold attempt. destruct (c w). naive_solver. Qed.

Lemma mret_Ok {W E A} (a b : A) (w w' : W) : mret (M:=action W E) a w = (w', Ok b) <-> w' = w /\ b = a.
Proof. unfold mret, action_ret. naive_solver. Qed.

(** [inv_act] peels a successful handler run like [inv_ok] does a result. *)
Ltac inv_act := repeat match goal with
  | H : (_ ≫= _) _ = (_, Ok _) |- _ =>
      apply action_bind_Ok in H; let a := fresh "a" in let w := fresh "w" in let Ha := fresh "Hact" in
      destruct H as (a & w & Ha & H)
  | H : pure_ _ _ = (_, Ok _) |- _ => apply pure_Ok in H; destruct H as [-> H]
  | H : attempt _ _ = (_, Ok _) |- _ => apply (proj1 (attempt_Ok _ _ _ _)) in H
  | H : mret _ _ = (_, Ok _) |- _ => apply mret_Ok in H; destruct H as [-> H]; try subst
  | H : (_, Ok _) = (_, Ok _) |- _ => injection H as ? ?; subst
  | H : (_, Err _) = (_, Ok _) |- _ => discriminate H
  end.
