(* ===== verification/Text.v ===== *)
(** * Strings, bytes and digests

    A Rust [str] is its UTF-8 byte sequence, and so is a [&[u8]]: both are
    Rocq's [string], a sequence of 8-bit characters.  This file models what the
    gateway uses of [str], [char] and [u8], the length-prefixed framing the
    digests are computed over, and the interface of the two hash primitives
    (the [sha2] and [hmac] crates), which are parameters with their documented
    output length. *)

From S2P Require Import Prelude.

Local Open Scope N_scope.

(** ** Bytes *)

Abbreviation ascii := Stdlib.Strings.Ascii.ascii.

Definition code (c : ascii) : N := Ascii.N_of_ascii c.

Definition slen (s : string) : N := N.of_nat (String.length s).

Fixpoint str_all (p : ascii -> bool) (s : string) : bool :=
  match s with
  | EmptyString => true
  | String c s => p c && str_all p s
  end.

Definition in_range (lo hi : N) (c : ascii) : bool := (lo <=? code c) && (code c <=? hi).

Definition is_ascii_digit : ascii -> bool := in_range 48 57.
Definition is_ascii_lowercase : ascii -> bool := in_range 97 122.
Definition is_ascii_uppercase : ascii -> bool := in_range 65 90.
Definition is_ascii_alphabetic (c : ascii) : bool := is_ascii_lowercase c || is_ascii_uppercase c.
Definition is_ascii_alphanumeric (c : ascii) : bool := is_ascii_alphabetic c || is_ascii_digit c.
Definition is_ascii_hexdigit (c : ascii) : bool :=
  is_ascii_digit c || in_range 97 102 c || in_range 65 70 c.
Definition is_ascii_graphic : ascii -> bool := in_range 33 126.
Definition is_ascii (s : string) : bool := str_all (fun c => code c <? 128) s.
Definition to_ascii_lowercase (c : ascii) : ascii :=
  if is_ascii_uppercase c then Ascii.ascii_of_N (code c + 32) else c.

(** [u8::to_ascii_lowercase] of each byte *)
Fixpoint lowercase (s : string) : string :=
  match s with
  | EmptyString => EmptyString
  | String c s => String (to_ascii_lowercase c) (lowercase s)
  end.

(** [b"._:-".contains(&c)] *)
Fixpoint byte_in (s : string) (c : ascii) : bool :=
  match s with
  | EmptyString => false
  | String d s => bool_decide (c = d) || byte_in s c
  end.

Definition nul : string := String Ascii.zero EmptyString.
Definition newline : ascii := Ascii.ascii_of_N 10.

(** ** Characters

    [str::chars] decodes UTF-8.  A [str] is always valid UTF-8, so the value on
    an ill-formed suffix is irrelevant. *)

Fixpoint chars (s : string) : list N :=
  match s with
  | EmptyString => []
  | String a r =>
      let x := code a in
      if x <? 128 then x :: chars r
      else if x <? 224 then
        match r with
        | String b r2 => ((x - 192) * 64 + (code b - 128)) :: chars r2
        | _ => []
        end
      else if x <? 240 then
        match r with
        | String b (String c r3) =>
            ((x - 224) * 4096 + (code b - 128) * 64 + (code c - 128)) :: chars r3
        | _ => []
        end
      else
        match r with
        | String b (String c (String d r4)) =>
            ((x - 240) * 262144 + (code b - 128) * 4096 + (code c - 128) * 64 + (code d - 128))
              :: chars r4
        | _ => []
        end
  end.

Definition is_continuation (c : ascii) : bool := in_range 128 191 c.

(** Every lead byte is followed by its continuation bytes, as in any [str]. *)
Fixpoint utf8_shaped (s : string) : bool :=
  match s with
  | EmptyString => true
  | String a r =>
      let x := code a in
      if x <? 128 then utf8_shaped r
      else if x <? 224 then
        match r with String b r2 => is_continuation b && utf8_shaped r2 | _ => false end
      else if x <? 240 then
        match r with
        | String b (String c r3) => is_continuation b && is_continuation c && utf8_shaped r3
        | _ => false
        end
      else
        match r with
        | String b (String c (String d r4)) =>
            is_continuation b && is_continuation c && is_continuation d && utf8_shaped r4
        | _ => false
        end
  end.

(** [str::from_utf8(bytes).is_ok()]: the well-formed byte sequences, so without
    overlong forms, surrogates and values above U+10FFFF. *)
Fixpoint utf8_valid (s : string) : bool :=
  match s with
  | EmptyString => true
  | String a r =>
      if in_range 0 127 a then utf8_valid r
      else if in_range 194 223 a then
        match r with String b r2 => is_continuation b && utf8_valid r2 | _ => false end
      else if in_range 224 239 a then
        match r with
        | String b (String c r3) =>
            in_range (if code a =? 224 then 160 else 128) (if code a =? 237 then 159 else 191) b
            && is_continuation c && utf8_valid r3
        | _ => false
        end
      else if in_range 240 244 a then
        match r with
        | String b (String c (String d r4)) =>
            in_range (if code a =? 240 then 144 else 128) (if code a =? 244 then 143 else 191) b
            && is_continuation c && is_continuation d && utf8_valid r4
        | _ => false
        end
      else false
  end.

(** Unicode [White_Space] *)
Definition is_whitespace (c : N) : bool :=
  ((9 <=? c) && (c <=? 13)) || (c =? 32) || (c =? 133) || (c =? 160) || (c =? 5760)
  || ((8192 <=? c) && (c <=? 8202)) || (c =? 8232) || (c =? 8233) || (c =? 8239)
  || (c =? 8287) || (c =? 12288).

(** Unicode general category [Cc] *)
Definition is_control (c : N) : bool := (c <=? 31) || ((127 <=? c) && (c <=? 159)).

(** [s.trim().is_empty()] *)
Definition trim_is_empty (s : string) : bool := forallb is_whitespace (chars s).

(** The pieces of [s] around the byte [c] *)
Fixpoint split_byte (c : ascii) (s : string) : list string :=
  match s with
  | EmptyString => [""]
  | String a s =>
      if bool_decide (a = c) then "" :: split_byte c s
      else match split_byte c s with
           | first :: rest => String a first :: rest
           | [] => [String a ""]
           end
  end.

(** The value of a text of digits *)
Fixpoint decimal_value (s : string) (acc : N) : N :=
  match s with EmptyString => acc | String c s => decimal_value s (acc * 10 + (code c - 48)) end.

Fixpoint strip_prefix (p s : string) : option string :=
  match p, s with
  | EmptyString, _ => Some s
  | String a p, String b s => if bool_decide (a = b) then strip_prefix p s else None
  | String _ _, EmptyString => None
  end.

(** ** Big-endian framing *)

(** [v.to_be_bytes()] for an [n]-byte integer *)
Fixpoint be_bytes (n : nat) (v : N) : string :=
  match n with
  | O => EmptyString
  | S n => String (Ascii.ascii_of_N (v / 256 ^ N.of_nat n mod 256)) (be_bytes n v)
  end.

Definition be64 (v : N) : string := be_bytes 8 v.

(** [hasher.update((x.len() as u64).to_be_bytes()); hasher.update(x)] *)
Definition frame (x : string) : string := be64 (slen x) +:+ x.

(** ** Hexadecimal *)

Definition hex_digit (n : N) : ascii := Ascii.ascii_of_N (if n <? 10 then 48 + n else 87 + n).

(** [format!("{:x}", bytes)] *)
Fixpoint hex (s : string) : string :=
  match s with
  | EmptyString => EmptyString
  | String c s => String (hex_digit (code c / 16)) (String (hex_digit (code c mod 16)) (hex s))
  end.

Definition is_hex_lower (c : ascii) : bool := is_ascii_digit c || in_range 97 102 c.

(** ** Hash primitives *)

Class Sha256 := {
  sha256 : string -> string;
  sha256_length : forall s, String.length (sha256 s) = 32%nat }.

Class HmacSha256 := {
  hmac : string -> string -> string;
  hmac_length : forall k m, String.length (hmac k m) = 32%nat }.

(** [base64::engine::general_purpose::URL_SAFE_NO_PAD] *)
Class UrlBase64 := {
  url_encode : string -> string;
  url_decode : string -> option string }.

(** A tag of 32 bytes is written in 43 characters and read back. *)
Record url_laws `{UrlBase64} : Prop := {
  url_length : forall b, String.length b = 32%nat -> String.length (url_encode b) = 43%nat;
  url_roundtrip : forall b, String.length b = 32%nat -> url_decode (url_encode b) = Some b }.

Definition sha256_tag (t : string) : string := "sha256:" +:+ hex t.

(** ** Lemmas *)

Lemma slen_cons c s : slen (String c s) = (slen s + 1)%N.
Proof. unfold slen. simpl. lia. Qed.

Lemma string_app_cons c s t : String c s +:+ t = String c (s +:+ t).
Proof. done. Qed.

Lemma string_length_app s t : String.length (s +:+ t) = (String.length s + String.length t)%nat.
Proof. induction s as [|c s IH]; [done|]. rewrite string_app_cons. simpl. by rewrite IH. Qed.

Lemma substring_app_l s t : String.substring 0 (String.length s) (s +:+ t) = s.
Proof.
  induction s as [|c s IH]; [by destruct t|].
  change (String c (String.substring 0 (String.length s) (s +:+ t)) = String c s). by rewrite IH.
Qed.

Lemma string_app_assoc s t u : s +:+ (t +:+ u) = (s +:+ t) +:+ u.
Proof. induction s as [|c s IH]; [done|]. by rewrite !string_app_cons, IH. Qed.

Lemma string_app_nil_r s : s +:+ "" = s.
Proof. induction s as [|c s IH]; [done|]. by rewrite string_app_cons, IH. Qed.

Lemma str_all_app p s t : str_all p (s +:+ t) = str_all p s && str_all p t.
Proof.
  induction s as [|c s IH]; [done|]. rewrite string_app_cons. simpl. by rewrite IH, andb_assoc.
Qed.

Lemma slen_app s t : slen (s +:+ t) = slen s + slen t.
Proof. unfold slen. rewrite string_length_app. lia. Qed.

Lemma code_bound c : code c < 256.
Proof. unfold code. destruct c as [[] [] [] [] [] [] [] []]; vm_compute; done. Qed.

Lemma code_ascii n : n < 256 -> code (Ascii.ascii_of_N n) = n.
Proof. intros. unfold code. by apply Ascii.N_ascii_embedding. Qed.

Lemma code_inj c d : code c = code d -> c = d.
Proof.
  intros H. unfold code in H.
  by rewrite <- (Ascii.ascii_N_embedding c), H, Ascii.ascii_N_embedding.
Qed.

Lemma length_be_bytes n v : String.length (be_bytes n v) = n.
Proof. induction n as [|n IH]; simpl; [done|]. by rewrite IH. Qed.

(** The value of a big-endian byte string. *)
Fixpoint be_value (s : string) (acc : N) : N :=
  match s with
  | EmptyString => acc
  | String c s => be_value s (acc * 256 + code c)
  end.

Lemma be_value_be_bytes n v acc :
  be_value (be_bytes n v) acc = acc * 256 ^ N.of_nat n + v mod 256 ^ N.of_nat n.
Proof.
  revert acc. induction n as [|n IH]; intros acc; cbn [be_bytes be_value].
  - simpl. rewrite N.mod_1_r. lia.
  - rewrite IH, code_ascii by (apply N.mod_lt; lia).
    replace (N.of_nat (S n)) with (N.of_nat n + 1) by lia.
    rewrite N.pow_add_r, N.pow_1_r.
    assert (256 ^ N.of_nat n <> 0) by (apply N.pow_nonzero; lia).
    rewrite N.Div0.mod_mul_r. lia.
Qed.

Lemma be_bytes_inj n a b : a < 256 ^ N.of_nat n -> b < 256 ^ N.of_nat n -> be_bytes n a = be_bytes n b -> a = b.
Proof.
  intros Ha Hb H. apply (f_equal (fun s => be_value s 0)) in H.
  rewrite !be_value_be_bytes, !N.mod_small in H by done. lia.
Qed.

Lemma be64_inj a b : a <= u64_max -> b <= u64_max -> be64 a = be64 b -> a = b.
Proof. unfold u64_max. intros Ha Hb. apply be_bytes_inj; cbn; lia. Qed.

Lemma app_length_inj s1 s2 t1 t2 :
  String.length s1 = String.length t1 -> s1 +:+ s2 = t1 +:+ t2 -> s1 = t1 /\ s2 = t2.
Proof.
  revert t1. induction s1 as [|c s1 IH]; intros [|d t1]; simpl; try done.
  intros [= Hl] [= -> Ht]. destruct (IH _ Hl Ht) as [-> ->]. done.
Qed.

(** Framing is uniquely readable: a framed field followed by anything is the
    same bytes only if the field and the rest are the same. *)
Lemma frame_inj x x' r r' :
  slen x <= u64_max -> slen x' <= u64_max ->
  frame x +:+ r = frame x' +:+ r' -> x = x' /\ r = r'.
Proof.
  intros Hx Hx'. unfold frame. rewrite <- !string_app_assoc.
  intros [Hlen Hrest]%app_length_inj; [|unfold be64; by rewrite !length_be_bytes].
  apply be64_inj in Hlen; [|done..].
  apply app_length_inj in Hrest; [done|]. unfold slen in Hlen. lia.
Qed.

Lemma frame_inj_eq x x' :
  slen x <= u64_max -> slen x' <= u64_max -> frame x = frame x' -> x = x'.
Proof.
  intros Hx Hx' H. apply (frame_inj x x' "" ""); [done..|]. by rewrite H.
Qed.

(** *** Hexadecimal digests *)

Lemma length_hex s : String.length (hex s) = (2 * String.length s)%nat.
Proof. induction s as [|c s IH]; simpl; [done|]. rewrite IH. lia. Qed.

Lemma hex_digit_range n : n < 16 ->
  is_hex_lower (hex_digit n) = true /\ code (hex_digit n) = (if n <? 10 then 48 + n else 87 + n).
Proof.
  intros Hn. unfold hex_digit, is_hex_lower, is_ascii_digit, in_range.
  rewrite code_ascii by (destruct (N.ltb_spec n 10); lia).
  split; [|done].
  destruct (N.ltb_spec n 10);
    repeat match goal with |- context [?a <=? ?b] => destruct (N.leb_spec a b) end; simpl; lia.
Qed.

Lemma hex_lower s : str_all is_hex_lower (hex s) = true.
Proof.
  induction s as [|c s IH]; simpl; [done|].
  pose proof (code_bound c).
  rewrite (proj1 (hex_digit_range (code c / 16) ltac:(apply N.Div0.div_lt_upper_bound; lia))).
  rewrite (proj1 (hex_digit_range (code c mod 16) ltac:(apply N.mod_lt; lia))).
  done.
Qed.

Lemma hex_digit_inj m n : m < 16 -> n < 16 -> hex_digit m = hex_digit n -> m = n.
Proof.
  intros Hm Hn H. apply (f_equal code) in H.
  rewrite (proj2 (hex_digit_range m Hm)), (proj2 (hex_digit_range n Hn)) in H.
  destruct (N.ltb_spec m 10), (N.ltb_spec n 10); lia.
Qed.

Lemma hex_inj s t : hex s = hex t -> s = t.
Proof.
  revert t. induction s as [|c s IH]; intros [|d t]; simpl; try done.
  intros [= Hh Hl Hr].
  pose proof (code_bound c). pose proof (code_bound d).
  apply hex_digit_inj in Hh; [|apply N.Div0.div_lt_upper_bound; lia..].
  apply hex_digit_inj in Hl; [|apply N.mod_lt; lia..].
  f_equal; [|by apply IH]. apply code_inj.
  rewrite (N.div_mod (code c) 16), (N.div_mod (code d) 16) by lia. lia.
Qed.

Lemma strip_prefix_app p s : strip_prefix p (p +:+ s) = Some s.
Proof.
  induction p as [|a p IH]; [done|]. rewrite string_app_cons. simpl. by rewrite bool_decide_true.
Qed.

Lemma strip_prefix_Some p s r : strip_prefix p s = Some r -> s = p +:+ r.
Proof.
  revert s. induction p as [|a p IH]; intros [|b s]; simpl; try naive_solver.
  case_bool_decide; [|done]. subst. by intros ->%IH.
Qed.

Lemma str_all_spec p s : str_all p s = true <-> forall c, c ∈ String.list_ascii_of_string s -> p c = true.
Proof.
  induction s as [|c s IH]; simpl; [set_solver|]. rewrite andb_true_iff, IH. set_solver.
Qed.

Lemma str_all_impl (f g : ascii -> bool) s :
  (forall c, f c = true -> g c = true) -> str_all f s = true -> str_all g s = true.
Proof. intros Hfg. rewrite !str_all_spec. auto. Qed.

(** A valid [str] of ASCII bytes decodes to its bytes. *)
Lemma chars_ascii s : is_ascii s = true ->
  chars s = code <$> String.list_ascii_of_string s.
Proof.
  unfold is_ascii. induction s as [|c s IH]; simpl; [done|].
  intros [-> Hs]%andb_true_iff. by rewrite IH.
Qed.

(** ** Sample primitives

    Concrete functions of the documented output length, for evaluating the
    model: the first 32 bytes, padded with zeros. *)

Fixpoint pad (n : nat) (s : string) : string :=
  match n, s with
  | O, _ => EmptyString
  | S n, EmptyString => String Ascii.zero (pad n EmptyString)
  | S n, String c s => String c (pad n s)
  end.

Lemma length_pad n s : String.length (pad n s) = n.
Proof. revert s. induction n as [|n IH]; intros [|c s]; simpl; by rewrite ?IH. Qed.

Definition sample_sha256 : Sha256 := {|
  sha256 := pad 32; sha256_length := length_pad 32 |}.

Definition sample_hmac : HmacSha256 := {|
  hmac := fun key message => pad 32 (key +:+ message);
  hmac_length := fun key message => length_pad 32 (key +:+ message) |}.

(** The bits of a positive number, as text. *)
Fixpoint bits (p : positive) : string :=
  match p with
  | xH => EmptyString
  | xO p => String Ascii.zero (bits p)
  | xI p => String Ascii.one (bits p)
  end.

Lemma bits_inj p q : bits p = bits q -> p = q.
Proof. revert q. induction p as [p IH|p IH|]; intros [q|q|]; simpl; intros [=]; f_equal; auto. Qed.

Fixpoint unbits (s : string) : option positive :=
  match s with
  | EmptyString => Some xH
  | String c s => (if bool_decide (c = Ascii.zero) then xO else xI) <$> unbits s
  end.

Lemma unbits_bits p : unbits (bits p) = Some p.
Proof. induction p as [p IH|p IH|]; simpl; [| |done]; by rewrite IH. Qed.
