(* ===== verification/Protocol.v ===== *)
(** * Protocol data and the task lifecycle

    The A2A data types the gateway exchanges (vendored crate [a2a-lf],
    [types.rs] and [errors.rs]) and the closed lifecycle matrix of
    [src/task_state.rs], as a boolean test and as the step relation of a state
    machine.  JSON values are [serde_json::Value]; an object is its list of
    members in key order (a [BTreeMap]), a number is its literal. *)

From S2P Require Import Prelude Text.

(** ** JSON values *)

Inductive json :=
  | JNull
  | JBool (b : bool)
  | JNumber (literal : string)
  | JString (s : string)
  | JArray (l : list json)
  | JObject (members : list (string * json)).

(** Induction with the hypothesis available inside arrays and objects. *)
Lemma json_ind' (P : json -> Prop) :
  P JNull -> (forall b, P (JBool b)) -> (forall n, P (JNumber n)) -> (forall s, P (JString s)) ->
  (forall l, Forall P l -> P (JArray l)) ->
  (forall m, Forall (fun kv => P kv.2) m -> P (JObject m)) ->
  forall j, P j.
Proof.
  intros Hn Hb Hnum Hs Ha Ho. fix IH 1. intros [| | | |l|m]; [done|done|done|done|apply Ha|apply Ho].
  - induction l as [|j l IHl]; constructor; [apply IH | done].
  - induction m as [|[k j] m IHm]; constructor; [apply IH | done].
Qed.

#[global] Instance json_eq_dec : EqDecision json.
Proof.
  refine (fix go (x y : json) : Decision (x = y) :=
    match x, y with
    | JNull, JNull => left eq_refl
    | JBool a, JBool b => cast_if (decide (a = b))
    | JNumber a, JNumber b => cast_if (decide (a = b))
    | JString a, JString b => cast_if (decide (a = b))
    | JArray a, JArray b => cast_if (@list_eq_dec _ go a b)
    | JObject a, JObject b => cast_if (@list_eq_dec _ (@prod_eq_dec _ _ _ go) a b)
    | _, _ => right _
    end); abstract congruence.
Defined.

(** [value.get(key)]: defined on objects only. *)
Fixpoint assoc (key : string) (m : list (string * json)) : option json :=
  match m with
  | [] => None
  | (k, v) :: m => if bool_decide (k = key) then Some v else assoc key m
  end.

Definition json_get (key : string) (v : json) : option json :=
  match v with JObject m => assoc key m | _ => None end.

Definition as_str (v : json) : option string :=
  match v with JString s => Some s | _ => None end.

(** ** Messages, artifacts and tasks *)

Inductive Role := Role_Unspecified | User | Agent.

Inductive PartContent :=
  | Part_Text (s : string)
  | Part_Raw (bytes : string)
  | Part_Url (s : string)
  | Part_Data (v : json).

Record Part := {
  content : PartContent;
  filename : option string;
  part_media_type : option string;
  part_metadata : option (gmap string json) }.

Record Message := {
  message_id : string;
  message_context_id : option string;
  message_task_id : option string;
  role : Role;
  parts : list Part;
  message_metadata : option (gmap string json);
  extensions : option (list string);
  reference_task_ids : option (list string) }.

Inductive TaskState :=
  | Unspecified | Submitted | Working | Completed | Failed | Canceled
  | InputRequired | Rejected | AuthRequired.

(** A [DateTime<Utc>] is its number of nanoseconds since the epoch. *)
Record TaskStatus := {
  state : TaskState;
  status_message : option Message;
  timestamp : option Z }.

Record Artifact := {
  artifact_id : string;
  artifact_name : option string;
  description : option string;
  artifact_parts : list Part;
  artifact_metadata : option (gmap string json);
  artifact_extensions : option (list string) }.

Record Task := {
  id : string;
  context_id : string;
  status : TaskStatus;
  artifacts : option (list Artifact);
  history : option (list Message);
  metadata : option (gmap string json) }.

#[global] Instance Role_eq_dec : EqDecision Role.
Proof. solve_decision. Defined.
#[global] Instance PartContent_eq_dec : EqDecision PartContent.
Proof. solve_decision. Defined.
#[global] Instance Part_eq_dec : EqDecision Part.
Proof. solve_decision. Defined.
#[global] Instance Message_eq_dec : EqDecision Message.
Proof. solve_decision. Defined.
#[global] Instance TaskState_eq_dec : EqDecision TaskState.
Proof. solve_decision. Defined.
#[global] Instance TaskStatus_eq_dec : EqDecision TaskStatus.
Proof. solve_decision. Defined.
#[global] Instance Artifact_eq_dec : EqDecision Artifact.
Proof. solve_decision. Defined.
#[global] Instance Task_eq_dec : EqDecision Task.
Proof. solve_decision. Defined.

(** ** Errors *)

Record A2AError := { err_code : Z; err_message : string; err_details : option (list json) }.

Definition a2a_error (code : Z) (message : string) : A2AError :=
  {| err_code := code; err_message := message; err_details := None |}.

Definition task_not_found (task_id : string) : A2AError :=
  a2a_error (-32001) ("task not found: " +:+ task_id).
Definition unsupported_operation : string -> A2AError := a2a_error (-32004).
Definition invalid_agent_response : A2AError := a2a_error (-32006) "invalid agent response".
Definition invalid_request : string -> A2AError := a2a_error (-32600).
Definition invalid_params : string -> A2AError := a2a_error (-32602).
Definition internal : string -> A2AError := a2a_error (-32603).

(** ** Lifecycle *)

Definition is_terminal (s : TaskState) : bool :=
  match s with
  | Completed | Failed | Canceled | Rejected => true
  | _ => false
  end.

Definition task_state_transition_allowed (from to : TaskState) : bool :=
  if bool_decide (from = to) then true else
  match from with
  | Unspecified => match to with Submitted | Failed | Rejected => true | _ => false end
  | Submitted =>
      match to with
      | Working | InputRequired | AuthRequired | Completed | Failed | Canceled | Rejected => true
      | _ => false
      end
  | Working =>
      match to with
      | InputRequired | AuthRequired | Completed | Failed | Canceled | Rejected => true
      | _ => false
      end
  | InputRequired | AuthRequired =>
      match to with Working | Failed | Canceled | Rejected => true | _ => false end
  | Completed | Failed | Canceled | Rejected => false
  end.

(** The lifecycle as a state machine: one accepted status change. *)
Inductive lifecycle_step : TaskState -> TaskState -> Prop :=
  | lifecycle_advance from to :
      task_state_transition_allowed from to = true -> lifecycle_step from to.

Abbreviation lifecycle_reaches := (rtc lifecycle_step).

Lemma transition_refl s : task_state_transition_allowed s s = true.
Proof. unfold task_state_transition_allowed. by rewrite bool_decide_true. Qed.

Lemma transition_from_terminal from to :
  is_terminal from = true -> task_state_transition_allowed from to = true -> to = from.
Proof. unfold task_state_transition_allowed. case_bool_decide; [done|]. by destruct from. Qed.

Lemma reaches_from_terminal from to :
  is_terminal from = true -> lifecycle_reaches from to -> to = from.
Proof.
  intros Ht. induction 1 as [|from mid to [? ? Hstep] _ IH]; [done|].
  apply transition_from_terminal in Hstep as ->; auto.
Qed.

(** A task that is not terminal can still be failed. *)
Lemma reaches_failed s : is_terminal s = false -> lifecycle_reaches s Failed.
Proof. intros Hs. apply rtc_once. constructor. by destruct s. Qed.

(** A task state is terminal exactly when no sequence of accepted lifecycle
    transitions leaves it; every other state can still be brought to a
    terminal one. *)
Theorem terminal_iff_absorbing s :
  (is_terminal s = true <-> forall t, lifecycle_reaches s t -> t = s) /\
  exists t, lifecycle_reaches s t /\ is_terminal t = true.
Proof.
  split; [split|].
  - intros Ht t. by apply reaches_from_terminal.
  - intros Habs. destruct (is_terminal s) eqn:Hs; [done|].
    by rewrite <- (Habs Failed (reaches_failed s Hs)) in Hs.
  - destruct (is_terminal s) eqn:Hs; [by exists s; split; [apply rtc_refl|]|].
    exists Failed. split; [by apply reaches_failed | done].
Qed.

(** Success is only reported from work that was under way, whatever the
    history of the task: a run that ends in [Completed] and did not start there
    took its last change from [Submitted] or [Working], and no run ever returns
    to [Unspecified], nor back to [Submitted] once it was left. *)
Theorem completed_from_active from to :
  lifecycle_reaches from to ->
  (to = Completed -> from = Completed \/
     exists mid, lifecycle_reaches from mid /\ lifecycle_step mid Completed /\
                 (mid = Submitted \/ mid = Working)) /\
  (to = Unspecified -> from = Unspecified) /\
  (to = Submitted -> from = Submitted \/ from = Unspecified).
Proof.
  intros Hrun. induction Hrun as [s|from mid to Hstep Hrun IH]; [naive_solver|].
  destruct IH as (IHc & IHu & IHs), Hstep as [from mid Hallowed]. split_and!.
  - intros Hto. destruct (IHc Hto) as [->|(m & Hm & Hlast & Hwork)].
    + destruct from; try done; [right|right|by left].
      * exists Submitted. split; [apply rtc_refl|]. split; [by constructor | auto].
      * exists Working. split; [apply rtc_refl|]. split; [by constructor | auto].
    + right. exists m. split; [|done]. eapply rtc_l; [by constructor | done].
  - intros Hto. rewrite (IHu Hto) in Hallowed. by destruct from.
  - intros Hto. destruct (IHs Hto) as [-> | ->]; destruct from; naive_solver.
Qed.

Lemma completed_from_active_witness :
  lifecycle_reaches Submitted Completed /\
  (Submitted = Completed \/
     exists mid, lifecycle_reaches Submitted mid /\ lifecycle_step mid Completed /\
                 (mid = Submitted \/ mid = Working)).
Proof.
  assert (H : lifecycle_reaches Submitted Completed).
  { apply rtc_l with Working; [by constructor|]. apply rtc_once. by constructor. }
  split; [exact H|]. exact (proj1 (completed_from_active Submitted Completed H) eq_refl).
Defined.
