(* ===== verification/Input.v ===== *)
(** * Public input

    [src/input.rs]: the extraction of inline text from a message, with its byte
    bound.  The loop state is the pair of [output] and [first]. *)

From S2P Require Import Prelude Text Protocol.

Local Open Scope N_scope.

Inductive InputError :=
  | Empty
  | UnsupportedPart
  | TooLarge (actual limit : N).

Definition default_max_text_bytes : N := 64 * 1024.

(** One iteration of the loop over [message.parts]. *)
Definition extract_part (limit : N) (st : string * bool) (part : Part) :
    result InputError (string * bool) :=
  let '(output, first) := st in
  match content part with
  | Part_Text text =>
      let separator_bytes := if first : bool then 0 else 1 in
      let actual :=
        default usize_max
          (checked_add (slen output) separator_bytes ≫= fun size => checked_add size (slen text)) in
      fail_if (limit <? actual) (TooLarge actual limit);;
      Ok ((if first then output else output +:+ String newline "") +:+ text, false)
  | _ => Err UnsupportedPart
  end.

Definition extract_text (message : Message) (limit : N) : result InputError string :=
  '(output, _) ← try_fold (extract_part limit) ("", true) (parts message);
  fail_if (trim_is_empty output) Empty;;
  Ok output.

(** ** Specification: the texts joined by newlines *)

Definition text_of (p : Part) : option string :=
  match content p with Part_Text t => Some t | _ => None end.

Fixpoint join_from (output : string) (first : bool) (texts : list string) : string :=
  match texts with
  | [] => output
  | t :: texts => join_from ((if first then output else output +:+ String newline "") +:+ t) false texts
  end.

Definition join_lines (texts : list string) : string := join_from "" true texts.

Lemma join_from_grows output first texts : slen output <= slen (join_from output first texts).
Proof.
  revert output first. induction texts as [|t texts IH]; intros output first; simpl; [lia|].
  etrans; [|apply IH]. rewrite slen_app. destruct first; rewrite ?slen_app; lia.
Qed.

(** The measured size is the size of the string the iteration builds. *)
Lemma measured_size limit (output text : string) (first : bool) :
  limit < usize_max ->
  let built := (if first then output else output +:+ String newline "") +:+ text in
  default usize_max
    (checked_add (slen output) (if first then 0 else 1) ≫= fun size => checked_add size (slen text))
    <= limit <-> slen built <= limit.
Proof.
  intros Hlim built.
  assert (Hb : slen built = slen output + (if first then 0 else 1) + slen text).
  { unfold built. rewrite slen_app. destruct first; rewrite ?slen_app; [lia|].
    change (slen (String newline "")) with 1. lia. }
  unfold usize_max in *. rewrite Hb. unfold checked_add.
  destruct (N.leb_spec (slen output + (if first then 0 else 1)) u64_max); simpl; [|lia].
  destruct (N.leb_spec (slen output + (if first then 0 else 1) + slen text) u64_max); simpl; lia.
Qed.

Lemma extract_loop_spec limit ps output first r :
  limit < usize_max ->
  try_fold (extract_part limit) (output, first) ps = Ok r <->
  exists texts, Forall2 (fun p t => text_of p = Some t) ps texts /\
    r.1 = join_from output first texts /\
    r.2 = (if ps is [] then first else false) /\
    (ps = [] \/ slen (join_from output first texts) <= limit).
Proof.
  intros Hlim. revert output first. induction ps as [|p ps IH]; intros output first; simpl.
  - split.
    + intros [= <-]. exists []. split_and!; [constructor|done|done|by left].
    + intros (texts & Ht%Forall2_nil_inv_l & H1 & H2 & _). subst.
      destruct r; simpl in *; by subst.
  - unfold text_of, extract_part at 1.
    destruct (content p) as [t| | |] eqn:Hc; simpl;
      try (split; [done|]; intros (texts & H & _); inversion H as [|? ? ? ? Ht]; unfold text_of in Ht;
           rewrite Hc in Ht; done).
    pose proof (measured_size limit output t first Hlim) as Hsz. simpl in Hsz.
    set (built := (if first then output else output +:+ String newline "") +:+ t) in *.
    match goal with |- context [fail_if (limit <? ?a)] => set (actual := a) in * end.
    unfold fail_if. destruct (N.ltb_spec limit actual) as [Hlt|Hle]; simpl.
    + split; [done|]. intros (texts & H & _ & _ & [|Hb]); [done|].
      inversion H as [|? t' ? ts Ht]; subst. unfold text_of in Ht. rewrite Hc in Ht.
      injection Ht as <-. simpl in Hb. fold built in Hb.
      pose proof (join_from_grows built false ts). lia.
    + rewrite IH. split.
      * intros (ts & H & H1 & H2 & H3). exists (t :: ts). simpl. fold built. split_and!.
        -- constructor; [by unfold text_of; rewrite Hc|done].
        -- done.
        -- by rewrite H2; destruct ps.
        -- right. destruct H3 as [->|]; [|done]. apply Forall2_nil_inv_l in H as ->. simpl. by apply Hsz.
      * intros (texts & H & H1 & H2 & [|H3]); [done|].
        inversion H as [|? t' ? ts Ht]; subst. unfold text_of in Ht. rewrite Hc in Ht.
        injection Ht as <-. exists ts. split_and!; [done|done|by rewrite H2; destruct ps|by right].
Qed.

(** Text extraction succeeds exactly when every part is inline text, the
    parts joined by newlines fit the byte limit and are not blank; the result
    is that joined text, in wire order. *)
Theorem extract_text_spec message limit s :
  limit < usize_max ->
  extract_text message limit = Ok s <->
  exists texts, Forall2 (fun p t => text_of p = Some t) (parts message) texts /\
    s = join_lines texts /\ slen s <= limit /\ trim_is_empty s = false.
Proof.
  intros Hlim. unfold extract_text. rewrite bind_Ok_inv. split.
  - intros ([out fst'] & Hloop & Hrest). inv_ok.
    apply extract_loop_spec in Hloop as (texts & Ht & H1 & _ & H3); [|done]. simpl in *. subst.
    exists texts. split_and!; [done|done| |done].
    destruct H3 as [Hnil|]; [|done]. rewrite Hnil in Ht.
    apply Forall2_nil_inv_l in Ht as ->. vm_compute. by destruct limit.
  - intros (texts & Ht & -> & Hlen & Hblank).
    exists (join_lines texts, if parts message is [] then true else false). split.
    + apply extract_loop_spec; [done|]. exists texts. split_and!; [done|done|done|by right].
    + by rewrite Hblank.
Qed.

Definition sample_text_message (texts : list string) : Message := {|
  message_id := "m"; message_context_id := None; message_task_id := None; role := User;
  parts := (fun t => {| content := Part_Text t; filename := None;
                        part_media_type := None; part_metadata := None |}) <$> texts;
  message_metadata := None; extensions := None; reference_task_ids := None |}.

Lemma extract_text_spec_witness :
  default_max_text_bytes < usize_max /\
  exists texts, Forall2 (fun p t => text_of p = Some t) (parts (sample_text_message ["a"; "b"])) texts /\
    "a" +:+ String newline "b" = join_lines texts /\
    slen ("a" +:+ String newline "b") <= default_max_text_bytes /\
    trim_is_empty ("a" +:+ String newline "b") = false.
Proof.
  split; [done|].
  apply (extract_text_spec (sample_text_message ["a"; "b"]) default_max_text_bytes); [done|].
  vm_compute. reflexivity.
Defined.
