(* ===== verification/Store.v ===== *)
(** * The in-memory task store

    [src/store.rs]: [BoundedTaskStore], a single-process ledger with a hard task
    ceiling, terminal-state absorption and frozen, token-addressed list pages.
    Every operation runs under the store's write lock, so an operation is one
    atomic step on [StoreState]; a mutation made before an error return is kept,
    so [list] returns the new state next to its result.  The clock, the random
    page tokens and the random snapshot identity are inputs of a step
    ([list_env]); [serde_json] at type [Task] and the memory layout are
    parameters. *)

From S2P Require Import Prelude Text Protocol.

(** ** Parameters *)

(** [serde_json::to_vec] and [from_slice] at type [Task]: decoding an encoded
    task gives the task back. *)
Class TaskCodec := {
  task_to_vec : Task -> option string;
  task_from_slice : string -> option Task;
  task_roundtrip : forall t b, task_to_vec t = Some b -> task_from_slice b = Some t }.

(** [size_of::<([u8; 16], MemorySnapshot)>()], and what the allocator grants
    ([String::capacity], [Vec::capacity] after [shrink_to_fit] or
    [with_capacity]). *)
Class Layout := {
  snapshot_slot_bytes : N;
  string_capacity : string -> N;
  frozen_capacity : list string -> N;
  tokens_capacity : list (nat * string) -> N }.

(** ** Data *)

Definition MAX_PAGE_TOKEN_BYTES : N := 4096.
Definition SNAPSHOT_TTL_MILLIS : N := 5 * 60 * 1000.
Definition MAX_SNAPSHOT_BYTES : N := 64 * 1024 * 1024.
Definition MAX_ACTIVE_SNAPSHOTS : N := 128.
Definition ALLOCATION_OVERHEAD_BYTES : N := 3 * 8.
Definition VEC_BYTES : N := 24.
Definition TOKEN_SLOT_BYTES : N := 32.

Record ListTasksRequest := {
  req_context_id : option string;
  req_status : option TaskState;
  req_page_size : option Z;
  req_page_token : option string;
  req_history_length : option Z;
  req_status_timestamp_after : option Z;
  req_include_artifacts : option bool;
  req_tenant : option string }.

Record ListTasksResponse := {
  resp_tasks : list Task;
  resp_next_page_token : string;
  resp_page_size : Z;
  resp_total_size : Z }.

Record CursorScope := {
  scope_context_id : option string;
  scope_status : option TaskState;
  scope_page_size : Z;
  scope_history_length : option Z;
  scope_status_timestamp_after : option Z;
  scope_include_artifacts : bool;
  scope_tenant : option string }.

#[global] Instance CursorScope_eq_dec : EqDecision CursorScope.
Proof. solve_decision. Defined.

Definition from_request (request : ListTasksRequest) (page_size : Z) : CursorScope := {|
  scope_context_id := req_context_id request;
  scope_status := req_status request;
  scope_page_size := page_size;
  scope_history_length := req_history_length request;
  scope_status_timestamp_after := req_status_timestamp_after request;
  scope_include_artifacts := default false (req_include_artifacts request);
  scope_tenant := req_tenant request |}.

Record MemorySnapshot := {
  snap_tasks : list string;
  snap_page_size : Z;
  snap_scope : CursorScope;
  expires_at : N;
  snap_bytes : N;
  snap_tokens : list (nat * string) }.

Record StoreState := {
  tasks : gmap string Task;
  snapshots : list (string * MemorySnapshot);
  snapshot_bytes : N;
  observed_now : N }.

(** An operation fails with a protocol error, or panics. *)
Inductive fault :=
  | Fail (e : A2AError)
  | Panic (message : string).

Section operations.
Context `{TaskCodec, Layout}.

(** ** Construction *)

(** [StoreState::default]; the [expect] on the registry size is the [None]. *)
Definition registry_bytes : option N :=
  checked_mul MAX_ACTIVE_SNAPSHOTS snapshot_slot_bytes
    ≫= fun value => checked_add value ALLOCATION_OVERHEAD_BYTES.

Definition default_state (registry : N) : StoreState :=
  {| tasks := ∅; snapshots := []; snapshot_bytes := registry; observed_now := 0 |}.

(** [BoundedTaskStore::new_with_clock]: the ceiling is at least one. *)
Definition new_max_tasks (max_tasks : N) : N := N.max max_tasks 1.

(** ** [create], [update], [get] *)

Definition set_tasks (st : StoreState) (m : gmap string Task) : StoreState :=
  {| tasks := m; snapshots := snapshots st;
     snapshot_bytes := snapshot_bytes st; observed_now := observed_now st |}.

Definition create (max_tasks : N) (task : Task) (st : StoreState) :
    StoreState * result fault N :=
  if bool_decide (is_Some (tasks st !! id task)) then
    (st, Err (Fail (invalid_request "task already exists")))
  else if (max_tasks <=? N.of_nat (size (tasks st)))%N then
    (st, Err (Fail (internal "task store capacity reached")))
  else (set_tasks st (<[id task := task]> (tasks st)), Ok 1%N).

Definition update (task : Task) (st : StoreState) : StoreState * result fault N :=
  match tasks st !! id task with
  | None => (st, Err (Fail (task_not_found (id task))))
  | Some stored =>
      if bool_decide (stored = task) then (st, Ok 1%N)
      else if is_terminal (state (status stored)) then
        (st, Err (Fail (unsupported_operation "terminal task state cannot be changed")))
      else if negb (task_state_transition_allowed (state (status stored)) (state (status task))) then
        (st, Err (Fail (unsupported_operation "invalid task state transition")))
      else (set_tasks st (<[id task := task]> (tasks st)), Ok 1%N)
  end.

Definition get (task_id : string) (st : StoreState) : option Task := tasks st !! task_id.

(** ** List requests *)

Definition validate_list_request (request : ListTasksRequest) : result fault (Z * CursorScope) :=
  fail_if (match req_history_length request with
           | Some n => negb ((0 <=? n) && (n <=? 100))%Z
           | None => false
           end) (Fail (invalid_params "historyLength must be between 0 and 100"));;
  let page_size := default 50%Z (req_page_size request) in
  fail_if (negb ((1 <=? page_size) && (page_size <=? 100))%Z)
    (Fail (invalid_params "pageSize must be between 1 and 100"));;
  Ok (page_size, from_request request page_size).

(** The [retain] filter of [freeze_projection]. *)
Definition projection_matches (request : ListTasksRequest) (task : Task) : bool :=
  match req_context_id request with
  | None => true | Some context => bool_decide (context_id task = context) end
  && match req_status request with
     | None => true | Some s => bool_decide (state (status task) = s) end
  && match req_status_timestamp_after request with
     | None => true
     | Some after => match timestamp (status task) with
                     | Some ts => (after <=? ts)%Z | None => false end
     end.

(** Sort key: newest status first, then task id. *)
Definition listing_key (task : Task) : desc (option Z) * string :=
  (Desc (timestamp (status task)), id task).

(** The per-task edit of [freeze_projection]. *)
Definition trim_history (limit : option nat) (h : option (list Message)) : option (list Message) :=
  match limit, h with
  | Some 0%nat, _ => None
  | Some n, Some msgs => if (n <? length msgs)%nat then Some (drop (length msgs - n) msgs) else h
  | _, _ => h
  end.

Definition project_task (request : ListTasksRequest) (task : Task) : Task := {|
  id := id task; context_id := context_id task; status := status task;
  artifacts := if default false (req_include_artifacts request) then artifacts task else None;
  history := trim_history (req_history_length request ≫= usize_of_Z) (history task);
  metadata := metadata task |}.

Definition freeze_projection (all : list Task) (request : ListTasksRequest) : list Task :=
  project_task request <$>
    sort_by_key listing_key (filter (fun t => projection_matches request t) all).

(** ** Pages *)

(** [(step..len).step_by(step)] *)
Definition token_positions (step len : nat) : list nat :=
  (fun k => (k + 1) * step)%nat <$> seq 0 ((len - 1) / step).

(** [tokens.iter().find_map(|(p, t)| (p == position).then(t))] *)
Fixpoint token_at (position : nat) (toks : list (nat * string)) : option string :=
  match toks with
  | [] => None
  | (p, t) :: toks => if bool_decide (p = position) then Some t else token_at position toks
  end.

Definition memory_page (snapshot : MemorySnapshot) (position : nat) :
    result fault ListTasksResponse :=
  page_size ← ok_or (usize_of_Z (snap_page_size snapshot)) (Panic "validated page size");
  let stop := Nat.min (position + page_size) (length (snap_tasks snapshot)) in
  fail_if (stop <? position)%nat (Panic "slice index starts after its end");;
  decoded ← try_map (fun encoded => ok_or (task_from_slice encoded)
                                      (Fail (internal "frozen task snapshot is corrupt")))
                    (take (stop - position) (drop position (snap_tasks snapshot)));
  Ok {| resp_tasks := decoded;
        resp_next_page_token := default "" (token_at stop (snap_tokens snapshot));
        resp_page_size := snap_page_size snapshot;
        resp_total_size := i32_of_len (length (snap_tasks snapshot)) |}.

(** [retain] drops the expired snapshots and gives their bytes back. *)
Definition gc_memory_snapshots (st : StoreState) (now : N) : StoreState :=
  let live := filter (fun p : string * MemorySnapshot => (now < expires_at p.2)%N) (snapshots st) in
  let dead := filter (fun p : string * MemorySnapshot => ¬ (now < expires_at p.2)%N) (snapshots st) in
  {| tasks := tasks st; snapshots := live;
     snapshot_bytes := foldl (fun b (p : string * MemorySnapshot) => saturating_sub b (snap_bytes p.2))
                             (snapshot_bytes st) dead;
     observed_now := observed_now st |}.

Definition reusable_snapshot (st : StoreState) (scope : CursorScope) (now : N) : option MemorySnapshot :=
  snd ∘ snd <$> list_find (fun p : string * MemorySnapshot =>
                             (now < expires_at p.2)%N /\ snap_scope p.2 = scope) (snapshots st).

(** Checked additions of a list of terms, [None] on overflow. *)
Definition checked_sum (start : N) (terms : list N) : option N :=
  foldl (fun acc t => a ← acc; checked_add a t) (Some start) terms.

Definition optional_bytes (o : option string) : list N :=
  match o with
  | Some s => [string_capacity s; ALLOCATION_OVERHEAD_BYTES]
  | None => [0; 0]%N
  end.

Definition conservative_snapshot_bytes (frozen : list string) (scope : CursorScope)
    (toks : list (nat * string)) : result fault N :=
  let capacity := Fail (internal "task snapshot capacity reached") in
  task_slots ← ok_or (checked_mul (frozen_capacity frozen) VEC_BYTES) capacity;
  token_slots ← ok_or (checked_mul (tokens_capacity toks) TOKEN_SLOT_BYTES) capacity;
  ok_or (checked_sum snapshot_slot_bytes
    ([ALLOCATION_OVERHEAD_BYTES; ALLOCATION_OVERHEAD_BYTES; task_slots]
     ++ flat_map (fun e => [string_capacity e; ALLOCATION_OVERHEAD_BYTES]) frozen
     ++ optional_bytes (scope_context_id scope) ++ optional_bytes (scope_tenant scope)
     ++ [token_slots]
     ++ flat_map (fun p => [string_capacity p.2; ALLOCATION_OVERHEAD_BYTES]) toks)) capacity.

(** ** [TaskStore::list] *)

(** What the environment supplies to one call: the clock reading, the random
    page tokens in the order they are drawn and the random snapshot id. *)
Record list_env := {
  env_clock : N;
  env_token : nat -> string;
  env_snapshot_id : string }.

Definition observe (st : StoreState) (now : N) : StoreState :=
  {| tasks := tasks st; snapshots := snapshots st;
     snapshot_bytes := snapshot_bytes st; observed_now := now |}.

(** The snapshot and position a page token names: the first match in registry
    order. *)
Fixpoint position_of (token : string) (toks : list (nat * string)) : option nat :=
  match toks with
  | [] => None
  | (p, t) :: toks => if bool_decide (t = token) then Some p else position_of token toks
  end.

Fixpoint find_token (token : string) (snaps : list (string * MemorySnapshot)) :
    option (MemorySnapshot * nat) :=
  match snaps with
  | [] => None
  | (_, snap) :: snaps =>
      match position_of token (snap_tokens snap) with
      | Some p => Some (snap, p)
      | None => find_token token snaps
      end
  end.

(** The [page_token] branch. *)
Definition list_by_token (st : StoreState) (now : N) (scope : CursorScope) (token : string) :
    result fault ListTasksResponse :=
  let invalid := Fail (invalid_params "invalid pageToken") in
  fail_if (MAX_PAGE_TOKEN_BYTES <? slen token)%N invalid;;
  '(snapshot, position) ← ok_or (find_token token (snapshots st)) invalid;
  fail_if (negb (bool_decide (now < expires_at snapshot)%N && bool_decide (snap_scope snapshot = scope)))
    invalid;;
  step ← ok_or (usize_of_Z (snap_page_size snapshot)) (Panic "validated page size");
  fail_if ((position =? 0) || (length (snap_tasks snapshot) <? position)
           || negb (position mod step =? 0))%nat invalid;;
  memory_page snapshot position.

(** Building a fresh snapshot: freeze, draw tokens, account for the bytes. *)
Definition new_snapshot (env : list_env) (now : N) (st : StoreState) (page_size : Z)
    (scope : CursorScope) (frozen_tasks : list Task) (step : nat) : result fault MemorySnapshot :=
  frozen ← try_map (fun t => ok_or (task_to_vec t) (Fail (internal "failed to freeze task snapshot")))
                   frozen_tasks;
  let toks := imap (fun i p => (p, env_token env i)) (token_positions step (length frozen_tasks)) in
  bytes ← conservative_snapshot_bytes frozen scope toks;
  fail_if ((MAX_ACTIVE_SNAPSHOTS <=? len (snapshots st))%N
           || match checked_add (snapshot_bytes st) bytes with
              | None => true
              | Some total => (MAX_SNAPSHOT_BYTES <? total)%N
              end) (Fail (internal "task snapshot capacity reached"));;
  expires ← ok_or (checked_add now SNAPSHOT_TTL_MILLIS) (Fail (internal "task snapshot clock exhausted"));
  Ok {| snap_tasks := frozen; snap_page_size := page_size; snap_scope := scope;
        expires_at := expires; snap_bytes := bytes; snap_tokens := toks |}.

Definition push_snapshot (st : StoreState) (snapshot_id : string) (snap : MemorySnapshot) : StoreState :=
  {| tasks := tasks st; snapshots := snapshots st ++ [(snapshot_id, snap)];
     snapshot_bytes := (snapshot_bytes st + snap_bytes snap)%N; observed_now := observed_now st |}.

Fixpoint find_id (snapshot_id : string) (snaps : list (string * MemorySnapshot)) : option MemorySnapshot :=
  match snaps with
  | [] => None
  | (i, snap) :: snaps => if bool_decide (i = snapshot_id) then Some snap else find_id snapshot_id snaps
  end.

(** The first-page branch: reuse a live view of the same scope, answer a short
    view whole, or register a new snapshot. *)
Definition list_first_page (env : list_env) (req : ListTasksRequest) (now : N) (page_size : Z)
    (scope : CursorScope) (st : StoreState) : StoreState * result fault ListTasksResponse :=
  match reusable_snapshot st scope now with
  | Some snapshot => (st, memory_page snapshot 0)
  | None =>
      let all := freeze_projection (map_to_list (tasks st)).*2 req in
      match usize_of_Z page_size with
      | None => (st, Err (Panic "validated page size"))
      | Some step =>
          if (length all <=? step)%nat then
            (st, Ok {| resp_tasks := all; resp_next_page_token := "";
                       resp_page_size := page_size;
                       resp_total_size := i32_of_len (length all) |})
          else
            match new_snapshot env now st page_size scope all step with
            | Err e => (st, Err e)
            | Ok snap =>
                let st := push_snapshot st (env_snapshot_id env) snap in
                match find_id (env_snapshot_id env) (snapshots st) with
                | None => (st, Err (Panic "snapshot inserted"))
                | Some found => (st, memory_page found 0)
                end
            end
      end
  end.

Definition store_list (env : list_env) (req : ListTasksRequest) (st : StoreState) :
    StoreState * result fault ListTasksResponse :=
  match validate_list_request req with
  | Err e => (st, Err e)
  | Ok (page_size, scope) =>
      let now := N.max (env_clock env) (observed_now st) in
      let st := gc_memory_snapshots (observe st now) now in
      match req_page_token req with
      | Some token => (st, list_by_token st now scope token)
      | None => list_first_page env req now page_size scope st
      end
  end.
End operations.

(** ** Runs of the store *)

Inductive store_op :=
  | OpCreate (task : Task)
  | OpUpdate (task : Task)
  | OpList (env : list_env) (req : ListTasksRequest).

Section runs.
Context `{TaskCodec, Layout}.

Definition apply_op (max_tasks : N) (op : store_op) (st : StoreState) : StoreState :=
  match op with
  | OpCreate task => (create max_tasks task st).1
  | OpUpdate task => (update task st).1
  | OpList env req => (store_list env req st).1
  end.

(** Calls arrive in any order and with any arguments; each is one step. *)
Inductive store_step (max_tasks : N) : StoreState -> StoreState -> Prop :=
  | store_call op st : store_step max_tasks st (apply_op max_tasks op st).

Lemma store_list_tasks env req st : tasks (store_list env req st).1 = tasks st.
Proof.
  unfold store_list. destruct (validate_list_request req) as [[ps scope]|]; [|done].
  destruct (req_page_token req); [done|]. unfold list_first_page.
  destruct (reusable_snapshot _ _ _); [done|].
  destruct (usize_of_Z ps); [|done]. case_match; [done|].
  destruct (new_snapshot _ _ _ _ _ _ _); [|done]. by destruct (find_id _ _).
Qed.

Lemma create_lookup max_tasks task st k t :
  tasks st !! k = Some t -> tasks (create max_tasks task st).1 !! k = Some t.
Proof.
  unfold create. case_bool_decide as Hex; [done|]. case_match; [done|]. simpl. intros Hk.
  rewrite lookup_insert_ne; [done|]. intros <-. apply Hex. by exists t.
Qed.

(** What one call can do to a task that is already stored. *)
Lemma step_lookup max_tasks op st k t :
  tasks st !! k = Some t ->
  exists t', tasks (apply_op max_tasks op st) !! k = Some t' /\
    (t' = t \/ is_terminal (state (status t)) = false /\
               lifecycle_step (state (status t)) (state (status t'))).
Proof.
  intros Hk. destruct op as [task|task|env req]; simpl.
  - exists t. split; [by apply create_lookup | by left].
  - unfold update. destruct (tasks st !! id task) as [stored|] eqn:Hs; [|by eauto].
    case_bool_decide; [by eauto|].
    destruct (is_terminal _) eqn:Hterm; [by eauto|].
    destruct (task_state_transition_allowed _ _) eqn:Hallow; simpl; [|by eauto].
    destruct (decide (id task = k)) as [<-|Hne].
    + rewrite Hs in Hk. injection Hk as ->. exists task. rewrite lookup_insert_eq.
      split; [done|]. right. split; [done|]. by constructor.
    + rewrite lookup_insert_ne by done. eauto.
  - rewrite store_list_tasks. eauto.
Qed.

(** C5: The ledger refines the lifecycle machine over any sequence of calls: a
    stored task is never lost, its state only moves along accepted lifecycle
    transitions, and once it is terminal the whole record (not only its state)
    is immutable. *)
Theorem store_refines_lifecycle max_tasks st st' k t :
  rtc (store_step max_tasks) st st' ->
  tasks st !! k = Some t ->
  exists t', tasks st' !! k = Some t' /\
    lifecycle_reaches (state (status t)) (state (status t')) /\
    (is_terminal (state (status t)) = true -> t' = t).
Proof.
  intros Hrun. revert t. induction Hrun as [st|st mid st' Hstep _ IH]; intros t Hk.
  { exists t. split; [done|]. split; [apply rtc_refl | done]. }
  destruct Hstep as [op st].
  destruct (step_lookup max_tasks op st k t Hk) as (t1 & Ht1 & Hcase).
  destruct (IH t1 Ht1) as (t2 & Ht2 & Hreach & Hterm). exists t2. split; [done|].
  destruct Hcase as [->|[Hnt Hstep]]; [done|]. split; [by eapply rtc_l|]. congruence.
Qed.

(** ** Abstract listings

    What a page promises its reader, independent of how pages are stored. *)

Record task_ok (scope : CursorScope) (t : Task) : Prop := {
  task_context : forall c, scope_context_id scope = Some c -> context_id t = c;
  task_status : forall s, scope_status scope = Some s -> state (status t) = s;
  task_recent : forall a, scope_status_timestamp_after scope = Some a ->
                exists ts, timestamp (status t) = Some ts /\ (a <= ts)%Z;
  task_artifacts : scope_include_artifacts scope = false -> artifacts t = None;
  task_history : forall n h, scope_history_length scope = Some n -> (0 <= n)%Z ->
                 history t = Some h -> n <> 0%Z /\ (Z.of_nat (length h) <= n)%Z }.

Record listing_ok (scope : CursorScope) (ts : list Task) : Prop := {
  listing_tasks : Forall (task_ok scope) ts;
  listing_nodup : NoDup (id <$> ts);
  listing_sorted : StronglySorted (key_leb listing_key) ts }.

(** The page a reader of [scope] may receive. *)
Record page_ok (scope : CursorScope) (resp : ListTasksResponse) : Prop := {
  page_size_ok : resp_page_size resp = scope_page_size scope;
  page_size_range : (1 <= resp_page_size resp <= 100)%Z;
  page_length : (Z.of_nat (length (resp_tasks resp)) <= resp_page_size resp)%Z;
  page_total : (Z.of_nat (length (resp_tasks resp)) <= resp_total_size resp)%Z;
  page_listing : listing_ok scope (resp_tasks resp) }.

Lemma listing_ok_sub scope ts a b : listing_ok scope ts -> listing_ok scope (take a (drop b ts)).
Proof.
  intros [Hf Hn Hs]. split.
  - by apply Forall_take, Forall_drop.
  - rewrite fmap_take, fmap_drop.
    apply (sublist_NoDup _ _ Hn). etrans; [apply sublist_take | apply sublist_drop].
  - rewrite <- (take_drop b ts) in Hs. apply StronglySorted_app in Hs as (_ & _ & Hs).
    rewrite <- (take_drop a (drop b ts)) in Hs. by apply StronglySorted_app in Hs as (_ & Hs & _).
Qed.

Lemma listing_key_project req t : listing_key (project_task req t) = listing_key t.
Proof. done. Qed.

Lemma projection_task_ok req ps t :
  projection_matches req t = true -> task_ok (from_request req ps) (project_task req t).
Proof.
  unfold projection_matches. intros H1. inv_ok. split; simpl.
  - intros c Hc. rewrite Hc in *. by case_bool_decide.
  - intros s Hs. rewrite Hs in *. by case_bool_decide.
  - intros a Ha. rewrite Ha in *. destruct (timestamp (status t)); [|done]. inv_ok. eauto.
  - intros Hi. by rewrite Hi.
  - intros n h Hn Hpos. rewrite Hn. simpl. unfold usize_of_Z.
    destruct (Z.ltb_spec n 0); [lia|]. unfold trim_history.
    destruct (Z.to_nat n) as [|m] eqn:Hm; [done|].
    destruct (history t) as [msgs|]; [|done].
    destruct (Nat.ltb_spec (S m) (length msgs)); intros [= <-]; [rewrite length_drop|]; lia.
Qed.

(** Freezing depends on the set of stored tasks only, so the iteration order of
    the hash map cannot be observed. *)
Lemma freeze_projection_perm req l1 l2 :
  NoDup (id <$> l1) -> l1 ≡ₚ l2 -> freeze_projection l1 req = freeze_projection l2 req.
Proof.
  intros Hnd Hp. unfold freeze_projection. f_equal.
  apply sort_by_key_unique; [|by rewrite Hp].
  intros x y [_ Hx]%list_elem_of_filter [_ Hy]%list_elem_of_filter [= _ Hid].
  by eapply (NoDup_fmap_inj_on id l1).
Qed.

Lemma freeze_listing_ok req ps all :
  NoDup (id <$> all) -> listing_ok (from_request req ps) (freeze_projection all req).
Proof.
  intros Hnd. unfold freeze_projection.
  set (kept := filter (fun t => projection_matches req t) all).
  assert (Hkept : NoDup (id <$> kept)).
  { apply (sublist_NoDup _ _ Hnd), fmap_sublist, sublist_filter. }
  split.
  - apply Forall_fmap, Forall_forall. intros t Ht%sort_by_key_elem.
    apply list_elem_of_filter in Ht as [Ht%Is_true_true _]. by apply projection_task_ok.
  - rewrite <- list_fmap_compose. change (id ∘ project_task req) with id.
    by rewrite sort_by_key_perm.
  - pose proof (sort_by_key_sorted listing_key kept) as Hs. revert Hs. generalize (sort_by_key listing_key kept).
    induction 1 as [|t l Hl IH Ht]; simpl; constructor; [done|].
    apply Forall_fmap. exact Ht.
Qed.

(** ** The registry invariant *)

(** A stored snapshot decodes to a well-formed listing of its scope, and its
    tokens address exactly the page boundaries after the first page. *)
Record snap_wf (snap : MemorySnapshot) (ts : list Task) : Prop := {
  snap_decodes : Forall2 (fun e t => task_from_slice e = Some t) (snap_tasks snap) ts;
  snap_size : scope_page_size (snap_scope snap) = snap_page_size snap;
  snap_range : (1 <= snap_page_size snap <= 100)%Z;
  snap_listing : listing_ok (snap_scope snap) ts;
  snap_positions : (snap_tokens snap).*1
                   = token_positions (Z.to_nat (snap_page_size snap)) (length ts) }.

Definition total_bytes (snaps : list (string * MemorySnapshot)) : N :=
  foldr (fun (p : string * MemorySnapshot) b => (snap_bytes p.2 + b)%N) 0%N snaps.

Record store_wf (max_tasks registry : N) (st : StoreState) : Prop := {
  wf_keys : forall k t, tasks st !! k = Some t -> id t = k;
  wf_capacity : (N.of_nat (size (tasks st)) <= max_tasks)%N;
  wf_registry : (len (snapshots st) <= MAX_ACTIVE_SNAPSHOTS)%N;
  wf_accounting : snapshot_bytes st = (registry + total_bytes (snapshots st))%N;
  wf_budget : snapshots st = [] \/ (snapshot_bytes st <= MAX_SNAPSHOT_BYTES)%N;
  wf_snapshots : Forall (fun p => exists ts, snap_wf p.2 ts) (snapshots st) }.

Lemma stored_ids_nodup max_tasks registry st :
  store_wf max_tasks registry st -> NoDup (id <$> (map_to_list (tasks st)).*2).
Proof.
  intros Hwf.
  assert (Hids : id <$> (map_to_list (tasks st)).*2 = (map_to_list (tasks st)).*1).
  { rewrite <- list_fmap_compose. apply list_fmap_ext. intros i [k t] Hkt%list_elem_of_lookup_2. simpl.
    apply (wf_keys _ _ _ Hwf). by apply elem_of_map_to_list. }
  rewrite Hids. apply NoDup_fst_map_to_list.
Qed.

Lemma total_bytes_app l k : total_bytes (l ++ k) = (total_bytes l + total_bytes k)%N.
Proof. induction l as [|p l IH]; simpl; [done|]. rewrite IH. lia. Qed.

Lemma total_bytes_perm l k : l ≡ₚ k -> total_bytes l = total_bytes k.
Proof. induction 1; simpl; lia. Qed.

(** Collection gives back exactly the bytes of the dropped snapshots. *)
Lemma gc_accounting registry (dead live : list (string * MemorySnapshot)) :
  foldl (fun b (p : string * MemorySnapshot) => saturating_sub b (snap_bytes p.2))
    (registry + total_bytes (dead ++ live))%N dead = (registry + total_bytes live)%N.
Proof.
  induction dead as [|p dead IH]; simpl; [done|]. rewrite <- IH. f_equal.
  unfold saturating_sub. lia.
Qed.

Lemma gc_wf max_tasks registry st now now' :
  store_wf max_tasks registry st -> store_wf max_tasks registry (gc_memory_snapshots (observe st now') now).
Proof.
  intros [Hk Hc Hr Ha Hb Hs]. unfold gc_memory_snapshots, observe; simpl.
  set (live := filter (fun p : string * MemorySnapshot => (now < expires_at p.2)%N) (snapshots st)).
  set (dead := filter (fun p : string * MemorySnapshot => ¬ (now < expires_at p.2)%N) (snapshots st)).
  assert (Hperm : snapshots st ≡ₚ dead ++ live).
  { unfold dead, live. rewrite (comm (++)). symmetry. apply filter_app_complement. }
  assert (Hacc : snapshot_bytes st = (registry + total_bytes (dead ++ live))%N).
  { by rewrite Ha, (total_bytes_perm _ _ Hperm). }
  split; simpl.
  - done.
  - done.
  - etrans; [|exact Hr]. unfold len. rewrite Hperm, length_app. lia.
  - rewrite Hacc. apply gc_accounting.
  - destruct Hb as [Hnil|Hb]; [left|right].
    + rewrite Hnil in Hperm. apply Permutation_nil in Hperm. by apply app_eq_nil in Hperm as [_ ->].
    + rewrite Hacc, gc_accounting. rewrite Hacc, total_bytes_app in Hb. lia.
  - apply Forall_forall. intros p [_ Hp]%list_elem_of_filter. rewrite Forall_forall in Hs. auto.
Qed.

Lemma validate_list_request_Ok req ps scope :
  validate_list_request req = Ok (ps, scope) ->
  (1 <= ps <= 100)%Z /\ scope = from_request req ps /\ ps = default 50%Z (req_page_size req).
Proof. unfold validate_list_request. intros Hv. inv_ok. simplify_eq. split_and!; [lia|lia|done|done]. Qed.

Lemma usize_of_Z_pos z : (0 <= z)%Z -> usize_of_Z z = Some (Z.to_nat z).
Proof. intros. unfold usize_of_Z. destruct (Z.ltb_spec z 0); [lia|done]. Qed.

Lemma length_token_positions step n : length (token_positions step n) = ((n - 1) / step)%nat.
Proof. unfold token_positions. by rewrite length_fmap, length_seq. Qed.

Lemma imap_fst {A B} (f : nat -> B) (l : list A) : (imap (fun i p => (p, f i)) l).*1 = l.
Proof. apply list_eq. intros i. rewrite list_lookup_fmap, list_lookup_imap. by destruct (l !! i). Qed.

Lemma new_snapshot_wf env now st req ps ts step snap :
  (1 <= ps <= 100)%Z -> step = Z.to_nat ps -> listing_ok (from_request req ps) ts ->
  new_snapshot env now st ps (from_request req ps) ts step = Ok snap ->
  snap_wf snap ts /\
  (len (snapshots st) < MAX_ACTIVE_SNAPSHOTS)%N /\
  (snapshot_bytes st + snap_bytes snap <= MAX_SNAPSHOT_BYTES)%N /\
  expires_at snap = (now + SNAPSHOT_TTL_MILLIS)%N /\ snap_scope snap = from_request req ps /\
  snap_tokens snap = imap (fun i p => (p, env_token env i)) (token_positions step (length ts)).
Proof.
  intros Hps -> Hl Hnew. unfold new_snapshot in Hnew.
  apply bind_Ok_inv in Hnew as (frozen & Hfrozen & Hnew).
  apply bind_Ok_inv in Hnew as (bytes & Hbytes & Hnew).
  apply bind_Ok_inv in Hnew as ([] & Hcap & Hnew).
  apply bind_Ok_inv in Hnew as (expires & Hexp & Hnew). inv_ok.
  apply checked_add_Some in Hexp as [-> _].
  destruct (checked_add (snapshot_bytes st) bytes) as [total|] eqn:Htot; [|done].
  apply checked_add_Some in Htot as [-> _]. inv_ok. simpl.
  split_and!; [split; simpl|lia|lia|done|done|done].
  - apply try_map_Ok in Hfrozen. apply Forall2_flip.
    eapply Forall2_impl; [exact Hfrozen|]. intros t e Ht%ok_or_Ok. by eapply task_roundtrip.
  - done.
  - done.
  - done.
  - apply imap_fst.
Qed.

Lemma token_positions_elem step n p : (0 < step)%nat ->
  p ∈ token_positions step n <-> exists k, (0 < k)%nat /\ p = (k * step)%nat /\ (p < n)%nat.
Proof.
  intros Hstep. unfold token_positions. rewrite list_elem_of_fmap. split.
  - intros (k & -> & Hk%elem_of_seq). exists (k + 1)%nat. split_and!; [lia|done|].
    pose proof (Nat.Div0.mul_div_le (n - 1) step). nia.
  - intros (k & Hk & -> & Hlt). exists (k - 1)%nat. split; [f_equal; lia|].
    apply elem_of_seq. split; [lia|]. simpl.
    enough (k <= (n - 1) / step)%nat by lia. apply Nat.div_le_lower_bound; lia.
Qed.

Lemma token_at_None p toks : token_at p toks = None <-> p ∉ toks.*1.
Proof.
  induction toks as [|[q t] toks IH]; simpl; [by split; [intros _; apply not_elem_of_nil|]|].
  case_bool_decide; set_solver.
Qed.

Lemma token_at_Some p toks t : token_at p toks = Some t -> (p, t) ∈ toks.
Proof.
  induction toks as [|[q u] toks IH]; simpl; [done|].
  case_bool_decide; [intros [= ->]; subst; by left|]. intros; right; auto.
Qed.

Lemma position_of_Some token toks p : position_of token toks = Some p -> (p, token) ∈ toks.
Proof.
  induction toks as [|[q u] toks IH]; simpl; [done|].
  case_bool_decide; [intros [= ->]; subst; by left|]. intros; right; auto.
Qed.

(** A page read from a well-formed snapshot: the decoded slice, never a panic. *)
Lemma memory_page_Ok snap ts position :
  snap_wf snap ts -> (position <= length ts)%nat ->
  memory_page snap position = Ok {|
    resp_tasks := take (Z.to_nat (snap_page_size snap)) (drop position ts);
    resp_next_page_token := default "" (token_at (Nat.min (position + Z.to_nat (snap_page_size snap)) (length ts))
                                          (snap_tokens snap));
    resp_page_size := snap_page_size snap;
    resp_total_size := i32_of_len (length ts) |}.
Proof.
  intros [Hd _ Hr _ _] Hpos. unfold memory_page. rewrite usize_of_Z_pos by lia. simpl.
  rewrite (Forall2_length _ _ _ Hd). set (ps := Z.to_nat _).
  destruct (Nat.ltb_spec (Nat.min (position + ps) (length ts)) position); [lia|]. simpl.
  assert (Hmap : try_map (fun encoded => ok_or (task_from_slice encoded)
                   (Fail (internal "frozen task snapshot is corrupt")))
                   (take (Nat.min (position + ps) (length ts) - position) (drop position (snap_tasks snap)))
                 = Ok (take ps (drop position ts))).
  { apply try_map_Ok.
    replace (take ps (drop position ts))
      with (take (Nat.min (position + ps) (length ts) - position) (drop position ts)).
    - apply Forall2_take, Forall2_drop. eapply Forall2_impl; [exact Hd|].
      intros e t He. by apply ok_or_Ok.
    - destruct (Nat.le_gt_cases (position + ps) (length ts)); [f_equal; lia|].
      rewrite !take_ge; rewrite ?length_drop; lia || done. }
  by rewrite Hmap.
Qed.

Lemma i32_of_len_mono (m n : nat) : (m <= 100)%nat -> (m <= n)%nat -> (Z.of_nat m <= i32_of_len n)%Z.
Proof. unfold i32_of_len, i32_max. intros. destruct (Z.leb_spec (Z.of_nat n) 2147483647); lia. Qed.

Lemma memory_page_ok snap ts position resp :
  snap_wf snap ts -> (position <= length ts)%nat ->
  memory_page snap position = Ok resp -> page_ok (snap_scope snap) resp.
Proof.
  intros Hwf Hpos. rewrite (memory_page_Ok _ _ _ Hwf Hpos). intros [= <-].
  destruct Hwf as [_ Hsz Hr Hl _].
  split; simpl.
  - done.
  - done.
  - rewrite length_take. lia.
  - apply i32_of_len_mono; rewrite length_take, length_drop; lia.
  - by apply listing_ok_sub.
Qed.

(** ** Reachable states *)

Definition collected (env : list_env) (st : StoreState) : StoreState :=
  let now := N.max (env_clock env) (observed_now st) in gc_memory_snapshots (observe st now) now.

Definition frozen_view (req : ListTasksRequest) (st : StoreState) : list Task :=
  freeze_projection (map_to_list (tasks st)).*2 req.

(** The new snapshot a call registers in the collected state, when it
    registers one. *)
Record registers (env : list_env) (req : ListTasksRequest) (now : N) (ps : Z) (st : StoreState)
    (snap : MemorySnapshot) : Prop := {
  reg_range : (1 <= ps <= 100)%Z;
  reg_none : reusable_snapshot st (from_request req ps) now = None;
  reg_long : (Z.to_nat ps < length (frozen_view req st))%nat;
  reg_new : new_snapshot env now st ps (from_request req ps) (frozen_view req st) (Z.to_nat ps) = Ok snap }.

(** What an answer is made of. *)
Inductive answer (fresh : Prop) (req : ListTasksRequest) (ps : Z) (st st' : StoreState) :
    result fault ListTasksResponse -> Prop :=
  | answer_fail e : answer fresh req ps st st' (Err (Fail e))
  | answer_whole : (length (frozen_view req st) <= Z.to_nat ps)%nat -> req_page_token req = None ->
      answer fresh req ps st st' (Ok {| resp_tasks := frozen_view req st; resp_next_page_token := "";
        resp_page_size := ps; resp_total_size := i32_of_len (length (frozen_view req st)) |})
  | answer_page i snap ts p : (i, snap) ∈ snapshots st' -> snap_wf snap ts -> (p <= length ts)%nat ->
      (fresh -> snap_scope snap = from_request req ps) ->
      answer fresh req ps st st' (memory_page snap p).

Lemma frozen_view_ok max_tasks registry req ps st :
  store_wf max_tasks registry st -> listing_ok (from_request req ps) (frozen_view req st).
Proof. intros Hwf. eapply freeze_listing_ok, stored_ids_nodup, Hwf. Qed.

Lemma registers_wf max_tasks registry env req now ps st snap :
  store_wf max_tasks registry st -> registers env req now ps st snap ->
  snap_wf snap (frozen_view req st) /\ snap_scope snap = from_request req ps /\
  (len (snapshots st) < MAX_ACTIVE_SNAPSHOTS)%N /\
  (snapshot_bytes st + snap_bytes snap <= MAX_SNAPSHOT_BYTES)%N /\
  expires_at snap = (now + SNAPSHOT_TTL_MILLIS)%N /\
  snap_tokens snap = imap (fun i p => (p, env_token env i))
                       (token_positions (Z.to_nat ps) (length (frozen_view req st))).
Proof.
  intros Hwf [Hps _ _ Hnew]. apply new_snapshot_wf in Hnew; [|done|done|by eapply frozen_view_ok]. tauto.
Qed.

Lemma push_wf max_tasks registry env req now ps st snap :
  store_wf max_tasks registry st -> registers env req now ps st snap ->
  store_wf max_tasks registry (push_snapshot st (env_snapshot_id env) snap).
Proof.
  intros Hwf Hreg. apply (registers_wf _ _ _ _ _ _ _ _ Hwf) in Hreg as (Hsnap & _ & Hn & Hb & _ & _).
  destruct Hwf as [Hk Hc Hr Ha _ Hs]. split; simpl.
  - exact Hk.
  - exact Hc.
  - rewrite len_app, len_cons, len_nil. lia.
  - rewrite total_bytes_app, Ha. simpl. lia.
  - right. exact Hb.
  - apply Forall_app; split; [exact Hs|]. apply Forall_singleton. by exists (frozen_view req st).
Qed.

Lemma find_id_last i snap snaps : exists found, find_id i (snaps ++ [(i, snap)]) = Some found.
Proof.
  induction snaps as [|[j s] snaps IH]; simpl; case_bool_decide; eauto. done.
Qed.

Lemma find_id_fresh i snap snaps : i ∉ snaps.*1 -> find_id i (snaps ++ [(i, snap)]) = Some snap.
Proof.
  induction snaps as [|[j s] snaps IH]; simpl; intros Hi; case_bool_decide; try done; set_solver.
Qed.

Lemma find_id_elem i snaps found : find_id i snaps = Some found -> (i, found) ∈ snaps.
Proof.
  induction snaps as [|[j s] snaps IH]; simpl; [done|].
  case_bool_decide; [intros [= ->]; subst; by left|]. intros; right; auto.
Qed.

Lemma stored_snapshot max_tasks registry st i snap :
  store_wf max_tasks registry st -> (i, snap) ∈ snapshots st -> exists ts, snap_wf snap ts.
Proof. intros Hwf Hi. pose proof (wf_snapshots _ _ _ Hwf) as Hall. rewrite Forall_forall in Hall. by apply (Hall _ Hi). Qed.

(** Absence of panics, compositionally. *)
Create HintDb no_panic.

Definition no_panic {A} (c : result fault A) : Prop := forall m, c <> Err (Panic m).

Lemma no_panic_Ok {A} (a : A) : no_panic (Ok a).
Proof. done. Qed.
Lemma no_panic_fail {A} e : no_panic (A:=A) (Err (Fail e)).
Proof. done. Qed.
Lemma no_panic_ok_or {A} (o : option A) e : no_panic (ok_or o (Fail e)).
Proof. by destruct o. Qed.
Lemma no_panic_fail_if b e : no_panic (fail_if b (Fail e)).
Proof. by destruct b. Qed.
Lemma no_panic_bind {A B} (c : result fault A) (k : A -> result fault B) :
  no_panic c -> (forall a, no_panic (k a)) -> no_panic (c ≫= k).
Proof. intros Hc Hk. destruct c as [a|e]; [apply Hk|]. intros m [= ->]. by apply (Hc m). Qed.
Lemma no_panic_try_map {A B} (f : A -> result fault B) l :
  (forall x, no_panic (f x)) -> no_panic (try_map f l).
Proof. intros Hf. induction l; simpl; [done|]. apply no_panic_bind; [done|]. intros y. by apply no_panic_bind. Qed.

#[local] Hint Resolve no_panic_Ok no_panic_fail no_panic_ok_or no_panic_fail_if
  no_panic_bind no_panic_try_map : no_panic.

Lemma new_snapshot_no_panic env now st ps scope ts step :
  no_panic (new_snapshot env now st ps scope ts step).
Proof.
  unfold new_snapshot, conservative_snapshot_bytes. repeat (apply no_panic_bind; intros); auto with no_panic.
Qed.

Lemma validate_list_request_no_panic req : no_panic (validate_list_request req).
Proof. unfold validate_list_request. repeat (apply no_panic_bind; intros); auto with no_panic. Qed.

(** The first-page branch leaves the state alone or registers one snapshot. *)
Lemma list_first_page_cases max_tasks registry env req now ps st :
  store_wf max_tasks registry st -> (1 <= ps <= 100)%Z -> req_page_token req = None ->
  let out := list_first_page env req now ps (from_request req ps) st in
  (out.1 = st \/ exists snap, registers env req now ps st snap /\
                 out.1 = push_snapshot st (env_snapshot_id env) snap) /\
  answer (env_snapshot_id env ∉ (snapshots st).*1) req ps st out.1 out.2.
Proof.
  intros Hwf Hps Htok. unfold list_first_page.
  destruct (reusable_snapshot _ _ _) as [snap|] eqn:Hre; simpl.
  { split; [by left|]. apply fmap_Some in Hre as ([n [i s]] & Hfind & ->).
    apply list_find_Some in Hfind as (Hi%list_elem_of_lookup_2 & [_ Hsc] & _).
    destruct (stored_snapshot _ _ _ _ _ Hwf Hi) as [ts Hts].
    by apply (answer_page _ _ _ _ _ i s ts 0%nat); [| |lia|]. }
  rewrite usize_of_Z_pos by lia.
  change (freeze_projection (map_to_list (tasks st)).*2 req) with (frozen_view req st).
  destruct (Nat.leb_spec (length (frozen_view req st)) (Z.to_nat ps)); simpl.
  { split; [by left|]. by apply answer_whole. }
  destruct (new_snapshot _ _ _ _ _ _ _) as [snap|[e|m]] eqn:Hnew; simpl.
  2:{ split; [by left|apply answer_fail]. }
  2:{ by apply new_snapshot_no_panic in Hnew. }
  assert (Hreg : registers env req now ps st snap) by done.
  pose proof (push_wf _ _ _ _ _ _ _ _ Hwf Hreg) as Hpush.
  destruct (find_id_last (env_snapshot_id env) snap (snapshots st)) as [found Hfound].
  rewrite Hfound. simpl. split; [by eauto|].
  pose proof (find_id_elem _ _ _ Hfound) as Hin.
  destruct (stored_snapshot _ _ _ _ _ Hpush Hin) as [ts Hts].
  apply (answer_page _ _ _ _ _ (env_snapshot_id env) found ts 0%nat); [done|done|lia|].
  intros Hfresh. rewrite find_id_fresh in Hfound by done. injection Hfound as <-.
  by apply (registers_wf _ _ _ _ _ _ _ _ Hwf) in Hreg as (_ & -> & _).
Qed.

Lemma find_token_Some token snaps snap p :
  find_token token snaps = Some (snap, p) ->
  exists i, (i, snap) ∈ snaps /\ position_of token (snap_tokens snap) = Some p.
Proof.
  induction snaps as [|[i s] snaps IH]; simpl; [done|].
  destruct (position_of token (snap_tokens s)) eqn:Hp.
  - intros [= -> ->]. exists i. split; [by left|done].
  - intros Hf. destruct (IH Hf) as (j & Hj & Hjp). exists j. split; [by right|done].
Qed.

Lemma snap_wf_position snap ts p token :
  snap_wf snap ts -> (p, token) ∈ snap_tokens snap -> (p < length ts)%nat.
Proof.
  intros [_ _ Hr _ Hpos] Hin. assert (Hp : p ∈ (snap_tokens snap).*1).
  { apply list_elem_of_fmap. by exists (p, token). }
  rewrite Hpos in Hp. apply token_positions_elem in Hp; [naive_solver|]. lia.
Qed.

Lemma list_by_token_answer max_tasks registry fresh req ps st now token :
  store_wf max_tasks registry st ->
  answer fresh req ps st st (list_by_token st now (from_request req ps) token).
Proof.
  intros Hwf. unfold list_by_token. destruct (_ <? _)%N; [apply answer_fail|]. simpl.
  destruct (find_token token (snapshots st)) as [[snap p]|] eqn:Hf; simpl; [|apply answer_fail].
  apply find_token_Some in Hf as (i & Hi & Hp%position_of_Some).
  case_bool_decide as Hexp; simpl; [|apply answer_fail].
  case_bool_decide as Hsc; simpl; [|apply answer_fail].
  destruct (stored_snapshot _ _ _ _ _ Hwf Hi) as [ts Hts].
  rewrite usize_of_Z_pos by (pose proof (snap_range _ _ Hts); lia). simpl.
  destruct (_ || _)%bool; simpl; [apply answer_fail|].
  apply (answer_page _ _ _ _ _ i snap ts p); [done|done| |done].
  pose proof (snap_wf_position _ _ _ _ Hts Hp). lia.
Qed.

Lemma answer_mono (fresh fresh' : Prop) req ps st st0 st' r :
  (fresh' -> fresh) -> tasks st = tasks st0 -> answer fresh req ps st st' r -> answer fresh' req ps st0 st' r.
Proof.
  intros Hf Ht. assert (Hv : frozen_view req st = frozen_view req st0) by (unfold frozen_view; by rewrite Ht).
  destruct 1; [apply answer_fail | rewrite Hv in *; by apply answer_whole | eapply answer_page; eauto].
Qed.

Lemma collected_ids env st i : i ∉ (snapshots st).*1 -> i ∉ (snapshots (collected env st)).*1.
Proof.
  intros Hni (q & Hq & [_ Hin]%list_elem_of_filter)%list_elem_of_fmap.
  apply Hni, list_elem_of_fmap. by exists q.
Qed.

(** The state a call leaves and the answer it gives. *)
Lemma store_list_cases max_tasks registry env req st :
  store_wf max_tasks registry st ->
  (exists e, store_list env req st = (st, Err (Fail e))) \/
  exists ps, validate_list_request req = Ok (ps, from_request req ps) /\
    answer (env_snapshot_id env ∉ (snapshots st).*1) req ps st (store_list env req st).1 (store_list env req st).2 /\
    ((store_list env req st).1 = collected env st \/
     req_page_token req = None /\
     exists snap, registers env req (N.max (env_clock env) (observed_now st)) ps (collected env st) snap /\
       (store_list env req st).1 = push_snapshot (collected env st) (env_snapshot_id env) snap).
Proof.
  intros Hwf. assert (Hgc : store_wf max_tasks registry (collected env st)) by by apply gc_wf.
  unfold store_list. destruct (validate_list_request req) as [[ps scope]|[e|m]] eqn:Hv; [|by left; eauto|].
  2:{ by apply validate_list_request_no_panic in Hv. }
  destruct (validate_list_request_Ok _ _ _ Hv) as (Hps & -> & _). right. exists ps. split; [done|].
  fold (collected env st). destruct (req_page_token req) as [token|] eqn:Htok.
  { split; [|by left]. eapply answer_mono; [| |by eapply list_by_token_answer]; done. }
  destruct (list_first_page_cases max_tasks registry env req (N.max (env_clock env) (observed_now st))
    ps (collected env st) Hgc Hps Htok) as [Hst Hans].
  split; [|naive_solver]. eapply answer_mono; [| |exact Hans]; [apply collected_ids | done].
Qed.

Lemma store_list_wf max_tasks registry env req st :
  store_wf max_tasks registry st -> store_wf max_tasks registry (store_list env req st).1.
Proof.
  intros Hwf. assert (Hgc : store_wf max_tasks registry (collected env st)) by by apply gc_wf.
  destruct (store_list_cases _ _ env req _ Hwf) as [[e ->]|(ps & _ & _ & [->|(_ & snap & Hreg & ->)])].
  - done.
  - done.
  - by eapply push_wf.
Qed.

Lemma create_wf max_tasks registry task st :
  store_wf max_tasks registry st -> store_wf max_tasks registry (create max_tasks task st).1.
Proof.
  intros Hwf. unfold create. case_bool_decide as Hex; [done|].
  destruct (N.leb_spec max_tasks (N.of_nat (size (tasks st)))); [done|].
  destruct Hwf as [Hk Hc Hr Ha Hb Hs]. split; simpl; try done.
  - intros k t. destruct (decide (id task = k)) as [<-|Hne].
    + rewrite lookup_insert_eq. by intros [= ->].
    + rewrite lookup_insert_ne by done. apply Hk.
  - rewrite map_size_insert_None by by apply eq_None_not_Some. lia.
Qed.

Lemma update_wf max_tasks registry task st :
  store_wf max_tasks registry st -> store_wf max_tasks registry (update task st).1.
Proof.
  intros Hwf. unfold update. destruct (tasks st !! id task) as [stored|] eqn:Hst; [|done].
  case_bool_decide; [done|]. destruct (is_terminal _); [done|].
  destruct (task_state_transition_allowed _ _); [|done].
  destruct Hwf as [Hk Hc Hr Ha Hb Hs]. split; simpl; try done.
  - intros k t. destruct (decide (id task = k)) as [<-|Hne].
    + rewrite lookup_insert_eq. by intros [= ->].
    + rewrite lookup_insert_ne by done. apply Hk.
  - by rewrite map_size_insert_Some by by rewrite Hst.
Qed.

Lemma default_wf max_tasks registry : store_wf max_tasks registry (default_state registry).
Proof.
  split; simpl; [done|rewrite map_size_empty; lia|unfold len, MAX_ACTIVE_SNAPSHOTS; simpl; lia|lia|by left|done].
Qed.

Lemma run_wf max_tasks registry st st' :
  rtc (store_step max_tasks) st st' -> store_wf max_tasks registry st -> store_wf max_tasks registry st'.
Proof.
  induction 1 as [|st mid st' [op st0] _ IH]; [done|]. intros Hwf. apply IH.
  destruct op; simpl; auto using create_wf, update_wf, store_list_wf.
Qed.

(** C20: In every state a store can reach: each task is stored under its own id,
    the task ceiling holds, at most 128 snapshots are registered, the byte
    counter is exactly the registry's own size plus the sizes of the live
    snapshots, and it is within the 64 MiB budget whenever a snapshot is held. *)
Theorem store_invariant max_tasks registry st :
  registry_bytes = Some registry ->
  rtc (store_step (new_max_tasks max_tasks)) (default_state registry) st ->
  store_wf (new_max_tasks max_tasks) registry st.
Proof. intros _ Hrun. eapply run_wf; [exact Hrun | apply default_wf]. Qed.


Lemma answer_no_panic fresh req ps st st' r : answer fresh req ps st st' r -> no_panic r.
Proof.
  destruct 1 as [e|Hle Htok|i snap ts p Hi Hts Hp Hsc]; [done|done|].
  rewrite (memory_page_Ok _ _ _ Hts) by lia. done.
Qed.

Lemma answer_page_ok max_tasks registry (fresh : Prop) req ps st st' resp :
  store_wf max_tasks registry st -> fresh -> (1 <= ps <= 100)%Z ->
  answer fresh req ps st st' (Ok resp) -> page_ok (from_request req ps) resp.
Proof.
  intros Hwf Hf Hps Hans. remember (Ok resp) as r eqn:Hr.
  destruct Hans as [e|Hle Htok|i snap ts p Hi Hts Hp Hsc].
  - done.
  - injection Hr as <-. split; simpl; [done|done|lia|apply i32_of_len_mono; lia|by eapply frozen_view_ok].
  - rewrite <- (Hsc Hf). by apply (memory_page_ok snap ts p).
Qed.

(** Listing a reachable store never panics (no slice bound, [expect] or
    integer conversion in [list] or [memory_page] can fail), and a page it
    returns satisfies the request: the page size asked for (50 by default), at
    most that many tasks, none twice, newest first, each in the requested
    context and state and not older than the requested time, without artifacts
    unless asked for and with at most the requested history. *)
Theorem store_list_sound max_tasks registry env req st :
  rtc (store_step max_tasks) (default_state registry) st ->
  no_panic (store_list env req st).2 /\
  forall resp, (store_list env req st).2 = Ok resp ->
    env_snapshot_id env ∉ (snapshots st).*1 ->
    page_ok (from_request req (default 50%Z (req_page_size req))) resp.
Proof.
  intros Hrun. assert (Hwf : store_wf max_tasks registry st) by (eapply run_wf; [done|apply default_wf]).
  destruct (store_list_cases _ _ env req _ Hwf) as [[e ->]|(ps & Hv & Hans & _)]; [done|].
  split; [by eapply answer_no_panic|]. intros resp Hr Hfresh. rewrite Hr in Hans.
  apply validate_list_request_Ok in Hv as (Hps & _ & <-). by eapply answer_page_ok.
Qed.

(** ** Frozen views *)

Definition registry_tokens (st : StoreState) : list string :=
  flat_map (fun p : string * MemorySnapshot => (snap_tokens p.2).*2) (snapshots st).

(** What the random draws of a call provide, with overwhelming probability: a
    new snapshot id, and new, distinct, non-empty page tokens of bounded size. *)
Record fresh_env (env : list_env) (st : StoreState) : Prop := {
  fresh_id : (env_snapshot_id env) ∉ (snapshots st).*1;
  fresh_distinct : forall i j, (i < size (tasks st))%nat -> (j < size (tasks st))%nat ->
                   env_token env i = env_token env j -> i = j;
  fresh_tokens : forall i, (i < size (tasks st))%nat ->
                 (env_token env i ∉ registry_tokens st) /\ env_token env i <> "" /\
                 (slen (env_token env i) <= MAX_PAGE_TOKEN_BYTES)%N }.

Inductive fresh_step (max_tasks : N) : StoreState -> StoreState -> Prop :=
  | fresh_create task st : fresh_step max_tasks st (create max_tasks task st).1
  | fresh_update task st : fresh_step max_tasks st (update task st).1
  | fresh_list env req st : fresh_env env st -> fresh_step max_tasks st (store_list env req st).1.

(** Page tokens of the registry are distinct, usable and never empty. *)
Record tokens_wf (st : StoreState) : Prop := {
  tokens_nodup : NoDup (registry_tokens st);
  tokens_usable : Forall (fun t => t <> "" /\ (slen t <= MAX_PAGE_TOKEN_BYTES)%N) (registry_tokens st) }.

Lemma registry_tokens_sub st st' :
  snapshots st' `sublist_of` snapshots st -> registry_tokens st' `sublist_of` registry_tokens st.
Proof.
  unfold registry_tokens. induction 1 as [|p l k _ IH|p l k _ IH]; simpl; [done| |].
  - by apply sublist_app.
  - by apply sublist_inserts_l.
Qed.

Lemma tokens_wf_sub st st' :
  snapshots st' `sublist_of` snapshots st -> tokens_wf st -> tokens_wf st'.
Proof.
  intros Hsub%registry_tokens_sub [Hn Hu]. split; [by eapply sublist_NoDup|].
  rewrite Forall_forall in *. intros t Ht. apply Hu. by eapply elem_of_sublist.
Qed.

Lemma create_snapshots max_tasks task st : snapshots (create max_tasks task st).1 = snapshots st.
Proof. unfold create. case_bool_decide; [done|]. by case_match. Qed.

Lemma update_snapshots task st : snapshots (update task st).1 = snapshots st.
Proof. unfold update. repeat case_match; done. Qed.

Lemma NoDup_imap_index {A B} (f : nat -> B) (l : list A) :
  (forall i j, (i < length l)%nat -> (j < length l)%nat -> f i = f j -> i = j) ->
  NoDup (imap (fun i _ => f i) l).
Proof.
  intros Hinj. apply NoDup_alt. intros i j x. rewrite !list_lookup_imap.
  destruct (l !! i) eqn:Hi, (l !! j) eqn:Hj; simpl; try done. intros [= <-] [= Heq].
  apply lookup_lt_Some in Hi, Hj. by apply Hinj.
Qed.

Lemma frozen_view_length req st : (length (frozen_view req st) <= size (tasks st))%nat.
Proof.
  unfold frozen_view, freeze_projection. rewrite length_fmap, sort_by_key_perm.
  etrans; [apply length_filter|]. by rewrite length_fmap, length_map_to_list.
Qed.

Lemma registers_tokens max_tasks registry env req now ps st snap :
  store_wf max_tasks registry st -> fresh_env env st -> tokens_wf st ->
  registers env req now ps st snap ->
  tokens_wf (push_snapshot st (env_snapshot_id env) snap).
Proof.
  intros Hwf [_ Hdist Htok] [Hnd Hus] Hreg.
  pose proof (frozen_view_length req st) as Hlen. pose proof (reg_range _ _ _ _ _ _ Hreg) as Hps.
  apply (registers_wf _ _ _ _ _ _ _ _ Hwf) in Hreg as (_ & _ & _ & _ & _ & Hts).
  assert (Hsnd : (snap_tokens snap).*2 = imap (fun i _ => env_token env i)
                   (token_positions (Z.to_nat ps) (length (frozen_view req st)))).
  { rewrite Hts. apply list_eq. intros i. rewrite list_lookup_fmap, !list_lookup_imap. by destruct (_ !! i). }
  set (pos := token_positions _ _) in *.
  assert (Hn : (length pos <= size (tasks st))%nat).
  { unfold pos. rewrite length_token_positions. etrans; [apply Nat.Div0.div_le_upper_bound|exact Hlen]. nia. }
  assert (Hreg' : registry_tokens (push_snapshot st (env_snapshot_id env) snap)
                  = registry_tokens st ++ imap (fun i _ => env_token env i) pos).
  { unfold registry_tokens. simpl. rewrite flat_map_app. simpl. by rewrite app_nil_r, Hsnd. }
  assert (Hin : forall t, t ∈ imap (fun i _ => env_token env i) pos ->
                exists i, (i < size (tasks st))%nat /\ t = env_token env i).
  { intros t (i & p & -> & Hi%lookup_lt_Some)%elem_of_lookup_imap. exists i. split; [lia|done]. }
  split; rewrite Hreg'.
  - apply NoDup_app. split_and!; [done| |apply NoDup_imap_index; intros; apply Hdist; lia || done].
    intros t Ht (i & Hi & ->)%Hin. destruct (Htok i Hi) as [Hni _]. by apply Hni.
  - apply Forall_app. split; [done|]. apply Forall_forall. intros t (i & Hi & ->)%Hin. by apply (Htok i Hi).
Qed.

Lemma collected_fresh env env' st : fresh_env env st -> fresh_env env (collected env' st).
Proof.
  intros [Hid Hd Ht]. split; [by apply collected_ids|done|]. intros i Hi.
  destruct (Ht i Hi) as [Hn ?]. split; [|done]. intros Hin. apply Hn.
  eapply elem_of_sublist; [exact Hin|]. apply registry_tokens_sub, sublist_filter.
Qed.

(** Steps whose draws are fresh keep the registry's tokens well-formed. *)
Lemma fresh_step_wf max_tasks registry st st' :
  fresh_step max_tasks st st' -> store_wf max_tasks registry st /\ tokens_wf st ->
  store_wf max_tasks registry st' /\ tokens_wf st'.
Proof.
  intros Hstep [Hwf Htok]. destruct Hstep as [task st|task st|env req st Hfresh].
  - split; [by apply create_wf|]. eapply tokens_wf_sub, Htok. by rewrite create_snapshots.
  - split; [by apply update_wf|]. eapply tokens_wf_sub, Htok. by rewrite update_snapshots.
  - split; [by apply store_list_wf|].
    assert (Hct : tokens_wf (collected env st)) by (eapply tokens_wf_sub, Htok; apply sublist_filter).
    destruct (store_list_cases _ _ env req _ Hwf) as [[e ->]|(ps & _ & _ & [->|(_ & snap & Hreg & ->)])].
    + done.
    + done.
    + eapply registers_tokens; [by apply gc_wf|by apply collected_fresh|done|done].
Qed.

Lemma fresh_run_wf max_tasks registry st st' :
  rtc (fresh_step max_tasks) st st' -> store_wf max_tasks registry st /\ tokens_wf st ->
  store_wf max_tasks registry st' /\ tokens_wf st'.
Proof. induction 1; eauto using fresh_step_wf. Qed.

(** The clock the store has observed never goes back, and a snapshot stays
    registered until it passes the snapshot's expiry. *)
Lemma fresh_step_keeps max_tasks registry st st' i snap :
  store_wf max_tasks registry st -> fresh_step max_tasks st st' ->
  (observed_now st <= observed_now st')%N /\
  ((i, snap) ∈ snapshots st -> (observed_now st' < expires_at snap)%N -> (i, snap) ∈ snapshots st').
Proof.
  intros Hwf Hstep. destruct Hstep as [task st|task st|env req st Hfresh].
  - rewrite create_snapshots. split; [|done]. unfold create. repeat case_match; simpl; lia.
  - rewrite update_snapshots. split; [|done]. unfold update. repeat case_match; simpl; lia.
  - destruct (store_list_cases _ _ env req _ Hwf) as [[e ->]|(ps & _ & _ & [->|(_ & s & _ & ->)])]; simpl.
    + done.
    + split; [lia|]. intros Hi Hlt. by apply list_elem_of_filter.
    + split; [lia|]. intros Hi Hlt. apply elem_of_app. left. by apply list_elem_of_filter.
Qed.

Lemma fresh_run_keeps max_tasks registry st st' i snap :
  rtc (fresh_step max_tasks) st st' -> store_wf max_tasks registry st /\ tokens_wf st ->
  (observed_now st <= observed_now st')%N /\
  ((i, snap) ∈ snapshots st -> (observed_now st' < expires_at snap)%N -> (i, snap) ∈ snapshots st').
Proof.
  induction 1 as [st|st mid st' Hstep _ IH]; intros Hwf; [done|].
  destruct (fresh_step_keeps _ _ _ _ i snap (proj1 Hwf) Hstep) as [Hm Hk].
  destruct (IH (fresh_step_wf _ _ _ _ Hstep Hwf)) as [Hm' Hk'].
  split; [lia|]. intros Hi Hlt. apply Hk'; [|done]. apply Hk; [done|lia].
Qed.

Definition with_token (req : ListTasksRequest) (token : string) : ListTasksRequest := {|
  req_context_id := req_context_id req; req_status := req_status req; req_page_size := req_page_size req;
  req_page_token := Some token; req_history_length := req_history_length req;
  req_status_timestamp_after := req_status_timestamp_after req;
  req_include_artifacts := req_include_artifacts req; req_tenant := req_tenant req |}.

Lemma position_of_nodup token p toks :
  NoDup toks.*2 -> (p, token) ∈ toks -> position_of token toks = Some p.
Proof.
  induction toks as [|[q u] toks IH]; simpl; [by intros _ ?%not_elem_of_nil|].
  rewrite NoDup_cons. intros [Hu Hnd] [[= -> ->]|Hin]%elem_of_cons; [by rewrite bool_decide_true|].
  rewrite bool_decide_false; [auto|]. intros ->. apply Hu, list_elem_of_fmap. by exists (p, token).
Qed.

Lemma position_of_foreign token toks : token ∉ toks.*2 -> position_of token toks = None.
Proof.
  induction toks as [|[q u] toks IH]; simpl; [done|]. intros Hn.
  rewrite bool_decide_false by set_solver. set_solver.
Qed.

(** Distinct tokens: a token leads to the one snapshot that issued it. *)
Lemma find_token_nodup token i snap p snaps :
  NoDup (flat_map (fun q : string * MemorySnapshot => (snap_tokens q.2).*2) snaps) ->
  (i, snap) ∈ snaps -> (p, token) ∈ snap_tokens snap -> find_token token snaps = Some (snap, p).
Proof.
  induction snaps as [|[j s] snaps IH]; simpl; [by intros _ ?%not_elem_of_nil|].
  intros (Hs & Hdis & Hnd)%NoDup_app [[= -> ->]|Hin]%elem_of_cons Hp.
  - by rewrite (position_of_nodup _ p).
  - rewrite position_of_foreign; [by apply IH|]. intros Ht. apply (Hdis _ Ht).
    apply list_elem_of_In, in_flat_map. exists (i, snap). split; [by apply list_elem_of_In|].
    apply list_elem_of_In, list_elem_of_fmap. by exists (p, token).
Qed.

Lemma registered_token st i snap p token :
  (i, snap) ∈ snapshots st -> (p, token) ∈ snap_tokens snap -> token ∈ registry_tokens st.
Proof.
  intros Hi Hp. apply list_elem_of_In, in_flat_map. exists (i, snap). split; [by apply list_elem_of_In|].
  apply list_elem_of_In, list_elem_of_fmap. by exists (p, token).
Qed.

Lemma collected_wf max_tasks registry env st :
  store_wf max_tasks registry st /\ tokens_wf st ->
  store_wf max_tasks registry (collected env st) /\ tokens_wf (collected env st).
Proof. intros [Hwf Htk]. split; [by apply gc_wf|]. eapply tokens_wf_sub, Htk. apply sublist_filter. Qed.

(** A live token of a registered snapshot is answered with exactly its page. *)
Lemma token_page max_tasks registry env req ps st i snap ts p token :
  store_wf max_tasks registry st -> tokens_wf st ->
  validate_list_request req = Ok (ps, from_request req ps) ->
  (i, snap) ∈ snapshots st -> snap_wf snap ts -> snap_scope snap = from_request req ps ->
  (N.max (env_clock env) (observed_now st) < expires_at snap)%N -> (p, token) ∈ snap_tokens snap ->
  store_list env (with_token req token) st = (collected env st, memory_page snap p).
Proof.
  intros Hwf [Hnd Hus] Hv Hi Hts Hsc Hlt Hp. unfold store_list.
  change (validate_list_request (with_token req token)) with (validate_list_request req).
  rewrite Hv. simpl. fold (collected env st). f_equal. unfold list_by_token.
  assert (Hin : token ∈ registry_tokens st).
  { by eapply registered_token. }
  rewrite Forall_forall in Hus. destruct (Hus _ Hin) as [_ Hlen].
  destruct (N.ltb_spec MAX_PAGE_TOKEN_BYTES (slen token)); [lia|]. simpl.
  assert (Hfind : find_token token (snapshots (collected env st)) = Some (snap, p)).
  { apply (find_token_nodup _ i); [|by apply list_elem_of_filter|done].
    apply (sublist_NoDup _ _ Hnd), (registry_tokens_sub st (collected env st)), sublist_filter. }
  simpl in Hfind. rewrite Hfind. simpl. rewrite bool_decide_true by done. rewrite bool_decide_true by done. simpl.
  pose proof (snap_range _ _ Hts) as Hr. rewrite usize_of_Z_pos by lia. simpl.
  assert (Hpp : p ∈ token_positions (Z.to_nat (snap_page_size snap)) (length ts)).
  { rewrite <- (snap_positions _ _ Hts). apply list_elem_of_fmap. by exists (p, token). }
  apply token_positions_elem in Hpp as (k & Hk & -> & Hkl); [|lia].
  rewrite (Forall2_length _ _ _ (snap_decodes _ _ Hts)).
  destruct (Nat.eqb_spec (k * Z.to_nat (snap_page_size snap)) 0); [nia|].
  destruct (Nat.ltb_spec (length ts) (k * Z.to_nat (snap_page_size snap))); [lia|].
  by rewrite Nat.Div0.mod_mul.
Qed.

(** A client that follows [nextPageToken] to the end, while other clients make
    any calls in between; each of its calls is made before [deadline]. *)
Inductive read_on (max_tasks : N) (req : ListTasksRequest) (deadline : N) :
    StoreState -> string -> list Task -> Prop :=
  | read_end st : read_on max_tasks req deadline st "" []
  | read_next st st1 env token resp rest :
      token <> "" -> rtc (fresh_step max_tasks) st st1 ->
      fresh_env env st1 -> (N.max (env_clock env) (observed_now st1) < deadline)%N ->
      (store_list env (with_token req token) st1).2 = Ok resp ->
      read_on max_tasks req deadline (store_list env (with_token req token) st1).1
        (resp_next_page_token resp) rest ->
      read_on max_tasks req deadline st token (resp_tasks resp ++ rest).

(** The next token of a page is empty exactly at the end of the view. *)
Lemma next_token_cases snap ts p k :
  snap_wf snap ts -> p = (k * Z.to_nat (snap_page_size snap))%nat -> (p < length ts)%nat ->
  let stop := Nat.min (p + Z.to_nat (snap_page_size snap)) (length ts) in
  (length ts <= p + Z.to_nat (snap_page_size snap))%nat /\ token_at stop (snap_tokens snap) = None \/
  (p + Z.to_nat (snap_page_size snap) < length ts)%nat /\
  exists token, token_at stop (snap_tokens snap) = Some token /\
    (p + Z.to_nat (snap_page_size snap), token)%nat ∈ snap_tokens snap.
Proof.
  intros Hts -> Hlt stop. set (ps := Z.to_nat (snap_page_size snap)) in *.
  assert (Hps : (0 < ps)%nat) by (pose proof (snap_range _ _ Hts); lia).
  pose proof (snap_positions _ _ Hts) as Hpos. fold ps in Hpos.
  destruct (Nat.le_gt_cases (length ts) (k * ps + ps)) as [Hle|Hgt]; [left|right].
  - split; [done|]. apply token_at_None. rewrite Hpos.
    intros (j & _ & _ & Hj)%token_positions_elem; [|done]. unfold stop in Hj. lia.
  - split; [done|]. assert (Hstop : stop = (k * ps + ps)%nat) by lia. rewrite <- Hstop.
    destruct (token_at stop (snap_tokens snap)) as [token|] eqn:Htok; [by eauto using token_at_Some|].
    apply token_at_None in Htok. destruct Htok. rewrite Hpos.
    apply token_positions_elem; [done|]. exists (k + 1)%nat. lia.
Qed.

Lemma read_on_rest max_tasks registry req ps i snap ts st token rest :
  read_on max_tasks req (expires_at snap) st token rest ->
  validate_list_request req = Ok (ps, from_request req ps) ->
  snap_wf snap ts -> snap_scope snap = from_request req ps ->
  forall k, store_wf max_tasks registry st /\ tokens_wf st -> (i, snap) ∈ snapshots st ->
  (token = "" -> (length ts <= k * Z.to_nat ps)%nat) ->
  (token <> "" -> (k * Z.to_nat ps, token)%nat ∈ snap_tokens snap) ->
  rest = drop (k * Z.to_nat ps) ts.
Proof.
  intros Hread Hv Hts Hsc.
  assert (Hsize : snap_page_size snap = ps) by (rewrite <- (snap_size _ _ Hts), Hsc; done).
  induction Hread as [st|st st1 env token resp rest Hne Hrun Hfresh Hdl Hresp _ IH]; intros k Hwf Hi Hend Htok.
  { by rewrite drop_ge by auto. }
  specialize (Htok Hne). pose proof (fresh_run_wf _ _ _ _ Hrun Hwf) as [Hwf1 Htk1].
  pose proof (snap_wf_position _ _ _ _ Hts Htok) as Hlt.
  assert (Hi1 : (i, snap) ∈ snapshots st1).
  { eapply (fresh_run_keeps _ _ _ _ i snap Hrun Hwf); [done|]. lia. }
  pose proof (token_page _ _ env _ _ _ _ _ _ _ _ Hwf1 Htk1 Hv Hi1 Hts Hsc Hdl Htok) as Hpage.
  rewrite (memory_page_Ok _ _ _ Hts) in Hpage by lia. rewrite Hpage in Hresp, IH.
  injection Hresp as <-. cbn [fst snd resp_tasks resp_next_page_token] in *. rewrite Hsize in *.
  specialize (IH (k + 1)%nat (collected_wf _ _ env _ (conj Hwf1 Htk1))).
  rewrite <- (take_drop (Z.to_nat ps) (drop (k * Z.to_nat ps) ts)) at 2. rewrite drop_drop. f_equal.
  replace (k * Z.to_nat ps + Z.to_nat ps)%nat with ((k + 1) * Z.to_nat ps)%nat by lia.
  destruct (next_token_cases snap ts _ k Hts eq_refl) as [[Hle Hnone]|(Hgt & tok & Hsome & Htok')];
    rewrite Hsize in *; [done| |].
  - rewrite Hnone in IH. apply IH; [by apply list_elem_of_filter|intros _; lia|done].
  - rewrite Hsome in IH. replace (k * Z.to_nat ps + Z.to_nat ps)%nat with ((k + 1) * Z.to_nat ps)%nat in Htok' by lia.
    apply IH; [by apply list_elem_of_filter| |done]. simpl. intros ->.
    pose proof (tokens_usable _ Htk1) as Hus. rewrite Forall_forall in Hus.
    destruct (Hus "") as [Hbad _]; [by eapply registered_token|done].
Qed.

Lemma read_all max_tasks registry req ps i snap ts st rest :
  read_on max_tasks req (expires_at snap) st
    (default "" (token_at (Nat.min (0 + Z.to_nat (snap_page_size snap)) (length ts)) (snap_tokens snap))) rest ->
  validate_list_request req = Ok (ps, from_request req ps) ->
  snap_wf snap ts -> snap_scope snap = from_request req ps ->
  store_wf max_tasks registry st /\ tokens_wf st -> (i, snap) ∈ snapshots st -> (0 < length ts)%nat ->
  take (Z.to_nat (snap_page_size snap)) (drop 0 ts) ++ rest = ts.
Proof.
  intros Hread Hv Hts Hsc Hwf Hi Hpos.
  assert (Hsize : snap_page_size snap = ps) by (rewrite <- (snap_size _ _ Hts), Hsc; done).
  rewrite drop_0. rewrite (read_on_rest _ registry _ _ i _ _ _ _ _ Hread Hv Hts Hsc 1 Hwf Hi).
  - rewrite Nat.mul_1_l, Hsize. apply take_drop.
  - rewrite Nat.mul_1_l, <- Hsize.
    destruct (next_token_cases snap ts 0 0 Hts eq_refl Hpos) as [[Hle _]|(_ & tok & Hsome & Htok)]; [by intros|].
    rewrite Hsome. simpl. intros ->. pose proof (tokens_usable _ (proj2 Hwf)) as Hus.
    rewrite Forall_forall in Hus. destruct (Hus "") as [Hbad _]; [by eapply registered_token|done].
  - rewrite Nat.mul_1_l, <- Hsize.
    destruct (next_token_cases snap ts 0 0 Hts eq_refl Hpos) as [[_ ->]|(_ & tok & Hsome & Htok)]; [done|].
    by rewrite Hsome.
Qed.

Lemma first_page_registers env req now ps st resp :
  (1 <= ps <= 100)%Z -> reusable_snapshot st (from_request req ps) now = None ->
  (list_first_page env req now ps (from_request req ps) st).2 = Ok resp ->
  env_snapshot_id env ∉ (snapshots st).*1 ->
  (list_first_page env req now ps (from_request req ps) st).1 = st /\
    resp_tasks resp = frozen_view req st /\ resp_next_page_token resp = "" \/
  exists snap, registers env req now ps st snap /\ memory_page snap 0 = Ok resp /\
    (list_first_page env req now ps (from_request req ps) st).1
      = push_snapshot st (env_snapshot_id env) snap.
Proof.
  intros Hps Hre. unfold list_first_page. rewrite Hre, usize_of_Z_pos by lia.
  change (freeze_projection (map_to_list (tasks st)).*2 req) with (frozen_view req st).
  destruct (Nat.leb_spec (length (frozen_view req st)) (Z.to_nat ps)).
  { intros [= <-] _. by left. }
  destruct (new_snapshot _ _ _ _ _ _ _) as [snap|] eqn:Hnew; [|done]. intros Hresp Hid. right. exists snap.
  revert Hresp. cbn [push_snapshot snapshots]. rewrite find_id_fresh by done. done.
Qed.


(** C33: Page tokens are live until expiry: a token issued by a registered
    snapshot is answered with its page after any interleaved calls, as long as
    the clock is before the expiry and the request has the snapshot's scope. *)
Theorem page_token_resolves max_tasks registry env req ps st st' i snap p token :
  rtc (fresh_step max_tasks) (default_state registry) st ->
  (i, snap) ∈ snapshots st -> (p, token) ∈ snap_tokens snap ->
  rtc (fresh_step max_tasks) st st' ->
  validate_list_request req = Ok (ps, snap_scope snap) ->
  (N.max (env_clock env) (observed_now st') < expires_at snap)%N ->
  exists ts, snap_wf snap ts /\
    exists resp, (store_list env (with_token req token) st').2 = Ok resp /\
      resp_tasks resp = take (Z.to_nat ps) (drop p ts).
Proof.
  intros Hrun0 Hi Hp Hrun Hv Hlt.
  assert (Hwf : store_wf max_tasks registry st /\ tokens_wf st).
  { apply (fresh_run_wf _ _ _ _ Hrun0). split; [apply default_wf|]. split; constructor. }
  destruct (stored_snapshot _ _ _ _ _ (proj1 Hwf) Hi) as [ts Hts]. exists ts. split; [done|].
  destruct (validate_list_request_Ok _ _ _ Hv) as (_ & Hsc & _). rewrite Hsc in Hv.
  destruct (fresh_run_wf _ _ _ _ Hrun Hwf) as [Hwf' Htk'].
  assert (Hi' : (i, snap) ∈ snapshots st').
  { eapply (fresh_run_keeps _ _ _ _ i snap Hrun Hwf); [done|]. lia. }
  rewrite (token_page _ _ env _ _ _ _ _ _ _ _ Hwf' Htk' Hv Hi' Hts Hsc Hlt Hp).
  pose proof (snap_wf_position _ _ _ _ Hts Hp).
  rewrite (memory_page_Ok _ _ _ Hts) by lia. eexists. split; [done|]. simpl.
  by rewrite <- (snap_size _ _ Hts), Hsc.
Qed.

(** Page tokens are capabilities of one scope: a request with a token is
    answered only from an unexpired snapshot that issued this very token for the
    same context, state, time bound, page size, projection and tenant. *)
Theorem page_token_scoped env req token st resp :
  (store_list env (with_token req token) st).2 = Ok resp ->
  exists i snap p, (i, snap) ∈ snapshots st /\ (p, token) ∈ snap_tokens snap /\
    (N.max (env_clock env) (observed_now st) < expires_at snap)%N /\
    snap_scope snap = from_request req (default 50%Z (req_page_size req)) /\
    memory_page snap p = Ok resp.
Proof.
  unfold store_list. change (validate_list_request (with_token req token)) with (validate_list_request req).
  destruct (validate_list_request req) as [[ps scope]|] eqn:Hv; [|done].
  destruct (validate_list_request_Ok _ _ _ Hv) as (Hps & -> & <-). cbn [with_token req_page_token snd].
  unfold list_by_token. intros Hr. apply bind_Ok_inv in Hr as ([] & _ & Hr).
  apply bind_Ok_inv in Hr as ([snap p] & Hf%ok_or_Ok & Hr).
  apply find_token_Some in Hf as (i & Hi & Hp%position_of_Some).
  apply list_elem_of_filter in Hi as [_ Hi]. inv_ok. exists i, snap, p. by split_and!.
Qed.

(** A listing depends on the stored tasks only: whatever order the hash map
    enumerates its values in, the frozen view is the same. *)
Theorem frozen_view_order_independent max_tasks registry req st values :
  rtc (store_step max_tasks) (default_state registry) st ->
  values ≡ₚ (map_to_list (tasks st)).*2 -> freeze_projection values req = frozen_view req st.
Proof.
  intros Hrun Hp. symmetry. apply freeze_projection_perm; [|done].
  eapply stored_ids_nodup, run_wf, default_wf. exact Hrun.
Qed.
End runs.

(** ** Sample runs

    A codec for a fixed table of tasks and a layout with exact capacities. *)

Definition sample_task (name : string) (s : TaskState) (at_ : Z) : Task := {|
  id := name; context_id := "ctx";
  status := {| state := s; status_message := None; timestamp := Some at_ |};
  artifacts := None; history := None; metadata := None |}.

Definition sample_table : list (string * Task) :=
  [("A", sample_task "a" Submitted 1); ("B", sample_task "b" Working 2);
   ("C", sample_task "c" Submitted 3)].

Fixpoint table_encode (table : list (string * Task)) (t : Task) : option string :=
  match table with
  | [] => None
  | (b, u) :: table => if bool_decide (u = t) then Some b else table_encode table t
  end.

Fixpoint table_decode (table : list (string * Task)) (b : string) : option Task :=
  match table with
  | [] => None
  | (c, u) :: table => if bool_decide (c = b) then Some u else table_decode table b
  end.

Lemma table_roundtrip table t b :
  NoDup table.*1 -> table_encode table t = Some b -> table_decode table b = Some t.
Proof.
  induction table as [|[c u] table IH]; simpl; [done|]. rewrite NoDup_cons. intros [Hc Hnd].
  case_bool_decide as Hu; [intros [= ->]; by rewrite bool_decide_true, Hu|].
  intros He. pose proof (IH Hnd He) as Hd. case_bool_decide as Hcb; [|done]. subst c. destruct Hc.
  clear -Hd. induction table as [|[c v] table IH]; simpl in *; [done|].
  case_bool_decide; subst; [by left|]. right; auto.
Qed.

#[local] Program Instance sample_codec : TaskCodec := {|
  task_to_vec := table_encode sample_table; task_from_slice := table_decode sample_table |}.
Next Obligation. intros t b. apply table_roundtrip. repeat constructor; set_solver. Qed.

#[local] Instance sample_layout : Layout := {|
  snapshot_slot_bytes := 200; string_capacity := slen;
  frozen_capacity := len; tokens_capacity := len |}.

Definition sample_registry : N := 128 * 200 + 24.

Definition sample_request : ListTasksRequest := {|
  req_context_id := Some "ctx"; req_status := None; req_page_size := Some 2%Z; req_page_token := None;
  req_history_length := None; req_status_timestamp_after := None; req_include_artifacts := None;
  req_tenant := None |}.

Definition sample_env (clock : N) (tok ident : string) : list_env := {|
  env_clock := clock; env_token := fun i => if bool_decide (i = 0%nat) then tok else if bool_decide (i = 1%nat) then String.append tok "1" else String.append tok "2"; env_snapshot_id := ident |}.

Definition sample_state (n : nat) : StoreState :=
  foldl (fun st t => (create 3 t st).1) (default_state sample_registry) (take n (sample_table.*2)).

Definition sample_listed : StoreState :=
  (store_list (sample_env 10 "t" "s1") sample_request (sample_state 3)).1.

Definition sample_moved : StoreState := (update (sample_task "a" Completed 9) sample_listed).1.

Lemma sample_run_state n : rtc (store_step 3) (default_state sample_registry) (sample_state n).
Proof.
  unfold sample_state. generalize (default_state sample_registry). induction (take n (sample_table.*2)) as [|t l IH]; intros st; simpl; [apply rtc_refl|].
  eapply rtc_l; [|apply IH]. exact (store_call 3 (OpCreate t) st).
Qed.

Lemma sample_fresh_state n : rtc (fresh_step 3) (default_state sample_registry) (sample_state n).
Proof.
  unfold sample_state. generalize (default_state sample_registry). induction (take n (sample_table.*2)) as [|t l IH]; intros st; simpl; [apply rtc_refl|].
  eapply rtc_l; [|apply IH]. apply fresh_create.
Qed.

Lemma sample_env_fresh clock tok ident st :
  size (tasks st) = 3%nat -> bool_decide (ident ∈ (snapshots st).*1) = false ->
  forallb (fun i => let t := env_token (sample_env clock tok ident) i in
             negb (bool_decide (t ∈ registry_tokens st)) && negb (bool_decide (t = ""))
             && (slen t <=? MAX_PAGE_TOKEN_BYTES)%N) (seq 0 3) = true ->
  bool_decide (NoDup (env_token (sample_env clock tok ident) <$> seq 0 3)) = true ->
  fresh_env (sample_env clock tok ident) st.
Proof.
  intros Hsize Hid Htok Hnd. inv_ok. split; rewrite ?Hsize.
  - done.
  - intros i j Hi Hj. apply (NoDup_fmap_inj_on _ _ Hnd); apply elem_of_seq; lia.
  - intros i Hi. rewrite forallb_forall in Htok. specialize (Htok i).
    rewrite in_seq in Htok. specialize (Htok ltac:(lia)). cbv zeta in Htok. inv_ok. done.
Qed.

Lemma store_refines_lifecycle_witness :
  exists t, tasks sample_moved !! "a" = Some t /\ lifecycle_reaches Submitted (state (status t)).
Proof.
  destruct (store_refines_lifecycle 3 (sample_state 3) sample_moved "a" (sample_task "a" Submitted 1))
    as (t & Ht & Hreach & _).
  - eapply rtc_l; [exact (store_call 3 (OpList (sample_env 10 "t" "s1") sample_request) (sample_state 3))|].
    apply rtc_once. exact (store_call 3 (OpUpdate (sample_task "a" Completed 9)) sample_listed).
  - vm_compute. reflexivity.
  - exists t. split; [exact Ht|exact Hreach].
Defined.

Lemma store_invariant_witness :
  store_wf 3 sample_registry sample_listed /\ len (snapshots sample_listed) = 1%N.
Proof.
  split; [|vm_compute; reflexivity].
  apply (store_invariant 3 sample_registry sample_listed); [vm_compute; reflexivity|].
  eapply rtc_r; [apply (sample_run_state 3)|].
  exact (store_call 3 (OpList (sample_env 10 "t" "s1") sample_request) (sample_state 3)).
Defined.

Lemma store_list_sound_witness :
  exists resp, (store_list (sample_env 10 "t" "s1") sample_request (sample_state 3)).2 = Ok resp /\
    page_ok (from_request sample_request 2) resp.
Proof.
  destruct (store_list_sound 3 sample_registry (sample_env 10 "t" "s1") sample_request (sample_state 3)
    (sample_run_state 3)) as [_ Hok].
  eexists. split; [vm_compute; reflexivity|]. apply Hok; [vm_compute; reflexivity|].
  apply not_elem_of_nil.
Defined.


Lemma page_token_resolves_witness :
  exists resp, (store_list (sample_env 11 "u" "s2") (with_token sample_request "t") sample_moved).2 = Ok resp.
Proof.
  destruct (snapshots sample_listed) as [|[i snap] l] eqn:Hs; [vm_compute in Hs; discriminate|].
  vm_compute in Hs. injection Hs as Hi Hsnap Hl.
  destruct (page_token_resolves 3 sample_registry (sample_env 11 "u" "s2") sample_request 2
    sample_listed sample_moved i snap 2%nat "t") as (ts & _ & resp & Hresp & _).
  - eapply rtc_r; [apply (sample_fresh_state 3)|]. apply fresh_list.
    apply sample_env_fresh; vm_compute; reflexivity.
  - subst. vm_compute. left.
  - subst. vm_compute. left.
  - apply rtc_once. apply fresh_update.
  - subst. vm_compute. reflexivity.
  - subst. vm_compute. reflexivity.
  - exists resp. exact Hresp.
Defined.

Lemma page_token_scoped_witness :
  exists i snap p, (i, snap) ∈ snapshots sample_moved /\ (p, "t") ∈ snap_tokens snap.
Proof.
  edestruct (page_token_scoped (sample_env 11 "u" "s2") sample_request "t" sample_moved)
    as (i & snap & p & Hi & Hp & _).
  - vm_compute. reflexivity.
  - exists i, snap, p. split; [exact Hi|exact Hp].
Defined.

Lemma frozen_view_order_independent_witness :
  freeze_projection [sample_task "c" Submitted 3; sample_task "a" Submitted 1; sample_task "b" Working 2]
    sample_request = frozen_view sample_request (sample_state 3).
Proof.
  apply (frozen_view_order_independent 3 sample_registry sample_request (sample_state 3)).
  - apply (sample_run_state 3).
  - apply (bool_decide_unpack _). vm_compute. reflexivity.
Defined.
