(* ===== verification/Policy.v ===== *)
(** * The completion policy

    [src/policy.rs]: whether a finished task may be reported as completed.  A
    versioned policy evaluates one snapshot of evidence (reviews, tests,
    attestations, contradiction reports and at most one human ratification)
    over one set of artifacts, fails closed on malformed evidence, and otherwise
    accepts with a sealed receipt, waits for ratification, or blocks with
    reasons.  The serializers ([serde_json]), the two hash functions and the
    Ed25519 check of [smesh_core] are parameters. *)

From S2P Require Import Prelude Text.

Local Open Scope N_scope.

Definition COMPLETION_POLICY_V1 : string := "smesh-completion/v1".
Definition MAX_TEXT_BYTES : N := 512.
Definition MAX_EVIDENCE_PAYLOAD_BYTES : N := 64 * 1024.

(** ** Data *)

Record ArtifactManifest := {
  artifact_name : string;
  artifact_media_type : string;
  artifact_digest : string }.

Record ClosedAttestation := {
  att_node_id : string;
  att_public_key : string;
  att_signature : string }.

Record TrustedAuthority := {
  auth_node_id : string;
  auth_public_key : string }.

Record RatificationStatement := {
  stmt_policy_hash : string;
  stmt_evidence_snapshot_hash : string;
  stmt_artifact_set_digest : string;
  stmt_approved : bool }.

Record RatificationReceipt := {
  statement : RatificationStatement;
  authority : ClosedAttestation }.

Inductive CompletionEvidence :=
  | Review (id issuer subject_digest evidence evidence_digest : string) (approved : bool)
           (assurance_bps : N)
  | Test_ (id issuer subject_digest evidence evidence_digest : string) (passed : bool)
          (assurance_bps : N)
  | Attestation (id subject_digest : string) (attestation : ClosedAttestation) (assurance_bps : N)
  | Contradiction (id issuer subject_digest evidence evidence_digest : string) (blocking : bool)
  | Ratification (receipt : RatificationReceipt).

#[global] Instance ArtifactManifest_eq_dec : EqDecision ArtifactManifest.
Proof. solve_decision. Defined.
#[global] Instance ClosedAttestation_eq_dec : EqDecision ClosedAttestation.
Proof. solve_decision. Defined.
#[global] Instance TrustedAuthority_eq_dec : EqDecision TrustedAuthority.
Proof. solve_decision. Defined.
#[global] Instance RatificationStatement_eq_dec : EqDecision RatificationStatement.
Proof. solve_decision. Defined.
#[global] Instance RatificationReceipt_eq_dec : EqDecision RatificationReceipt.
Proof. solve_decision. Defined.
#[global] Instance CompletionEvidence_eq_dec : EqDecision CompletionEvidence.
Proof. solve_decision. Defined.

Definition evidence_id (e : CompletionEvidence) : option string :=
  match e with
  | Review id _ _ _ _ _ _ | Test_ id _ _ _ _ _ _ | Attestation id _ _ _
  | Contradiction id _ _ _ _ _ => Some id
  | Ratification _ => None
  end.

Definition subject_digest (e : CompletionEvidence) : option string :=
  match e with
  | Review _ _ s _ _ _ _ | Test_ _ _ s _ _ _ _ | Attestation _ s _ _
  | Contradiction _ _ s _ _ _ => Some s
  | Ratification _ => None
  end.

Definition evidence_assurance (e : CompletionEvidence) : option N :=
  match e with
  | Review _ _ _ _ _ _ a | Test_ _ _ _ _ _ _ a | Attestation _ _ _ a => Some a
  | Contradiction _ _ _ _ _ _ | Ratification _ => None
  end.

Definition provenance_identity (e : CompletionEvidence) : option string :=
  match e with
  | Review _ _ _ _ d _ _ | Test_ _ _ _ _ d _ _ | Contradiction _ _ _ _ d _ => Some d
  | Attestation _ _ a _ =>
      Some ("attestation:" +:+ att_node_id a +:+ ":" +:+ att_public_key a +:+ ":" +:+ att_signature a)
  | Ratification _ => None
  end.

Record CompletionSnapshot := {
  snap_task_id : string;
  snap_context_id : string;
  snap_request_digest : string;
  snap_artifacts : list ArtifactManifest;
  snap_evidence : list CompletionEvidence }.

Record CompletionPolicySpec := {
  policy_id : string;
  version : N;
  required_reviews : N;
  required_tests : N;
  required_attestations : N;
  required_contradiction_clearances : N;
  min_assurance_bps : N;
  require_human_ratification : bool;
  review_issuers : list string;
  test_issuers : list string;
  contradiction_issuers : list string;
  attestation_authorities : list TrustedAuthority;
  ratification_authorities : list TrustedAuthority;
  max_evidence_records : N;
  max_artifacts : N }.

Definition development : CompletionPolicySpec := {|
  policy_id := COMPLETION_POLICY_V1; version := 1; required_reviews := 1; required_tests := 1;
  required_attestations := 0; required_contradiction_clearances := 1; min_assurance_bps := 7500;
  require_human_ratification := false; review_issuers := ["review-authority"];
  test_issuers := ["test-authority"]; contradiction_issuers := ["contradiction-monitor"];
  attestation_authorities := []; ratification_authorities := [];
  max_evidence_records := 32; max_artifacts := 16 |}.

(** The sealed fields of a checkpoint and of a receipt; the checkpoint and the
    receipt themselves add the seal. *)
Record CheckpointClaims := {
  claim_task_id : string;
  claim_context_id : string;
  claim_request_digest : string;
  claim_policy_id : string;
  claim_policy_version : N;
  claim_policy_hash : string;
  claim_evidence_snapshot_hash : string;
  claim_artifact_set_digest : string;
  claim_evidence_hashes : list string;
  claim_assurance_bps : N }.

Record ReceiptClaims := {
  receipt_base : CheckpointClaims;
  ratification_receipt_hash : option string }.

Record PolicyCheckpoint := { checkpoint_claims : CheckpointClaims; checkpoint_seal : string }.
Record CompletionReceipt := { receipt_claims : ReceiptClaims; receipt_seal : string }.

Record NormalizedSnapshot := {
  norm_task_id : string;
  norm_context_id : string;
  norm_request_digest : string;
  norm_artifacts : list ArtifactManifest;
  norm_evidence : list CompletionEvidence }.

Inductive PolicyBlockReason :=
  | BlockingContradiction | FailedReview | FailedTest | InsufficientReviews | InsufficientTests
  | InsufficientAttestations | InsufficientContradictionClearances | InsufficientAssurance
  | HumanRejected.

#[global] Instance PolicyBlockReason_eq_dec : EqDecision PolicyBlockReason.
Proof. solve_decision. Defined.

Inductive PolicyDecision :=
  | Accepted (receipt : CompletionReceipt)
  | AwaitingRatification (checkpoint : PolicyCheckpoint)
  | Blocked (checkpoint : PolicyCheckpoint) (reasons : list PolicyBlockReason).

Inductive PolicyError :=
  | InvalidPolicy (why : string)
  | MissingArtifact
  | ArtifactLimitExceeded (actual limit : N)
  | EvidenceLimitExceeded (actual limit : N)
  | InvalidDigest (field value : string)
  | EvidencePayloadTooLarge (limit : N)
  | EvidenceDigestMismatch
  | DuplicateEvidenceId (id : string)
  | DuplicateEvidenceProvenance (identity : string)
  | DuplicateArtifactDigest (digest : string)
  | SubjectDigestMismatch (expected actual : string)
  | InvalidAssurance (bps : N)
  | InvalidAttestation (node : string)
  | UntrustedEvidenceIssuer (kind issuer : string)
  | MultipleRatifications
  | UnexpectedRatification
  | RatificationStatementMismatch
  | UntrustedRatificationAuthority
  | InvalidRatificationSignature
  | CanonicalEncoding (why : string)
  | InvalidText (field : string) (limit : N).

(** ** Parameters *)

(** [serde::Serialize] with [serde_json::to_vec]; the error is its message. *)
Class Serialize (T : Type) := to_vec : T -> result string string.

Class PolicyCodec := {
  ser_artifacts :: Serialize (list ArtifactManifest);
  ser_evidence :: Serialize CompletionEvidence;
  ser_snapshot :: Serialize NormalizedSnapshot;
  ser_spec :: Serialize CompletionPolicySpec;
  ser_statement :: Serialize RatificationStatement;
  ser_ratification :: Serialize RatificationReceipt;
  ser_checkpoint :: Serialize CheckpointClaims;
  ser_receipt :: Serialize ReceiptClaims }.

(** [smesh_core::Attestation::verify]: does the signature cover the claim? *)
Class AttestationScheme := attestation_verify : ClosedAttestation -> string -> bool.

(** ** Validators *)

Definition validate_text (field value : string) : result PolicyError unit :=
  fail_if (bool_decide (value = "") || (MAX_TEXT_BYTES <? slen value) || trim_is_empty value
           || existsb is_control (chars value)) (InvalidText field MAX_TEXT_BYTES).

(** The shape of a digest: ["sha256:"] and 64 lower-case hexadecimal digits. *)
Definition is_digest (value : string) : bool :=
  (slen value =? 71) &&
  match strip_prefix "sha256:" value with
  | Some digits => str_all (fun c => is_ascii_digit c || in_range 97 102 c) digits
  | None => false
  end.

Definition validate_digest (field value : string) : result PolicyError unit :=
  fail_if (negb (is_digest value)) (InvalidDigest field value).

Definition hex_nibble (c : ascii) : option N :=
  if in_range 48 57 c then Some (code c - 48)
  else if in_range 97 102 c then Some (code c - 97 + 10)
  else None.

(** The loop over the two-character chunks. *)
Fixpoint decode_hex (s : string) : option string :=
  match s with
  | String a (String b s) =>
      high ← hex_nibble a; low ← hex_nibble b;
      rest ← decode_hex s;
      Some (String (Ascii.ascii_of_N (N.lor (N.shiftl high 4) low)) rest)
  | _ => Some ""
  end.

Definition decode_sha256_tag (value : string) : option string :=
  digits ← strip_prefix "sha256:" value;
  if negb (slen digits =? 64) then None else decode_hex digits.

Section policy.
Context `{Sha256, HmacSha256, PolicyCodec, AttestationScheme}.

(** ** Digests and seals *)

Definition content_digest (bytes : string) : string := sha256_tag (sha256 bytes).

(** What [canonical_digest] feeds to the hasher. *)
Definition digest_preimage (domain bytes : string) : string :=
  "SMESH-A2A" +:+ nul +:+ "completion-policy" +:+ nul +:+ "smesh-json-v1" +:+ nul
  +:+ frame domain +:+ frame bytes.

Definition canonical_digest {T} `{Serialize T} (domain : string) (value : T) :
    result PolicyError string :=
  bytes ← map_err CanonicalEncoding (to_vec value);
  Ok (sha256_tag (sha256 (digest_preimage domain bytes))).

Definition completion_evidence_digest (e : CompletionEvidence) : result PolicyError string :=
  canonical_digest "evidence-record" e.

Definition statement_digest (s : RatificationStatement) : result PolicyError string :=
  canonical_digest "ratification-statement" s.

(** What the two seals authenticate. *)
Definition checkpoint_message (bytes : string) : string :=
  "SMESH-A2A" +:+ nul +:+ "completion-checkpoint" +:+ nul +:+ "v1" +:+ nul +:+ frame bytes.

Definition receipt_message (bytes : string) : string :=
  "SMESH-A2A" +:+ nul +:+ "completion-receipt" +:+ nul +:+ "v1" +:+ nul +:+ frame bytes.

Definition compute_checkpoint_seal (claims : CheckpointClaims) (key : string) :
    result PolicyError string :=
  bytes ← map_err CanonicalEncoding (to_vec claims);
  Ok (sha256_tag (hmac key (checkpoint_message bytes))).

Definition compute_receipt_seal (claims : ReceiptClaims) (key : string) :
    result PolicyError string :=
  bytes ← map_err CanonicalEncoding (to_vec claims);
  Ok (sha256_tag (hmac key (receipt_message bytes))).

(** ** Artifact sets *)

Definition artifact_key (a : ArtifactManifest) : string * (string * string) :=
  (artifact_digest a, (artifact_name a, artifact_media_type a)).

(** The loop over the sorted artifacts; the state is the set of digests seen. *)
Definition check_artifact (seen : gset string) (a : ArtifactManifest) :
    result PolicyError (gset string) :=
  validate_text "artifact.name" (artifact_name a);;
  validate_text "artifact.mediaType" (artifact_media_type a);;
  validate_digest "artifact.digest" (artifact_digest a);;
  fail_if (bool_decide (artifact_digest a ∈ seen)) (DuplicateArtifactDigest (artifact_digest a));;
  Ok ({[artifact_digest a]} ∪ seen).

Definition artifact_set_digest (artifacts : list ArtifactManifest) : result PolicyError string :=
  fail_if (bool_decide (artifacts = [])) MissingArtifact;;
  let normalized := sort_by_key artifact_key artifacts in
  try_fold check_artifact ∅ normalized;;
  canonical_digest "artifact-set" normalized.

(** ** Construction *)

Definition normalize_issuers (field : string) (issuers : list string) :
    result PolicyError (list string) :=
  let issuers := sort_by_key (fun i => i) issuers in
  try_each (validate_text field) issuers;;
  fail_if (windows2_any (fun a b => bool_decide (a = b)) issuers)
    (InvalidPolicy (field +:+ " must contain unique values"));;
  Ok issuers.

Definition authority_key (a : TrustedAuthority) : string * string :=
  (auth_node_id a, auth_public_key a).

Definition normalize_authorities (field : string) (authorities : list TrustedAuthority) :
    result PolicyError (list TrustedAuthority) :=
  let authorities := sort_by_key authority_key authorities in
  try_each (fun a => validate_text (field +:+ ".nodeId") (auth_node_id a);;
                     validate_text (field +:+ ".publicKey") (auth_public_key a)) authorities;;
  fail_if (windows2_any (fun a b => bool_decide (a = b)) authorities)
    (InvalidPolicy (field +:+ " must contain unique values"));;
  Ok authorities.

Record VersionedCompletionPolicy := {
  spec : CompletionPolicySpec;
  policy_hash : string;
  receipt_key : string }.

Definition with_lists (s : CompletionPolicySpec) (reviews tests contradictions : list string)
    (attestations ratifications : list TrustedAuthority) : CompletionPolicySpec := {|
  policy_id := policy_id s; version := version s; required_reviews := required_reviews s;
  required_tests := required_tests s; required_attestations := required_attestations s;
  required_contradiction_clearances := required_contradiction_clearances s;
  min_assurance_bps := min_assurance_bps s;
  require_human_ratification := require_human_ratification s; review_issuers := reviews;
  test_issuers := tests; contradiction_issuers := contradictions;
  attestation_authorities := attestations; ratification_authorities := ratifications;
  max_evidence_records := max_evidence_records s; max_artifacts := max_artifacts s |}.

Definition new_with_receipt_key (s : CompletionPolicySpec) (key : string) :
    result PolicyError VersionedCompletionPolicy :=
  validate_text "policyId" (policy_id s);;
  fail_if (negb (version s =? 1)) (InvalidPolicy "only completion policy version 1 is supported");;
  fail_if ((required_reviews s =? 0) || (required_tests s =? 0))
    (InvalidPolicy "at least one review and one test are mandatory");;
  fail_if (negb ((1 <=? min_assurance_bps s) && (min_assurance_bps s <=? 10000)))
    (InvalidPolicy "minAssuranceBps must be between 1 and 10000");;
  fail_if ((max_evidence_records s =? 0) || (max_artifacts s =? 0))
    (InvalidPolicy "evidence and artifact limits must be non-zero");;
  let required := required_reviews s + required_tests s + required_attestations s
                  + required_contradiction_clearances s in
  fail_if (max_evidence_records s <? required)
    (InvalidPolicy "required evidence exceeds maxEvidenceRecords");;
  reviews ← normalize_issuers "reviewIssuers" (review_issuers s);
  tests ← normalize_issuers "testIssuers" (test_issuers s);
  contradictions ← normalize_issuers "contradictionIssuers" (contradiction_issuers s);
  attestations ← normalize_authorities "attestationAuthorities" (attestation_authorities s);
  ratifications ← normalize_authorities "ratificationAuthorities" (ratification_authorities s);
  fail_if ((len reviews <? required_reviews s) || (len tests <? required_tests s)
           || (len attestations <? required_attestations s))
    (InvalidPolicy "configured evidence authorities cannot satisfy required counts");;
  fail_if (required_contradiction_clearances s =? 0)
    (InvalidPolicy "at least one contradiction clearance is mandatory");;
  fail_if (len contradictions <? required_contradiction_clearances s)
    (InvalidPolicy "configured contradiction issuers cannot satisfy required clearances");;
  fail_if (require_human_ratification s && bool_decide (ratifications = []))
    (InvalidPolicy "human ratification requires at least one authority");;
  fail_if (negb (require_human_ratification s) && negb (bool_decide (ratifications = [])))
    (InvalidPolicy "authorities are invalid when human ratification is disabled");;
  let s := with_lists s reviews tests contradictions attestations ratifications in
  hash ← canonical_digest "policy-profile" s;
  Ok {| spec := s; policy_hash := hash; receipt_key := key |}.

(** ** Verification of sealed values *)

Definition seal_matches (seal tag : string) : bool :=
  match decode_sha256_tag seal with
  | Some t => bool_decide (t = tag)
  | None => false
  end.

Definition verify_checkpoint (p : VersionedCompletionPolicy) (c : PolicyCheckpoint)
    (task_id context_id : string) : bool :=
  let claims := checkpoint_claims c in
  bool_decide (claim_task_id claims = task_id)
  && bool_decide (claim_context_id claims = context_id)
  && bool_decide (claim_policy_id claims = policy_id (spec p))
  && (claim_policy_version claims =? version (spec p))
  && bool_decide (claim_policy_hash claims = policy_hash p)
  && is_ok (validate_digest "checkpoint.requestDigest" (claim_request_digest claims))
  && is_ok (validate_digest "checkpoint.evidenceSnapshotHash" (claim_evidence_snapshot_hash claims))
  && is_ok (validate_digest "checkpoint.artifactSetDigest" (claim_artifact_set_digest claims))
  && forallb (fun d => is_ok (validate_digest "checkpoint.evidenceHash" d)) (claim_evidence_hashes claims)
  && (min_assurance_bps (spec p) <=? claim_assurance_bps claims)
  && match to_vec claims with
     | Err _ => false
     | Ok bytes => seal_matches (checkpoint_seal c) (hmac (receipt_key p) (checkpoint_message bytes))
     end.

Definition verify_receipt (p : VersionedCompletionPolicy) (r : CompletionReceipt) : bool :=
  let claims := receipt_base (receipt_claims r) in
  bool_decide (claim_policy_id claims = policy_id (spec p))
  && (claim_policy_version claims =? version (spec p))
  && bool_decide (claim_policy_hash claims = policy_hash p)
  && match to_vec (receipt_claims r) with
     | Err _ => false
     | Ok bytes => seal_matches (receipt_seal r) (hmac (receipt_key p) (receipt_message bytes))
     end.

(** ** Evidence records *)

Definition validate_claimed_evidence (kind issuer evidence evidence_digest : string)
    (allowed : list string) : result PolicyError unit :=
  validate_text "evidence.issuer" issuer;;
  fail_if (negb (bool_decide (issuer ∈ allowed))) (UntrustedEvidenceIssuer kind issuer);;
  fail_if (MAX_EVIDENCE_PAYLOAD_BYTES <? slen evidence)
    (EvidencePayloadTooLarge MAX_EVIDENCE_PAYLOAD_BYTES);;
  validate_digest "evidence.evidenceDigest" evidence_digest;;
  fail_if (negb (bool_decide (content_digest evidence = evidence_digest))) EvidenceDigestMismatch.

Definition allow_listed (authorities : list TrustedAuthority) (a : ClosedAttestation) : bool :=
  existsb (fun t => bool_decide (auth_node_id t = att_node_id a)
                    && bool_decide (auth_public_key t = att_public_key a)) authorities.

Definition validate_evidence_record (record : CompletionEvidence) (subject : string)
    (s : CompletionPolicySpec) : result PolicyError unit :=
  match record with
  | Review _ issuer _ evidence digest _ _ =>
      validate_claimed_evidence "review" issuer evidence digest (review_issuers s)
  | Test_ _ issuer _ evidence digest _ _ =>
      validate_claimed_evidence "test" issuer evidence digest (test_issuers s)
  | Contradiction _ issuer _ evidence digest _ =>
      validate_claimed_evidence "contradiction" issuer evidence digest (contradiction_issuers s)
  | Attestation _ _ a _ =>
      validate_text "attestation.nodeId" (att_node_id a);;
      validate_text "attestation.publicKey" (att_public_key a);;
      fail_if (negb (attestation_verify a subject)) (InvalidAttestation (att_node_id a));;
      fail_if (negb (allow_listed (attestation_authorities s) a))
        (UntrustedEvidenceIssuer "attestation" (att_node_id a))
  | Ratification _ => Err UnexpectedRatification
  end.

(** One iteration of the validation loop; the state is the ids and the
    provenance identities seen. *)
Definition check_record (s : CompletionPolicySpec) (subject : string)
    (seen : gset string * gset string) (record : CompletionEvidence) :
    result PolicyError (gset string * gset string) :=
  let '(ids, provenance) := seen in
  id ← ok_or (evidence_id record) UnexpectedRatification;
  validate_text "evidence.id" id;;
  fail_if (bool_decide (id ∈ ids)) (DuplicateEvidenceId id);;
  actual ← ok_or (subject_digest record) UnexpectedRatification;
  validate_digest "evidence.subjectDigest" actual;;
  fail_if (negb (bool_decide (actual = subject))) (SubjectDigestMismatch subject actual);;
  match evidence_assurance record with
  | Some a => fail_if (10000 <? a) (InvalidAssurance a)
  | None => Ok tt
  end;;
  validate_evidence_record record subject s;;
  identity ← ok_or (provenance_identity record) UnexpectedRatification;
  fail_if (bool_decide (identity ∈ provenance)) (DuplicateEvidenceProvenance identity);;
  Ok ({[id]} ∪ ids, {[identity]} ∪ provenance).

(** ** The tally *)

Record Tally := {
  t_reasons : list PolicyBlockReason;
  t_reviews : list N;
  t_tests : list N;
  t_attestations : list N;
  t_reviewers : gset string;
  t_testers : gset string;
  t_attesters : gset (string * string);
  t_clearances : gset string }.

Definition empty_tally : Tally := {|
  t_reasons := []; t_reviews := []; t_tests := []; t_attestations := [];
  t_reviewers := ∅; t_testers := ∅; t_attesters := ∅; t_clearances := ∅ |}.

Definition tally_record (t : Tally) (record : CompletionEvidence) : Tally :=
  match record with
  | Review _ issuer _ _ _ approved a =>
      if negb approved then
        {| t_reasons := FailedReview :: t_reasons t; t_reviews := t_reviews t; t_tests := t_tests t;
           t_attestations := t_attestations t; t_reviewers := t_reviewers t;
           t_testers := t_testers t; t_attesters := t_attesters t; t_clearances := t_clearances t |}
      else if bool_decide (issuer ∈ t_reviewers t) then t
      else
        {| t_reasons := t_reasons t; t_reviews := t_reviews t ++ [a]; t_tests := t_tests t;
           t_attestations := t_attestations t; t_reviewers := {[issuer]} ∪ t_reviewers t;
           t_testers := t_testers t; t_attesters := t_attesters t; t_clearances := t_clearances t |}
  | Test_ _ issuer _ _ _ passed a =>
      if negb passed then
        {| t_reasons := FailedTest :: t_reasons t; t_reviews := t_reviews t; t_tests := t_tests t;
           t_attestations := t_attestations t; t_reviewers := t_reviewers t;
           t_testers := t_testers t; t_attesters := t_attesters t; t_clearances := t_clearances t |}
      else if bool_decide (issuer ∈ t_testers t) then t
      else
        {| t_reasons := t_reasons t; t_reviews := t_reviews t; t_tests := t_tests t ++ [a];
           t_attestations := t_attestations t; t_reviewers := t_reviewers t;
           t_testers := {[issuer]} ∪ t_testers t; t_attesters := t_attesters t;
           t_clearances := t_clearances t |}
  | Attestation _ _ att a =>
      if bool_decide ((att_node_id att, att_public_key att) ∈ t_attesters t) then t
      else
        {| t_reasons := t_reasons t; t_reviews := t_reviews t; t_tests := t_tests t;
           t_attestations := t_attestations t ++ [a]; t_reviewers := t_reviewers t;
           t_testers := t_testers t;
           t_attesters := {[(att_node_id att, att_public_key att)]} ∪ t_attesters t;
           t_clearances := t_clearances t |}
  | Contradiction _ _ _ _ _ true =>
      {| t_reasons := BlockingContradiction :: t_reasons t; t_reviews := t_reviews t;
         t_tests := t_tests t; t_attestations := t_attestations t; t_reviewers := t_reviewers t;
         t_testers := t_testers t; t_attesters := t_attesters t; t_clearances := t_clearances t |}
  | Contradiction _ issuer _ _ _ false =>
      {| t_reasons := t_reasons t; t_reviews := t_reviews t; t_tests := t_tests t;
         t_attestations := t_attestations t; t_reviewers := t_reviewers t;
         t_testers := t_testers t; t_attesters := t_attesters t;
         t_clearances := {[issuer]} ∪ t_clearances t |}
  | Ratification _ => t
  end.

(** [sort_unstable_by(|l, r| r.cmp(l))] on integers: any sort is stable there. *)
Definition sort_descending : list N -> list N := sort_by_key Desc.

(** [xs.iter().filter(|a| **a >= min).count()] *)
Definition qualifying (minimum : N) (xs : list N) : N := len (filter (fun a => minimum <= a) xs).

Definition selected_assurance (reviews : list N) (need_reviews : N) (tests : list N) (need_tests : N)
    (attestations : list N) (need_attestations : N) : N :=
  let selected := take (N.to_nat need_reviews) reviews ++ take (N.to_nat need_tests) tests
                  ++ take (N.to_nat need_attestations) attestations in
  match selected with
  | [] => 0
  | x :: xs => foldl N.min x xs
  end.

(** A [BTreeSet] of reasons iterates in declaration order. *)
Definition all_reasons : list PolicyBlockReason :=
  [BlockingContradiction; FailedReview; FailedTest; InsufficientReviews; InsufficientTests;
   InsufficientAttestations; InsufficientContradictionClearances; InsufficientAssurance; HumanRejected].

Definition reason_set (rs : list PolicyBlockReason) : list PolicyBlockReason :=
  filter (fun r => r ∈ rs) all_reasons.

Definition reason_if (b : bool) (r : PolicyBlockReason) : list PolicyBlockReason :=
  if b then [r] else [].

(** The reasons of a tally and the assurance it selects. *)
Definition tally_assurance (s : CompletionPolicySpec) (t : Tally) : N :=
  selected_assurance (sort_descending (t_reviews t)) (required_reviews s)
    (sort_descending (t_tests t)) (required_tests s)
    (sort_descending (t_attestations t)) (required_attestations s).

Definition tally_reasons (s : CompletionPolicySpec) (t : Tally) : list PolicyBlockReason :=
  reason_set
    (t_reasons t
     ++ reason_if (qualifying (min_assurance_bps s) (sort_descending (t_reviews t)) <? required_reviews s)
          InsufficientReviews
     ++ reason_if (qualifying (min_assurance_bps s) (sort_descending (t_tests t)) <? required_tests s)
          InsufficientTests
     ++ reason_if (qualifying (min_assurance_bps s) (sort_descending (t_attestations t))
                   <? required_attestations s) InsufficientAttestations
     ++ reason_if (N.of_nat (size (t_clearances t)) <? required_contradiction_clearances s)
          InsufficientContradictionClearances
     ++ reason_if (tally_assurance s t <? min_assurance_bps s) InsufficientAssurance).

(** ** Evaluation *)

Definition as_ratification (e : CompletionEvidence) : option RatificationReceipt :=
  match e with Ratification r => Some r | _ => None end.

Definition is_record (e : CompletionEvidence) : bool :=
  match e with Ratification _ => false | _ => true end.

(** What the validated part of [evaluate] establishes. *)
Record Normalized := {
  n_artifacts : list ArtifactManifest;
  n_artifact_set_digest : string;
  n_records : list CompletionEvidence;
  n_ratifications : list RatificationReceipt }.

(** Field, size and well-formedness checks, up to the end of the record loop. *)
Definition normalize (s : CompletionPolicySpec) (snapshot : CompletionSnapshot) :
    result PolicyError Normalized :=
  validate_text "taskId" (snap_task_id snapshot);;
  validate_text "contextId" (snap_context_id snapshot);;
  validate_digest "requestDigest" (snap_request_digest snapshot);;
  fail_if (bool_decide (snap_artifacts snapshot = [])) MissingArtifact;;
  fail_if (max_artifacts s <? len (snap_artifacts snapshot))
    (ArtifactLimitExceeded (len (snap_artifacts snapshot)) (max_artifacts s));;
  fail_if (max_evidence_records s + 1 <? len (snap_evidence snapshot))
    (EvidenceLimitExceeded (len (snap_evidence snapshot)) (max_evidence_records s + 1));;
  let artifacts := sort_by_key artifact_key (snap_artifacts snapshot) in
  try_fold check_artifact ∅ artifacts;;
  set_digest ← artifact_set_digest artifacts;
  let records := filter (fun e => is_record e) (snap_evidence snapshot) in
  let ratifications := omap as_ratification (snap_evidence snapshot) in
  fail_if (max_evidence_records s <? len records)
    (EvidenceLimitExceeded (len records) (max_evidence_records s));;
  fail_if (1 <? len ratifications) MultipleRatifications;;
  let records := sort_by_key evidence_id records in
  try_fold (check_record s set_digest) (∅, ∅) records;;
  Ok {| n_artifacts := artifacts; n_artifact_set_digest := set_digest; n_records := records;
        n_ratifications := ratifications |}.

Definition tally (records : list CompletionEvidence) : Tally :=
  foldl tally_record empty_tally records.

(** The sealed checkpoint of a normalized snapshot. *)
Definition build_checkpoint (p : VersionedCompletionPolicy) (snapshot : CompletionSnapshot)
    (n : Normalized) : result PolicyError PolicyCheckpoint :=
  hashes ← try_map completion_evidence_digest (n_records n);
  snapshot_hash ← canonical_digest "evidence-snapshot"
    {| norm_task_id := snap_task_id snapshot; norm_context_id := snap_context_id snapshot;
       norm_request_digest := snap_request_digest snapshot; norm_artifacts := n_artifacts n;
       norm_evidence := n_records n |};
  let claims := {|
    claim_task_id := snap_task_id snapshot; claim_context_id := snap_context_id snapshot;
    claim_request_digest := snap_request_digest snapshot; claim_policy_id := policy_id (spec p);
    claim_policy_version := version (spec p); claim_policy_hash := policy_hash p;
    claim_evidence_snapshot_hash := snapshot_hash;
    claim_artifact_set_digest := n_artifact_set_digest n; claim_evidence_hashes := hashes;
    claim_assurance_bps := tally_assurance (spec p) (tally (n_records n)) |} in
  seal ← compute_checkpoint_seal claims (receipt_key p);
  Ok {| checkpoint_claims := claims; checkpoint_seal := seal |}.

Definition receipt_from_checkpoint (c : PolicyCheckpoint) (ratification : option string)
    (key : string) : result PolicyError CompletionReceipt :=
  let claims := {| receipt_base := checkpoint_claims c; ratification_receipt_hash := ratification |} in
  seal ← compute_receipt_seal claims key;
  Ok {| receipt_claims := claims; receipt_seal := seal |}.

(** The statement a ratification of this checkpoint must carry. *)
Definition expected_statement (c : PolicyCheckpoint) (approved : bool) : RatificationStatement := {|
  stmt_policy_hash := claim_policy_hash (checkpoint_claims c);
  stmt_evidence_snapshot_hash := claim_evidence_snapshot_hash (checkpoint_claims c);
  stmt_artifact_set_digest := claim_artifact_set_digest (checkpoint_claims c);
  stmt_approved := approved |}.

Definition ratify (p : VersionedCompletionPolicy) (c : PolicyCheckpoint) (r : RatificationReceipt) :
    result PolicyError PolicyDecision :=
  fail_if (negb (bool_decide (statement r = expected_statement c (stmt_approved (statement r)))))
    RatificationStatementMismatch;;
  fail_if (negb (allow_listed (ratification_authorities (spec p)) (authority r)))
    UntrustedRatificationAuthority;;
  digest ← statement_digest (statement r);
  fail_if (negb (attestation_verify (authority r) digest)) InvalidRatificationSignature;;
  if negb (stmt_approved (statement r)) then Ok (Blocked c [HumanRejected])
  else
    hash ← canonical_digest "ratification-receipt" r;
    receipt ← receipt_from_checkpoint c (Some hash) (receipt_key p);
    Ok (Accepted receipt).

Definition decide_completion (p : VersionedCompletionPolicy) (c : PolicyCheckpoint)
    (reasons : list PolicyBlockReason) (ratifications : list RatificationReceipt) :
    result PolicyError PolicyDecision :=
  if negb (bool_decide (reasons = [])) then Ok (Blocked c reasons)
  else if negb (require_human_ratification (spec p)) then
    fail_if (negb (bool_decide (ratifications = []))) UnexpectedRatification;;
    receipt ← receipt_from_checkpoint c None (receipt_key p);
    Ok (Accepted receipt)
  else
    match ratifications with
    | [] => Ok (AwaitingRatification c)
    | r :: _ => ratify p c r
    end.

Definition evaluate (p : VersionedCompletionPolicy) (snapshot : CompletionSnapshot) :
    result PolicyError PolicyDecision :=
  n ← normalize (spec p) snapshot;
  checkpoint ← build_checkpoint p snapshot n;
  decide_completion p checkpoint (tally_reasons (spec p) (tally (n_records n))) (n_ratifications n).

(** ** Digests and tags *)

Lemma is_digest_tag t : String.length t = 32%nat -> is_digest (sha256_tag t) = true.
Proof.
  intros Ht. unfold is_digest, sha256_tag. rewrite strip_prefix_app, slen_app.
  unfold slen at 2. rewrite length_hex, Ht. simpl. apply hex_lower.
Qed.

Lemma content_digest_wf bytes : is_digest (content_digest bytes) = true.
Proof. apply is_digest_tag, sha256_length. Qed.

Lemma canonical_digest_wf {T} `{Serialize T} domain (v : T) d :
  canonical_digest domain v = Ok d -> is_digest d = true.
Proof. unfold canonical_digest. intros Hd. inv_ok. apply is_digest_tag, sha256_length. Qed.

Lemma hex_nibble_digit n : n < 16 -> hex_nibble (hex_digit n) = Some n.
Proof.
  intros Hn. destruct (hex_digit_range n Hn) as [_ Hc]. unfold hex_nibble, in_range. rewrite Hc.
  destruct (N.ltb_spec n 10); repeat match goal with |- context [?a <=? ?b] => destruct (N.leb_spec a b) end;
    simpl; try lia; f_equal; lia.
Qed.

Lemma nibbles_code c :
  Ascii.ascii_of_N (N.lor (N.shiftl (code c / 16) 4) (code c mod 16)) = c.
Proof. destruct c as [[] [] [] [] [] [] [] []]; vm_compute; reflexivity. Qed.

Lemma decode_hex_hex t : decode_hex (hex t) = Some t.
Proof.
  induction t as [|c t IH]; [done|]. cbn [hex decode_hex].
  pose proof (code_bound c).
  rewrite !hex_nibble_digit; [|apply N.Div0.div_lt_upper_bound; lia|apply N.mod_lt; lia].
  simpl. by rewrite IH; simpl; rewrite nibbles_code.
Qed.

Lemma decode_tag t : String.length t = 32%nat -> decode_sha256_tag (sha256_tag t) = Some t.
Proof.
  intros Ht. unfold decode_sha256_tag, sha256_tag. rewrite strip_prefix_app. simpl.
  unfold slen. rewrite length_hex, Ht. simpl. apply decode_hex_hex.
Qed.

Lemma hex_nibble_inv c n : hex_nibble c = Some n -> n < 16 /\ c = hex_digit n.
Proof.
  unfold hex_nibble, in_range, hex_digit. intros Hn.
  repeat match goal with
  | H : context [?a <=? ?b] |- _ => destruct (N.leb_spec a b); simpl in H
  end; simplify_eq; (split; [lia|]); apply code_inj;
  rewrite code_ascii; destruct (N.ltb_spec (code c - 48) 10); destruct (N.ltb_spec (code c - 97 + 10) 10); lia.
Qed.

(** Checked on the 256 pairs. *)
Lemma nibbles_hex h l : h < 16 -> l < 16 ->
  let c := Ascii.ascii_of_N (N.lor (N.shiftl h 4) l) in code c / 16 = h /\ code c mod 16 = l.
Proof.
  assert (Hall : Forall (fun h => Forall (fun l =>
    code (Ascii.ascii_of_N (N.lor (N.shiftl h 4) l)) / 16 = h /\
    code (Ascii.ascii_of_N (N.lor (N.shiftl h 4) l)) mod 16 = l)
    (N.of_nat <$> seq 0 16)) (N.of_nat <$> seq 0 16)).
  { apply (bool_decide_unpack _). vm_compute. done. }
  rewrite Forall_forall in Hall. intros Hh Hl.
  assert (Hin : forall n, n < 16 -> n ∈ N.of_nat <$> seq 0 16).
  { intros n Hn. apply list_elem_of_fmap. exists (N.to_nat n). split; [lia|]. apply elem_of_seq. lia. }
  specialize (Hall h (Hin h Hh)). rewrite Forall_forall in Hall. exact (Hall l (Hin l Hl)).
Qed.

Lemma decode_hex_inv n s t :
  String.length s = (2 * n)%nat -> decode_hex s = Some t -> s = hex t /\ String.length t = n.
Proof.
  revert s t. induction n as [|n IH]; intros [|a [|b s]] t; simpl; try (intros; lia).
  - intros _ [= <-]. done.
  - intros Hlen Hd. destruct (hex_nibble a) as [h|] eqn:Ha; [|done].
    destruct (hex_nibble b) as [l|] eqn:Hb; [|done]. simpl in Hd.
    destruct (decode_hex s) as [r|] eqn:Hr; [|done]. injection Hd as <-.
    apply hex_nibble_inv in Ha as [Hh ->], Hb as [Hl ->].
    destruct (nibbles_hex h l Hh Hl) as [Hq Hm]. destruct (IH s r) as [-> <-]; [lia|done|].
    cbn [hex]. by rewrite Hq, Hm.
Qed.

(** A seal text stands for exactly one tag, and a tag has exactly one text. *)
Lemma decode_tag_inv value t :
  decode_sha256_tag value = Some t -> value = sha256_tag t /\ String.length t = 32%nat.
Proof.
  unfold decode_sha256_tag. destruct (strip_prefix "sha256:" value) as [digits|] eqn:Hp; [|done]. simpl.
  destruct (N.eqb_spec (slen digits) 64) as [Hl|]; [|done]. simpl. intros Hd.
  apply (decode_hex_inv 32) in Hd as [-> Ht]; [|unfold slen in Hl; lia].
  split; [|done]. by apply strip_prefix_Some in Hp.
Qed.

Lemma seal_matches_true seal tag :
  String.length tag = 32%nat -> seal_matches seal tag = true <-> seal = sha256_tag tag.
Proof.
  intros Ht. unfold seal_matches. split.
  - destruct (decode_sha256_tag seal) as [t|] eqn:Hd; [|done]. intros Heq. inv_ok. subst t.
    by apply decode_tag_inv in Hd as [-> _].
  - intros ->. rewrite decode_tag by done. by apply bool_decide_eq_true.
Qed.

(** ** Votes

    The reference reading of the tally: approving votes with their assurance,
    of which the first vote of each voter, in the order of evidence ids, is the
    one that counts. *)

Section votes.
Context {K : Type} `{Countable K}.

Definition first_votes (votes : list (K * N)) : list (K * N) :=
  foldl (fun (acc : list (K * N)) v => if bool_decide (v.1 ∈ acc.*1) then acc else acc ++ [v]) [] votes.

Lemma first_votes_snoc votes v :
  first_votes (votes ++ [v])
  = if bool_decide (v.1 ∈ (first_votes votes).*1) then first_votes votes else first_votes votes ++ [v].
Proof. unfold first_votes. by rewrite foldl_app. Qed.

Lemma first_votes_voters votes k : k ∈ (first_votes votes).*1 <-> k ∈ votes.*1.
Proof.
  revert k. induction votes as [|v votes IH] using rev_ind; intros k; [done|].
  rewrite first_votes_snoc, fmap_app, elem_of_app.
  case_bool_decide as Hv; [|rewrite fmap_app, elem_of_app, IH; set_solver].
  rewrite IH. rewrite IH in Hv. set_solver.
Qed.

Lemma first_votes_nodup votes : NoDup (first_votes votes).*1.
Proof.
  induction votes as [|v votes IH] using rev_ind; [constructor|]. rewrite first_votes_snoc.
  case_bool_decide; [done|]. rewrite fmap_app. apply NoDup_app. split; [done|]. split; [set_solver|].
  apply NoDup_singleton.
Qed.

Lemma first_votes_sub votes v : v ∈ first_votes votes -> v ∈ votes.
Proof.
  induction votes as [|w votes IH] using rev_ind; [done|]. rewrite first_votes_snoc, elem_of_app.
  case_bool_decide; rewrite ?elem_of_app; set_solver.
Qed.
End votes.

Definition approved_review (e : CompletionEvidence) : option (string * N) :=
  match e with Review _ i _ _ _ true a => Some (i, a) | _ => None end.
Definition passed_test (e : CompletionEvidence) : option (string * N) :=
  match e with Test_ _ i _ _ _ true a => Some (i, a) | _ => None end.
Definition attested (e : CompletionEvidence) : option (string * string * N) :=
  match e with Attestation _ _ t a => Some (att_node_id t, att_public_key t, a) | _ => None end.
Definition cleared (e : CompletionEvidence) : option string :=
  match e with Contradiction _ i _ _ _ false => Some i | _ => None end.
Definition objection (e : CompletionEvidence) : option PolicyBlockReason :=
  match e with
  | Review _ _ _ _ _ false _ => Some FailedReview
  | Test_ _ _ _ _ _ false _ => Some FailedTest
  | Contradiction _ _ _ _ _ true => Some BlockingContradiction
  | _ => None
  end.

(** A vote is counted in both readings or in neither. *)
Lemma first_vote_step {K} `{Countable K} (seen : gset K) (votes : list (K * N)) (counted : list N) k a :
  seen = list_to_set votes.*1 -> counted = (first_votes votes).*2 ->
  (if bool_decide (k ∈ seen) then counted else counted ++ [a]) = (first_votes (votes ++ [(k, a)])).*2 /\
  (if bool_decide (k ∈ seen) then seen else {[k]} ∪ seen) = list_to_set (votes ++ [(k, a)]).*1.
Proof.
  intros -> ->. rewrite first_votes_snoc, fmap_app, list_to_set_app_L. simpl.
  rewrite (bool_decide_ext (k ∈ list_to_set votes.*1) (k ∈ (first_votes votes).*1))
    by (rewrite first_votes_voters; apply elem_of_list_to_set).
  case_bool_decide as Hk; [|rewrite fmap_app; set_solver].
  rewrite first_votes_voters in Hk. set_solver.
Qed.

(** The loop computes the reference reading. *)
Record tally_reads (records : list CompletionEvidence) (t : Tally) : Prop := {
  reads_reviews : t_reviews t = (first_votes (omap approved_review records)).*2;
  reads_tests : t_tests t = (first_votes (omap passed_test records)).*2;
  reads_attestations : t_attestations t = (first_votes (omap attested records)).*2;
  reads_reviewers : t_reviewers t = list_to_set (omap approved_review records).*1;
  reads_testers : t_testers t = list_to_set (omap passed_test records).*1;
  reads_attesters : t_attesters t = list_to_set (omap attested records).*1;
  reads_clearances : t_clearances t = list_to_set (omap cleared records);
  reads_reasons : forall r, r ∈ t_reasons t <-> r ∈ omap objection records }.

Ltac reads_fields := split; rewrite ?omap_app; simpl; rewrite ?app_nil_r; try done.

Lemma tally_spec records : tally_reads records (tally records).
Proof.
  unfold tally. induction records as [|e records IH] using rev_ind; [done|].
  rewrite foldl_app. simpl. set (t := foldl tally_record empty_tally records) in *.
  destruct IH as [Hr Ht Ha Hrs Hts Has Hc Ho].
  destruct e as [id i sd ev d [] a|id i sd ev d [] a|id sd att a|id i sd ev d []|r]; simpl.
  - pose proof (first_vote_step _ _ _ i a Hrs Hr) as [Hcount Hseen]. revert Hcount Hseen.
    case_bool_decide; intros; reads_fields.
  - reads_fields. set_solver.
  - pose proof (first_vote_step _ _ _ i a Hts Ht) as [Hcount Hseen]. revert Hcount Hseen.
    case_bool_decide; intros; reads_fields.
  - reads_fields. set_solver.
  - pose proof (first_vote_step _ _ _ (att_node_id att, att_public_key att) a Has Ha) as [Hcount Hseen].
    revert Hcount Hseen. case_bool_decide; intros; reads_fields.
  - reads_fields. set_solver.
  - reads_fields. set_solver.
  - reads_fields.
Qed.

(** *** Reasons *)

(** The first votes that reach the required assurance. *)
Definition qualified {K} `{Countable K} (minimum : N) (votes : list (K * N)) : list (K * N) :=
  filter (fun v => minimum <= v.2) (first_votes votes).

(** When a reason applies to a list of validated records, in the words of the
    policy. *)
Definition reason_holds (s : CompletionPolicySpec) (records : list CompletionEvidence)
    (r : PolicyBlockReason) : Prop :=
  match r with
  | BlockingContradiction | FailedReview | FailedTest => exists e, e ∈ records /\ objection e = Some r
  | InsufficientReviews =>
      len (qualified (min_assurance_bps s) (omap approved_review records)) < required_reviews s
  | InsufficientTests =>
      len (qualified (min_assurance_bps s) (omap passed_test records)) < required_tests s
  | InsufficientAttestations =>
      len (qualified (min_assurance_bps s) (omap attested records)) < required_attestations s
  | InsufficientContradictionClearances =>
      N.of_nat (size (list_to_set (omap cleared records) : gset string))
      < required_contradiction_clearances s
  | InsufficientAssurance => tally_assurance s (tally records) < min_assurance_bps s
  | HumanRejected => False
  end.

Lemma qualifying_qualified {K} `{Countable K} minimum (votes : list (K * N)) :
  qualifying minimum (sort_descending (first_votes votes).*2) = len (qualified minimum votes).
Proof.
  unfold qualifying, qualified, len, sort_descending. f_equal. rewrite (sort_by_key_perm Desc).
  induction (first_votes votes) as [|[k a] l IH]; [done|].
  rewrite fmap_cons, !filter_cons. cbn [snd]. case_decide; cbn [length]; by rewrite IH.
Qed.

Lemma reason_if_elem b r x : x ∈ reason_if b r <-> x = r /\ b = true.
Proof. destruct b; simpl; set_solver. Qed.

Lemma tally_reasons_spec s records r :
  r ∈ tally_reasons s (tally records) <-> reason_holds s records r.
Proof.
  destruct (tally_spec records) as [Hr Ht Ha _ _ _ Hc Ho]. unfold tally_reasons, reason_set.
  rewrite list_elem_of_filter, !elem_of_app, !reason_if_elem, Hr, Ht, Ha, Hc, Ho,
    !qualifying_qualified, !N.ltb_lt, list_elem_of_omap.
  assert (Hall : r ∈ all_reasons) by (destruct r; set_solver).
  assert (Hobj : forall e, objection e = Some r -> r = BlockingContradiction \/ r = FailedReview \/ r = FailedTest).
  { intros [? ? ? ? ? [] ?|? ? ? ? ? [] ?|? ? ? ?|? ? ? ? ? []|?] [=]; auto. }
  unfold reason_holds. destruct r; naive_solver.
Qed.

(** *** Assurance *)

Lemma sorted_descending xs : StronglySorted (fun a b => b <= a) (sort_descending xs).
Proof.
  unfold sort_descending. eapply StronglySorted_weaken; [|apply sort_by_key_sorted].
  intros a b. unfold key_leb. simpl. destruct (N.compare_spec b a); simpl; [lia|lia|done].
Qed.

(** If [k] values reach the minimum, the [k] largest do. *)
Lemma take_qualifying minimum xs k :
  k <= qualifying minimum (sort_descending xs) ->
  Forall (fun a => minimum <= a) (take (N.to_nat k) (sort_descending xs)).
Proof.
  unfold qualifying. generalize (sorted_descending xs). generalize (sort_descending xs). clear xs.
  intros xs Hs. revert k. induction Hs as [|x xs Hs IH Hx]; intros k; [by rewrite take_nil|].
  rewrite filter_cons. destruct (N.to_nat k) as [|n] eqn:Hk; [by simpl|]. simpl.
  case_decide as Hm.
  - rewrite len_cons. intros Hle. constructor; [done|].
    replace n with (N.to_nat (k - 1)) by lia. apply IH. lia.
  - intros Hle. exfalso. revert Hle. destruct (filter _ xs) as [|y l] eqn:Hf; [unfold len; simpl; lia|].
    assert (Hy : y ∈ filter (fun a => minimum <= a) xs) by (rewrite Hf; by left).
    apply list_elem_of_filter in Hy as [Hym Hy]. rewrite Forall_forall in Hx. specialize (Hx y Hy). lia.
Qed.

Lemma foldl_min_ge minimum x xs :
  Forall (fun a => minimum <= a) (x :: xs) -> minimum <= foldl N.min x xs.
Proof.
  revert x. induction xs as [|y xs IH]; intros x Hf; simpl; inversion Hf as [|? ? Hx Hxs]; subst; [done|].
  inversion Hxs; subst. apply IH. constructor; [lia|done].
Qed.

(** When every required count is met, so is the overall assurance. *)
Lemma assurance_of_counts s records :
  1 <= required_reviews s ->
  ~ reason_holds s records InsufficientReviews -> ~ reason_holds s records InsufficientTests ->
  ~ reason_holds s records InsufficientAttestations ->
  min_assurance_bps s <= tally_assurance s (tally records).
Proof.
  destruct (tally_spec records) as [Hr Ht Ha _ _ _ _ _]. simpl.
  rewrite <- !qualifying_qualified, <- Hr, <- Ht, <- Ha. intros Hone H1' H2' H3'.
  unfold tally_assurance, selected_assurance.
  assert (Hall : Forall (fun a => min_assurance_bps s <= a)
    (take (N.to_nat (required_reviews s)) (sort_descending (t_reviews (tally records)))
     ++ take (N.to_nat (required_tests s)) (sort_descending (t_tests (tally records)))
     ++ take (N.to_nat (required_attestations s)) (sort_descending (t_attestations (tally records))))).
  { rewrite !Forall_app. split_and!; apply take_qualifying; lia. }
  assert (Hne : take (N.to_nat (required_reviews s)) (sort_descending (t_reviews (tally records))) <> []).
  { intros Hnil. apply (f_equal length) in Hnil. rewrite length_take in Hnil. simpl in Hnil.
    unfold qualifying in H1'. pose proof (length_filter (fun a => min_assurance_bps s <= a)
      (sort_descending (t_reviews (tally records)))). unfold len in H1'. lia. }
  destruct (take _ (sort_descending (t_reviews _))) as [|x xs]; [done|].
  simpl. by apply foldl_min_ge.
Qed.

(** *** Validated records *)

Record record_ok (s : CompletionPolicySpec) (subject : string) (e : CompletionEvidence) : Prop := {
  record_subject : subject_digest e = Some subject;
  record_assurance : forall a, evidence_assurance e = Some a -> a <= 10000;
  record_valid : validate_evidence_record e subject s = Ok tt }.

Lemma check_record_Ok s subject seen e seen' :
  check_record s subject seen e = Ok seen' ->
  record_ok s subject e /\ exists i, evidence_id e = Some i /\ (i ∉ seen.1) /\ seen'.1 = {[i]} ∪ seen.1.
Proof.
  destruct seen as [ids provenance]. unfold check_record. intros Hc. inv_ok. subst. split; [|by eauto].
  split; [done| |done]. intros b Hb. rewrite Hb in *. by inv_ok.
Qed.

Lemma check_records_Ok s subject records seen :
  try_fold (check_record s subject) (∅, ∅) records = Ok seen ->
  Forall (record_ok s subject) records /\ NoDup (evidence_id <$> records) /\
  forall e, e ∈ records -> exists i, evidence_id e = Some i.
Proof.
  intros Hf. enough (Hinv : Forall (record_ok s subject) records /\ NoDup (evidence_id <$> records) /\
    forall e, e ∈ records -> exists i, evidence_id e = Some i /\ i ∈ seen.1).
  { destruct Hinv as (? & ? & Hid). split_and!; [done|done|]. intros e He. destruct (Hid e He) as (i & ? & _). eauto. }
  revert Hf. apply (try_fold_ind _ (fun pre st => Forall (record_ok s subject) pre /\
    NoDup (evidence_id <$> pre) /\ forall e, e ∈ pre -> exists i, evidence_id e = Some i /\ i ∈ st.1)).
  { split_and!; [constructor|constructor|]. intros e He. by apply not_elem_of_nil in He. }
  intros pre e st st' (Hok & Hnd & Hin) _ (He & i & Hi & Hni & ->)%check_record_Ok.
  assert (Hfresh : evidence_id e ∉ evidence_id <$> pre).
  { intros (e' & He' & Hin')%list_elem_of_fmap. destruct (Hin e' Hin') as (j & Hj & Hj').
    rewrite He', Hj in Hi. congruence. }
  split_and!.
  - apply Forall_app. split; [done|]. by apply Forall_singleton.
  - rewrite fmap_app. apply NoDup_app. split_and!; [done| |apply NoDup_singleton]. set_solver.
  - intros e' [He'|He'%list_elem_of_singleton]%elem_of_app; [destruct (Hin e' He') as (j & ? & ?)|subst]; set_solver.
Qed.

Lemma validate_claimed_Ok kind issuer evidence digest allowed :
  validate_claimed_evidence kind issuer evidence digest allowed = Ok tt ->
  issuer ∈ allowed /\ content_digest evidence = digest /\ slen evidence <= MAX_EVIDENCE_PAYLOAD_BYTES.
Proof. unfold validate_claimed_evidence. intros Hv. by inv_ok. Qed.

Lemma normalize_Ok s snapshot n :
  normalize s snapshot = Ok n ->
  n_artifacts n = sort_by_key artifact_key (snap_artifacts snapshot) /\
  artifact_set_digest (n_artifacts n) = Ok (n_artifact_set_digest n) /\
  n_records n = sort_by_key evidence_id (filter (fun e => is_record e) (snap_evidence snapshot)) /\
  n_ratifications n = omap as_ratification (snap_evidence snapshot) /\
  Forall (record_ok s (n_artifact_set_digest n)) (n_records n) /\
  NoDup (evidence_id <$> n_records n) /\ len (n_ratifications n) <= 1.
Proof.
  unfold normalize. intros Hn. inv_ok. simpl.
  match goal with H : try_fold (check_record _ _) _ _ = Ok _ |- _ => apply check_records_Ok in H as (? & ? & _) end.
  by split_and!.
Qed.

Lemma normalize_record_elem s snapshot n e :
  normalize s snapshot = Ok n -> e ∈ n_records n <-> e ∈ snap_evidence snapshot /\ is_record e = true.
Proof.
  intros (_ & _ & -> & _)%normalize_Ok. rewrite sort_by_key_elem, list_elem_of_filter, Is_true_true. tauto.
Qed.

Lemma qualified_nodup {K} `{Countable K} minimum (votes : list (K * N)) :
  NoDup (qualified minimum votes).*1.
Proof.
  apply (sublist_NoDup _ _ (first_votes_nodup votes)), fmap_sublist, sublist_filter.
Qed.

Lemma qualified_voter {K} `{Countable K} (f : CompletionEvidence -> option (K * N)) minimum records k :
  k ∈ (qualified minimum (omap f records)).*1 ->
  exists e a, e ∈ records /\ f e = Some (k, a) /\ minimum <= a.
Proof.
  intros ([k' a] & -> & [Hm Hv]%list_elem_of_filter)%list_elem_of_fmap.
  apply first_votes_sub, list_elem_of_omap in Hv as (e & He & Hf). eauto.
Qed.

(** ** What acceptance means *)

(** The evidence a checkpoint stands for, in terms of the submitted snapshot. *)
Record justified (s : CompletionPolicySpec) (snapshot : CompletionSnapshot) (c : CheckpointClaims) : Prop := {
  just_subject : artifact_set_digest (sort_by_key artifact_key (snap_artifacts snapshot))
                 = Ok (claim_artifact_set_digest c);
  just_no_objection : forall e, e ∈ snap_evidence snapshot -> objection e = None;
  just_reviews : exists voters, NoDup voters /\ required_reviews s <= len voters /\
    forall i, i ∈ voters -> i ∈ review_issuers s /\ exists id evidence a,
      Review id i (claim_artifact_set_digest c) evidence (content_digest evidence) true a
        ∈ snap_evidence snapshot /\ min_assurance_bps s <= a;
  just_tests : exists voters, NoDup voters /\ required_tests s <= len voters /\
    forall i, i ∈ voters -> i ∈ test_issuers s /\ exists id evidence a,
      Test_ id i (claim_artifact_set_digest c) evidence (content_digest evidence) true a
        ∈ snap_evidence snapshot /\ min_assurance_bps s <= a;
  just_attestations : exists voters, NoDup voters /\ required_attestations s <= len voters /\
    forall v, v ∈ voters -> exists id att a,
      Attestation id (claim_artifact_set_digest c) att a ∈ snap_evidence snapshot /\
      v = (att_node_id att, att_public_key att) /\ min_assurance_bps s <= a /\
      allow_listed (attestation_authorities s) att = true /\
      attestation_verify att (claim_artifact_set_digest c) = true;
  just_clearances : exists voters, NoDup voters /\ required_contradiction_clearances s <= len voters /\
    forall i, i ∈ voters -> i ∈ contradiction_issuers s /\ exists id evidence,
      Contradiction id i (claim_artifact_set_digest c) evidence (content_digest evidence) false
        ∈ snap_evidence snapshot;
  just_assurance : min_assurance_bps s <= claim_assurance_bps c }.

Section justification.
Context (s : CompletionPolicySpec) (snapshot : CompletionSnapshot) (n : Normalized).
Context (Hn : normalize s snapshot = Ok n).
Context (Hclear : forall r, ~ reason_holds s (n_records n) r).

Lemma record_submitted e :
  e ∈ n_records n -> e ∈ snap_evidence snapshot /\ record_ok s (n_artifact_set_digest n) e.
Proof.
  intros He. split; [by apply (normalize_record_elem _ _ _ _ Hn) in He as [He _]|].
  destruct (normalize_Ok _ _ _ Hn) as (_ & _ & _ & _ & Hall & _). rewrite Forall_forall in Hall. auto.
Qed.

Lemma no_objection e : e ∈ snap_evidence snapshot -> objection e = None.
Proof.
  intros He. destruct (objection e) as [r|] eqn:Hobj; [|done]. exfalso.
  assert (Hrec : e ∈ n_records n).
  { apply (normalize_record_elem _ _ _ _ Hn). split; [done|]. by destruct e. }
  apply (Hclear r). destruct e as [? ? ? ? ? [] ?|? ? ? ? ? [] ?|? ? ? ?|? ? ? ? ? []|?];
    simplify_eq/=; eauto.
Qed.

Lemma enough_reviews : exists voters, NoDup voters /\ required_reviews s <= len voters /\
  forall i, i ∈ voters -> i ∈ review_issuers s /\ exists id evidence a,
    Review id i (n_artifact_set_digest n) evidence (content_digest evidence) true a
      ∈ snap_evidence snapshot /\ min_assurance_bps s <= a.
Proof.
  exists (qualified (min_assurance_bps s) (omap approved_review (n_records n))).*1.
  split_and!; [apply qualified_nodup| |].
  { pose proof (Hclear InsufficientReviews) as Hc. simpl in Hc. unfold len in *. rewrite length_fmap. lia. }
  intros i (e & a & He & Hf & Ha)%qualified_voter. apply record_submitted in He as [He [Hsub _ Hval]].
  destruct e as [id i' sd ev d [] a'|? ? ? ? ? [] ?|? ? ? ?|? ? ? ? ? []|?]; simplify_eq/=.
  apply validate_claimed_Ok in Hval as (Hi & <- & _). eauto 10.
Qed.

Lemma enough_tests : exists voters, NoDup voters /\ required_tests s <= len voters /\
  forall i, i ∈ voters -> i ∈ test_issuers s /\ exists id evidence a,
    Test_ id i (n_artifact_set_digest n) evidence (content_digest evidence) true a
      ∈ snap_evidence snapshot /\ min_assurance_bps s <= a.
Proof.
  exists (qualified (min_assurance_bps s) (omap passed_test (n_records n))).*1.
  split_and!; [apply qualified_nodup| |].
  { pose proof (Hclear InsufficientTests) as Hc. simpl in Hc. unfold len in *. rewrite length_fmap. lia. }
  intros i (e & a & He & Hf & Ha)%qualified_voter. apply record_submitted in He as [He [Hsub _ Hval]].
  destruct e as [? ? ? ? ? [] ?|id i' sd ev d [] a'|? ? ? ?|? ? ? ? ? []|?]; simplify_eq/=.
  apply validate_claimed_Ok in Hval as (Hi & <- & _). eauto 10.
Qed.

Lemma enough_attestations : exists voters, NoDup voters /\ required_attestations s <= len voters /\
  forall v, v ∈ voters -> exists id att a,
    Attestation id (n_artifact_set_digest n) att a ∈ snap_evidence snapshot /\
    v = (att_node_id att, att_public_key att) /\ min_assurance_bps s <= a /\
    allow_listed (attestation_authorities s) att = true /\
    attestation_verify att (n_artifact_set_digest n) = true.
Proof.
  exists (qualified (min_assurance_bps s) (omap attested (n_records n))).*1.
  split_and!; [apply qualified_nodup| |].
  { pose proof (Hclear InsufficientAttestations) as Hc. simpl in Hc. unfold len in *. rewrite length_fmap. lia. }
  intros v (e & a & He & Hf & Ha)%qualified_voter. apply record_submitted in He as [He [Hsub _ Hval]].
  destruct e as [? ? ? ? ? [] ?|? ? ? ? ? [] ?|id sd att a'|? ? ? ? ? []|?]; simplify_eq/=.
  inv_ok. eauto 10.
Qed.

Lemma enough_clearances : exists voters, NoDup voters /\ required_contradiction_clearances s <= len voters /\
  forall i, i ∈ voters -> i ∈ contradiction_issuers s /\ exists id evidence,
    Contradiction id i (n_artifact_set_digest n) evidence (content_digest evidence) false
      ∈ snap_evidence snapshot.
Proof.
  exists (elements (list_to_set (omap cleared (n_records n)) : gset string)).
  split_and!; [apply NoDup_elements| |].
  { pose proof (Hclear InsufficientContradictionClearances) as Hc. simpl in Hc. unfold len, size, set_size in *.
    simpl in *. lia. }
  intros i (e & He & Hf)%elem_of_elements%elem_of_list_to_set%list_elem_of_omap.
  apply record_submitted in He as [He [Hsub _ Hval]].
  destruct e as [? ? ? ? ? [] ?|? ? ? ? ? [] ?|? ? ? ?|id i' sd ev d []|?]; simplify_eq/=.
  apply validate_claimed_Ok in Hval as (Hi & <- & _). eauto 10.
Qed.
End justification.

(** ** Decisions *)

Record checkpoint_of (p : VersionedCompletionPolicy) (snapshot : CompletionSnapshot) (n : Normalized)
    (c : PolicyCheckpoint) : Prop := {
  of_task : claim_task_id (checkpoint_claims c) = snap_task_id snapshot;
  of_context : claim_context_id (checkpoint_claims c) = snap_context_id snapshot;
  of_request : claim_request_digest (checkpoint_claims c) = snap_request_digest snapshot;
  of_policy_id : claim_policy_id (checkpoint_claims c) = policy_id (spec p);
  of_version : claim_policy_version (checkpoint_claims c) = version (spec p);
  of_policy : claim_policy_hash (checkpoint_claims c) = policy_hash p;
  of_subject : claim_artifact_set_digest (checkpoint_claims c) = n_artifact_set_digest n;
  of_assurance : claim_assurance_bps (checkpoint_claims c) = tally_assurance (spec p) (tally (n_records n));
  of_hashes : Forall2 (fun e h => completion_evidence_digest e = Ok h) (n_records n)
                (claim_evidence_hashes (checkpoint_claims c));
  of_snapshot : is_digest (claim_evidence_snapshot_hash (checkpoint_claims c)) = true;
  of_seal : compute_checkpoint_seal (checkpoint_claims c) (receipt_key p) = Ok (checkpoint_seal c) }.

Lemma build_checkpoint_Ok p snapshot n c :
  build_checkpoint p snapshot n = Ok c -> checkpoint_of p snapshot n c.
Proof.
  unfold build_checkpoint. intros Hb. apply bind_Ok_inv in Hb as (hashes & Hh%try_map_Ok & Hb).
  apply bind_Ok_inv in Hb as (h & Hsnap%canonical_digest_wf & Hb).
  apply bind_Ok_inv in Hb as (seal & Hseal & Hb). injection Hb as <-. by split.
Qed.

Lemma evaluate_Ok p snapshot d :
  evaluate p snapshot = Ok d <->
  exists n c, normalize (spec p) snapshot = Ok n /\ build_checkpoint p snapshot n = Ok c /\
    decide_completion p c (tally_reasons (spec p) (tally (n_records n))) (n_ratifications n) = Ok d.
Proof.
  unfold evaluate. rewrite bind_Ok_inv. split.
  - intros (n & Hn & Hr). apply bind_Ok_inv in Hr as (c & Hc & Hd). by exists n, c.
  - intros (n & c & Hn & Hc & Hd). exists n. split; [done|]. apply bind_Ok_inv. by exists c.
Qed.

(** How an approved ratification was checked. *)
Definition ratified (p : VersionedCompletionPolicy) (c : CheckpointClaims) (r : RatificationReceipt)
    (hash : string) : Prop :=
  statement r = {| stmt_policy_hash := claim_policy_hash c;
                   stmt_evidence_snapshot_hash := claim_evidence_snapshot_hash c;
                   stmt_artifact_set_digest := claim_artifact_set_digest c;
                   stmt_approved := true |} /\
  allow_listed (ratification_authorities (spec p)) (authority r) = true /\
  (exists d, statement_digest (statement r) = Ok d /\ attestation_verify (authority r) d = true) /\
  canonical_digest "ratification-receipt" r = Ok hash.

Lemma receipt_from_checkpoint_Ok c h key r :
  receipt_from_checkpoint c h key = Ok r ->
  receipt_base (receipt_claims r) = checkpoint_claims c /\
  ratification_receipt_hash (receipt_claims r) = h /\
  compute_receipt_seal (receipt_claims r) key = Ok (receipt_seal r).
Proof. unfold receipt_from_checkpoint. intros Hr. apply bind_Ok_inv in Hr as (seal & Hs & Hr). by injection Hr as <-. Qed.

Lemma ratify_Ok p c r d :
  ratify p c r = Ok d ->
  d = Blocked c [HumanRejected] \/
  exists receipt hash, d = Accepted receipt /\ ratified p (checkpoint_claims c) r hash /\
    receipt_from_checkpoint c (Some hash) (receipt_key p) = Ok receipt.
Proof.
  unfold ratify. intros Hr. apply bind_Ok_inv in Hr as ([] & Hst & Hr).
  apply bind_Ok_inv in Hr as ([] & Hal & Hr). apply bind_Ok_inv in Hr as (dg & Hdg & Hr).
  apply bind_Ok_inv in Hr as ([] & Hver & Hr). inv_ok.
  destruct (stmt_approved (statement r)) eqn:Happ; simpl in Hr; [|left; by injection Hr as <-].
  right. apply bind_Ok_inv in Hr as (hash & Hhash & Hr). apply bind_Ok_inv in Hr as (receipt & Hrec & Hr).
  injection Hr as <-. exists receipt, hash. split; [done|]. split; [|done].
  split; [exact Hst|]. split_and!; eauto.
Qed.

Lemma decide_Accepted p c reasons rs receipt :
  decide_completion p c reasons rs = Ok (Accepted receipt) ->
  reasons = [] /\
  ((require_human_ratification (spec p) = false /\ rs = [] /\
    receipt_from_checkpoint c None (receipt_key p) = Ok receipt) \/
   (require_human_ratification (spec p) = true /\ exists r rest hash, rs = r :: rest /\
    ratified p (checkpoint_claims c) r hash /\
    receipt_from_checkpoint c (Some hash) (receipt_key p) = Ok receipt)).
Proof.
  unfold decide_completion. case_bool_decide as Hr; simpl; [|done]. intros Hd. split; [done|].
  destruct (require_human_ratification (spec p)); simpl in Hd.
  - right. split; [done|]. destruct rs as [|r rest]; [done|].
    apply ratify_Ok in Hd as [?|(receipt' & hash & [= <-] & Hrat & Hrec)]; [done|]. eauto 10.
  - left. inv_ok. by simplify_eq.
Qed.

(** C1: Acceptance is sound.  An accepted snapshot has no failed review, failed
    test or blocking contradiction; it carries approving reviews, passing tests
    and contradiction clearances of at least the required number of distinct
    allow-listed issuers, each over bytes matching its digest, and verified
    attestations of enough distinct authorities; all of it is about the very
    artifact set the receipt names, and the assurance reaches the minimum.  With
    human ratification the receipt also binds one approved statement about this
    policy, evidence and artifact set, signed by an allow-listed authority. *)
Theorem accepted_is_justified p snapshot r :
  evaluate p snapshot = Ok (Accepted r) ->
  let c := receipt_base (receipt_claims r) in
  justified (spec p) snapshot c /\
  claim_task_id c = snap_task_id snapshot /\ claim_context_id c = snap_context_id snapshot /\
  claim_request_digest c = snap_request_digest snapshot /\ claim_policy_hash c = policy_hash p /\
  match ratification_receipt_hash (receipt_claims r) with
  | None => require_human_ratification (spec p) = false
  | Some hash => require_human_ratification (spec p) = true /\
                 exists rat, Ratification rat ∈ snap_evidence snapshot /\ ratified p c rat hash
  end.
Proof.
  intros (n & c & Hn & Hb%build_checkpoint_Ok & Hd)%evaluate_Ok.
  apply decide_Accepted in Hd as [Hnil Hcase].
  assert (Hclear : forall x, ~ reason_holds (spec p) (n_records n) x).
  { intros x Hx%tally_reasons_spec. rewrite Hnil in Hx. by apply not_elem_of_nil in Hx. }
  assert (Hj : justified (spec p) snapshot (checkpoint_claims c)).
  { destruct (normalize_Ok _ _ _ Hn) as (Ha & Hs & _). rewrite Ha in Hs.
    split; rewrite ?(of_subject _ _ _ _ Hb), ?(of_assurance _ _ _ _ Hb).
    - done.
    - by eapply no_objection.
    - by apply enough_reviews.
    - by apply enough_tests.
    - by apply enough_attestations.
    - by apply enough_clearances.
    - pose proof (Hclear InsufficientAssurance) as Hc. simpl in Hc. lia. }
  destruct Hcase as [(Hreq & _ & (-> & -> & _)%receipt_from_checkpoint_Ok)
                    |(Hreq & rat & rest & hash & Hrs & Hrat & (-> & -> & _)%receipt_from_checkpoint_Ok)].
  - destruct Hb. by split_and!.
  - destruct Hb. split_and!; [done..|]. exists rat. split; [|done].
    destruct (normalize_Ok _ _ _ Hn) as (_ & _ & _ & Hom & _). rewrite Hom in Hrs.
    assert (Hin : rat ∈ omap as_ratification (snap_evidence snapshot)) by (rewrite Hrs; by left).
    apply list_elem_of_omap in Hin as (e & He & Hf). by destruct e; simplify_eq/=.
Qed.

(** Blocking is exact: for well-formed evidence each reason is reported if
    and only if it holds (the voters counted for a quorum are the distinct
    issuers whose first approving record, by evidence id, reaches the minimum
    assurance). *)
Theorem block_reasons_exact p snapshot n c r :
  normalize (spec p) snapshot = Ok n -> build_checkpoint p snapshot n = Ok c -> r <> HumanRejected ->
  reason_holds (spec p) (n_records n) r <->
  exists rs, evaluate p snapshot = Ok (Blocked c rs) /\ r ∈ rs.
Proof.
  intros Hn Hc Hr. rewrite <- tally_reasons_spec. unfold evaluate. rewrite Hn. simpl. rewrite Hc. simpl.
  unfold decide_completion. case_bool_decide as Hnil; simpl; [|naive_solver].
  rewrite Hnil. split; [by intros ?%not_elem_of_nil|]. intros (rs & Hd & Hin).
  destruct (require_human_ratification (spec p)); simpl in Hd.
  - destruct (n_ratifications n) as [|rat rest]; [done|].
    apply ratify_Ok in Hd as [[= ->]|(? & ? & ? & _)]; [|done]. set_solver.
  - inv_ok. done.
Qed.

(** ** Construction *)

Lemma normalized_unique {A K} `{EqDecision A, TotalCmp K} (key : A -> K) (l : list A) :
  (forall x y, key x = key y -> x = y) ->
  windows2_any (fun a b => bool_decide (a = b)) (sort_by_key key l) = false -> NoDup (sort_by_key key l).
Proof.
  intros Hinj Hw. eapply windows2_any_NoDup; [|apply sort_by_key_sorted|exact Hw].
  intros x y Hxy Hyx. by apply Hinj, key_leb_antisym.
Qed.

Lemma normalize_issuers_Ok field l l' :
  normalize_issuers field l = Ok l' -> l' ≡ₚ l /\ NoDup l' /\ normalize_issuers field l' = Ok l'.
Proof.
  unfold normalize_issuers. intros Hn. inv_ok.
  split; [apply sort_by_key_perm|]. split; [by apply normalized_unique|].
  assert (Hid : sort_by_key (fun i => i) (sort_by_key (fun i => i) l) = sort_by_key (fun i : string => i) l).
  { apply sort_by_id, sort_by_key_sorted. }
  rewrite Hid, Hok. simpl. by rewrite Hok0.
Qed.

Lemma normalize_authorities_Ok field l l' :
  normalize_authorities field l = Ok l' -> l' ≡ₚ l /\ NoDup l' /\ normalize_authorities field l' = Ok l'.
Proof.
  unfold normalize_authorities. intros Hn. inv_ok.
  split; [apply sort_by_key_perm|]. split.
  { apply normalized_unique; [|done]. intros [x1 x2] [y1 y2] [= -> ->]. done. }
  assert (Hid : sort_by_key authority_key (sort_by_key authority_key l) = sort_by_key authority_key l).
  { apply sort_by_id, sort_by_key_sorted. }
  rewrite Hid, Hok. simpl. by rewrite Hok0.
Qed.

(** What every constructed policy guarantees: a quorum is always demanded, and
    is always within reach of the configured distinct authorities and of the
    record limit. *)
Record policy_ok (s : CompletionPolicySpec) : Prop := {
  ok_version : version s = 1;
  ok_reviews : 1 <= required_reviews s <= len (review_issuers s);
  ok_tests : 1 <= required_tests s <= len (test_issuers s);
  ok_attestations : required_attestations s <= len (attestation_authorities s);
  ok_clearances : 1 <= required_contradiction_clearances s <= len (contradiction_issuers s);
  ok_assurance : 1 <= min_assurance_bps s <= 10000;
  ok_limits : 1 <= max_artifacts s /\
    required_reviews s + required_tests s + required_attestations s
      + required_contradiction_clearances s <= max_evidence_records s;
  ok_ratification : require_human_ratification s = true <-> ratification_authorities s <> [];
  ok_distinct : NoDup (review_issuers s) /\ NoDup (test_issuers s) /\ NoDup (contradiction_issuers s) /\
    NoDup (attestation_authorities s) /\ NoDup (ratification_authorities s) }.

Lemma ratification_flag {A} `{EqDecision A} (flag : bool) (l : list A) :
  flag && bool_decide (l = []) = false -> negb flag && negb (bool_decide (l = [])) = false ->
  flag = true <-> l <> [].
Proof. destruct flag; case_bool_decide; simpl; naive_solver. Qed.

Lemma new_with_receipt_key_Ok s key p :
  new_with_receipt_key s key = Ok p -> policy_ok (spec p) /\ new_with_receipt_key (spec p) key = Ok p.
Proof.
  unfold new_with_receipt_key at 1. intros Hp.
  repeat (apply bind_Ok_inv in Hp as (? & ? & Hp)). injection Hp as <-.
  match goal with Hr : normalize_issuers "reviewIssuers" _ = _, Ht : normalize_issuers "testIssuers" _ = _,
    Hc : normalize_issuers "contradictionIssuers" _ = _ |- _ =>
    apply normalize_issuers_Ok in Hr as (_ & ? & ?), Ht as (_ & ? & ?), Hc as (_ & ? & ?) end.
  match goal with Ha : normalize_authorities "attestationAuthorities" _ = _,
    Hr : normalize_authorities "ratificationAuthorities" _ = _ |- _ =>
    apply normalize_authorities_Ok in Ha as (_ & ? & ?), Hr as (_ & ? & ?) end.
  split.
  - inv_ok. split; simpl; try done; try lia. by apply ratification_flag.
  - destruct s. unfold new_with_receipt_key, with_lists in *. cbn [spec policy_id version required_reviews
      required_tests required_attestations required_contradiction_clearances min_assurance_bps
      require_human_ratification review_issuers test_issuers contradiction_issuers
      attestation_authorities ratification_authorities max_evidence_records max_artifacts] in *.
    repeat match goal with
    | H : ?c = Ok _ |- context [?c ≫= _] => rewrite H; cbn [mbind result_bind]
    end.
    done.
Qed.

(** A policy profile is only constructed when its quorum is demanded and
    reachable; construction normalizes the authority lists, and reconstructing
    the normalized profile gives the same policy and hash. *)
Theorem new_policy_ok s key p :
  new_with_receipt_key s key = Ok p ->
  policy_ok (spec p) /\ receipt_key p = key /\
  review_issuers (spec p) ≡ₚ review_issuers s /\ test_issuers (spec p) ≡ₚ test_issuers s /\
  contradiction_issuers (spec p) ≡ₚ contradiction_issuers s /\
  attestation_authorities (spec p) ≡ₚ attestation_authorities s /\
  ratification_authorities (spec p) ≡ₚ ratification_authorities s /\
  new_with_receipt_key (spec p) key = Ok p.
Proof.
  intros Hp. pose proof (new_with_receipt_key_Ok _ _ _ Hp) as [Hok Hid].
  unfold new_with_receipt_key in Hp. repeat (apply bind_Ok_inv in Hp as (? & ? & Hp)). injection Hp as <-.
  repeat match goal with
  | H : normalize_issuers _ _ = Ok _ |- _ => apply normalize_issuers_Ok in H as [? _]
  | H : normalize_authorities _ _ = Ok _ |- _ => apply normalize_authorities_Ok in H as [? _]
  end.
  by split_and!.
Qed.

(** [InsufficientAssurance] is never the only quorum failure: when it is
    reported, some required count is missed too. *)
Theorem assurance_follows_counts s key p snapshot c rs :
  new_with_receipt_key s key = Ok p -> evaluate p snapshot = Ok (Blocked c rs) ->
  InsufficientAssurance ∈ rs ->
  InsufficientReviews ∈ rs \/ InsufficientTests ∈ rs \/ InsufficientAttestations ∈ rs.
Proof.
  intros [Hok _]%new_with_receipt_key_Ok (n & c' & Hn & Hc & Hd)%evaluate_Ok Hin.
  assert (Hrs : rs = tally_reasons (spec p) (tally (n_records n))).
  { revert Hd. unfold decide_completion. case_bool_decide as Hnil; simpl; [|by intros [= _ <-]].
    destruct (require_human_ratification (spec p)); simpl; [|by intros ?; inv_ok].
    destruct (n_ratifications n); [done|]. intros [[= _ ->]|(? & ? & ? & _)]%ratify_Ok; [|done]. set_solver. }
  subst rs. rewrite !tally_reasons_spec. apply tally_reasons_spec in Hin.
  destruct (decide (InsufficientReviews ∈ tally_reasons (spec p) (tally (n_records n)))) as [H1'|H1'];
    [left; by apply tally_reasons_spec|].
  destruct (decide (InsufficientTests ∈ tally_reasons (spec p) (tally (n_records n)))) as [H2'|H2'];
    [right; left; by apply tally_reasons_spec|].
  destruct (decide (InsufficientAttestations ∈ tally_reasons (spec p) (tally (n_records n)))) as [H3'|H3'];
    [right; right; by apply tally_reasons_spec|].
  rewrite tally_reasons_spec in H1', H2', H3'. pose proof (ok_reviews _ Hok).
  pose proof (assurance_of_counts (spec p) (n_records n) ltac:(lia) H1' H2' H3'). simpl in Hin. lia.
Qed.

(** ** Seals *)

Lemma compute_receipt_seal_Ok claims key seal :
  compute_receipt_seal claims key = Ok seal <->
  exists bytes, to_vec claims = Ok bytes /\ seal = sha256_tag (hmac key (receipt_message bytes)).
Proof.
  unfold compute_receipt_seal. rewrite bind_Ok_inv. split.
  - intros (b & Hb%map_err_Ok & [= <-]). eauto.
  - intros (b & Hb & ->). exists b. split; [by apply map_err_Ok|done].
Qed.

Lemma compute_checkpoint_seal_Ok claims key seal :
  compute_checkpoint_seal claims key = Ok seal <->
  exists bytes, to_vec claims = Ok bytes /\ seal = sha256_tag (hmac key (checkpoint_message bytes)).
Proof.
  unfold compute_checkpoint_seal. rewrite bind_Ok_inv. split.
  - intros (b & Hb%map_err_Ok & [= <-]). eauto.
  - intros (b & Hb & ->). exists b. split; [by apply map_err_Ok|done].
Qed.

Lemma verify_receipt_seal p r :
  verify_receipt p r = true ->
  exists bytes, to_vec (receipt_claims r) = Ok bytes /\
    receipt_seal r = sha256_tag (hmac (receipt_key p) (receipt_message bytes)).
Proof.
  unfold verify_receipt. intros Hv. inv_ok. destruct (to_vec (receipt_claims r)) as [b|]; [|done].
  exists b. split; [done|]. apply seal_matches_true; [apply hmac_length|done].
Qed.

Lemma verify_checkpoint_seal p c task context :
  verify_checkpoint p c task context = true ->
  exists bytes, to_vec (checkpoint_claims c) = Ok bytes /\
    checkpoint_seal c = sha256_tag (hmac (receipt_key p) (checkpoint_message bytes)).
Proof.
  unfold verify_checkpoint. intros Hv. inv_ok. destruct (to_vec (checkpoint_claims c)) as [b|]; [|done].
  exists b. split; [done|]. apply seal_matches_true; [apply hmac_length|done].
Qed.

Lemma sha256_tag_inj t t' : sha256_tag t = sha256_tag t' -> t = t'.
Proof.
  unfold sha256_tag. intros Ht. apply app_length_inj in Ht as [_ Ht]; [by apply hex_inj|done].
Qed.

(** Two different messages with one digest. *)
Definition sha256_collision : Prop := exists m m', m <> m' /\ sha256 m = sha256 m'.

Lemma content_digest_collision a b :
  content_digest a = content_digest b -> a = b \/ sha256_collision.
Proof.
  intros Hd%sha256_tag_inj. destruct (decide (a = b)); [by left|right]. by exists a, b.
Qed.

Lemma artifact_set_digest_wf l d : artifact_set_digest l = Ok d -> is_digest d = true.
Proof. unfold artifact_set_digest. intros Hd. inv_ok. by apply canonical_digest_wf in Hd. Qed.

Lemma checkpoint_of_verifies p snapshot n c :
  normalize (spec p) snapshot = Ok n -> checkpoint_of p snapshot n c ->
  min_assurance_bps (spec p) <= tally_assurance (spec p) (tally (n_records n)) ->
  verify_checkpoint p c (snap_task_id snapshot) (snap_context_id snapshot) = true.
Proof.
  intros Hn [Ht Hx Hr Hp Hv Hh Hs Ha Hhs Hsn Hseal] Hmin. unfold verify_checkpoint.
  rewrite Ht, Hx, Hr, Hp, Hv, Hh, Hs, Ha, !bool_decide_true, N.eqb_refl by done. simpl.
  assert (Hreq : validate_digest "checkpoint.requestDigest" (snap_request_digest snapshot) = Ok tt).
  { unfold normalize in Hn. inv_ok. unfold validate_digest in *. inv_ok.
    by match goal with Hd : is_digest (snap_request_digest _) = true |- _ => rewrite Hd end. }
  rewrite Hreq. unfold validate_digest. rewrite Hsn. simpl.
  destruct (normalize_Ok _ _ _ Hn) as (_ & Hset%artifact_set_digest_wf & _). rewrite Hset. simpl.
  assert (Hall : forallb (fun d => is_ok (fail_if (negb (is_digest d)) (InvalidDigest "checkpoint.evidenceHash" d)))
    (claim_evidence_hashes (checkpoint_claims c)) = true).
  { apply forallb_forall. intros d Hd%list_elem_of_In. apply list_elem_of_lookup in Hd as [i Hi].
    destruct (Forall2_lookup_r _ _ _ _ _ Hhs Hi) as (e & _ & He%canonical_digest_wf). by rewrite He. }
  rewrite Hall. simpl. apply andb_true_iff. split; [by apply N.leb_le|].
  apply compute_checkpoint_seal_Ok in Hseal as (b & -> & ->). apply seal_matches_true; [apply hmac_length|done].
Qed.

#[export] Instance artifact_key_inj : Inj (=) (=) artifact_key.
Proof. intros [] []. unfold artifact_key. simpl. by intros [= -> -> ->]. Qed.

Lemma artifact_set_digest_perm l l' : l ≡ₚ l' -> artifact_set_digest l = artifact_set_digest l'.
Proof.
  intros Hp. unfold artifact_set_digest.
  rewrite (sort_by_key_unique artifact_key l l') by (done || intros; by apply (inj artifact_key)).
  replace (bool_decide (l = [])) with (bool_decide (l' = [])); [done|].
  apply bool_decide_ext. split; intros ->; [by apply Permutation_nil_r in Hp|by apply Permutation_nil_l in Hp].
Qed.

Lemma evaluate_verifies p snapshot d :
  evaluate p snapshot = Ok d ->
  match d with
  | Accepted r => verify_receipt p r = true
  | AwaitingRatification c =>
      verify_checkpoint p c (snap_task_id snapshot) (snap_context_id snapshot) = true
  | Blocked c rs => InsufficientAssurance ∉ rs ->
      verify_checkpoint p c (snap_task_id snapshot) (snap_context_id snapshot) = true
  end.
Proof.
  intros (n & c & Hn & Hb%build_checkpoint_Ok & Hd)%evaluate_Ok.
  assert (Hver : InsufficientAssurance ∉ tally_reasons (spec p) (tally (n_records n)) ->
    verify_checkpoint p c (snap_task_id snapshot) (snap_context_id snapshot) = true).
  { rewrite tally_reasons_spec. simpl. intros Hm. eapply checkpoint_of_verifies; [done|done|lia]. }
  assert (Hacc : forall r h, receipt_from_checkpoint c h (receipt_key p) = Ok r -> verify_receipt p r = true).
  { intros r h (Hbase & _ & Hseal)%receipt_from_checkpoint_Ok. destruct Hb. unfold verify_receipt.
    rewrite Hbase, of_policy_id0, of_version0, of_policy0, !bool_decide_true, N.eqb_refl by done. simpl.
    apply compute_receipt_seal_Ok in Hseal as (b & -> & ->). apply seal_matches_true; [apply hmac_length|done]. }
  revert Hd. unfold decide_completion. case_bool_decide as Hnil; simpl; [|by intros [= <-]].
  rewrite Hnil in Hver. specialize (Hver (not_elem_of_nil _)).
  destruct (require_human_ratification (spec p)); simpl.
  - destruct (n_ratifications n) as [|rat rest]; [by intros [= <-]|].
    intros [->|(receipt & hash & -> & _ & Hrec)]%ratify_Ok; [done|eauto].
  - intros Hd. inv_ok. eauto.
Qed.

(** What an accepted receipt is about. *)
Lemma accepted_claims p snapshot r :
  evaluate p snapshot = Ok (Accepted r) ->
  let c := receipt_base (receipt_claims r) in
  claim_task_id c = snap_task_id snapshot /\ claim_context_id c = snap_context_id snapshot /\
  artifact_set_digest (snap_artifacts snapshot) = Ok (claim_artifact_set_digest c).
Proof.
  intros (n & c & Hn & Hb%build_checkpoint_Ok & [_ Hd]%decide_Accepted)%evaluate_Ok.
  assert (Hbase : receipt_base (receipt_claims r) = checkpoint_claims c).
  { destruct Hd as [(_ & _ & (-> & _)%receipt_from_checkpoint_Ok)
                   |(_ & rat & rest & hash & _ & _ & (-> & _)%receipt_from_checkpoint_Ok)]; done. }
  cbn zeta. rewrite Hbase. destruct (normalize_Ok _ _ _ Hn) as (Ha & Hs & _). rewrite Ha in Hs.
  rewrite (artifact_set_digest_perm _ (snap_artifacts snapshot)) in Hs by apply sort_by_key_perm.
  destruct Hb. split_and!; [done|done|]. by rewrite of_subject0.
Qed.

(** What the policy issues, it recognizes: an accepted receipt verifies, and
    so does the checkpoint of a decision that waits for ratification or is
    blocked for any reason but its assurance. *)
Theorem issued_values_verify p snapshot d :
  evaluate p snapshot = Ok d ->
  match d with
  | Accepted r => verify_receipt p r = true
  | AwaitingRatification c =>
      verify_checkpoint p c (snap_task_id snapshot) (snap_context_id snapshot) = true
  | Blocked c rs => InsufficientAssurance ∉ rs ->
      verify_checkpoint p c (snap_task_id snapshot) (snap_context_id snapshot) = true
  end.
Proof. apply evaluate_verifies. Qed.

(** Two different messages with one authentication tag. *)
Definition hmac_collision (key : string) : Prop :=
  exists m m', m <> m' /\ hmac key m = hmac key m'.

(** One encoded tag under a prefix is of one message. *)
Lemma tag_inj `{UrlBase64} key prefix m m' : url_laws ->
  prefix +:+ url_encode (hmac key m) = prefix +:+ url_encode (hmac key m') -> m = m' \/ hmac_collision key.
Proof.
  intros laws Heq. apply app_length_inj in Heq as [_ Heq]; [|done]. apply (f_equal url_decode) in Heq.
  rewrite !(url_roundtrip laws) in Heq by apply hmac_length. injection Heq as Heq.
  destruct (decide (m = m')); [by left|right; by eexists _, _].
Qed.

Lemma receipt_message_inj b b' :
  slen b <= u64_max -> slen b' <= u64_max -> receipt_message b = receipt_message b' -> b = b'.
Proof.
  intros Hb Hb'. unfold receipt_message. rewrite !string_app_assoc. intros Hm.
  apply app_length_inj in Hm as [_ Hm]; [|done]. by apply frame_inj_eq.
Qed.

Lemma messages_differ b b' : receipt_message b <> checkpoint_message b'.
Proof. unfold receipt_message, checkpoint_message. by cbn. Qed.

(** The serialization of [T] determines the value, with lengths of 64 bits. *)
Record faithful (T : Type) `{Serialize T} : Prop := {
  to_vec_inj : forall (a a' : T) b, to_vec a = Ok b -> to_vec a' = Ok b -> a = a';
  to_vec_len : forall (a : T) b, to_vec a = Ok b -> slen b <= u64_max }.

Lemma canonical_digest_collision {T} `{Serialize T} domain (a a' : T) d :
  faithful T -> slen domain <= u64_max ->
  canonical_digest domain a = Ok d -> canonical_digest domain a' = Ok d -> a = a' \/ sha256_collision.
Proof.
  intros [Hinj Hlen] Hdom. unfold canonical_digest.
  intros (b & Hb%map_err_Ok & <-%Ok_inj)%bind_Ok_inv (b' & Hb'%map_err_Ok & Htag%Ok_inj%sha256_tag_inj)%bind_Ok_inv.
  destruct (decide (digest_preimage domain b' = digest_preimage domain b)) as [Heq|Hne];
    [left|right; by eexists _, _].
  unfold digest_preimage in Heq. do 6 (apply app_length_inj in Heq as [_ Heq]; [|done]).
  apply frame_inj in Heq as [_ Heq]; [|done..]. apply frame_inj_eq in Heq as ->; [|by eapply Hlen..].
  by eapply Hinj.
Qed.

Lemma artifact_set_collision l l' d :
  faithful (list ArtifactManifest) -> artifact_set_digest l = Ok d -> artifact_set_digest l' = Ok d ->
  l ≡ₚ l' \/ sha256_collision.
Proof.
  intros Hf. unfold artifact_set_digest. intros Hl Hl'. inv_ok.
  destruct (canonical_digest_collision "artifact-set" _ _ d Hf ltac:(done) Hl Hl') as [Heq|]; [left|by right].
  by rewrite <- (sort_by_key_perm artifact_key l), Heq, sort_by_key_perm.
Qed.

Lemma same_seal_receipts p r r' :
  faithful ReceiptClaims -> verify_receipt p r = true -> verify_receipt p r' = true ->
  receipt_seal r = receipt_seal r' -> r = r' \/ hmac_collision (receipt_key p).
Proof.
  destruct r as [rc rs], r' as [rc' rs'].
  intros [Hinj Hlen] (b & Hb & Hs)%verify_receipt_seal (b' & Hb' & Hs')%verify_receipt_seal.
  simpl in *. intros <-. rewrite Hs in Hs'. apply sha256_tag_inj in Hs'.
  destruct (decide (receipt_message b = receipt_message b')) as [Heq|Hne]; [left|right; by eexists _, _].
  apply receipt_message_inj in Heq as <-; [|by eapply Hlen..]. f_equal. by eapply Hinj.
Qed.

(** Seals bind their claims.  Two receipts of one policy that verify under
    the same seal carry the same claims, and a checkpoint's seal never passes as
    a receipt's, unless an explicit HMAC collision under the policy's key is at
    hand (the serialization is assumed injective, with lengths of 64 bits). *)
Theorem seals_bind p :
  (forall a a' b, to_vec (T:=ReceiptClaims) a = Ok b -> to_vec a' = Ok b -> a = a') ->
  (forall a b, to_vec (T:=ReceiptClaims) a = Ok b -> slen b <= u64_max) ->
  (forall r r', verify_receipt p r = true -> verify_receipt p r' = true ->
     receipt_seal r = receipt_seal r' -> r = r' \/ hmac_collision (receipt_key p)) /\
  (forall c task context r, verify_checkpoint p c task context = true -> verify_receipt p r = true ->
     checkpoint_seal c = receipt_seal r -> hmac_collision (receipt_key p)).
Proof.
  intros Hinj Hlen. split; [intros r r'; by apply same_seal_receipts|].
  intros c task context r (b & _ & Hs)%verify_checkpoint_seal (b' & _ & Hs')%verify_receipt_seal Heq.
  rewrite Hs, Hs' in Heq. apply sha256_tag_inj in Heq.
  exists (receipt_message b'), (checkpoint_message b). split; [apply messages_differ|done].
Qed.

(** ** Order of submission *)

Lemma Permutation_short {A} (l k : list A) : (length l <= 1)%nat -> l ≡ₚ k -> l = k.
Proof.
  intros Hl Hp. destruct l as [|x [|]]; [by apply Permutation_nil in Hp| |simpl in Hl; lia].
  symmetry. by apply Permutation_singleton_r.
Qed.

(** A decision does not depend on the order in which artifacts and evidence
    are submitted. *)
Theorem evaluate_order_independent p s1 s2 d :
  snap_task_id s1 = snap_task_id s2 -> snap_context_id s1 = snap_context_id s2 ->
  snap_request_digest s1 = snap_request_digest s2 ->
  snap_artifacts s1 ≡ₚ snap_artifacts s2 -> snap_evidence s1 ≡ₚ snap_evidence s2 ->
  evaluate p s1 = Ok d -> evaluate p s2 = Ok d.
Proof.
  intros Ht Hc Hr Ha He (n & c & Hn & Hb & Hd)%evaluate_Ok. apply evaluate_Ok.
  exists n, c. split; [|split; [|done]].
  - pose proof (normalize_Ok _ _ _ Hn) as (_ & _ & Hrec & Hrat & _ & Hnd & Hone).
    assert (Hsorta : sort_by_key artifact_key (snap_artifacts s2) = sort_by_key artifact_key (snap_artifacts s1)).
    { symmetry. apply sort_by_key_unique; [|done]. intros; by apply artifact_key_inj. }
    assert (Hfilter : filter (fun e => is_record e) (snap_evidence s1)
                      ≡ₚ filter (fun e => is_record e) (snap_evidence s2)) by by rewrite He.
    assert (Hsorte : sort_by_key evidence_id (filter (fun e => is_record e) (snap_evidence s2))
                     = sort_by_key evidence_id (filter (fun e => is_record e) (snap_evidence s1))).
    { symmetry. apply sort_by_key_unique; [|done]. intros x y Hx Hy.
      apply (NoDup_fmap_inj_on evidence_id (n_records n) Hnd); by rewrite Hrec, sort_by_key_elem. }
    assert (Hom : omap as_ratification (snap_evidence s2) = omap as_ratification (snap_evidence s1)).
    { symmetry. apply Permutation_short; [|by rewrite He]. rewrite <- Hrat. unfold len in Hone. lia. }
    revert Hn. unfold normalize.
    rewrite <- Ht, <- Hc, <- Hr, Hsorta, Hsorte, Hom. unfold len.
    rewrite <- !(Permutation_length Ha), <- !(Permutation_length He), <- !(Permutation_length Hfilter).
    by rewrite !(bool_decide_ext (snap_artifacts s2 = []) (snap_artifacts s1 = []))
      by (split; intros Hnil; rewrite Hnil in Ha; [by apply Permutation_nil_r in Ha|by apply Permutation_nil in Ha]).
  - unfold build_checkpoint in *. by rewrite <- Ht, <- Hc, <- Hr.
Qed.
End policy.

(** ** Sample evaluations *)

#[local] Existing Instance sample_sha256.
#[local] Existing Instance sample_hmac.

Definition claims_tuple (c : CheckpointClaims) :=
  (claim_task_id c, claim_context_id c, claim_request_digest c, claim_policy_id c,
   claim_policy_version c, claim_policy_hash c, claim_evidence_snapshot_hash c,
   claim_artifact_set_digest c, claim_evidence_hashes c, claim_assurance_bps c).

Definition receipt_tuple (c : ReceiptClaims) :=
  (claims_tuple (receipt_base c), ratification_receipt_hash c).

Lemma receipt_tuple_inj c c' : receipt_tuple c = receipt_tuple c' -> c = c'.
Proof. destruct c as [[] ?], c' as [[] ?]. unfold receipt_tuple, claims_tuple. simpl. by intros [= -> -> -> -> -> -> -> -> -> -> ->]. Qed.

(** A value written as the bits of its encoding. *)
Definition encoded {T K} `{Countable K} (f : T -> K) (v : T) : result string string :=
  let b := bits (encode (f v)) in if slen b <=? u64_max then Ok b else Err "too long".

Lemma encoded_faithful {T K} `{Countable K} (f : T -> K) :
  (forall v v', f v = f v' -> v = v') -> @faithful T (encoded f).
Proof.
  assert (Hb : forall v b, encoded f v = Ok b -> b = bits (encode (f v)) /\ slen b <= u64_max).
  { unfold encoded. intros v b. case_match eqn:Hlen; [|done]. intros [= <-]. by apply N.leb_le in Hlen. }
  intros Hinj. split.
  - intros a a' b [-> _]%Hb [Heq _]%Hb. by apply Hinj, (inj encode), bits_inj.
  - by intros a b [_ Hlen]%Hb.
Qed.

(** Receipts and artifact sets are written faithfully; the other values by one
    of their fields. *)
#[local] Instance sample_codec : PolicyCodec := {|
  ser_artifacts := encoded (fmap artifact_key);
  ser_evidence := fun e => Ok (default "" (evidence_id e));
  ser_snapshot := fun n => Ok (norm_task_id n);
  ser_spec := fun s => Ok (policy_id s);
  ser_statement := fun s => Ok (stmt_artifact_set_digest s);
  ser_ratification := fun r => Ok (att_signature (authority r));
  ser_checkpoint := fun c => Ok (claim_task_id c);
  ser_receipt := encoded receipt_tuple |}.

(** A signature is the signed claim after the node's name. *)
#[local] Instance sample_scheme : AttestationScheme :=
  fun a claim => bool_decide (att_signature a = att_node_id a +:+ claim).

Definition sample_artifacts : list ArtifactManifest :=
  [{| artifact_name := "b"; artifact_media_type := "text/plain"; artifact_digest := content_digest "bb" |};
   {| artifact_name := "a"; artifact_media_type := "text/plain"; artifact_digest := content_digest "aa" |}].

Definition sample_subject : string :=
  match artifact_set_digest sample_artifacts with Ok d => d | Err _ => "" end.

Definition sample_evidence (approved : bool) (assurance : N) : list CompletionEvidence :=
  [Test_ "e2" "test-authority" sample_subject "t" (content_digest "t") true 9000;
   Review "e1" "review-authority" sample_subject "r" (content_digest "r") approved assurance;
   Contradiction "e3" "contradiction-monitor" sample_subject "c" (content_digest "c") false].

Definition sample_snapshot (evidence : list CompletionEvidence) : CompletionSnapshot := {|
  snap_task_id := "task"; snap_context_id := "ctx"; snap_request_digest := content_digest "q";
  snap_artifacts := sample_artifacts; snap_evidence := evidence |}.

Definition sample_root : TrustedAuthority := {| auth_node_id := "root"; auth_public_key := "pk" |}.

Definition ratified_spec : CompletionPolicySpec := {|
  policy_id := COMPLETION_POLICY_V1; version := 1; required_reviews := 1; required_tests := 1;
  required_attestations := 0; required_contradiction_clearances := 1; min_assurance_bps := 7500;
  require_human_ratification := true; review_issuers := ["review-authority"];
  test_issuers := ["test-authority"]; contradiction_issuers := ["contradiction-monitor"];
  attestation_authorities := []; ratification_authorities := [sample_root];
  max_evidence_records := 32; max_artifacts := 16 |}.

Definition sample_policy (s : CompletionPolicySpec) : VersionedCompletionPolicy :=
  match new_with_receipt_key s "key" with
  | Ok p => p
  | Err _ => {| spec := s; policy_hash := ""; receipt_key := "" |}
  end.

Definition sample_normalized (p : VersionedCompletionPolicy) (snapshot : CompletionSnapshot) : Normalized :=
  match normalize (spec p) snapshot with
  | Ok n => n
  | Err _ => {| n_artifacts := []; n_artifact_set_digest := ""; n_records := []; n_ratifications := [] |}
  end.

Definition decision_of (p : VersionedCompletionPolicy) (snapshot : CompletionSnapshot) : PolicyDecision :=
  match evaluate p snapshot with
  | Ok d => d
  | Err _ => Blocked {| checkpoint_claims := {| claim_task_id := ""; claim_context_id := "";
      claim_request_digest := ""; claim_policy_id := ""; claim_policy_version := 0; claim_policy_hash := "";
      claim_evidence_snapshot_hash := ""; claim_artifact_set_digest := ""; claim_evidence_hashes := [];
      claim_assurance_bps := 0 |}; checkpoint_seal := "" |} []
  end.

Lemma accepted_is_justified_witness :
  exists r, evaluate (sample_policy development) (sample_snapshot (sample_evidence true 8000)) = Ok (Accepted r) /\
    justified (spec (sample_policy development)) (sample_snapshot (sample_evidence true 8000)) (receipt_base (receipt_claims r)).
Proof.
  destruct (evaluate (sample_policy development) (sample_snapshot (sample_evidence true 8000)))
    as [[r|c|c rs]|e] eqn:He; [|vm_compute in He; discriminate He..].
  exists r. split; [reflexivity|].
  exact (proj1 (accepted_is_justified (sample_policy development) (sample_snapshot (sample_evidence true 8000)) r He)).
Defined.

Lemma block_reasons_exact_witness :
  exists c rs, evaluate (sample_policy development) (sample_snapshot (sample_evidence false 8000))
    = Ok (Blocked c rs) /\ FailedReview ∈ rs.
Proof.
  set (p := sample_policy development). set (s := sample_snapshot (sample_evidence false 8000)).
  destruct (normalize (spec p) s) as [n|e] eqn:Hn; [|vm_compute in Hn; discriminate Hn].
  destruct (build_checkpoint p s n) as [c|e] eqn:Hc.
  - exists c. apply (block_reasons_exact p s n c FailedReview Hn Hc); [discriminate|].
    exists (Review "e1" "review-authority" sample_subject "r" (content_digest "r") false 8000).
    split; [|reflexivity]. apply (normalize_record_elem _ _ _ _ Hn). split; [|reflexivity].
    right. left.
  - assert (Hb : is_ok (normalize (spec p) s ≫= build_checkpoint p s) = true) by (vm_compute; reflexivity).
    rewrite Hn in Hb. simpl in Hb. rewrite Hc in Hb. discriminate Hb.
Defined.

Lemma new_policy_ok_witness : policy_ok (spec (sample_policy development)).
Proof. refine (proj1 (new_policy_ok development "key" (sample_policy development) _)). vm_compute. reflexivity. Defined.

Lemma assurance_follows_counts_witness :
  exists c rs, evaluate (sample_policy development) (sample_snapshot (sample_evidence true 5000))
    = Ok (Blocked c rs) /\
    (InsufficientReviews ∈ rs \/ InsufficientTests ∈ rs \/ InsufficientAttestations ∈ rs).
Proof.
  destruct (evaluate (sample_policy development) (sample_snapshot (sample_evidence true 5000)))
    as [[r|c|c rs]|e] eqn:He; [vm_compute in He; discriminate He..| |vm_compute in He; discriminate He].
  exists c, rs. split; [reflexivity|].
  apply (assurance_follows_counts development "key" (sample_policy development)
    (sample_snapshot (sample_evidence true 5000)) c rs); [vm_compute; reflexivity|exact He|].
  assert (Hrs : match evaluate (sample_policy development) (sample_snapshot (sample_evidence true 5000)) with
                | Ok (Blocked _ rs) => rs = [InsufficientReviews; InsufficientAssurance] | _ => False end)
    by (vm_compute; reflexivity).
  rewrite He in Hrs. rewrite Hrs. right. left.
Defined.

Lemma issued_values_verify_witness :
  exists c, evaluate (sample_policy ratified_spec) (sample_snapshot (sample_evidence true 8000))
    = Ok (AwaitingRatification c) /\ verify_checkpoint (sample_policy ratified_spec) c "task" "ctx" = true.
Proof.
  destruct (evaluate (sample_policy ratified_spec) (sample_snapshot (sample_evidence true 8000)))
    as [[r|c|c rs]|e] eqn:He; [vm_compute in He; discriminate He| |vm_compute in He; discriminate He..].
  exists c. split; [reflexivity|].
  exact (issued_values_verify (sample_policy ratified_spec) (sample_snapshot (sample_evidence true 8000)) _ He).
Defined.

Lemma sample_receipts_faithful : faithful ReceiptClaims.
Proof. apply encoded_faithful, receipt_tuple_inj. Qed.

Lemma sample_artifacts_faithful : faithful (list ArtifactManifest).
Proof. apply encoded_faithful. intros l l'. apply (inj (fmap _)). Qed.

Lemma seals_bind_witness :
  faithful ReceiptClaims /\
  forall r r', verify_receipt (sample_policy development) r = true ->
    verify_receipt (sample_policy development) r' = true -> receipt_seal r = receipt_seal r' ->
    r = r' \/ hmac_collision (receipt_key (sample_policy development)).
Proof.
  split; [apply sample_receipts_faithful|].
  apply (seals_bind (sample_policy development)); apply sample_receipts_faithful.
Defined.

Lemma evaluate_order_independent_witness :
  exists d, evaluate (sample_policy development) (sample_snapshot (reverse (sample_evidence true 8000))) = Ok d.
Proof.
  set (p := sample_policy development).
  destruct (evaluate p (sample_snapshot (sample_evidence true 8000)))
    as [d|e] eqn:He; [|vm_compute in He; discriminate He].
  exists d. clearbody p.
  apply (evaluate_order_independent p
    (sample_snapshot (sample_evidence true 8000)) (sample_snapshot (reverse (sample_evidence true 8000))) d);
    [reflexivity|reflexivity|reflexivity|reflexivity| |exact He].
  symmetry. apply reverse_Permutation.
Defined.
