(* ===== verification/Quota.v ===== *)
(** * The quota policy

    [src/quota.rs]: the validated, server-owned policy document, its limits and
    timed overrides, and the accounting intents (admission, egress, lease) the
    durable stores charge atomically.  JSON decoding and encoding of the
    document are parameters; the file reader [load] is not modelled beyond the
    bytes it hands to [from_json]. *)

From S2P Require Import Prelude Text Protocol Policy.

Local Open Scope N_scope.

Definition MAX_POLICY_BYTES : N := 256 * 1024.
Definition MAX_RATE_CAP : N := 1000000.
Definition MAX_CONCURRENCY_CAP : N := 4096.
Definition MAX_BYTE_CAP : N := 64 * 1024 * 1024.
Definition MAX_EVENT_CAP : N := 1000000.
Definition MAX_WINDOW_MILLIS : N := 24 * 60 * 60 * 1000.

(** ** Vocabulary *)

Inductive QuotaOperation :=
  | TaskCreate | TaskContinue | TaskCancel | TaskGet | TaskList | SendStream | Subscribe | Reconnect
  | PublicEgress.

Definition operation_str (o : QuotaOperation) : string :=
  match o with
  | TaskCreate => "taskCreate" | TaskContinue => "taskContinue" | TaskCancel => "taskCancel"
  | TaskGet => "taskGet" | TaskList => "taskList" | SendStream => "sendStream"
  | Subscribe => "subscribe" | Reconnect => "reconnect" | PublicEgress => "publicEgress"
  end.

Inductive QuotaDimension :=
  | RequestCount | ConcurrentActiveWork | InputBytes | OutputBytes | EventCount | ConcurrentStreams
  | ConcurrentSubscriptions | ReconnectCount | RetainedAuthorityBytes.

Inductive QuotaScopeKind := Tenant | Account | Principal.

Inductive QuotaAlgorithm := FixedWindow | TokenBucket | Gauge.

Inductive QuotaLeaseKind := MessageStream | TaskSubscription.

Definition lease_str (k : QuotaLeaseKind) : string :=
  match k with MessageStream => "messageStream" | TaskSubscription => "taskSubscription" end.

Definition lease_dimension (k : QuotaLeaseKind) : QuotaDimension :=
  match k with MessageStream => ConcurrentStreams | TaskSubscription => ConcurrentSubscriptions end.

#[global] Instance QuotaOperation_eq_dec : EqDecision QuotaOperation.
Proof. solve_decision. Defined.
#[global] Instance QuotaDimension_eq_dec : EqDecision QuotaDimension.
Proof. solve_decision. Defined.
#[global] Instance QuotaScopeKind_eq_dec : EqDecision QuotaScopeKind.
Proof. solve_decision. Defined.
#[global] Instance QuotaAlgorithm_eq_dec : EqDecision QuotaAlgorithm.
Proof. solve_decision. Defined.

(** Declaration order is the derived [Ord]. *)
Definition DIMENSIONS : list QuotaDimension :=
  [RequestCount; ConcurrentActiveWork; InputBytes; OutputBytes; EventCount; ConcurrentStreams;
   ConcurrentSubscriptions; ReconnectCount; RetainedAuthorityBytes].
Definition SCOPES : list QuotaScopeKind := [Tenant; Account; Principal].

Definition dimension_index (d : QuotaDimension) : N :=
  match d with
  | RequestCount => 0 | ConcurrentActiveWork => 1 | InputBytes => 2 | OutputBytes => 3
  | EventCount => 4 | ConcurrentStreams => 5 | ConcurrentSubscriptions => 6 | ReconnectCount => 7
  | RetainedAuthorityBytes => 8
  end.
Definition scope_index (s : QuotaScopeKind) : N :=
  match s with Tenant => 0 | Account => 1 | Principal => 2 end.

#[global] Instance QuotaDimension_cmp : TotalCmp QuotaDimension :=
  inj_cmp dimension_index ltac:(by intros [] []).
#[global] Instance QuotaScopeKind_cmp : TotalCmp QuotaScopeKind :=
  inj_cmp scope_index ltac:(by intros [] []).

Inductive QuotaPolicyError := Invalid | Unavailable.

(** ** The document *)

Record LimitPair := { tenant : N; account : N; principal : N }.

Record Limits := {
  request_count : LimitPair;
  concurrent_active_work : LimitPair;
  input_bytes : LimitPair;
  output_bytes : LimitPair;
  event_count : LimitPair;
  concurrent_streams : LimitPair;
  concurrent_subscriptions : LimitPair;
  reconnect_count : LimitPair;
  retained_authority_bytes : LimitPair }.

Record OverrideDocument := {
  override_id : string;
  override_actor : string;
  override_reason : string;
  override_scope_kind : QuotaScopeKind;
  override_scope_id : string;
  override_operation : QuotaOperation;
  override_dimension : QuotaDimension;
  old_limit : N;
  new_limit : N;
  effective_at : Z;
  override_expires_at : Z }.

Record PolicyDocument := {
  schema_version : string;
  doc_policy_id : string;
  revision : N;
  request_window_millis : N;
  reconnect_window_millis : N;
  limits : Limits;
  overrides : list OverrideDocument }.

(** [serde_json] at type [PolicyDocument]. *)
Class QuotaCodec := {
  document_from_slice : string -> option PolicyDocument;
  document_to_string : PolicyDocument -> option string }.

Record QuotaPolicy := { document : PolicyDocument; canonical_json : string; digest : string }.

(** ** Validators *)

Definition valid_id (value : string) (max : N) : bool :=
  negb (bool_decide (value = "")) && (slen value <=? max)
  && str_all (fun c => is_ascii_alphanumeric c || byte_in "._:-" c) value.

Definition valid_visible_ascii (value : string) (max : N) : bool :=
  negb (bool_decide (value = "")) && (slen value <=? max)
  && str_all (fun c => is_ascii_graphic c || bool_decide (code c = 32)) value.

(** [durable_authority::valid_bounded_identity] *)
Definition valid_bounded_identity (value : string) : bool :=
  negb (bool_decide (value = "")) && (slen value <=? 64) && is_ascii value.

Definition validate_pair (pair : LimitPair) (cap : N) : result QuotaPolicyError unit :=
  fail_if ((tenant pair =? 0) || (account pair =? 0) || (principal pair =? 0)
           || (cap <? tenant pair) || (cap <? account pair) || (cap <? principal pair)
           || (tenant pair <? account pair) || (account pair <? principal pair)) Invalid.

Definition limit_pair (l : Limits) (d : QuotaDimension) : LimitPair :=
  match d with
  | RequestCount => request_count l
  | ConcurrentActiveWork => concurrent_active_work l
  | InputBytes => input_bytes l
  | OutputBytes => output_bytes l
  | EventCount => event_count l
  | ConcurrentStreams => concurrent_streams l
  | ConcurrentSubscriptions => concurrent_subscriptions l
  | ReconnectCount => reconnect_count l
  | RetainedAuthorityBytes => retained_authority_bytes l
  end.

Definition limit_from_document (doc : PolicyDocument) (d : QuotaDimension) (s : QuotaScopeKind) : N :=
  let pair := limit_pair (limits doc) d in
  match s with Tenant => tenant pair | Account => account pair | Principal => principal pair end.

Definition dimension_cap (d : QuotaDimension) : N :=
  match d with
  | RequestCount | ReconnectCount => MAX_RATE_CAP
  | ConcurrentActiveWork | ConcurrentStreams | ConcurrentSubscriptions => MAX_CONCURRENCY_CAP
  | EventCount => MAX_EVENT_CAP
  | InputBytes | OutputBytes | RetainedAuthorityBytes => MAX_BYTE_CAP
  end.

(** ** [from_json] *)

(** One iteration over the overrides; the state is the set of ids seen. *)
Definition check_override (doc : PolicyDocument) (ids : gset string) (v : OverrideDocument) :
    result QuotaPolicyError (gset string) :=
  let cap := dimension_cap (override_dimension v) in
  let baseline := limit_from_document doc (override_dimension v) (override_scope_kind v) in
  fail_if (negb (valid_id (override_id v) 128) || negb (valid_visible_ascii (override_actor v) 256)
           || negb (valid_visible_ascii (override_reason v) 1024)
           || negb (valid_id (override_scope_id v) 256)
           || (old_limit v =? 0) || (new_limit v =? 0) || (cap <? old_limit v) || (cap <? new_limit v)
           || negb (old_limit v =? baseline) || (effective_at v <? 1)%Z
           || (override_expires_at v <=? effective_at v)%Z
           || bool_decide (override_id v ∈ ids)) Invalid;;
  Ok ({[override_id v]} ∪ ids).

(** Two overrides of one target whose validity intervals meet. *)
Definition overlaps (left right : OverrideDocument) : bool :=
  bool_decide (override_scope_kind left = override_scope_kind right)
  && bool_decide (override_scope_id left = override_scope_id right)
  && bool_decide (override_operation left = override_operation right)
  && bool_decide (override_dimension left = override_dimension right)
  && (effective_at left <? override_expires_at right)%Z
  && (effective_at right <? override_expires_at left)%Z.

(** The loop over each override and the ones after it. *)
Fixpoint any_overlap (l : list OverrideDocument) : bool :=
  match l with
  | [] => false
  | v :: l => existsb (overlaps v) l || any_overlap l
  end.

Definition in_window (w : N) : bool := (1 <=? w) && (w <=? MAX_WINDOW_MILLIS).

Definition validate_document (doc : PolicyDocument) : result QuotaPolicyError unit :=
  fail_if (negb (bool_decide (schema_version doc = "smesh-quota-policy/v1"))
           || negb (valid_id (doc_policy_id doc) 128) || (revision doc =? 0)
           || negb (in_window (request_window_millis doc))
           || negb (in_window (reconnect_window_millis doc))) Invalid;;
  validate_pair (request_count (limits doc)) MAX_RATE_CAP;;
  validate_pair (concurrent_active_work (limits doc)) MAX_CONCURRENCY_CAP;;
  validate_pair (input_bytes (limits doc)) MAX_BYTE_CAP;;
  validate_pair (output_bytes (limits doc)) MAX_BYTE_CAP;;
  validate_pair (event_count (limits doc)) MAX_EVENT_CAP;;
  validate_pair (concurrent_streams (limits doc)) MAX_CONCURRENCY_CAP;;
  validate_pair (concurrent_subscriptions (limits doc)) MAX_CONCURRENCY_CAP;;
  validate_pair (reconnect_count (limits doc)) MAX_RATE_CAP;;
  validate_pair (retained_authority_bytes (limits doc)) MAX_BYTE_CAP;;
  fail_if (1024 <? len (overrides doc)) Invalid;;
  try_fold (check_override doc) ∅ (overrides doc);;
  fail_if (any_overlap (overrides doc)) Invalid.

Definition from_json `{Sha256, QuotaCodec} (bytes : string) : result QuotaPolicyError QuotaPolicy :=
  fail_if (bool_decide (bytes = "") || (MAX_POLICY_BYTES <? slen bytes)) Invalid;;
  doc ← ok_or (document_from_slice bytes) Invalid;
  validate_document doc;;
  json ← ok_or (document_to_string doc) Invalid;
  Ok {| document := doc; canonical_json := json; digest := content_digest json |}.

(** ** Limits *)

Definition limit (p : QuotaPolicy) (d : QuotaDimension) (s : QuotaScopeKind) : N :=
  let pair := limit_pair (limits (document p)) d in
  match s with Tenant => tenant pair | Account => account pair | Principal => principal pair end.

Definition window_millis (p : QuotaPolicy) (d : QuotaDimension) : option N :=
  match d with
  | RequestCount => Some (request_window_millis (document p))
  | ReconnectCount => Some (reconnect_window_millis (document p))
  | _ => None
  end.

Definition execution_limit (p : QuotaPolicy) (d : QuotaDimension) : N :=
  N.min (N.min (limit p d Tenant) (limit p d Account)) (limit p d Principal).

Definition override_applies (p : QuotaPolicy) (s : QuotaScopeKind) (scope_id : string)
    (o : QuotaOperation) (d : QuotaDimension) (now : Z) (v : OverrideDocument) : bool :=
  bool_decide (override_scope_kind v = s) && bool_decide (override_scope_id v = scope_id)
  && bool_decide (override_operation v = o) && bool_decide (override_dimension v = d)
  && (old_limit v =? limit p d s) && (effective_at v <=? now)%Z && (now <? override_expires_at v)%Z.

(** The new limit of the first override that applies. *)
Definition limit_at (p : QuotaPolicy) (s : QuotaScopeKind) (scope_id : string) (o : QuotaOperation)
    (d : QuotaDimension) (database_millis : Z) : N :=
  match list_find (fun v => override_applies p s scope_id o d database_millis v) (overrides (document p)) with
  | Some (_, v) => new_limit v
  | None => limit p d s
  end.

Definition lowered_limits_from (p old : QuotaPolicy) : list (QuotaScopeKind * QuotaDimension) :=
  flat_map (fun s => flat_map (fun d => if limit p d s <? limit old d s then [(s, d)] else []) DIMENSIONS)
    SCOPES.

(** ** Subjects and intents *)

Record QuotaSubject := { tenant_scope : string; account_id : string; principal_scope : string }.

Definition new_subject (t a p : string) : result QuotaPolicyError QuotaSubject :=
  fail_if (negb (valid_bounded_identity t) || negb (valid_bounded_identity a)
           || bool_decide (p = "") || (256 <? slen p) || negb (is_ascii p)) Invalid;;
  Ok {| tenant_scope := t; account_id := a; principal_scope := p |}.

Record QuotaCharge := {
  charge_scope_kind : QuotaScopeKind;
  charge_scope_id : string;
  charge_dimension : QuotaDimension;
  charge_algorithm : QuotaAlgorithm;
  units : N;
  capacity : N;
  charge_window_millis : option N }.

Record QuotaIntent := {
  intent_policy_id : string;
  intent_policy_revision : N;
  intent_policy_digest : string;
  intent_tenant_scope : string;
  intent_account_id : string;
  intent_principal_scope : string;
  intent_operation : QuotaOperation;
  semantic_id : string;
  binding_digest : string;
  charges : list QuotaCharge }.

Record ExecutionBudget := { max_output_bytes : N; max_event_count : N }.

Definition new_budget (output events : N) : result QuotaPolicyError ExecutionBudget :=
  fail_if ((output =? 0) || (MAX_BYTE_CAP <? output) || (events =? 0) || (MAX_EVENT_CAP <? events)) Invalid;;
  Ok {| max_output_bytes := output; max_event_count := events |}.

Definition is_execution (o : QuotaOperation) : bool :=
  match o with TaskCreate | TaskContinue | SendStream => true | _ => false end.

(** [values.min()] *)
Definition minimum_of (l : list N) : option N :=
  match l with [] => None | x :: l => Some (foldl N.min x l) end.

Definition minimum_units (i : QuotaIntent) (d : QuotaDimension) : option N :=
  let values := filter (fun c => charge_dimension c = d) (charges i) in
  if (length values =? 3)%nat then minimum_of (units <$> values) else None.

Definition execution_budget (i : QuotaIntent) : option ExecutionBudget :=
  if negb (is_execution (intent_operation i)) then None
  else
    output ← minimum_units i OutputBytes;
    events ← minimum_units i EventCount;
    match new_budget output events with Ok b => Some b | Err _ => None end.

Definition charge_key (c : QuotaCharge) : QuotaScopeKind * (string * QuotaDimension) :=
  (charge_scope_kind c, (charge_scope_id c, charge_dimension c)).

(** The three scopes of a subject, in the order the loops visit them. *)
Definition subject_scopes (subject : QuotaSubject) : list (QuotaScopeKind * string) :=
  [(Tenant, tenant_scope subject); (Account, account_id subject); (Principal, principal_scope subject)].

Definition make_charge (p : QuotaPolicy) (scope : QuotaScopeKind * string) (d : QuotaDimension)
    (a : QuotaAlgorithm) (n : N) (window : option N) : QuotaCharge := {|
  charge_scope_kind := scope.1; charge_scope_id := scope.2; charge_dimension := d;
  charge_algorithm := a; units := n; capacity := limit p d scope.1; charge_window_millis := window |}.

(** [format!("{}\0{}\0...")] *)
Definition join_nul (fields : list string) : string := String.concat nul fields.

Section intents.
Context `{Sha256}.

Definition intent (p : QuotaPolicy) (subject : QuotaSubject) (o : QuotaOperation) (semantic : string)
    (binding : list string) (cs : list QuotaCharge) : QuotaIntent := {|
  intent_policy_id := doc_policy_id (document p); intent_policy_revision := revision (document p);
  intent_policy_digest := digest p; intent_tenant_scope := tenant_scope subject;
  intent_account_id := account_id subject; intent_principal_scope := principal_scope subject;
  intent_operation := o; semantic_id := semantic;
  binding_digest := content_digest (join_nul
    ([digest p; tenant_scope subject; account_id subject; principal_scope subject] ++ binding));
  charges := sort_by_key charge_key cs |}.

(** The charges of one scope of an operation. *)
Definition operation_charges (p : QuotaPolicy) (o : QuotaOperation) (bytes : N)
    (scope : QuotaScopeKind * string) : list QuotaCharge :=
  let window := window_millis p RequestCount in
  [make_charge p scope RequestCount FixedWindow 1 window]
  ++ (match o with
      | TaskCreate | SendStream => [make_charge p scope ConcurrentActiveWork Gauge 1 None]
      | _ => []
      end)
  ++ (if negb (bytes =? 0) then [make_charge p scope InputBytes FixedWindow bytes window] else [])
  ++ (match o with
      | TaskCreate | TaskContinue | SendStream =>
          [make_charge p scope OutputBytes FixedWindow (execution_limit p OutputBytes) window;
           make_charge p scope EventCount FixedWindow (execution_limit p EventCount) window]
      | _ => []
      end).

Definition operation_intent (p : QuotaPolicy) (subject : QuotaSubject) (o : QuotaOperation)
    (semantic : string) (bytes : N) : result QuotaPolicyError QuotaIntent :=
  fail_if (negb (valid_id semantic 256) || (MAX_BYTE_CAP <? bytes)) Invalid;;
  Ok (intent p subject o semantic [operation_str o; semantic]
        (flat_map (operation_charges p o bytes) (subject_scopes subject))).

Definition admission_intent (p : QuotaPolicy) (subject : QuotaSubject) (semantic : string) (bytes : N)
    (streaming : bool) : result QuotaPolicyError QuotaIntent :=
  operation_intent p subject (if streaming then SendStream else TaskCreate) semantic bytes.

Definition egress_intent (p : QuotaPolicy) (subject : QuotaSubject) (semantic : string)
    (output events : N) : result QuotaPolicyError QuotaIntent :=
  fail_if (negb (valid_id semantic 256) || (output =? 0) || (MAX_BYTE_CAP <? output)
           || (events =? 0) || (MAX_EVENT_CAP <? events)) Invalid;;
  let window := window_millis p RequestCount in
  Ok (intent p subject PublicEgress semantic [operation_str PublicEgress; semantic]
        (flat_map (fun scope => [make_charge p scope OutputBytes FixedWindow output window;
                                 make_charge p scope EventCount FixedWindow events window])
                  (subject_scopes subject))).

Definition lease_operation (kind : QuotaLeaseKind) (reconnect : bool) : QuotaOperation :=
  if reconnect then Reconnect
  else match kind with MessageStream => SendStream | TaskSubscription => Subscribe end.

Definition lease_charges (p : QuotaPolicy) (kind : QuotaLeaseKind) (reconnect : bool)
    (scope : QuotaScopeKind * string) : list QuotaCharge :=
  (if reconnect then [make_charge p scope ReconnectCount TokenBucket 1 (window_millis p ReconnectCount)] else [])
  ++ [make_charge p scope (lease_dimension kind) Gauge 1 None].

Definition lease_intent (p : QuotaPolicy) (subject : QuotaSubject) (kind : QuotaLeaseKind)
    (semantic : string) (reconnect : bool) : result QuotaPolicyError QuotaIntent :=
  fail_if (negb (valid_id semantic 256)) Invalid;;
  let o := lease_operation kind reconnect in
  Ok (intent p subject o semantic [operation_str o; lease_str kind; semantic]
        (flat_map (lease_charges p kind reconnect) (subject_scopes subject))).
End intents.

(** ** Drain plans *)

Record QuotaReconciliationTarget := {
  target_tenant_scope : string;
  target_scope_kind : QuotaScopeKind;
  target_dimension : QuotaDimension }.

#[global] Instance QuotaReconciliationTarget_eq_dec : EqDecision QuotaReconciliationTarget.
Proof. solve_decision. Defined.

Definition new_target (t : string) (s : QuotaScopeKind) (d : QuotaDimension) :
    result QuotaPolicyError QuotaReconciliationTarget :=
  fail_if (negb (valid_bounded_identity t)) Invalid;;
  Ok {| target_tenant_scope := t; target_scope_kind := s; target_dimension := d |}.

Definition target_key (t : QuotaReconciliationTarget) : string * (QuotaScopeKind * QuotaDimension) :=
  (target_tenant_scope t, (target_scope_kind t, target_dimension t)).

Record QuotaReconciliationPlan := {
  old_policy_digest : string;
  new_policy_digest : string;
  plan_actor : string;
  plan_reason : string;
  plan_effective_at : Z;
  targets : list QuotaReconciliationTarget }.

Definition drain (old new actor reason : string) (at_ : Z) (ts : list QuotaReconciliationTarget) :
    result QuotaPolicyError QuotaReconciliationPlan :=
  let ts := sort_by_key target_key ts in
  fail_if (negb (slen old =? 71) || negb (slen new =? 71) || bool_decide (old = new)
           || negb (valid_id actor 256) || bool_decide (reason = "") || (1024 <? slen reason)
           || negb (is_ascii reason) || (at_ <? 1)%Z || bool_decide (ts = [])
           || windows2_any (fun a b => bool_decide (a = b)) ts) Invalid;;
  Ok {| old_policy_digest := old; new_policy_digest := new; plan_actor := actor; plan_reason := reason;
        plan_effective_at := at_; targets := ts |}.

Definition authorizes (plan : QuotaReconciliationPlan) (t old new : string) (s : QuotaScopeKind)
    (d : QuotaDimension) : bool :=
  bool_decide (old_policy_digest plan = old) && bool_decide (new_policy_digest plan = new)
  && existsb (fun x => bool_decide (target_tenant_scope x = t) && bool_decide (target_scope_kind x = s)
                       && bool_decide (target_dimension x = d)) (targets plan).

(** ** Errors *)

(** [retry_after_seconds.clamp(1, 3_600)], which always fits [u16]. *)
Definition retry_after_seconds (seconds : N) : N :=
  let clamped := N.max 1 (N.min seconds 3600) in
  if clamped <=? u16_max then clamped else 3600.

(** ** Validated documents *)

Lemma validate_pair_Ok pair cap u :
  validate_pair pair cap = Ok u ->
  1 <= principal pair <= account pair /\ account pair <= tenant pair <= cap.
Proof. unfold validate_pair. intros Hv. inv_ok. lia. Qed.

Record override_ok (doc : PolicyDocument) (v : OverrideDocument) : Prop := {
  ov_old : old_limit v = limit_from_document doc (override_dimension v) (override_scope_kind v);
  ov_new : 1 <= new_limit v <= dimension_cap (override_dimension v);
  ov_interval : (1 <= effective_at v < override_expires_at v)%Z }.

(** What a validated document guarantees. *)
Record document_ok (doc : PolicyDocument) : Prop := {
  doc_ranges : forall d, let pair := limit_pair (limits doc) d in
    1 <= principal pair <= account pair /\ account pair <= tenant pair <= dimension_cap d;
  doc_windows : 1 <= request_window_millis doc <= MAX_WINDOW_MILLIS /\
                1 <= reconnect_window_millis doc <= MAX_WINDOW_MILLIS;
  doc_overrides : Forall (override_ok doc) (overrides doc) /\ len (overrides doc) <= 1024;
  doc_ids : NoDup (override_id <$> overrides doc);
  doc_disjoint : any_overlap (overrides doc) = false }.

Lemma check_overrides_Ok doc l seen :
  try_fold (check_override doc) ∅ l = Ok seen ->
  Forall (override_ok doc) l /\ NoDup (override_id <$> l) /\ forall v, v ∈ l -> override_id v ∈ seen.
Proof.
  apply (try_fold_ind _ (fun pre st => Forall (override_ok doc) pre /\ NoDup (override_id <$> pre) /\
    forall v, v ∈ pre -> override_id v ∈ st)).
  { split_and!; [constructor|constructor|]. intros v Hv. by apply not_elem_of_nil in Hv. }
  intros pre v st st' (Hok & Hnd & Hin) _ Hc. unfold check_override in Hc. inv_ok. split_and!.
  - apply Forall_app. split; [done|]. apply Forall_singleton. split; [done|lia|lia].
  - rewrite fmap_app. apply NoDup_app. split_and!; [done| |apply NoDup_singleton].
    intros i (w & -> & Hw)%list_elem_of_fmap Hi%list_elem_of_singleton. specialize (Hin w Hw). congruence.
  - intros w [Hw|Hw%list_elem_of_singleton]%elem_of_app; [specialize (Hin w Hw)|subst]; set_solver.
Qed.

Lemma validate_document_Ok doc u : validate_document doc = Ok u -> document_ok doc.
Proof.
  unfold validate_document. intros Hv. repeat (apply bind_Ok_inv in Hv as (? & ? & Hv)).
  repeat match goal with Hp : validate_pair _ _ = Ok _ |- _ => apply validate_pair_Ok in Hp end.
  match goal with Hf : try_fold _ _ _ = Ok _ |- _ => apply check_overrides_Ok in Hf as (? & ? & _) end.
  unfold in_window in *. inv_ok. split; try done. intros []; simpl; lia.
Qed.

Lemma from_json_Ok `{Sha256, QuotaCodec} bytes p :
  from_json bytes = Ok p -> document_ok (document p) /\ digest p = content_digest (canonical_json p).
Proof.
  unfold from_json. intros Hf. repeat (apply bind_Ok_inv in Hf as (? & ? & Hf)). injection Hf as <-.
  split; [by eapply validate_document_Ok|done].
Qed.

Lemma limit_range p d s : document_ok (document p) -> 1 <= limit p d s <= dimension_cap d.
Proof. intros Hok. pose proof (doc_ranges _ Hok d) as Hd. unfold limit. simpl in Hd. destruct s; lia. Qed.

Lemma overlaps_sym v w : overlaps v w = overlaps w v.
Proof.
  unfold overlaps.
  rewrite !(bool_decide_ext (override_scope_kind v = _) (override_scope_kind w = override_scope_kind v)) by done.
  rewrite !(bool_decide_ext (override_scope_id v = _) (override_scope_id w = override_scope_id v)) by done.
  rewrite !(bool_decide_ext (override_operation v = _) (override_operation w = override_operation v)) by done.
  rewrite !(bool_decide_ext (override_dimension v = _) (override_dimension w = override_dimension v)) by done.
  rewrite <- !andb_assoc. by rewrite (andb_comm (effective_at v <? _)%Z).
Qed.

(** The pairwise loop leaves no two overlapping overrides. *)
Lemma any_overlap_false l v w :
  any_overlap l = false -> v ∈ l -> w ∈ l -> overlaps v w = true -> v = w.
Proof.
  induction l as [|x l IH]; simpl; [by intros _ ?%not_elem_of_nil|].
  intros [Hx Hl]%orb_false_iff Hv Hw Hov.
  assert (Hnone : forall y, y ∈ l -> overlaps x y = true -> False).
  { intros y Hy Hxy. apply (Bool.not_true_iff_false (existsb (overlaps x) l)); [done|].
    apply existsb_exists. exists y. split; [by apply list_elem_of_In|done]. }
  apply elem_of_cons in Hv as [->|Hv]; apply elem_of_cons in Hw as [->|Hw]; try done; auto.
  - by destruct (Hnone w Hw).
  - rewrite overlaps_sym in Hov. by destruct (Hnone v Hv).
Qed.

Lemma applies_overlap p s i o d now v w :
  override_applies p s i o d now v = true -> override_applies p s i o d now w = true -> overlaps v w = true.
Proof.
  unfold override_applies, overlaps. intros Hv Hw. inv_ok. subst.
  rewrite !bool_decide_true by done. simpl. apply andb_true_iff. split; apply Z.ltb_lt; lia.
Qed.

(** The effective limit is well defined: at any time at most one override
    applies to a scope, operation and dimension; if one does the limit is
    exactly its new value, otherwise it is the baseline.  The order of the
    overrides in the document is irrelevant, and the limit is always between
    one and the hard cap of its dimension. *)
Theorem limit_at_spec `{Sha256, QuotaCodec} bytes p s i o d now :
  from_json bytes = Ok p ->
  (forall v, v ∈ overrides (document p) -> override_applies p s i o d now v = true ->
     limit_at p s i o d now = new_limit v) /\
  ((forall v, v ∈ overrides (document p) -> override_applies p s i o d now v = false) ->
     limit_at p s i o d now = limit p d s) /\
  1 <= limit_at p s i o d now <= dimension_cap d.
Proof.
  intros [Hok _]%from_json_Ok. unfold limit_at.
  destruct (list_find _ _) as [[k w]|] eqn:Hfind.
  - apply list_find_Some in Hfind as (Hk%list_elem_of_lookup_2 & Hw%Is_true_true & _). split_and!.
    + intros v Hv Happ. f_equal. symmetry. eapply any_overlap_false; [apply (doc_disjoint _ Hok)|done|done|].
      by eapply applies_overlap.
    + intros Hnone. specialize (Hnone w Hk). congruence.
    + destruct (doc_overrides _ Hok) as [Hall _]. rewrite Forall_forall in Hall. apply (ov_new _ _ (Hall w Hk)).
    + destruct (doc_overrides _ Hok) as [Hall _]. rewrite Forall_forall in Hall.
      pose proof (ov_new _ _ (Hall w Hk)) as [_ Hn]. unfold override_applies in Hw. inv_ok. by subst.
  - apply list_find_None in Hfind. rewrite Forall_forall in Hfind. split_and!.
    + intros v Hv Happ. specialize (Hfind v Hv). rewrite Happ in Hfind. by destruct Hfind.
    + done.
    + by apply limit_range.
    + by apply limit_range.
Qed.

(** ** Intents *)

Lemma minimum_of_const n (l : list N) :
  l <> [] -> Forall (fun x => x = n) l -> minimum_of l = Some n.
Proof.
  intros Hne Hall. destruct l as [|x l]; [done|]. inversion Hall as [|? ? -> Hl]; subst. simpl. f_equal.
  clear Hne Hall. induction Hl as [|y l -> _ IH]; simpl; [done|]. by rewrite N.min_id.
Qed.

(** A dimension charged with [n] units in each of the three scopes. *)
Lemma minimum_units_three i d n (cs : list QuotaCharge) :
  charges i ≡ₚ cs -> length (filter (fun c => charge_dimension c = d) cs) = 3%nat ->
  Forall (fun c => units c = n) (filter (fun c => charge_dimension c = d) cs) -> minimum_units i d = Some n.
Proof.
  intros Hp Hlen Hall. unfold minimum_units.
  assert (Hpf : filter (fun c => charge_dimension c = d) (charges i)
                ≡ₚ filter (fun c => charge_dimension c = d) cs) by by rewrite Hp.
  rewrite (Permutation_length Hpf), Hlen. simpl. apply minimum_of_const.
  - intros Hnil%fmap_nil_inv. rewrite Hnil in Hpf. apply Permutation_nil in Hpf. by rewrite Hpf in Hlen.
  - rewrite Forall_fmap, Hpf. exact Hall.
Qed.

(** A dimension charged in fewer or more scopes has no minimum. *)
Lemma minimum_units_none i d (cs : list QuotaCharge) :
  charges i ≡ₚ cs -> length (filter (fun c => charge_dimension c = d) cs) <> 3%nat ->
  minimum_units i d = None.
Proof.
  intros Hp Hlen. unfold minimum_units.
  destruct (Nat.eqb_spec (length (filter (fun c => charge_dimension c = d) (charges i))) 3) as [He|]; [|done].
  destruct Hlen. by rewrite <- Hp.
Qed.

Lemma execution_limit_range p d :
  document_ok (document p) ->
  1 <= execution_limit p d <= dimension_cap d /\ forall s, execution_limit p d <= limit p d s.
Proof.
  intros Hok. unfold execution_limit. pose proof (limit_range p d Tenant Hok).
  pose proof (limit_range p d Account Hok). pose proof (limit_range p d Principal Hok).
  split; [lia|]. intros []; lia.
Qed.

(** A charge accounts for its scope against the policy's limit. *)
Record charge_ok (p : QuotaPolicy) (subject : QuotaSubject) (c : QuotaCharge) : Prop := {
  charge_subject : (charge_scope_kind c, charge_scope_id c) ∈ subject_scopes subject;
  charge_capacity : capacity c = limit p (charge_dimension c) (charge_scope_kind c);
  charge_positive : 1 <= units c;
  charge_window : is_Some (charge_window_millis c) <-> charge_algorithm c <> Gauge }.

Lemma make_charge_ok p subject scope d a n w :
  scope ∈ subject_scopes subject -> 1 <= n -> (is_Some w <-> a <> Gauge) ->
  charge_ok p subject (make_charge p scope d a n w).
Proof. intros Hs Hn Hw. by destruct scope. Qed.

Section intents_proofs.
Context `{Sha256} (p : QuotaPolicy) (Hok : document_ok (document p)) (subject : QuotaSubject).

Lemma operation_charges_ok o bytes scope c :
  scope ∈ subject_scopes subject -> c ∈ operation_charges p o bytes scope -> charge_ok p subject c.
Proof.
  intros Hs. pose proof (execution_limit_range p OutputBytes Hok) as [Ho _].
  pose proof (execution_limit_range p EventCount Hok) as [He _].
  unfold operation_charges. rewrite !elem_of_app. intros [Hc|[Hc|[Hc|Hc]]].
  - apply list_elem_of_singleton in Hc as ->. apply make_charge_ok; [done|lia|]. by split; [|eauto].
  - destruct o; try by apply not_elem_of_nil in Hc.
    all: apply list_elem_of_singleton in Hc as ->; apply make_charge_ok; [done|lia|].
    all: split; [by intros []|done].
  - destruct (N.eqb_spec bytes 0); simpl in Hc; [by apply not_elem_of_nil in Hc|].
    apply list_elem_of_singleton in Hc as ->. apply make_charge_ok; [done|lia|]. by split; [|eauto].
  - destruct o; try by apply not_elem_of_nil in Hc.
    all: apply elem_of_cons in Hc as [->|Hc%list_elem_of_singleton]; [|subst c];
      (apply make_charge_ok; [done|lia|]; by split; [|eauto]).
Qed.

Lemma operation_charges_dimensions o bytes :
  filter (fun c => charge_dimension c = OutputBytes) (flat_map (operation_charges p o bytes) (subject_scopes subject))
  = (if is_execution o then (fun scope => make_charge p scope OutputBytes FixedWindow
       (execution_limit p OutputBytes) (window_millis p RequestCount)) <$> subject_scopes subject else []) /\
  filter (fun c => charge_dimension c = EventCount) (flat_map (operation_charges p o bytes) (subject_scopes subject))
  = (if is_execution o then (fun scope => make_charge p scope EventCount FixedWindow
       (execution_limit p EventCount) (window_millis p RequestCount)) <$> subject_scopes subject else []) /\
  filter (fun c => charge_dimension c = ConcurrentActiveWork)
    (flat_map (operation_charges p o bytes) (subject_scopes subject))
  = (match o with TaskCreate | SendStream => (fun scope => make_charge p scope ConcurrentActiveWork Gauge 1 None)
       <$> subject_scopes subject | _ => [] end).
Proof. unfold operation_charges. destruct o, (bytes =? 0); split_and!; reflexivity. Qed.

Lemma intent_charges o semantic binding cs : charges (intent p subject o semantic binding cs) ≡ₚ cs.
Proof. apply sort_by_key_perm. Qed.

Lemma operation_charges_units o bytes scope c :
  c ∈ operation_charges p o bytes scope -> charge_dimension c = OutputBytes \/ charge_dimension c = EventCount ->
  units c = execution_limit p (charge_dimension c).
Proof.
  unfold operation_charges. rewrite !elem_of_app. intros [Hc|[Hc|[Hc|Hc]]] Hd.
  - apply list_elem_of_singleton in Hc as ->. naive_solver.
  - destruct o; try by apply not_elem_of_nil in Hc.
    all: apply list_elem_of_singleton in Hc as ->; naive_solver.
  - destruct (bytes =? 0); simpl in Hc; [by apply not_elem_of_nil in Hc|].
    apply list_elem_of_singleton in Hc as ->. naive_solver.
  - destruct o; try by apply not_elem_of_nil in Hc.
    all: apply elem_of_cons in Hc as [->|Hc%list_elem_of_singleton]; [|subst c]; done.
Qed.

Lemma new_budget_execution :
  new_budget (execution_limit p OutputBytes) (execution_limit p EventCount)
  = Ok {| max_output_bytes := execution_limit p OutputBytes; max_event_count := execution_limit p EventCount |}.
Proof.
  pose proof (execution_limit_range p OutputBytes Hok) as [Ho _].
  pose proof (execution_limit_range p EventCount Hok) as [He _]. simpl in Ho, He.
  unfold new_budget, fail_if.
  destruct (N.eqb_spec (execution_limit p OutputBytes) 0); [lia|].
  destruct (N.eqb_spec (execution_limit p EventCount) 0); [lia|].
  destruct (N.ltb_spec MAX_BYTE_CAP (execution_limit p OutputBytes)); [lia|].
  destruct (N.ltb_spec MAX_EVENT_CAP (execution_limit p EventCount)); [lia|]. done.
Qed.

(** Admission accounting is complete and bounded.  Every charge of an
    operation names one of the subject's three scopes against that scope's own
    limit; an execution operation (create, continue, stream) carries exactly the
    strictest output and event ceilings of the three scopes as its execution
    budget, within each scope's capacity; any other operation carries none.
    Only creating operations allocate active work, one unit per scope. *)
Theorem operation_intent_spec o semantic bytes i :
  operation_intent p subject o semantic bytes = Ok i ->
  Forall (charge_ok p subject) (charges i) /\
  execution_budget i = (if is_execution o then Some {| max_output_bytes := execution_limit p OutputBytes;
                                                      max_event_count := execution_limit p EventCount |}
                        else None) /\
  (forall c, c ∈ charges i -> charge_dimension c = OutputBytes \/ charge_dimension c = EventCount ->
     units c <= capacity c) /\
  len (filter (fun c => charge_dimension c = ConcurrentActiveWork) (charges i))
  = (match o with TaskCreate | SendStream => 3 | _ => 0 end).
Proof.
  unfold operation_intent. intros Hi. apply bind_Ok_inv in Hi as ([] & _ & <-%Ok_inj).
  set (cs := flat_map (operation_charges p o bytes) (subject_scopes subject)).
  destruct (operation_charges_dimensions o bytes) as (Ho & He & Ha). fold cs in Ho, He, Ha.
  pose proof (intent_charges o semantic [operation_str o; semantic] cs) as Hp.
  set (i := intent _ _ _ _ _ _) in *.
  assert (Hin : forall c, c ∈ charges i -> exists scope, scope ∈ subject_scopes subject /\
                          c ∈ operation_charges p o bytes scope).
  { intros c. rewrite Hp, list_elem_of_In. intros (scope & Hs & Hc)%in_flat_map.
    exists scope. by rewrite !list_elem_of_In. }
  assert (Hall : Forall (charge_ok p subject) (charges i)).
  { apply Forall_forall. intros c (scope & Hs & Hc)%Hin. by eapply operation_charges_ok. }
  split_and!; [done| | |].
  - unfold execution_budget. change (intent_operation i) with o. destruct (is_execution o) eqn:Hex; [|done]. simpl.
    rewrite (minimum_units_three i OutputBytes (execution_limit p OutputBytes) cs Hp) by (rewrite Ho; by repeat constructor).
    rewrite (minimum_units_three i EventCount (execution_limit p EventCount) cs Hp) by (rewrite He; by repeat constructor).
    simpl. by rewrite new_budget_execution.
  - intros c Hc Hd. rewrite Forall_forall in Hall. rewrite (charge_capacity _ _ _ (Hall c Hc)).
    destruct (Hin c Hc) as (scope & _ & Hcs). rewrite (operation_charges_units _ _ _ _ Hcs Hd).
    by apply execution_limit_range.
  - rewrite Hp, Ha. by destruct o.
Qed.

(** A lease never carries an execution budget: a stream lease is charged as
    the operation that opens it but only for its connection slot, once per
    scope, plus one reconnect token per scope when it resumes. *)
Theorem lease_intent_spec kind semantic reconnect i :
  lease_intent p subject kind semantic reconnect = Ok i ->
  Forall (charge_ok p subject) (charges i) /\ execution_budget i = None /\
  len (filter (fun c => charge_dimension c = lease_dimension kind) (charges i)) = 3 /\
  len (filter (fun c => charge_dimension c = ReconnectCount) (charges i)) = (if reconnect then 3 else 0) /\
  Forall (fun c => units c = 1) (charges i).
Proof.
  unfold lease_intent. intros Hi. apply bind_Ok_inv in Hi as ([] & _ & <-%Ok_inj).
  set (cs := flat_map (lease_charges p kind reconnect) (subject_scopes subject)).
  pose proof (intent_charges (lease_operation kind reconnect) semantic
    [operation_str (lease_operation kind reconnect); lease_str kind; semantic] cs) as Hp.
  set (i := intent _ _ _ _ _ _) in *.
  assert (Hcs : forall c, c ∈ cs -> charge_ok p subject c /\ units c = 1).
  { intros c. unfold cs. rewrite list_elem_of_In.
    intros (scope & Hs%list_elem_of_In & Hc%list_elem_of_In)%in_flat_map.
    apply elem_of_app in Hc as [Hc|Hc%list_elem_of_singleton].
    - destruct reconnect; [|by apply not_elem_of_nil in Hc]. apply list_elem_of_singleton in Hc as ->.
      split; [|done]. apply make_charge_ok; [done|done|]. by split; [|eauto].
    - subst c. split; [|done]. apply make_charge_ok; [done|done|]. split; [by intros []|done]. }
  assert (Hlen : length (filter (fun c => charge_dimension c = OutputBytes) cs) = 0%nat /\
    length (filter (fun c => charge_dimension c = lease_dimension kind) cs) = 3%nat /\
    length (filter (fun c => charge_dimension c = ReconnectCount) cs) = (if reconnect then 3 else 0)%nat).
  { unfold cs, lease_charges. by destruct kind, reconnect. }
  destruct Hlen as (Ho & Hk & Hr). split_and!.
  - apply Forall_forall. intros c Hc. rewrite Hp in Hc. by apply Hcs.
  - unfold execution_budget. rewrite (minimum_units_none i OutputBytes cs Hp) by by rewrite Ho.
    by destruct (negb _).
  - unfold len. rewrite Hp. by rewrite Hk.
  - unfold len. rewrite Hp, Hr. by destruct reconnect.
  - apply Forall_forall. intros c Hc. rewrite Hp in Hc. by apply Hcs.
Qed.
End intents_proofs.

(** ** Policy revisions *)

(** A policy revision reports exactly the lowered baselines, each once. *)
Theorem lowered_limits_exact p old :
  NoDup (lowered_limits_from p old) /\
  forall s d, (s, d) ∈ lowered_limits_from p old <-> limit p d s < limit old d s.
Proof.
  assert (Helem : forall s d, (s, d) ∈ lowered_limits_from p old <-> limit p d s < limit old d s).
  { intros s d. unfold lowered_limits_from. rewrite list_elem_of_In, in_flat_map. setoid_rewrite in_flat_map. split.
    - intros (s' & _ & d' & _ & Hin). destruct (N.ltb_spec (limit p d' s') (limit old d' s')); [|done].
      simpl in Hin. destruct Hin as [[= -> ->]|[]]. done.
    - intros Hlt. exists s. split; [by destruct s; simpl; auto|]. exists d.
      split; [by destruct d; simpl; auto 10|]. apply N.ltb_lt in Hlt. rewrite Hlt. by left. }
  split; [|done]. apply (sublist_NoDup _ (flat_map (fun s => pair s <$> DIMENSIONS) SCOPES)).
  { apply (bool_decide_unpack _). vm_compute. done. }
  unfold lowered_limits_from. generalize DIMENSIONS SCOPES. intros ds ss.
  induction ss as [|s ss IH]; simpl; [done|].
  apply sublist_app; [|done]. clear IH. induction ds as [|d ds IH]; simpl; [done|].
  case_match; simpl; [by apply sublist_skip|by apply sublist_cons].
Qed.

(** A drain plan authorizes exactly its listed targets for exactly its pair
    of policy digests, and no target twice. *)
Theorem drain_authorizes old new actor reason at_ ts plan t o n s d :
  drain old new actor reason at_ ts = Ok plan ->
  NoDup (targets plan) /\ old_policy_digest plan <> new_policy_digest plan /\
  (authorizes plan t o n s d = true <->
   o = old /\ n = new /\
   {| target_tenant_scope := t; target_scope_kind := s; target_dimension := d |} ∈ ts).
Proof.
  unfold drain. intros Hd. apply bind_Ok_inv in Hd as ([] & Hg & [= <-]). inv_ok.
  assert (Hinj : forall x y, target_key x = target_key y -> x = y).
  { intros [x1 x2 x3] [y1 y2 y3]. unfold target_key. simpl. by intros [= -> -> ->]. }
  split_and!; [|done|].
  - simpl. eapply windows2_any_NoDup; [|apply sort_by_key_sorted|done].
    intros x y Hxy Hyx. by apply Hinj, key_leb_antisym.
  - unfold authorizes. simpl. rewrite !andb_true_iff, !bool_decide_eq_true, existsb_exists. split.
    + intros [[-> ->] (x & Hx%list_elem_of_In & Heq)]. inv_ok. split_and!; [done|done|].
      rewrite sort_by_key_elem in Hx. by destruct x; simpl in *; subst.
    + intros (-> & -> & Hin). split; [done|]. eexists. split; [apply list_elem_of_In, sort_by_key_elem; exact Hin|].
      simpl. by rewrite !bool_decide_true.
Qed.

(** ** Bindings *)

Definition nul_free (s : string) : bool := str_all (fun c => negb (bool_decide (c = Ascii.zero))) s.

Lemma nul_split x y r r' :
  nul_free x = true -> nul_free y = true -> x +:+ String Ascii.zero r = y +:+ String Ascii.zero r' ->
  x = y /\ r = r'.
Proof.
  unfold nul_free. revert y. induction x as [|c x IH]; intros [|d y]; cbn [str_all]; intros Hx Hy Heq; inv_ok.
  - cbn in Heq. by injection Heq as ->.
  - cbn in Heq. by injection Heq as <- _.
  - cbn in Heq. by injection Heq as -> _.
  - rewrite !string_app_cons in Heq. injection Heq as -> Heq. by destruct (IH y) as [-> ->].
Qed.

Lemma nul_absent x y r : nul_free y = true -> x +:+ String Ascii.zero r <> y.
Proof.
  unfold nul_free. revert y. induction x as [|c x IH]; intros [|d y]; cbn [str_all]; intros Hy Heq; inv_ok; try done.
  - cbn in Heq. by injection Heq as <- _.
  - rewrite string_app_cons in Heq. injection Heq as -> Heq. by apply (IH y).
Qed.

(** Fields without a NUL byte can be read back from their join. *)
Lemma join_nul_inj fields fields' :
  fields <> [] -> fields' <> [] -> Forall (fun s => nul_free s = true) fields ->
  Forall (fun s => nul_free s = true) fields' -> join_nul fields = join_nul fields' -> fields = fields'.
Proof.
  unfold join_nul. intros Hne Hne' Hf. revert fields' Hne'. induction Hf as [|x l Hx Hl IH]; [done|].
  intros [|y l'] Hne' Hf'; [done|]. inversion Hf' as [|? ? Hy Hl']; subst.
  destruct l as [|x2 l], l' as [|y2 l']; cbn [String.concat];
    change (nul +:+ ?r) with (String Ascii.zero r); intros Heq.
  - by subst.
  - symmetry in Heq. by apply nul_absent in Heq.
  - by apply nul_absent in Heq.
  - apply nul_split in Heq as [-> Heq]; [|done|done]. f_equal. by apply IH.
Qed.

Lemma valid_id_nul_free s max : valid_id s max = true -> nul_free s = true.
Proof.
  unfold valid_id, nul_free. intros Hv. inv_ok. match goal with Hs : str_all _ s = true |- _ => revert Hs end.
  rewrite !str_all_spec. intros Hall c Hc. specialize (Hall c Hc). apply negb_true_iff, bool_decide_eq_false.
  by intros ->.
Qed.

Lemma operation_str_inj o o' : operation_str o = operation_str o' -> o = o'.
Proof. by destruct o, o'. Qed.

Definition subject_nul_free (s : QuotaSubject) : Prop :=
  nul_free (tenant_scope s) = true /\ nul_free (account_id s) = true /\ nul_free (principal_scope s) = true.


(** Without that restriction the binding is ambiguous: the subject
    constructor admits NUL bytes (they are ASCII), and it accepts two different
    subjects whose every operation has the same binding digest. *)
Theorem binding_digest_ambiguous :
  exists s s', is_ok (new_subject (tenant_scope s) (account_id s) (principal_scope s)) = true /\
    is_ok (new_subject (tenant_scope s') (account_id s') (principal_scope s')) = true /\ s <> s' /\
    forall (sha : Sha256) p o m n,
      match operation_intent p s o m n, operation_intent p s' o m n with
      | Ok i, Ok i' => binding_digest i = binding_digest i'
      | Err _, Err _ => True
      | _, _ => False
      end.
Proof.
  exists {| tenant_scope := "a" +:+ nul +:+ "b"; account_id := "c"; principal_scope := "p" |},
         {| tenant_scope := "a"; account_id := "b" +:+ nul +:+ "c"; principal_scope := "p" |}.
  split; [reflexivity|]. split; [reflexivity|]. split; [done|]. intros sha p o m n.
  unfold operation_intent. destruct (fail_if _ _); simpl; [|done]. done.
Qed.

(** The retry hint is always between one second and one hour, and is the
    requested delay whenever that is in range. *)
Theorem retry_after_bounded seconds :
  1 <= retry_after_seconds seconds <= 3600 /\
  (1 <= seconds <= 3600 -> retry_after_seconds seconds = seconds).
Proof.
  unfold retry_after_seconds, u16_max. cbv zeta.
  destruct (N.leb_spec (N.max 1 (N.min seconds 3600)) 65535); lia.
Qed.

(** ** Sample policy *)

Definition sample_pair (t : N) : LimitPair := {| tenant := t; account := t / 2; principal := t / 4 |}.

Definition sample_override : OverrideDocument := {|
  override_id := "ov-1"; override_actor := "operator"; override_reason := "launch day";
  override_scope_kind := Account; override_scope_id := "acct"; override_operation := TaskCreate;
  override_dimension := RequestCount; old_limit := 50; new_limit := 80;
  effective_at := 1000; override_expires_at := 2000 |}.

Definition sample_document : PolicyDocument := {|
  schema_version := "smesh-quota-policy/v1"; doc_policy_id := "quota"; revision := 1;
  request_window_millis := 60000; reconnect_window_millis := 60000;
  limits := {| request_count := sample_pair 100; concurrent_active_work := sample_pair 16;
    input_bytes := sample_pair 65536; output_bytes := sample_pair 65536; event_count := sample_pair 1000;
    concurrent_streams := sample_pair 16; concurrent_subscriptions := sample_pair 16;
    reconnect_count := sample_pair 100; retained_authority_bytes := sample_pair 65536 |};
  overrides := [sample_override] |}.

#[local] Existing Instance sample_sha256.
#[local] Instance sample_quota_codec : QuotaCodec := {|
  document_from_slice := fun _ => Some sample_document; document_to_string := fun _ => Some "doc" |}.

Definition sample_quota : QuotaPolicy :=
  {| document := sample_document; canonical_json := "doc"; digest := content_digest "doc" |}.

Definition sample_quota_subject : QuotaSubject :=
  {| tenant_scope := "tenant"; account_id := "acct"; principal_scope := "alice" |}.

Lemma sample_document_ok : document_ok sample_document.
Proof. apply (validate_document_Ok sample_document tt). vm_compute. reflexivity. Qed.

Lemma limit_at_spec_witness : limit_at sample_quota Account "acct" TaskCreate RequestCount 1500 = 80.
Proof.
  assert (Hparse : from_json "{}" = Ok sample_quota) by (vm_compute; reflexivity).
  assert (Happ : override_applies sample_quota Account "acct" TaskCreate RequestCount 1500 sample_override = true)
    by (vm_compute; reflexivity).
  destruct (limit_at_spec "{}" sample_quota Account "acct" TaskCreate RequestCount 1500 Hparse) as [Hat _].
  exact (Hat sample_override (list_elem_of_here _ _) Happ).
Defined.

Definition sample_intent : QuotaIntent :=
  intent sample_quota sample_quota_subject TaskCreate "m-1" [operation_str TaskCreate; "m-1"]
    (flat_map (operation_charges sample_quota TaskCreate 10) (subject_scopes sample_quota_subject)).

Lemma operation_intent_spec_witness :
  execution_budget sample_intent
  = Some {| max_output_bytes := execution_limit sample_quota OutputBytes;
            max_event_count := execution_limit sample_quota EventCount |}.
Proof.
  assert (Hi : operation_intent sample_quota sample_quota_subject TaskCreate "m-1" 10 = Ok sample_intent).
  { unfold operation_intent. replace (fail_if _ _) with (Ok (E:=QuotaPolicyError) tt) by (vm_compute; reflexivity).
    reflexivity. }
  exact (proj1 (proj2 (operation_intent_spec sample_quota sample_document_ok sample_quota_subject
    TaskCreate "m-1" 10 sample_intent Hi))).
Defined.

Definition sample_lease : QuotaIntent :=
  intent sample_quota sample_quota_subject Reconnect "m-1"
    [operation_str Reconnect; lease_str MessageStream; "m-1"]
    (flat_map (lease_charges sample_quota MessageStream true) (subject_scopes sample_quota_subject)).

Lemma lease_intent_spec_witness : execution_budget sample_lease = None.
Proof.
  assert (Hi : lease_intent sample_quota sample_quota_subject MessageStream "m-1" true = Ok sample_lease).
  { unfold lease_intent. replace (fail_if _ _) with (Ok (E:=QuotaPolicyError) tt) by (vm_compute; reflexivity).
    reflexivity. }
  exact (proj1 (proj2 (lease_intent_spec sample_quota sample_quota_subject MessageStream "m-1" true sample_lease Hi))).
Defined.

Definition sample_digest (n : N) : string := content_digest (be64 n).

Definition sample_targets : list QuotaReconciliationTarget :=
  [{| target_tenant_scope := "tenant"; target_scope_kind := Tenant; target_dimension := EventCount |}].

Definition sample_plan : QuotaReconciliationPlan := {|
  old_policy_digest := sample_digest 1; new_policy_digest := sample_digest 2; plan_actor := "op";
  plan_reason := "lower"; plan_effective_at := 5; targets := sample_targets |}.

Lemma drain_authorizes_witness :
  authorizes sample_plan "tenant" (sample_digest 1) (sample_digest 2) Tenant EventCount = true.
Proof.
  assert (Hd : drain (sample_digest 1) (sample_digest 2) "op" "lower" 5 sample_targets = Ok sample_plan)
    by (vm_compute; reflexivity).
  apply (drain_authorizes (sample_digest 1) (sample_digest 2) "op" "lower" 5 sample_targets sample_plan
    "tenant" (sample_digest 1) (sample_digest 2) Tenant EventCount Hd).
  split; [reflexivity|]. split; [reflexivity|]. left.
Defined.

