(* ===== verification/Authorization.v ===== *)
(** * Tenant authorization

    [src/authorization.rs]: the fixed role matrix, the validated tenant policy,
    the resolution of an authenticated principal and an optional tenant selector
    to an immutable context, and the selector handling of the request
    middleware.  The policy's maps are finite maps; JSON decoding is a
    parameter.  The audit record of a denial and the file reader are not
    modelled. *)

From S2P Require Import Prelude Text Policy Quota.

Local Open Scope N_scope.

Definition MAX_AUTHZ_POLICY_BYTES : N := 256 * 1024.
Definition MAX_TENANTS : N := 1024.
Definition MAX_ACCOUNTS : N := 4096.
Definition MAX_BINDINGS : N := 8192.

Inductive AuthorizationError := InvalidAuthzPolicy | Denied | AuthzUnavailable.

Inductive TenantRole :=
  | TenantAdmin | HumanRatifier | TaskOperator | TaskViewer | Auditor | TaskAgent | ServiceReader.

Inductive Operation :=
  | OpTaskCreate | OpTaskContinue | OpTaskGet | OpTaskList | OpTaskSubscribe | OpTaskCancel
  | HistoryRead | ArtifactRead | ArtifactResolve | AuditRead | AuthorizationAdmin | PushCreate
  | PushGet | PushList | PushDelete | ExtendedCard | RatificationRead | RatificationReview
  | RatificationDecide.

Inductive VisibilityScope := Own | TenantWide.
Inductive AccountKind := Human | ServiceAccount.

#[global] Instance TenantRole_eq_dec : EqDecision TenantRole.
Proof. solve_decision. Defined.
#[global] Instance Operation_eq_dec : EqDecision Operation.
Proof. solve_decision. Defined.
#[global] Instance VisibilityScope_eq_dec : EqDecision VisibilityScope.
Proof. solve_decision. Defined.
#[global] Instance AccountKind_eq_dec : EqDecision AccountKind.
Proof. solve_decision. Defined.

(** ** The role matrix *)

Definition role_grant (role : TenantRole) (operation : Operation) : option VisibilityScope :=
  match role, operation with
  | TenantAdmin, (OpTaskCreate | OpTaskContinue | OpTaskGet | OpTaskList | OpTaskSubscribe
      | OpTaskCancel | HistoryRead | ArtifactRead | ArtifactResolve | AuditRead
      | AuthorizationAdmin | ExtendedCard)
  | TaskOperator, (OpTaskCreate | OpTaskContinue | OpTaskGet | OpTaskList | OpTaskSubscribe
      | OpTaskCancel | HistoryRead | ArtifactRead | ArtifactResolve | ExtendedCard)
  | (TaskViewer | ServiceReader), (OpTaskGet | OpTaskList | OpTaskSubscribe | HistoryRead
      | ArtifactRead | ArtifactResolve | ExtendedCard)
  | Auditor, (OpTaskGet | OpTaskList | HistoryRead | ArtifactRead | ArtifactResolve | AuditRead
      | ExtendedCard)
  | TaskAgent, ExtendedCard => Some TenantWide
  | HumanRatifier, (RatificationRead | RatificationReview | RatificationDecide)
  | (TenantAdmin | TaskOperator), (PushCreate | PushGet | PushList | PushDelete) => Some TenantWide
  | TaskAgent, (OpTaskCreate | OpTaskContinue | OpTaskGet | OpTaskList | OpTaskSubscribe
      | OpTaskCancel | HistoryRead | ArtifactRead | ArtifactResolve | PushCreate | PushGet
      | PushList | PushDelete) => Some Own
  | _, _ => None
  end.

(** ** The policy *)

Record TenantDocument := { tenant_doc_id : string; enabled : bool }.
Record MembershipDocument := { member_tenant_id : string; member_roles : list TenantRole }.
Record AccountDocument := {
  account_doc_id : string;
  account_doc_kind : AccountKind;
  account_memberships : list MembershipDocument }.
Record BindingDocument := {
  binding_issuer : string;
  binding_subject : string;
  binding_account_id : string }.
Record AuthzDocument := {
  authz_schema_version : string;
  authz_policy_id : string;
  authz_revision : N;
  tenants : list TenantDocument;
  accounts : list AccountDocument;
  principal_bindings : list BindingDocument }.

(** [serde_json] at the document's type. *)
Class AuthzCodec := {
  authz_from_slice : string -> option AuthzDocument;
  authz_to_vec : AuthzDocument -> option string }.

Record AccountEntry := {
  entry_id : string;
  entry_kind : AccountKind;
  entry_memberships : gmap string (list TenantRole) }.

Record AuthorizationPolicy := {
  pol_id : string;
  pol_revision : N;
  pol_digest : string;
  pol_bindings : gmap (string * string) string;
  pol_accounts : gmap string AccountEntry }.

Definition kind_allows (kind : AccountKind) (role : TenantRole) : bool :=
  match kind with
  | Human => match role with TaskAgent | ServiceReader => false | _ => true end
  | ServiceAccount => match role with TaskAgent | ServiceReader => true | _ => false end
  end.

Definition valid_tenant_id (value : string) : bool :=
  (1 <=? slen value) && (slen value <=? 64) && is_ascii value
  && match value with
     | EmptyString => true
     | String first rest =>
         (is_ascii_lowercase first || is_ascii_digit first)
         && str_all (fun c => is_ascii_lowercase c || is_ascii_digit c || byte_in "_-" c) rest
     end.

(** A [BTreeSet] of roles iterates in declaration order, without duplicates. *)
Definition all_roles : list TenantRole :=
  [TenantAdmin; HumanRatifier; TaskOperator; TaskViewer; Auditor; TaskAgent; ServiceReader].
Definition role_set (roles : list TenantRole) : list TenantRole := filter (fun r => r ∈ roles) all_roles.

(** [if map.insert(key, value).is_some() { return Err(e) }] *)
Definition insert_new {E K V} `{Countable K} (key : K) (value : V) (m : gmap K V) (e : E) :
    result E (gmap K V) :=
  fail_if (bool_decide (is_Some (m !! key))) e;;
  Ok (<[key := value]> m).

Definition check_tenant (m : gmap string bool) (t : TenantDocument) :
    result AuthorizationError (gmap string bool) :=
  fail_if (negb (valid_tenant_id (tenant_doc_id t))) InvalidAuthzPolicy;;
  insert_new (tenant_doc_id t) (enabled t) m InvalidAuthzPolicy.

Definition check_membership (ts : gmap string bool) (kind : AccountKind)
    (m : gmap string (list TenantRole)) (d : MembershipDocument) :
    result AuthorizationError (gmap string (list TenantRole)) :=
  fail_if (negb (bool_decide (ts !! member_tenant_id d = Some true)) || bool_decide (member_roles d = []))
    InvalidAuthzPolicy;;
  let roles := role_set (member_roles d) in
  fail_if (negb (len roles =? len (member_roles d)) || existsb (fun r => negb (kind_allows kind r)) roles)
    InvalidAuthzPolicy;;
  insert_new (member_tenant_id d) roles m InvalidAuthzPolicy.

Definition check_account (ts : gmap string bool) (m : gmap string AccountEntry) (a : AccountDocument) :
    result AuthorizationError (gmap string AccountEntry) :=
  fail_if (negb (valid_tenant_id (account_doc_id a)) || bool_decide (length (account_memberships a) = 0%nat))
    InvalidAuthzPolicy;;
  memberships ← try_fold (check_membership ts (account_doc_kind a)) ∅ (account_memberships a);
  insert_new (account_doc_id a)
    {| entry_id := account_doc_id a; entry_kind := account_doc_kind a; entry_memberships := memberships |}
    m InvalidAuthzPolicy.

Definition check_binding (acc : gmap string AccountEntry) (m : gmap (string * string) string)
    (b : BindingDocument) : result AuthorizationError (gmap (string * string) string) :=
  fail_if (bool_decide (binding_issuer b = "") || (2048 <? slen (binding_issuer b))
           || bool_decide (binding_subject b = "") || (256 <? slen (binding_subject b))
           || negb (bool_decide (is_Some (acc !! binding_account_id b)))) InvalidAuthzPolicy;;
  insert_new (binding_issuer b, binding_subject b) (binding_account_id b) m InvalidAuthzPolicy.

Definition out_of_bounds {A} (l : list A) (max : N) : bool := (len l =? 0) || (max <? len l).

Definition authz_from_json `{Sha256, AuthzCodec} (bytes : string) :
    result AuthorizationError AuthorizationPolicy :=
  fail_if (bool_decide (bytes = "") || (MAX_AUTHZ_POLICY_BYTES <? slen bytes)) InvalidAuthzPolicy;;
  doc ← ok_or (authz_from_slice bytes) InvalidAuthzPolicy;
  fail_if (negb (bool_decide (authz_schema_version doc = "smesh-authz-policy/v1"))
           || (authz_revision doc =? 0) || negb (valid_tenant_id (authz_policy_id doc))
           || out_of_bounds (tenants doc) MAX_TENANTS || out_of_bounds (accounts doc) MAX_ACCOUNTS
           || out_of_bounds (principal_bindings doc) MAX_BINDINGS) InvalidAuthzPolicy;;
  ts ← try_fold check_tenant ∅ (tenants doc);
  acc ← try_fold (check_account ts) ∅ (accounts doc);
  bindings ← try_fold (check_binding acc) ∅ (principal_bindings doc);
  canonical ← ok_or (authz_to_vec doc) InvalidAuthzPolicy;
  Ok {| pol_id := authz_policy_id doc; pol_revision := authz_revision doc;
        pol_digest := content_digest canonical; pol_bindings := bindings; pol_accounts := acc |}.

(** ** Resolution *)

(** The authenticated identity: [auth::Principal]'s issuer and subject. *)
Record PrincipalId := { issuer : string; subject : string }.

Record AuthorizationContext := {
  ctx_account_id : string;
  ctx_tenant_id : string;
  ctx_principal_scope : string;
  ctx_roles : list TenantRole;
  ctx_account_kind : AccountKind;
  ctx_policy_id : string;
  ctx_policy_revision : N;
  ctx_policy_digest : string }.

Definition is_human (c : AuthorizationContext) : bool :=
  match ctx_account_kind c with Human => true | ServiceAccount => false end.

Definition select_membership (m : gmap string (list TenantRole)) (selector : option string) :
    result AuthorizationError (string * list TenantRole) :=
  match selector with
  | Some value =>
      if valid_tenant_id value then
        roles ← ok_or (m !! value) Denied;
        Ok (value, roles)
      else Err Denied
  | None => match map_to_list m with [membership] => Ok membership | _ => Err Denied end
  end.

Definition resolve `{Sha256} (p : AuthorizationPolicy) (principal : PrincipalId)
    (selector : option string) : result AuthorizationError AuthorizationContext :=
  account_id ← ok_or (pol_bindings p !! (issuer principal, subject principal)) Denied;
  account ← ok_or (pol_accounts p !! account_id) Denied;
  '(tenant_id, roles) ← select_membership (entry_memberships account) selector;
  Ok {| ctx_account_id := entry_id account; ctx_tenant_id := tenant_id;
        ctx_principal_scope := content_digest
          (join_nul ["quota-principal-v1"; issuer principal; subject principal]);
        ctx_roles := roles; ctx_account_kind := entry_kind account; ctx_policy_id := pol_id p;
        ctx_policy_revision := pol_revision p; ctx_policy_digest := pol_digest p |}.

(** The loop of [visibility]: the first tenant-wide grant wins. *)
Fixpoint visibility_from (granted : option VisibilityScope) (roles : list TenantRole) (o : Operation) :
    option VisibilityScope :=
  match roles with
  | [] => granted
  | r :: roles =>
      let scope := role_grant r o in
      if bool_decide (scope = Some TenantWide) then Some TenantWide
      else visibility_from (match scope with Some s => Some s | None => granted end) roles o
  end.

Definition visibility (c : AuthorizationContext) (o : Operation) : result AuthorizationError VisibilityScope :=
  ok_or (visibility_from None (ctx_roles c) o) Denied.

Definition authorize (c : AuthorizationContext) (o : Operation) : result AuthorizationError unit :=
  visibility c o;; Ok tt.

(** ** The middleware *)

Definition comma : ascii := Ascii.ascii_of_N 44.

(** A header value that is not visible ASCII has no text. *)
Definition header_selector (values : list (option string)) : result string (option string) :=
  match values with
  | [] => Ok None
  | [Some value] =>
      if negb (byte_in value comma) && (slen value <=? 64) then Ok (Some value)
      else Err "malformed_selector"
  | [None] => Err "malformed_selector"
  | _ => Err "ambiguous_selector"
  end.

(** The context installed for the request, or the reason of the denial. *)
Definition authorize_request `{Sha256} (p : AuthorizationPolicy) (values : list (option string))
    (principal : option PrincipalId) : result string AuthorizationContext :=
  selector ← header_selector values;
  who ← ok_or principal "missing_principal";
  map_err (fun _ => "selector_denied") (resolve p who selector).

(** ** The matrix *)

Definition is_ratification_op (o : Operation) : bool :=
  match o with RatificationRead | RatificationReview | RatificationDecide => true | _ => false end.

(** Operations that change tasks, push subscriptions or the policy. *)
Definition is_mutation (o : Operation) : bool :=
  match o with
  | OpTaskCreate | OpTaskContinue | OpTaskCancel | AuthorizationAdmin | PushCreate | PushDelete
  | RatificationReview | RatificationDecide => true
  | _ => false
  end.

(** Separation of duties in the role matrix: ratification is granted to
    human ratifiers and to nobody else, and they hold no other grant; only a
    tenant administrator administers authorization, and only an administrator or
    an auditor reads the audit log; viewers, auditors and service readers change
    nothing; an agent's grants are confined to its own tasks except for the
    public card. *)
Theorem role_matrix_separation r o :
  (is_ratification_op o = true -> is_Some (role_grant r o) <-> r = HumanRatifier) /\
  (r = HumanRatifier -> is_Some (role_grant r o) <-> is_ratification_op o = true) /\
  (is_Some (role_grant r AuthorizationAdmin) <-> r = TenantAdmin) /\
  (is_Some (role_grant r AuditRead) <-> r = TenantAdmin \/ r = Auditor) /\
  (r = TaskViewer \/ r = Auditor \/ r = ServiceReader -> is_mutation o = true -> role_grant r o = None) /\
  (role_grant TaskAgent o = Some TenantWide <-> o = ExtendedCard).
Proof.
  split_and!; unfold is_Some; destruct r, o; simpl; naive_solver.
Qed.

Lemma visibility_from_spec granted roles o :
  granted <> Some TenantWide ->
  (visibility_from granted roles o = Some TenantWide <->
     exists r, r ∈ roles /\ role_grant r o = Some TenantWide) /\
  (visibility_from granted roles o = None <->
     granted = None /\ forall r, r ∈ roles -> role_grant r o = None).
Proof.
  revert granted. induction roles as [|r roles IH]; intros granted Hg; simpl; [set_solver|].
  case_bool_decide as Hw; [set_solver|].
  destruct (IH (match role_grant r o with Some s => Some s | None => granted end)) as [Hwide Hnone].
  { by destruct (role_grant r o). }
  rewrite Hwide, Hnone. split.
  - split; [intros (x & Hx & Hg'); exists x; set_solver|].
    intros (x & [->|Hx]%elem_of_cons & Hg'); [done|eauto].
  - rewrite <- Forall_forall, <- (Forall_forall (fun x => role_grant x o = None) (r :: roles)), Forall_cons.
    destruct (role_grant r o); naive_solver.
Qed.

(** The effective visibility is the widest one: it is tenant-wide exactly
    when some role of the context grants the operation tenant-wide, own exactly
    when roles grant it but none does so tenant-wide, and the operation is
    denied exactly when no role grants it. *)
Theorem visibility_widest c o :
  (visibility c o = Ok TenantWide <-> exists r, r ∈ ctx_roles c /\ role_grant r o = Some TenantWide) /\
  (visibility c o = Ok Own <->
     (exists r, r ∈ ctx_roles c /\ role_grant r o = Some Own) /\
     forall r, r ∈ ctx_roles c -> role_grant r o <> Some TenantWide) /\
  (visibility c o = Err Denied <-> forall r, r ∈ ctx_roles c -> role_grant r o = None) /\
  (authorize c o = Ok tt <-> exists r, r ∈ ctx_roles c /\ is_Some (role_grant r o)).
Proof.
  destruct (visibility_from_spec None (ctx_roles c) o) as [Hw Hn]; [done|].
  unfold authorize, visibility. destruct (visibility_from None (ctx_roles c) o) as [[]|] eqn:Hv; simpl.
  - assert (Hno : ~ exists r, r ∈ ctx_roles c /\ role_grant r o = Some TenantWide).
    { intros Hex. by apply Hw in Hex. }
    assert (Hex : exists r, r ∈ ctx_roles c /\ role_grant r o = Some Own).
    { destruct (decide (Exists (fun r => role_grant r o = Some Own) (ctx_roles c))) as [He|Hne].
      - by apply Exists_exists.
      - assert (Hnone : Some Own = None); [|done]. apply Hn. split; [done|]. intros r Hr.
        destruct (role_grant r o) as [[]|] eqn:Hg; [|by destruct Hno; eauto|done].
        destruct Hne. apply Exists_exists. eauto. }
    destruct Hex as (r & Hr & Hg). split_and!; (split; [try done|try done]).
    + intros _. split; [eauto|]. intros r' Hr' Hg'. apply Hno. eauto.
    + intros Hall. by rewrite (Hall r Hr) in Hg.
    + eauto.
  - destruct (proj1 Hw eq_refl) as (r & Hr & Hg). split_and!; (split; [try done|try done]).
    + eauto.
    + intros [_ Hno]. by destruct (Hno r Hr).
    + intros Hall. by rewrite (Hall r Hr) in Hg.
    + eauto.
  - destruct (proj1 Hn eq_refl) as [_ Hall]. split_and!; (split; [try done|try done]).
    + intros (r & Hr & Hg). by rewrite (Hall r Hr) in Hg.
    + intros [(r & Hr & Hg) _]. by rewrite (Hall r Hr) in Hg.
    + intros (r & Hr & [? Hg]). by rewrite (Hall r Hr) in Hg.
Qed.

(** ** Validated policies *)

Lemma insert_new_Ok {E K V} `{Countable K} key (value : V) (m m' : gmap K V) (e : E) :
  insert_new key value m e = Ok m' -> m !! key = None /\ m' = <[key := value]> m.
Proof. unfold insert_new. intros Hi. inv_ok. split; [by apply eq_None_not_Some|done]. Qed.

Lemma role_set_perm roles :
  len (role_set roles) = len roles -> role_set roles ≡ₚ roles /\ NoDup (role_set roles).
Proof.
  intros Hlen. assert (Hnd : NoDup (role_set roles)).
  { apply NoDup_filter. apply (bool_decide_unpack _). vm_compute. done. }
  split; [|done]. apply submseteq_length_Permutation; [|unfold len in Hlen; lia].
  apply NoDup_submseteq; [done|]. intros r [Hr _]%list_elem_of_filter. exact Hr.
Qed.

(** A resolved membership and the documents it comes from. *)
Record membership_ok (doc : AuthzDocument) (a : AccountDocument) (t : string) (roles : list TenantRole) : Prop := {
  mem_tenant : exists d, d ∈ tenants doc /\ tenant_doc_id d = t /\ enabled d = true;
  mem_valid : valid_tenant_id t = true;
  mem_roles : exists d, d ∈ account_memberships a /\ member_tenant_id d = t /\ roles ≡ₚ member_roles d;
  mem_distinct : NoDup roles /\ roles <> [];
  mem_kind : forall r, r ∈ roles -> kind_allows (account_doc_kind a) r = true }.

Record entry_ok (doc : AuthzDocument) (a : AccountDocument) (e : AccountEntry) : Prop := {
  ent_id : entry_id e = account_doc_id a;
  ent_valid : valid_tenant_id (account_doc_id a) = true;
  ent_kind : entry_kind e = account_doc_kind a;
  ent_memberships : forall t roles, entry_memberships e !! t = Some roles -> membership_ok doc a t roles }.

Lemma check_tenants_Ok l m :
  try_fold check_tenant ∅ l = Ok m ->
  forall t b, m !! t = Some b -> valid_tenant_id t = true /\ exists d, d ∈ l /\ tenant_doc_id d = t /\ enabled d = b.
Proof.
  apply (try_fold_ind _ (fun pre m => forall t b, m !! t = Some b ->
    valid_tenant_id t = true /\ exists d, d ∈ pre /\ tenant_doc_id d = t /\ enabled d = b)).
  { intros t b. by rewrite lookup_empty. }
  intros pre d m0 m1 IH _ Hc t b. unfold check_tenant in Hc. inv_ok. apply insert_new_Ok in Hc as [_ ->].
  rewrite lookup_insert_Some. intros [[<- <-]|[_ Ht]].
  - split; [done|]. exists d. set_solver.
  - destruct (IH t b Ht) as (Hv & d' & ? & ?). split; [done|]. exists d'. set_solver.
Qed.

Lemma check_memberships_Ok doc ts a m :
  (forall t, ts !! t = Some true -> valid_tenant_id t = true /\
     exists d, d ∈ tenants doc /\ tenant_doc_id d = t /\ enabled d = true) ->
  try_fold (check_membership ts (account_doc_kind a)) ∅ (account_memberships a) = Ok m ->
  forall t roles, m !! t = Some roles -> membership_ok doc a t roles.
Proof.
  intros Hts Hf.
  enough (Hgen : forall t roles, m !! t = Some roles -> membership_ok doc a t roles) by done.
  revert Hf. apply (try_fold_ind _ (fun _ m => forall t roles, m !! t = Some roles -> membership_ok doc a t roles)).
  { intros t roles. by rewrite lookup_empty. }
  intros pre d m0 m1 IH Hd Hc t roles. unfold check_membership in Hc. inv_ok. apply insert_new_Ok in Hc as [_ ->].
  rewrite lookup_insert_Some. intros [[<- <-]|[_ Ht]]; [|by apply IH].
  match goal with Hl : len (role_set _) = _ |- _ => destruct (role_set_perm _ Hl) as [Hp Hnd] end.
  destruct (Hts (member_tenant_id d)) as [Hv Hdoc]; [done|]. split; [done|done| | |].
  - exists d. by split_and!.
  - split; [done|]. intros Hnil. rewrite Hnil in Hp. by apply Permutation_nil in Hp.
  - intros r Hr. destruct (kind_allows (account_doc_kind a) r) eqn:Hk; [done|].
    match goal with He : existsb _ _ = false |- _ => apply (Bool.not_true_iff_false (existsb _ _)) in He as []; apply existsb_exists end.
    exists r. split; [by apply list_elem_of_In|by rewrite Hk].
Qed.

Lemma check_accounts_Ok doc ts m :
  (forall t, ts !! t = Some true -> valid_tenant_id t = true /\
     exists d, d ∈ tenants doc /\ tenant_doc_id d = t /\ enabled d = true) ->
  try_fold (check_account ts) ∅ (accounts doc) = Ok m ->
  forall i e, m !! i = Some e -> exists a, a ∈ accounts doc /\ account_doc_id a = i /\ entry_ok doc a e.
Proof.
  intros Hts. apply (try_fold_ind _ (fun _ m => forall i e, m !! i = Some e ->
    exists a, a ∈ accounts doc /\ account_doc_id a = i /\ entry_ok doc a e)).
  { intros i e. by rewrite lookup_empty. }
  intros pre a m0 m1 IH Ha Hc i e. unfold check_account in Hc. inv_ok. apply insert_new_Ok in Hc as [_ ->].
  rewrite lookup_insert_Some. intros [[<- <-]|[_ Hi]]; [|by apply IH].
  exists a. split_and!; [done|done|]. split; simpl; [done|done|done|]. by eapply check_memberships_Ok.
Qed.

Lemma check_bindings_Ok acc l m :
  try_fold (check_binding acc) ∅ l = Ok m ->
  forall i s a, m !! (i, s) = Some a ->
    exists b, b ∈ l /\ binding_issuer b = i /\ binding_subject b = s /\ binding_account_id b = a.
Proof.
  apply (try_fold_ind _ (fun pre m => forall i s a, m !! (i, s) = Some a ->
    exists b, b ∈ pre /\ binding_issuer b = i /\ binding_subject b = s /\ binding_account_id b = a)).
  { intros i s a. by rewrite lookup_empty. }
  intros pre b m0 m1 IH _ Hc i s a. unfold check_binding in Hc. inv_ok. apply insert_new_Ok in Hc as [_ ->].
  rewrite lookup_insert_Some. intros [[[= <- <-] <-]|[_ Hi]].
  - exists b. set_solver.
  - destruct (IH i s a Hi) as (b' & ? & ? & ? & ?). exists b'. set_solver.
Qed.

(** What resolution relies on, and where it comes from. *)
Record authz_ok (doc : AuthzDocument) (p : AuthorizationPolicy) : Prop := {
  pol_entries : forall i e, pol_accounts p !! i = Some e ->
    exists a, a ∈ accounts doc /\ account_doc_id a = i /\ entry_ok doc a e;
  pol_links : forall i s a, pol_bindings p !! (i, s) = Some a ->
    exists b, b ∈ principal_bindings doc /\ binding_issuer b = i /\ binding_subject b = s /\
              binding_account_id b = a }.

Lemma authz_from_json_Ok `{Sha256, AuthzCodec} bytes p :
  authz_from_json bytes = Ok p -> exists doc, authz_from_slice bytes = Some doc /\ authz_ok doc p.
Proof.
  unfold authz_from_json. intros Hp. inv_ok. exists a. split; [done|].
  assert (Hts : forall t, a0 !! t = Some true -> valid_tenant_id t = true /\
     exists d, d ∈ tenants a /\ tenant_doc_id d = t /\ enabled d = true).
  { intros t Ht. by eapply check_tenants_Ok. }
  split; simpl; [by eapply check_accounts_Ok|by eapply check_bindings_Ok].
Qed.

(** ** Resolution *)

Lemma select_membership_Ok m sel t roles :
  select_membership m sel = Ok (t, roles) ->
  m !! t = Some roles /\ match sel with Some s => t = s | None => size m = 1%nat end.
Proof.
  unfold select_membership. destruct sel as [s|].
  - destruct (valid_tenant_id s); [|done]. intros Hs. inv_ok. by simplify_eq.
  - destruct (map_to_list m) as [|[t' r'] [|]] eqn:Hl; try done. intros [= -> ->].
    split; [apply elem_of_map_to_list; rewrite Hl; by left|]. by rewrite <- length_map_to_list, Hl.
Qed.

Lemma resolve_Ok `{Sha256} doc p who sel ctx :
  authz_ok doc p -> resolve p who sel = Ok ctx ->
  exists b a e, b ∈ principal_bindings doc /\ binding_issuer b = issuer who /\ binding_subject b = subject who /\
    a ∈ accounts doc /\ account_doc_id a = binding_account_id b /\ entry_ok doc a e /\
    ctx_account_id ctx = account_doc_id a /\ ctx_account_kind ctx = account_doc_kind a /\
    membership_ok doc a (ctx_tenant_id ctx) (ctx_roles ctx) /\
    (exists d, ctx_principal_scope ctx = content_digest d) /\
    match sel with Some s => ctx_tenant_id ctx = s | None => size (entry_memberships e) = 1%nat end.
Proof.
  intros [Hent Hlink]. unfold resolve. intros Hr. apply bind_Ok_inv in Hr as (i & Hi%ok_or_Ok & Hr).
  apply bind_Ok_inv in Hr as (e & He%ok_or_Ok & Hr). apply bind_Ok_inv in Hr as ([t roles] & Hs & <-%Ok_inj).
  destruct (Hlink _ _ _ Hi) as (b & Hb & Hbi & Hbs & Hba). destruct (Hent _ _ He) as (a & Ha & Hai & Hok).
  apply select_membership_Ok in Hs as [Ht Hsel]. exists b, a, e. simpl.
  split_and!; [done|done|done|done|congruence|done|apply (ent_id _ _ _ Hok)|apply (ent_kind _ _ _ Hok)| |by eexists|by destruct sel].
  by apply (ent_memberships _ _ _ Hok).
Qed.

(** Resolution is sound.  A context is only issued to a principal the policy
    document binds to an enrolled account, for an enabled tenant the account is a
    member of, with exactly the distinct roles of that membership, all of them
    permitted for the kind of account.  A selector is honoured exactly; without
    one the account must have a single membership. *)
Theorem resolve_sound `{Sha256, AuthzCodec} bytes p who sel ctx :
  authz_from_json bytes = Ok p -> resolve p who sel = Ok ctx ->
  exists doc b a e, authz_from_slice bytes = Some doc /\
    b ∈ principal_bindings doc /\ binding_issuer b = issuer who /\ binding_subject b = subject who /\
    a ∈ accounts doc /\ account_doc_id a = binding_account_id b /\ entry_ok doc a e /\
    ctx_account_id ctx = account_doc_id a /\ ctx_account_kind ctx = account_doc_kind a /\
    membership_ok doc a (ctx_tenant_id ctx) (ctx_roles ctx) /\
    match sel with Some s => ctx_tenant_id ctx = s | None => size (entry_memberships e) = 1%nat end.
Proof.
  intros (doc & Hdoc & Hok)%authz_from_json_Ok Hr.
  destruct (resolve_Ok _ _ _ _ _ Hok Hr) as (b & a & e & ? & ? & ? & ? & ? & ? & ? & ? & ? & _ & ?).
  exists doc, b, a, e. by split_and!.
Qed.

(** Ratification needs a human: whoever a policy lets read, review or decide
    a ratification is a human account.  A service account can change things only
    within its own tasks. *)
Theorem ratification_needs_human `{Sha256, AuthzCodec} bytes p who sel ctx o v :
  authz_from_json bytes = Ok p -> resolve p who sel = Ok ctx -> visibility ctx o = Ok v ->
  (is_ratification_op o = true -> is_human ctx = true) /\
  (is_human ctx = false -> is_mutation o = true -> v = Own).
Proof.
  intros (doc & _ & Hok)%authz_from_json_Ok Hr Hv.
  destruct (resolve_Ok _ _ _ _ _ Hok Hr) as (b & a & e & _ & _ & _ & _ & _ & _ & _ & Hkind & Hmem & _).
  pose proof (mem_kind _ _ _ _ Hmem) as Hallow. unfold visibility in Hv. apply ok_or_Ok in Hv.
  destruct (visibility_from_spec None (ctx_roles ctx) o) as [Hwide Hnone]; [done|].
  unfold is_human. rewrite Hkind. split.
  - intros Hop. destruct (account_doc_kind a); [done|]. exfalso.
    assert (Hall : forall r, r ∈ ctx_roles ctx -> role_grant r o = None).
    { intros r Hr'. specialize (Hallow r Hr'). destruct r, o; done. }
    rewrite (proj2 Hnone) in Hv; [done|]. done.
  - intros Hk Hmut. destruct (account_doc_kind a); [done|]. destruct v; [done|]. exfalso.
    apply Hwide in Hv as (r & Hr' & Hg). specialize (Hallow r Hr'). destruct r, o; done.
Qed.

Lemma valid_tenant_id_subject s : valid_tenant_id s = true -> valid_bounded_identity s = true /\ nul_free s = true.
Proof.
  unfold valid_tenant_id. intros Hv. inv_ok. split.
  - unfold valid_bounded_identity. rewrite !andb_true_iff. split_and!; [|by apply N.leb_le|done].
    apply negb_true_iff, bool_decide_eq_false. intros ->. by vm_compute in H.
  - destruct s as [|c s]; [done|]. inv_ok. unfold nul_free. cbn [str_all]. apply andb_true_iff. split.
    + apply negb_true_iff, bool_decide_eq_false. by intros ->.
    + match goal with Hs : str_all _ s = true |- _ => revert Hs end. rewrite !str_all_spec.
      intros Hall x Hx. specialize (Hall x Hx). apply negb_true_iff, bool_decide_eq_false. by intros ->.
Qed.

Lemma content_digest_subject `{Sha256} d :
  is_ascii (content_digest d) = true /\ nul_free (content_digest d) = true /\ slen (content_digest d) = 71.
Proof.
  unfold content_digest, sha256_tag, is_ascii, nul_free. rewrite !str_all_app. split_and!.
  - apply andb_true_iff. split; [done|]. eapply str_all_impl; [|apply hex_lower].
    intros c. unfold is_hex_lower, is_ascii_digit, in_range. intros Hc. apply N.ltb_lt.
    apply orb_true_iff in Hc as [Hc|Hc]; inv_ok; lia.
  - apply andb_true_iff. split; [done|]. eapply str_all_impl; [|apply hex_lower].
    intros c Hc. apply negb_true_iff, bool_decide_eq_false. by intros ->.
  - rewrite slen_app. unfold slen at 2. by rewrite length_hex, sha256_length.
Qed.

(** A resolved context always is a valid quota subject, and one whose
    accounting bindings are unambiguous: the identities the policy admits are
    bounded and free of the separator byte. *)
Theorem context_is_quota_subject `{Sha256, AuthzCodec} bytes p who sel ctx :
  authz_from_json bytes = Ok p -> resolve p who sel = Ok ctx ->
  exists s, new_subject (ctx_tenant_id ctx) (ctx_account_id ctx) (ctx_principal_scope ctx) = Ok s /\
    subject_nul_free s.
Proof.
  intros (doc & _ & Hok)%authz_from_json_Ok Hr.
  destruct (resolve_Ok _ _ _ _ _ Hok Hr) as (b & a & e & _ & _ & _ & _ & _ & Hent & Hacc & _ & Hmem & [d Hscope] & _).
  destruct (valid_tenant_id_subject _ (mem_valid _ _ _ _ Hmem)) as [Ht Htn].
  destruct (valid_tenant_id_subject _ (ent_valid _ _ _ Hent)) as [Ha Han]. rewrite <- Hacc in Ha, Han.
  destruct (content_digest_subject d) as (Hd & Hdn & Hlen). rewrite <- Hscope in Hd, Hdn, Hlen.
  exists {| tenant_scope := ctx_tenant_id ctx; account_id := ctx_account_id ctx;
            principal_scope := ctx_principal_scope ctx |}.
  split; [|by split_and!]. unfold new_subject. rewrite Ht, Ha, Hd, Hlen. rewrite bool_decide_false; [done|].
  intros Hnil. by rewrite Hnil in Hlen.
Qed.

(** The middleware fails closed: a request gets a context only with at most
    one selector header, of bounded visible text without a list separator, and
    an authenticated principal the policy resolves with exactly that selector. *)
Theorem authorize_request_closed `{Sha256} p values who ctx :
  authorize_request p values who = Ok ctx <->
  exists principal sel, who = Some principal /\ resolve p principal sel = Ok ctx /\
    ((values = [] /\ sel = None) \/
     exists v, values = [Some v] /\ sel = Some v /\ slen v <= 64 /\ byte_in v comma = false).
Proof.
  unfold authorize_request, header_selector. split.
  - intros Hr. apply bind_Ok_inv in Hr as (sel & Hsel & Hr). inv_ok.
    exists a, sel. split_and!; [done|done|].
    destruct values as [|[v|] [|]]; simplify_eq/=; [by left|]. right.
    destruct (byte_in v _) eqn:Hb; simpl in Hsel; [done|].
    destruct (N.leb_spec (slen v) 64); [|done]. injection Hsel as <-. eauto.
  - intros (who' & sel & -> & Hr & [[-> ->]|(v & -> & -> & Hlen & Hb)]); simpl.
    + by rewrite Hr.
    + rewrite Hb. simpl. apply N.leb_le in Hlen as ->. simpl. by rewrite Hr.
Qed.

(** ** Sample policy *)

Definition sample_authz_document : AuthzDocument := {|
  authz_schema_version := "smesh-authz-policy/v1"; authz_policy_id := "authz"; authz_revision := 1;
  tenants := [{| tenant_doc_id := "acme"; enabled := true |}; {| tenant_doc_id := "old"; enabled := false |}];
  accounts := [
    {| account_doc_id := "alice"; account_doc_kind := Human;
       account_memberships := [{| member_tenant_id := "acme"; member_roles := [HumanRatifier; TaskOperator] |}] |};
    {| account_doc_id := "bot"; account_doc_kind := ServiceAccount;
       account_memberships := [{| member_tenant_id := "acme"; member_roles := [TaskAgent] |}] |}];
  principal_bindings := [
    {| binding_issuer := "https://idp"; binding_subject := "u1"; binding_account_id := "alice" |};
    {| binding_issuer := "https://idp"; binding_subject := "s1"; binding_account_id := "bot" |}] |}.

#[local] Existing Instance sample_sha256.
#[local] Instance sample_authz_codec : AuthzCodec := {|
  authz_from_slice := fun _ => Some sample_authz_document; authz_to_vec := fun _ => Some "doc" |}.

Definition sample_authz : AuthorizationPolicy :=
  match authz_from_json "{}" with
  | Ok p => p
  | Err _ => {| pol_id := ""; pol_revision := 0; pol_digest := ""; pol_bindings := ∅; pol_accounts := ∅ |}
  end.

Definition sample_who (s : string) : PrincipalId := {| issuer := "https://idp"; subject := s |}.

Definition sample_context (s : string) : AuthorizationContext :=
  match resolve sample_authz (sample_who s) (Some "acme") with
  | Ok c => c
  | Err _ => {| ctx_account_id := ""; ctx_tenant_id := ""; ctx_principal_scope := ""; ctx_roles := [];
      ctx_account_kind := Human; ctx_policy_id := ""; ctx_policy_revision := 0; ctx_policy_digest := "" |}
  end.

Lemma sample_authz_parses : authz_from_json "{}" = Ok sample_authz.
Proof. vm_compute. reflexivity. Qed.

Lemma sample_resolves s : s = "u1" \/ s = "s1" ->
  resolve sample_authz (sample_who s) (Some "acme") = Ok (sample_context s).
Proof. intros [-> | ->]; vm_compute; reflexivity. Qed.

Lemma resolve_sound_witness : exists d, d ∈ tenants sample_authz_document /\
  tenant_doc_id d = ctx_tenant_id (sample_context "u1") /\ enabled d = true.
Proof.
  destruct (resolve_sound "{}" sample_authz (sample_who "u1") (Some "acme") (sample_context "u1")
    sample_authz_parses (sample_resolves "u1" (or_introl eq_refl)))
    as (doc & b & a & e & Hdoc & _ & _ & _ & _ & _ & _ & _ & _ & Hmem & _).
  injection Hdoc as <-. exact (mem_tenant _ _ _ _ Hmem).
Defined.

Lemma ratification_needs_human_witness : is_human (sample_context "u1") = true.
Proof.
  assert (Hv : visibility (sample_context "u1") RatificationDecide = Ok TenantWide) by (vm_compute; reflexivity).
  exact (proj1 (ratification_needs_human "{}" sample_authz (sample_who "u1") (Some "acme") (sample_context "u1")
    RatificationDecide TenantWide sample_authz_parses (sample_resolves "u1" (or_introl eq_refl)) Hv) eq_refl).
Defined.

Lemma context_is_quota_subject_witness : exists s,
  new_subject (ctx_tenant_id (sample_context "s1")) (ctx_account_id (sample_context "s1"))
    (ctx_principal_scope (sample_context "s1")) = Ok s /\ subject_nul_free s.
Proof.
  exact (context_is_quota_subject "{}" sample_authz (sample_who "s1") (Some "acme") (sample_context "s1")
    sample_authz_parses (sample_resolves "s1" (or_intror eq_refl))).
Defined.
