(* ===== verification/Guard.v ===== *)
(** * The request guard

    [src/guard.rs]: [GuardedRequestHandler], the wrapper every request of the
    single-tenant gateway passes through.  It rejects tenants, checks list pages
    and lets a task out only together with the completion record its state
    calls for.  The wrapped SDK handler and the task store are the interfaces
    [RequestHandler] and [CompletionPolicyStore]: their calls act on a world
    that other requests change too, so two reads of one task may differ.  The
    service parameters are passed through untouched and left implicit.  A stream
    is the list of the items it yields. *)

From S2P Require Import Prelude Text Protocol Store Policy.

(** ** Requests and responses *)

Record AuthenticationInfo := { scheme : string; credentials : option string }.

Record TaskPushNotificationConfig := {
  push_url : string;
  push_id : option string;
  push_task_id : string;
  push_token : option string;
  authentication : option AuthenticationInfo;
  push_tenant : option string }.

Record GetTaskPushNotificationConfigRequest := {
  get_push_task_id : string; get_push_id : string; get_push_tenant : option string }.
Record ListTaskPushNotificationConfigsRequest := {
  list_push_task_id : string; list_push_page_size : option Z;
  list_push_page_token : option string; list_push_tenant : option string }.
Record ListTaskPushNotificationConfigsResponse := {
  configs : list TaskPushNotificationConfig; next_page_token : option string }.
Record DeleteTaskPushNotificationConfigRequest := {
  delete_push_task_id : string; delete_push_id : string; delete_push_tenant : option string }.
Record GetExtendedAgentCardRequest := { card_tenant : option string }.

Record SendMessageConfiguration := {
  accepted_output_modes : option (list string);
  task_push_notification_config : option TaskPushNotificationConfig;
  send_history_length : option Z;
  return_immediately : option bool }.

Record SendMessageRequest := {
  send_message_ : Message;
  configuration : option SendMessageConfiguration;
  send_metadata : option (gmap string json);
  send_tenant : option string }.

Inductive SendMessageResponse := Sent_Task (task : Task) | Sent_Message (message : Message).

Record GetTaskRequest := {
  get_id : string; get_history_length : option Z; get_tenant : option string }.
Record CancelTaskRequest := {
  cancel_id : string; cancel_metadata : option (gmap string json); cancel_tenant : option string }.
Record SubscribeToTaskRequest := { subscribe_id : string; subscribe_tenant : option string }.

Record TaskStatusUpdateEvent := {
  update_task_id : string; update_context_id : string; update_status : TaskStatus;
  update_metadata : option (gmap string json) }.
Record TaskArtifactUpdateEvent := {
  au_task_id : string; au_context_id : string; au_artifact : Artifact;
  append : option bool; last_chunk : option bool; au_metadata : option (gmap string json) }.

Inductive StreamResponse :=
  | Stream_Task (task : Task)
  | Stream_Message (message : Message)
  | StatusUpdate (event : TaskStatusUpdateEvent)
  | ArtifactUpdate (event : TaskArtifactUpdateEvent).

Abbreviation stream := (list (result A2AError StreamResponse)).

(** ** Interfaces *)

Abbreviation call W := (action W fault).

(** The SDK's handler.  The agent card type is not looked into. *)
Class RequestHandler (W Card : Type) := {
  inner_send_message : SendMessageRequest -> call W SendMessageResponse;
  inner_send_streaming_message : SendMessageRequest -> call W stream;
  inner_get_task : GetTaskRequest -> call W Task;
  inner_cancel_task : CancelTaskRequest -> call W Task;
  inner_subscribe_to_task : SubscribeToTaskRequest -> call W stream;
  inner_create_push_config : TaskPushNotificationConfig -> call W TaskPushNotificationConfig;
  inner_get_push_config :
    GetTaskPushNotificationConfigRequest -> call W TaskPushNotificationConfig;
  inner_list_push_configs :
    ListTaskPushNotificationConfigsRequest -> call W ListTaskPushNotificationConfigsResponse;
  inner_delete_push_config : DeleteTaskPushNotificationConfigRequest -> call W unit;
  inner_get_extended_agent_card : GetExtendedAgentCardRequest -> call W Card }.

(** [server.rs]: what the guard needs of a task store. *)
Class CompletionPolicyStore (W : Type) := {
  ledger_get : string -> call W (option Task);
  ledger_list : ListTasksRequest -> call W ListTasksResponse;
  list_pages_are_self_authenticating : bool;
  validate_list_page : ListTasksRequest -> ListTasksResponse -> call W unit }.

(** [serde_json::to_value] and [from_value] at the completion record types:
    decoding an encoded record gives the record back. *)
Class RecordCodec := {
  receipt_to_value : CompletionReceipt -> result string json;
  receipt_from_value : json -> option CompletionReceipt;
  checkpoint_to_value : PolicyCheckpoint -> result string json;
  checkpoint_from_value : json -> option PolicyCheckpoint;
  block_to_value : PolicyCheckpoint * list PolicyBlockReason -> result string json;
  receipt_value_roundtrip : forall r v, receipt_to_value r = Ok v -> receipt_from_value v = Some r;
  checkpoint_value_roundtrip :
    forall c v, checkpoint_to_value c = Ok v -> checkpoint_from_value v = Some c }.

(** ** Checks on requests and pages *)

Definition reject_tenant (tenant : option string) : result A2AError unit :=
  fail_if (bool_decide (is_Some tenant))
    (invalid_params "tenant is not supported by the single-tenant gateway").

Definition validate_history_length (history_length : option Z) : result A2AError unit :=
  fail_if (match history_length with
           | Some length => negb ((0 <=? length) && (length <=? 100))%Z
           | None => false
           end) (invalid_params "historyLength must be between 0 and 100").

Definition with_history (task : Task) (h : option (list Message)) : Task := {|
  id := id task; context_id := context_id task; status := status task;
  artifacts := artifacts task; history := h; metadata := metadata task |}.

Definition apply_history_length (task : Task) (history_length : option Z) : Task :=
  match history_length with
  | None => task
  | Some n =>
      if (n =? 0)%Z then with_history task None
      else match usize_of_Z n with
           | None => task
           | Some limit =>
               match history task with
               | Some h => if (limit <? length h)%nat
                           then with_history task (Some (drop (length h - limit) h)) else task
               | None => task
               end
           end
  end.

(** The two tests on one listed task, and the order test against the previous one. *)
Definition task_matches (request : ListTasksRequest) (task : Task) : bool :=
  match req_context_id request with
  | Some value => bool_decide (context_id task = value) | None => true end
  && match req_status request with
     | Some value => bool_decide (state (status task) = value) | None => true end
  && match req_status_timestamp_after request with
     | Some after => match timestamp (status task) with
                     | Some ts => negb (ts <? after)%Z | None => false end
     | None => true
     end
  && (default false (req_include_artifacts request) || bool_decide (artifacts task = None)).

Definition history_too_long (request : ListTasksRequest) (task : Task) : bool :=
  match req_history_length request ≫= usize_of_Z, history task with
  | Some limit, Some h => (limit =? 0)%nat || (limit <? length h)%nat
  | _, _ => false
  end.

Definition out_of_order (before task : Task) : bool :=
  let id_after := match String.compare (id before) (id task) with Gt => true | _ => false end in
  match timestamp (status before), timestamp (status task) with
  | None, Some _ => true
  | Some l, Some r => (l <? r)%Z || ((l =? r)%Z && id_after)
  | None, None => id_after
  | Some _, None => false
  end.

(** One iteration: the state is the set of ids seen and the previous task. *)
Definition check_listed (request : ListTasksRequest) (st : gset string * option Task) (task : Task) :
    result A2AError (gset string * option Task) :=
  let '(ids, previous) := st in
  fail_if (bool_decide (id task = "") || bool_decide (id task ∈ ids)
           || negb (task_matches request task)) invalid_agent_response;;
  fail_if (history_too_long request task) invalid_agent_response;;
  fail_if (match previous with Some before => out_of_order before task | None => false end)
    invalid_agent_response;;
  Ok ({[id task]} ∪ ids, Some task).

Definition validate_list_structure (request : ListTasksRequest) (response : ListTasksResponse) :
    result A2AError unit :=
  let expected_page_size := default 50%Z (req_page_size request) in
  fail_if (negb (resp_page_size response =? expected_page_size)%Z
           || negb ((1 <=? resp_page_size response) && (resp_page_size response <=? 100))%Z
           || (resp_total_size response <? 0)%Z
           || (default 0 (usize_of_Z (resp_page_size response)) <? length (resp_tasks response))%nat
           || (default 0 (usize_of_Z (resp_total_size response)) <? length (resp_tasks response))%nat)
    invalid_agent_response;;
  try_fold (check_listed request) (∅, None) (resp_tasks response);;
  Ok tt.

(** The structural check is the page contract of the store: it accepts exactly
    the pages that satisfy the request and name every task. *)

Lemma task_matches_ok request ps task :
  task_matches request task && negb (history_too_long request task) = true <->
  task_ok (from_request request ps) task.
Proof.
  unfold task_matches, history_too_long. split.
  - intros Hm. inv_ok. split; simpl.
    + intros c Hc. rewrite Hc in *. by inv_ok.
    + intros s Hs. rewrite Hs in *. by inv_ok.
    + intros a Ha. rewrite Ha in *. destruct (timestamp (status task)); [|done]. inv_ok. eauto.
    + intros Hi. rewrite Hi in *. simpl in *. by inv_ok.
    + intros n h Hn Hpos Hh. rewrite Hn, Hh in *. simpl in *. unfold usize_of_Z in *.
      destruct (Z.ltb_spec n 0); [lia|]. inv_ok. lia.
  - intros [Hc Hs Ht Ha Hh]. simpl in *. rewrite !andb_true_iff. split_and!.
    + destruct (req_context_id request); [|done]. rewrite bool_decide_true; auto.
    + destruct (req_status request); [|done]. rewrite bool_decide_true; auto.
    + destruct (req_status_timestamp_after request) as [a|]; [|done].
      destruct (Ht a eq_refl) as (ts & -> & Hle). apply negb_true_iff, Z.ltb_ge. lia.
    + destruct (default false _); [done|]. rewrite bool_decide_true; auto.
    + destruct (req_history_length request) as [n|]; [|done]. simpl. unfold usize_of_Z.
      destruct (Z.ltb_spec n 0); [done|]. destruct (history task) as [h|]; [|done].
      destruct (Hh n h eq_refl ltac:(lia) eq_refl).
      apply negb_true_iff, orb_false_iff. split; [apply Nat.eqb_neq | apply Nat.ltb_ge]; lia.
Qed.

Lemma out_of_order_key before task : out_of_order before task = negb (key_leb listing_key before task).
Proof.
  unfold out_of_order, key_leb, listing_key. simpl.
  destruct (timestamp (status before)) as [l|], (timestamp (status task)) as [r|]; simpl; try done.
  - rewrite Z.compare_antisym. destruct (Z.compare_spec l r); simpl.
    + subst. rewrite Z.ltb_irrefl, Z.eqb_refl. by destruct (String.compare _ _).
    + by rewrite (proj2 (Z.ltb_lt _ _)).
    + by rewrite (proj2 (Z.ltb_ge _ _)), (proj2 (Z.eqb_neq _ _)) by lia.
  - by destruct (String.compare _ _).
Qed.

(** A well-formed run of listed tasks, all of them named. *)
Record listed (request : ListTasksRequest) (ts : list Task) : Prop := {
  listed_named : Forall (fun t => id t <> "") ts;
  listed_ok : listing_ok (from_request request (default 50%Z (req_page_size request))) ts }.

Lemma sorted_snoc {A} (leb : A -> A -> bool) l x :
  (forall a b c, leb a b = true -> leb b c = true -> leb a c = true) ->
  StronglySorted leb (l ++ [x]) <->
  StronglySorted leb l /\ match last l with Some y => leb y x = true | None => True end.
Proof.
  intros Htrans. rewrite StronglySorted_app. split.
  - intros (Hx & Hl & _). split; [done|]. destruct (last l) as [y|] eqn:Hy; [|done].
    apply last_Some_elem_of in Hy. apply Is_true_true. apply Hx; [done|set_solver].
  - intros [Hl Hy]. split_and!; [|done|by repeat constructor].
    intros a b Ha ->%list_elem_of_singleton. apply Is_true_true.
    destruct (last l) as [y|] eqn:Hlast; [|by apply last_None in Hlast as ->; apply not_elem_of_nil in Ha].
    apply last_Some in Hlast as [l' ->].
    apply elem_of_app in Ha as [Ha| ->%list_elem_of_singleton]; [|done].
    apply StronglySorted_app in Hl as (Hl & _). apply (Htrans a y x); [|done].
    apply Is_true_true, Hl; [done|set_solver].
Qed.

Lemma listed_snoc request ts task :
  listed request (ts ++ [task]) <->
  listed request ts /\ id task <> "" /\ (id task ∉ id <$> ts) /\
  task_ok (from_request request (default 50%Z (req_page_size request))) task /\
  match last ts with Some before => key_leb listing_key before task = true | None => True end.
Proof.
  assert (Hs := sorted_snoc (key_leb listing_key) ts task (key_leb_trans listing_key)).
  split.
  - intros [Hn [Ht Hd Hsort]]. apply Hs in Hsort as [Hsort Hlast].
    apply Forall_app in Hn as [Hn Hn']. apply Forall_app in Ht as [Ht Ht'].
    rewrite fmap_app, NoDup_app in Hd. destruct Hd as (Hd & Hfresh & _).
    split; [done|]. split_and!; [by inversion Hn'| |by inversion Ht'|done].
    intros Hin. apply (Hfresh _ Hin). set_solver.
  - intros ([Hn [Ht Hd Hsort]] & Hne & Hfresh & Hok & Hlast). split; [|split].
    + apply Forall_app. auto.
    + apply Forall_app. auto.
    + rewrite fmap_app. apply NoDup_app. split; [done|]. split; [set_solver|apply NoDup_singleton].
    + by apply Hs.
Qed.

Lemma check_listed_Ok request ids previous task st' :
  check_listed request (ids, previous) task = Ok st' <->
  (id task <> "" /\ (id task ∉ ids) /\
   task_ok (from_request request (default 50%Z (req_page_size request))) task /\
   match previous with Some before => key_leb listing_key before task = true | None => True end) /\
  st' = ({[id task]} ∪ ids, Some task).
Proof.
  rewrite <- (task_matches_ok request), andb_true_iff, negb_true_iff.
  unfold check_listed. rewrite !bind_Ok_inv. split.
  - intros ([] & H1 & H2). inv_ok. split; [|done]. split_and!; try done.
    destruct previous; [|done]. by rewrite out_of_order_key, negb_false_iff in *.
  - intros [(Hne & Hfresh & [Hm Hh] & Hprev) ->]. exists tt.
    rewrite !bool_decide_false, Hm, Hh by done. split; [done|]. simpl.
    destruct previous as [before|]; [|done]. by rewrite out_of_order_key, Hprev.
Qed.

Lemma check_listed_all request ts st :
  try_fold (check_listed request) (∅, None) ts = Ok st -> listed request ts.
Proof.
  intros Hrun.
  cut (listed request ts /\ st = (list_to_set (id <$> ts), last ts)); [naive_solver|]. revert Hrun.
  apply (try_fold_ind _ (fun pre st => listed request pre /\ st = (list_to_set (id <$> pre), last pre))).
  - split; [|done]. split; [done|]. split; [done|apply NoDup_nil_2|constructor].
  - intros pre task [ids previous] st' [Hpre [= -> ->]] _.
    intros [(Hne & Hfresh & Hok & Hlast) ->]%check_listed_Ok. split.
    + apply listed_snoc. split_and!; try done. by rewrite elem_of_list_to_set in Hfresh.
    + rewrite last_snoc. f_equal. rewrite fmap_app, list_to_set_app_L. set_solver.
Qed.

Lemma check_listed_runs request suf pre :
  listed request (pre ++ suf) ->
  is_ok (try_fold (check_listed request) (list_to_set (id <$> pre), last pre) suf) = true.
Proof.
  revert pre. induction suf as [|task suf IH]; intros pre Hl; [done|]. cbn [try_fold].
  assert (Hsnoc : listed request (pre ++ [task])).
  { destruct Hl as [Hn Hl]. split.
    - rewrite Forall_app in *. split; [naive_solver|]. constructor; [|done]. destruct Hn as [_ Hn]. by inversion Hn.
    - rewrite cons_middle, app_assoc in Hl. apply (listing_ok_sub _ _ (length (pre ++ [task])) 0) in Hl.
      by rewrite drop_0, take_app_length in Hl. }
  specialize (IH (pre ++ [task])). rewrite <- app_assoc in IH. specialize (IH Hl).
  apply listed_snoc in Hsnoc as (_ & Hne & Hfresh & Hok & Hlast).
  rewrite (proj2 (check_listed_Ok _ _ _ _ ({[id task]} ∪ list_to_set (id <$> pre), Some task))).
  2:{ split; [|reflexivity]. by rewrite elem_of_list_to_set. }
  rewrite last_snoc in IH. cbn. rewrite fmap_app, list_to_set_app_L in IH.
  replace ({[id task]} ∪ list_to_set (id <$> pre)) with (list_to_set (id <$> pre) ∪ list_to_set (id <$> [task]) : gset string) by set_solver.
  done.
Qed.

(** The structural check accepts exactly the pages that keep the store's page
    contract and name every task. *)
Lemma validate_list_structure_iff request response :
  validate_list_structure request response = Ok tt <->
  page_ok (from_request request (default 50%Z (req_page_size request))) response /\
  Forall (fun t => id t <> "") (resp_tasks response).
Proof.
  unfold validate_list_structure. rewrite bind_Ok_inv. split.
  - intros ([] & Hb & Hrun). inv_ok. apply check_listed_all in Hok as [Hnamed Hlist].
    split; [|done]. unfold usize_of_Z in *.
    destruct (Z.ltb_spec (resp_page_size response) 0); [lia|].
    destruct (Z.ltb_spec (resp_total_size response) 0); [lia|]. simpl in *.
    split; simpl; [done|lia|lia|lia|done].
  - intros [[Hsize Hrange Hlen Htotal Hlist] Hnamed]. simpl in Hsize. exists tt. split.
    + rewrite !usize_of_Z_pos by lia. simpl. apply fail_if_Ok. rewrite !orb_false_iff, !negb_false_iff.
      rewrite andb_true_iff, Z.eqb_eq, !Z.leb_le, !Nat.ltb_ge, Z.ltb_ge. lia.
    + assert (Hok := check_listed_runs request (resp_tasks response) [] (Build_listed _ _ Hnamed Hlist)).
      apply is_ok_true in Hok as [st Hst]. apply bind_Ok_inv. by exists st.
Qed.

(** ** Checks on tasks *)

Section guard.
Context `{Sha256, HmacSha256, PolicyCodec, RecordCodec}.

(** [task.metadata.as_ref().and_then(|m| m.get("smesh.completionPolicy"))] *)
Definition completion_metadata (task : Task) : option json :=
  m ← metadata task; m !! "smesh.completionPolicy".

Definition has_status (expected : string) (value : json) : bool :=
  bool_decide ((json_get "status" value ≫= as_str) = Some expected).

(** [.filter(status == expected).and_then(|value| value.get("record")).cloned()] *)
Definition policy_record (expected : string) (value : option json) : option json :=
  v ← value; if has_status expected v then json_get "record" v else None.

(** The manifest a completed task's artifact is recomputed to. *)
Definition manifest_of (artifact : Artifact) : result A2AError ArtifactManifest :=
  name ← ok_or (Protocol.artifact_name artifact) invalid_agent_response;
  match artifact_parts artifact with
  | [part] =>
      match content part with
      | Part_Text text =>
          media_type ← ok_or (part_media_type part) invalid_agent_response;
          Ok {| artifact_name := name; artifact_media_type := media_type;
                artifact_digest := content_digest text |}
      | _ => Err invalid_agent_response
      end
  | _ => Err invalid_agent_response
  end.

(** The branch for a task that is not completed. *)
Definition validate_uncompleted (policy : VersionedCompletionPolicy) (task : Task) :
    result A2AError unit :=
  fail_if (match artifacts task with Some (_ :: _) => true | _ => false end) invalid_agent_response;;
  if bool_decide (state (status task) = InputRequired) then
    value ← ok_or (policy_record "awaitingRatification" (completion_metadata task)) invalid_agent_response;
    checkpoint ← ok_or (checkpoint_from_value value) invalid_agent_response;
    fail_if (negb (verify_checkpoint policy checkpoint (id task) (context_id task))) invalid_agent_response
  else match completion_metadata task with
       | Some value =>
           fail_if (negb (bool_decide (state (status task) = Failed) && has_status "blocked" value))
             invalid_agent_response
       | None => Ok tt
       end.

Definition validate_completed (policy : VersionedCompletionPolicy) (task : Task)
    (artifacts_projected_out : bool) : result A2AError unit :=
  value ← ok_or (policy_record "accepted" (completion_metadata task)) invalid_agent_response;
  receipt ← ok_or (receipt_from_value value) invalid_agent_response;
  let claims := receipt_base (receipt_claims receipt) in
  fail_if (negb (bool_decide (claim_task_id claims = id task))
           || negb (bool_decide (claim_context_id claims = context_id task))
           || negb (bool_decide (claim_policy_id claims = policy_id (spec policy)))
           || negb (claim_policy_version claims =? version (spec policy))%N
           || negb (bool_decide (claim_policy_hash claims = policy_hash policy))
           || negb (verify_receipt policy receipt)) invalid_agent_response;;
  match artifacts task with
  | None => if artifacts_projected_out then Ok tt else Err invalid_agent_response
  | Some artifacts =>
      manifests ← try_map manifest_of artifacts;
      digest ← map_err (fun _ => invalid_agent_response) (artifact_set_digest manifests);
      fail_if (negb (bool_decide (claim_artifact_set_digest claims = digest))) invalid_agent_response
  end.

Definition validate_task_with_policy_projection (policy : VersionedCompletionPolicy) (task : Task)
    (artifacts_projected_out : bool) : result A2AError unit :=
  if negb (bool_decide (state (status task) = Completed)) then validate_uncompleted policy task
  else validate_completed policy task artifacts_projected_out.

Definition validate_task_with_policy (policy : VersionedCompletionPolicy) (task : Task) :
    result A2AError unit :=
  validate_task_with_policy_projection policy task false.

Definition validate_item (policy : VersionedCompletionPolicy) (item : result A2AError StreamResponse) :
    result A2AError StreamResponse :=
  match item with
  | Ok (Stream_Task task) => validate_task_with_policy policy task;; Ok (Stream_Task task)
  | Ok (ArtifactUpdate _) => Err invalid_agent_response
  | other => other
  end.

Definition validate_stream (policy : VersionedCompletionPolicy) (s : stream) : stream :=
  validate_item policy <$> s.

(** ** Handlers *)

Context {W Card : Type} `{RequestHandler W Card, CompletionPolicyStore W}.
Context (completion_policy : VersionedCompletionPolicy).

(** A check of the guard's own, as a step that leaves the world alone. *)
Definition check (r : result A2AError unit) : call W unit := pure_ (map_err Fail r).

Definition is_terminal_task (o : option Task) : bool :=
  match o with Some task => is_terminal (state (status task)) | None => false end.

Definition reject_terminal_subscription (task_id : string) : call W unit :=
  stored ← ledger_get task_id;
  check (fail_if (is_terminal_task stored)
           (unsupported_operation "terminal tasks cannot be subscribed to")).

Definition preflight_message (request : SendMessageRequest) : call W unit :=
  check (reject_tenant (send_tenant request));;
  match message_task_id (send_message_ request) with
  | None => mret tt
  | Some task_id =>
      stored ← ledger_get task_id;
      check (fail_if (is_terminal_task stored)
               (unsupported_operation "terminal tasks cannot accept additional messages"))
  end.

Definition send_message (request : SendMessageRequest) : call W SendMessageResponse :=
  preflight_message request;;
  response ← inner_send_message request;
  check (match response with
         | Sent_Task task => validate_task_with_policy completion_policy task
         | Sent_Message _ => Ok tt
         end);;
  mret response.

Definition send_streaming_message (request : SendMessageRequest) : call W stream :=
  preflight_message request;;
  s ← inner_send_streaming_message request;
  mret (validate_stream completion_policy s).

Definition get_task (request : GetTaskRequest) : call W Task :=
  check (reject_tenant (get_tenant request));;
  check (validate_history_length (get_history_length request));;
  task ← inner_get_task request;
  check (validate_task_with_policy completion_policy task);;
  mret (apply_history_length task (get_history_length request)).

Definition list_tasks (request : ListTasksRequest) : call W ListTasksResponse :=
  check (reject_tenant (req_tenant request));;
  check (validate_history_length (req_history_length request));;
  response ← ledger_list request;
  check (validate_list_structure request response);;
  (if list_pages_are_self_authenticating then mret tt else validate_list_page request response);;
  check (try_each (fun task => validate_task_with_policy_projection completion_policy task
                                 (negb (default false (req_include_artifacts request))))
                  (resp_tasks response));;
  mret response.

Definition cancel_task (request : CancelTaskRequest) : call W Task :=
  check (reject_tenant (cancel_tenant request));;
  task ← inner_cancel_task request;
  check (validate_task_with_policy completion_policy task);;
  mret task.

(** The inner call's error is a value here: the store is read again either way. *)
Definition subscribe_to_task (request : SubscribeToTaskRequest) : call W stream :=
  check (reject_tenant (subscribe_tenant request));;
  reject_terminal_subscription (subscribe_id request);;
  outcome ← attempt (inner_subscribe_to_task request);
  reject_terminal_subscription (subscribe_id request);;
  pure_ (s ← outcome; Ok (validate_stream completion_policy s)).

Definition create_push_config (request : TaskPushNotificationConfig) :
    call W TaskPushNotificationConfig :=
  check (reject_tenant (push_tenant request));; inner_create_push_config request.
Definition get_push_config (request : GetTaskPushNotificationConfigRequest) :
    call W TaskPushNotificationConfig :=
  check (reject_tenant (get_push_tenant request));; inner_get_push_config request.
Definition list_push_configs (request : ListTaskPushNotificationConfigsRequest) :
    call W ListTaskPushNotificationConfigsResponse :=
  check (reject_tenant (list_push_tenant request));; inner_list_push_configs request.
Definition delete_push_config (request : DeleteTaskPushNotificationConfigRequest) : call W unit :=
  check (reject_tenant (delete_push_tenant request));; inner_delete_push_config request.
Definition get_extended_agent_card (request : GetExtendedAgentCardRequest) : call W Card :=
  check (reject_tenant (card_tenant request));; inner_get_extended_agent_card request.

(** ** What the guard lets out *)

(** An artifact that carries, as its only part, the text a manifest names. *)
Record carries (artifact : Artifact) (m : ArtifactManifest) (text : string) : Prop := {
  carries_name : Protocol.artifact_name artifact = Some (artifact_name m);
  carries_text : exists part, artifact_parts artifact = [part] /\ content part = Part_Text text /\
                              part_media_type part = Some (artifact_media_type m);
  carries_digest : artifact_digest m = content_digest text }.

(** A completed task may be seen with a receipt this policy sealed, about this
    task and context and about the very texts the task carries (a list without
    artifacts is excused from showing them); a task waiting for ratification
    with a checkpoint sealed for it; any other task without artifacts, and with
    a completion record only to explain a failure. *)
Inductive visible (policy : VersionedCompletionPolicy) (projected : bool) (task : Task) : Prop :=
  | visible_completed value receipt :
      state (status task) = Completed ->
      policy_record "accepted" (completion_metadata task) = Some value ->
      receipt_from_value value = Some receipt ->
      verify_receipt policy receipt = true ->
      claim_task_id (receipt_base (receipt_claims receipt)) = id task ->
      claim_context_id (receipt_base (receipt_claims receipt)) = context_id task ->
      match artifacts task with
      | None => projected = true
      | Some l => exists manifests, Forall2 (fun a m => exists text, carries a m text) l manifests /\
          artifact_set_digest manifests
            = Ok (claim_artifact_set_digest (receipt_base (receipt_claims receipt)))
      end ->
      visible policy projected task
  | visible_waiting value checkpoint :
      state (status task) = InputRequired -> default [] (artifacts task) = [] ->
      policy_record "awaitingRatification" (completion_metadata task) = Some value ->
      checkpoint_from_value value = Some checkpoint ->
      verify_checkpoint policy checkpoint (id task) (context_id task) = true ->
      visible policy projected task
  | visible_other :
      state (status task) <> Completed -> state (status task) <> InputRequired ->
      default [] (artifacts task) = [] ->
      (forall value, completion_metadata task = Some value ->
         state (status task) = Failed /\ has_status "blocked" value = true) ->
      visible policy projected task.

Lemma manifest_of_Ok artifact m : manifest_of artifact = Ok m <-> exists text, carries artifact m text.
Proof.
  unfold manifest_of. rewrite bind_Ok_inv. split.
  - intros (name & Hn & Hm). inv_ok.
    destruct (artifact_parts artifact) as [|part [|]] eqn:Hp; try done.
    destruct (content part) as [text| | |] eqn:Hc; try done. inv_ok. exists text. split; simpl; eauto.
  - intros (text & [Hn (part & Hp & Hc & Hm) Hd]). exists (artifact_name m). rewrite Hn. split; [done|].
    rewrite Hp, Hc, Hm. destruct m; simpl in *. by subst.
Qed.

Lemma verify_receipt_policy policy r :
  verify_receipt policy r = true ->
  let c := receipt_base (receipt_claims r) in
  claim_policy_id c = policy_id (spec policy) /\ claim_policy_version c = version (spec policy) /\
  claim_policy_hash c = policy_hash policy.
Proof. unfold verify_receipt. intros Hv. inv_ok. done. Qed.

Lemma validate_completed_iff policy projected task :
  state (status task) = Completed ->
  validate_completed policy task projected = Ok tt <-> visible policy projected task.
Proof.
  intros Hstate. unfold validate_completed. split.
  - intros Hv. inv_ok. eapply visible_completed; [done..|].
    destruct (artifacts task) as [l|]; [|by destruct projected]. inv_ok. exists a1. subst. split; [|done].
    apply try_map_Ok in Hok1. eapply Forall2_impl; [exact Hok1|]. intros ? ? ?. by apply manifest_of_Ok.
  - intros [value r _ Hval Hrec Hver Hid Hctx Harts|? ? Hs|Hs]; [|congruence..].
    rewrite Hval. simpl. rewrite Hrec. simpl. destruct (verify_receipt_policy _ _ Hver) as (Hp1 & Hp2 & Hp3).
    rewrite !bool_decide_true, Hp2, N.eqb_refl, Hver by done. simpl.
    destruct (artifacts task) as [l|]; [|by rewrite Harts]. destruct Harts as (ms & Hms & Hd).
    rewrite (proj2 (try_map_Ok manifest_of l ms)).
    2:{ eapply Forall2_impl; [exact Hms|]. intros ? ? ?. by apply manifest_of_Ok. }
    simpl. rewrite Hd. simpl. by rewrite bool_decide_true.
Qed.

Lemma no_artifacts_iff (task : Task) :
  match artifacts task with Some (_ :: _) => true | _ => false end = false <->
  default [] (artifacts task) = [].
Proof. destruct (artifacts task) as [[|]|]; naive_solver. Qed.

Lemma validate_uncompleted_iff policy projected task :
  state (status task) <> Completed ->
  validate_uncompleted policy task = Ok tt <-> visible policy projected task.
Proof.
  intros Hstate. unfold validate_uncompleted. rewrite bind_Ok_inv. split.
  - intros ([] & Hart%fail_if_Ok%no_artifacts_iff & Hv). case_bool_decide as Hin.
    + inv_ok. by eapply visible_waiting.
    + apply visible_other; try done. intros value Hm. rewrite Hm in Hv. inv_ok. done.
  - intros [value r Hs|value c Hs Hart Hval Hc Hver|_ Hs Hart Hmeta]; [congruence| |].
    + exists tt. rewrite (proj2 (no_artifacts_iff task)) by done. split; [done|].
      rewrite bool_decide_true, Hval by done. simpl. rewrite Hc. simpl. by rewrite Hver.
    + exists tt. rewrite (proj2 (no_artifacts_iff task)) by done. split; [done|].
      rewrite bool_decide_false by done. destruct (completion_metadata task) as [value|]; [|done].
      destruct (Hmeta value eq_refl) as [-> ->]. done.
Qed.

Lemma validate_task_iff policy projected task :
  validate_task_with_policy_projection policy task projected = Ok tt <-> visible policy projected task.
Proof.
  unfold validate_task_with_policy_projection. case_bool_decide as Hs; simpl.
  - by apply validate_completed_iff.
  - by apply validate_uncompleted_iff.
Qed.

(** The guard has one error for a task it does not let out. *)
Lemma validate_task_errs policy projected task :
  errs invalid_agent_response (validate_task_with_policy_projection policy task projected).
Proof.
  assert (Hm : forall a, errs invalid_agent_response (manifest_of a)).
  { intros a. unfold manifest_of. apply errs_bind; [auto with errs|]. intros name.
    destruct (artifact_parts a) as [|part [|]]; auto with errs. destruct (content part); auto with errs. }
  unfold validate_task_with_policy_projection. destruct (negb _).
  - unfold validate_uncompleted. apply errs_bind; [auto with errs|]. intros _. destruct (bool_decide _); [auto with errs|].
    destruct (completion_metadata task); auto with errs.
  - unfold validate_completed. apply errs_bind; [auto with errs|]. intros v.
    apply errs_bind; [auto with errs|]. intros r. apply errs_bind; [auto with errs|]. intros _.
    destruct (artifacts task); [auto with errs|]. destruct projected; auto with errs.
Qed.

Lemma check_Ok r (w w' : W) u : check r w = (w', Ok u) <-> w' = w /\ r = Ok tt.
Proof. unfold check. rewrite pure_Ok, map_err_Ok. by destruct u. Qed.

Lemma validate_item_visible policy item :
  match validate_item policy item with
  | Ok (Stream_Task task) => visible policy false task
  | Ok (ArtifactUpdate _) => False
  | _ => True
  end.
Proof.
  destruct item as [[task| | |]|]; try done. simpl.
  destruct (validate_task_with_policy policy task) as [[]|] eqn:Hv; [|done]. simpl.
  by apply validate_task_iff.
Qed.

(** A stream as a client may see it. *)
Definition stream_visible (policy : VersionedCompletionPolicy) (s : stream) : Prop :=
  Forall (fun item => match item with
                      | Ok (Stream_Task task) => visible policy false task
                      | Ok (ArtifactUpdate _) => False
                      | _ => True
                      end) s.

Lemma validate_stream_visible policy s : stream_visible policy (validate_stream policy s).
Proof. apply Forall_fmap, Forall_true. intros item. apply validate_item_visible. Qed.

Lemma apply_history_visible policy task n :
  visible policy false task -> visible policy false (apply_history_length task n).
Proof.
  assert (Hwith : forall h, visible policy false task -> visible policy false (with_history task h)).
  { intros h [value r|value c|]; [by eapply visible_completed|by eapply visible_waiting|by apply visible_other]. }
  intros Hv. unfold apply_history_length. repeat case_match; auto.
Qed.

Lemma apply_history_bound task n :
  (0 <= n)%Z -> (Z.of_nat (length (default [] (history (apply_history_length task (Some n))))) <= n)%Z.
Proof.
  intros Hn. unfold apply_history_length. destruct (Z.eqb_spec n 0); [by subst|].
  rewrite usize_of_Z_pos by done. destruct (history task) as [h|] eqn:Hh; [|rewrite Hh; simpl; lia].
  destruct (Nat.ltb_spec (Z.to_nat n) (length h)); [|rewrite Hh; simpl; lia].
  simpl. rewrite length_drop. lia.
Qed.

(** C2: Whatever the SDK handler and the store answer, only visible tasks get
    out.  A task in a response or in a stream is a completed task with a receipt
    this policy sealed over its id, context and artifact texts, or a task with a
    checkpoint sealed for it, or one without artifacts; artifact updates never
    pass.  A task that was asked for has at most the requested history, and a
    page keeps the page contract of its request and names every task. *)
Theorem guard_lets_out_visible_only :
  (forall req w w' task, send_message req w = (w', Ok (Sent_Task task)) ->
     visible completion_policy false task) /\
  (forall req w w' s, send_streaming_message req w = (w', Ok s) ->
     stream_visible completion_policy s) /\
  (forall req w w' task, get_task req w = (w', Ok task) ->
     visible completion_policy false task /\
     forall n, get_history_length req = Some n ->
       (0 <= n <= 100)%Z /\ (Z.of_nat (length (default [] (history task))) <= n)%Z) /\
  (forall req w w' resp, list_tasks req w = (w', Ok resp) ->
     page_ok (from_request req (default 50%Z (req_page_size req))) resp /\
     Forall (fun task => id task <> "" /\
               visible completion_policy (negb (default false (req_include_artifacts req))) task)
            (resp_tasks resp)) /\
  (forall req w w' task, cancel_task req w = (w', Ok task) ->
     visible completion_policy false task) /\
  (forall req w w' s, subscribe_to_task req w = (w', Ok s) ->
     stream_visible completion_policy s).
Proof.
  split_and!.
  - intros req w w' task Hrun. unfold send_message in Hrun. inv_act.
    match goal with Hc : check _ _ = _ |- _ => apply check_Ok in Hc as [_ Hc] end. by apply validate_task_iff.
  - intros req w w' s Hrun. unfold send_streaming_message in Hrun. inv_act. apply validate_stream_visible.
  - intros req w w' task Hrun. unfold get_task in Hrun. inv_act.
    repeat match goal with Hc : check _ _ = _ |- _ => apply check_Ok in Hc as [-> Hc] end.
    split; [by apply apply_history_visible, validate_task_iff|]. intros n Hn. rewrite Hn in *.
    unfold validate_history_length in *. inv_ok. split; [lia|]. apply apply_history_bound. lia.
  - intros req w w' resp Hrun. unfold list_tasks in Hrun. inv_act.
    repeat match goal with Hc : check _ _ = _ |- _ => apply check_Ok in Hc as [-> Hc] end.
    match goal with Hc : validate_list_structure _ _ = _ |- _ =>
      apply validate_list_structure_iff in Hc as [Hpage Hnamed] end.
    match goal with Hc : try_each _ _ = _ |- _ => apply try_each_Ok in Hc end.
    split; [done|]. apply Forall_and. split; [done|].
    eapply Forall_impl; [eassumption|]. intros task. apply validate_task_iff.
  - intros req w w' task Hrun. unfold cancel_task in Hrun. inv_act.
    repeat match goal with Hc : check _ _ = _ |- _ => apply check_Ok in Hc as [-> Hc] end.
    by apply validate_task_iff.
  - intros req w w' s Hrun. unfold subscribe_to_task in Hrun. inv_act. inv_ok. apply validate_stream_visible.
Qed.

(** A subscription is never opened on a task the ledger knows to be terminal,
    even when the task finishes between the two reads.  An opened subscription
    saw a live task before and after the SDK resolved it; if the second read
    finds a terminal task, the caller gets the same refusal as for a task that
    was terminal all along, whatever the SDK answered. *)
Theorem terminal_never_subscribed req w :
  (forall w' s, subscribe_to_task req w = (w', Ok s) ->
     exists before w1 w2 after s0,
       ledger_get (subscribe_id req) w = (w1, Ok before) /\ is_terminal_task before = false /\
       inner_subscribe_to_task req w1 = (w2, Ok s0) /\ s = validate_stream completion_policy s0 /\
       ledger_get (subscribe_id req) w2 = (w', Ok after) /\ is_terminal_task after = false) /\
  (forall before w1 w2 w3 outcome after, subscribe_tenant req = None ->
     ledger_get (subscribe_id req) w = (w1, Ok before) ->
     inner_subscribe_to_task req w1 = (w2, outcome) ->
     ledger_get (subscribe_id req) w2 = (w3, Ok after) ->
     is_terminal_task before = true \/ is_terminal_task after = true ->
     (subscribe_to_task req w).2
       = Err (Fail (unsupported_operation "terminal tasks cannot be subscribed to"))).
Proof.
  split.
  - intros w' s Hrun. unfold subscribe_to_task, reject_terminal_subscription in Hrun. inv_act. inv_ok.
    repeat match goal with Hc : check _ _ = _ |- _ => apply check_Ok in Hc as [-> Hc] end.
    inv_ok. eexists _, _, _, _, _. split_and!; done.
  - intros before w1 w2 w3 outcome after Ht Hb Hs Ha Hterm.
    unfold subscribe_to_task, reject_terminal_subscription, check, reject_tenant, attempt, pure_, mbind, action_bind.
    rewrite Ht, Hb. simpl. destruct (is_terminal_task before) eqn:Hbefore; [done|]. simpl.
    rewrite Hs, Ha. by destruct Hterm as [| ->].
Qed.

Definition tenant_error : fault :=
  Fail (invalid_params "tenant is not supported by the single-tenant gateway").

(** Tenant isolation of the single-tenant gateway: a request that names a
    tenant is refused by every operation with the same error, before the store
    or the SDK handler is called. *)
Theorem tenant_refused_untouched w (tenant : string) :
  (forall m c md, send_message (Build_SendMessageRequest m c md (Some tenant)) w = (w, Err tenant_error)) /\
  (forall m c md, send_streaming_message (Build_SendMessageRequest m c md (Some tenant)) w = (w, Err tenant_error)) /\
  (forall i n, get_task (Build_GetTaskRequest i n (Some tenant)) w = (w, Err tenant_error)) /\
  (forall c s n t h a i, list_tasks (Build_ListTasksRequest c s n t h a i (Some tenant)) w = (w, Err tenant_error)) /\
  (forall i md, cancel_task (Build_CancelTaskRequest i md (Some tenant)) w = (w, Err tenant_error)) /\
  (forall i, subscribe_to_task (Build_SubscribeToTaskRequest i (Some tenant)) w = (w, Err tenant_error)) /\
  (forall u i t k a, create_push_config (Build_TaskPushNotificationConfig u i t k a (Some tenant)) w = (w, Err tenant_error)) /\
  (forall t i, get_push_config (Build_GetTaskPushNotificationConfigRequest t i (Some tenant)) w = (w, Err tenant_error)) /\
  (forall t n k, list_push_configs (Build_ListTaskPushNotificationConfigsRequest t n k (Some tenant)) w = (w, Err tenant_error)) /\
  (forall t i, delete_push_config (Build_DeleteTaskPushNotificationConfigRequest t i (Some tenant)) w = (w, Err tenant_error)) /\
  get_extended_agent_card (Build_GetExtendedAgentCardRequest (Some tenant)) w = (w, Err tenant_error).
Proof. by split_and!. Qed.

(** ** What a receipt says about the texts *)

Definition task_receipt (task : Task) : option CompletionReceipt :=
  policy_record "accepted" (completion_metadata task) ≫= receipt_from_value.

(** Name, media type and text of the artifacts. *)
Definition artifact_text (artifact : Artifact) : option (string * string * string) :=
  name ← Protocol.artifact_name artifact;
  match artifact_parts artifact with
  | [part] => match content part, part_media_type part with
              | Part_Text text, Some media_type => Some (name, media_type, text)
              | _, _ => None
              end
  | _ => None
  end.

Definition task_texts (task : Task) : list (string * string * string) :=
  omap artifact_text (default [] (artifacts task)).

Definition text_manifest (x : string * string * string) : ArtifactManifest := {|
  artifact_name := x.1.1; artifact_media_type := x.1.2; artifact_digest := content_digest x.2 |}.

Lemma carried_texts l ms :
  Forall2 (fun a m => exists text, carries a m text) l ms -> text_manifest <$> omap artifact_text l = ms.
Proof.
  induction 1 as [|a m l ms (text & [Hn (part & Hp & Hc & Hm) Hd]) Hl IH]; [done|].
  assert (Ht : artifact_text a = Some (artifact_name m, artifact_media_type m, text)).
  { unfold artifact_text. rewrite Hn. simpl. by rewrite Hp, Hc, Hm. }
  simpl. rewrite Ht. simpl. f_equal; [|exact IH]. unfold text_manifest. simpl. rewrite <- Hd. by destruct m.
Qed.


(** ** Pages of a well-behaved store *)

(** What the guard relies on a store for, in the worlds [ok]: pages keep the
    page contract and consist of projections of [good] tasks. *)
Class PageSource (good : Task -> Prop) (ok : W -> Prop) : Prop := {
  source_page : forall req w w' resp, ok w -> ledger_list req w = (w', Ok resp) ->
    page_ok (from_request req (default 50%Z (req_page_size req))) resp /\
    Forall (fun t => exists t0, good t0 /\ t = project_task req t0) (resp_tasks resp);
  source_authentic : list_pages_are_self_authenticating = true }.

Definition publishable (policy : VersionedCompletionPolicy) (task : Task) : Prop :=
  id task <> "" /\ visible policy false task.

Lemma visible_project policy req task :
  visible policy false task ->
  visible policy (negb (default false (req_include_artifacts req))) (project_task req task).
Proof.
  intros [value r Hs Hval Hrec Hver Hid Hctx Harts|value c Hs Ha Hval Hc Hver|Hs Hs' Ha Hmeta].
  - eapply visible_completed; [done..|]. simpl. destruct (default false _); [|done].
    by destruct (artifacts task).
  - eapply visible_waiting; try done. simpl. by destruct (default false _).
  - apply visible_other; try done. simpl. by destruct (default false _).
Qed.

(** Over such a store the guard adds nothing to a list and takes nothing away. *)
Lemma list_tasks_passes ok `{!PageSource (publishable completion_policy) ok} req w :
  ok w -> req_tenant req = None -> validate_history_length (req_history_length req) = Ok tt ->
  list_tasks req w = ledger_list req w.
Proof.
  intros Hok Ht Hh. unfold list_tasks, check, pure_, mbind, action_bind, reject_tenant.
  rewrite Ht, Hh. simpl. destruct (ledger_list req w) as [w' [resp|e]] eqn:Hl; [|done].
  destruct (source_page req w w' resp Hok Hl) as [Hpage Hgood].
  rewrite (proj2 (validate_list_structure_iff req resp)).
  2:{ split; [done|]. eapply Forall_impl; [exact Hgood|]. by intros t (t0 & [Hne _] & ->). }
  rewrite source_authentic. simpl. rewrite (proj2 (try_each_Ok _ _ tt)); [done|].
  eapply Forall_impl; [exact Hgood|]. intros t (t0 & [_ Hv] & ->).
  by apply validate_task_iff, visible_project.
Qed.

End guard.

(** ** Concrete instances *)

#[local] Existing Instance sample_sha256.
#[local] Existing Instance sample_hmac.
#[local] Existing Instance Policy.sample_codec.
#[local] Existing Instance sample_scheme.

(** A record as a JSON string that holds the bits of its encoding. *)
Definition value_of {T K} `{Countable K} (f : T -> K) (v : T) : result string json :=
  Ok (JString (bits (encode (f v)))).
Definition of_value {T K} `{Countable K} (g : K -> T) (v : json) : option T :=
  s ← as_str v; p ← unbits s; k ← decode p; Some (g k).

Lemma of_value_of {T K} `{Countable K} (f : T -> K) (g : K -> T) v j :
  (forall v, g (f v) = v) -> value_of f v = Ok j -> of_value g j = Some v.
Proof.
  intros Hgf [= <-]. unfold of_value. simpl. rewrite unbits_bits. simpl.
  rewrite decode_encode. simpl. by rewrite Hgf.
Qed.

Definition tuple_claims (t : string * string * string * string * N * string * string * string * list string * N) :
    CheckpointClaims :=
  let '(task, context, request, pid, v, ph, ev, arts, hashes, bps) := t in
  Build_CheckpointClaims task context request pid v ph ev arts hashes bps.

Lemma tuple_claims_of c : tuple_claims (claims_tuple c) = c.
Proof. by destruct c. Qed.

#[local] Program Instance sample_records : RecordCodec := {|
  receipt_to_value := value_of (fun r => (receipt_tuple (receipt_claims r), receipt_seal r));
  receipt_from_value := of_value (fun t =>
    Build_CompletionReceipt (Build_ReceiptClaims (tuple_claims t.1.1) t.1.2) t.2);
  checkpoint_to_value := value_of (fun c => (claims_tuple (checkpoint_claims c), checkpoint_seal c));
  checkpoint_from_value := of_value (fun t => Build_PolicyCheckpoint (tuple_claims t.1) t.2);
  block_to_value := fun _ => Ok JNull |}.
Next Obligation. intros r v. apply of_value_of. intros [[[] ?] ?]. done. Qed.
Next Obligation. intros c v. apply of_value_of. intros [[] ?]. done. Qed.

(** The task published for the accepted sample, with its artifacts in either order. *)
Definition sample_receipt : CompletionReceipt :=
  match evaluate (sample_policy development) (sample_snapshot (sample_evidence true 8000)) with
  | Ok (Accepted r) => r
  | _ => Build_CompletionReceipt (Build_ReceiptClaims (tuple_claims ("", "", "", "", 0%N, "", "", "", [], 0%N)) None) ""
  end.

Definition sample_artifact (name text : string) : Artifact := {|
  artifact_id := name; Protocol.artifact_name := Some name; description := None;
  artifact_parts := [{| content := Part_Text text; filename := None;
                        part_media_type := Some "text/plain"; part_metadata := None |}];
  artifact_metadata := None; artifact_extensions := None |}.

Definition sample_published (l : list Artifact) : Task := {|
  id := "task"; context_id := "ctx";
  status := {| state := Completed; status_message := None; timestamp := None |};
  artifacts := Some l; history := None;
  metadata := Some {["smesh.completionPolicy" :=
    JObject [("record", match receipt_to_value sample_receipt with Ok v => v | Err _ => JNull end); ("status", JString "accepted")]]} |}.

