(* ===== verification/Ledger.v ===== *)
(** * The in-memory store behind the guard

    [src/server.rs] plugs [BoundedTaskStore] ([Store.v]) into the guard
    ([Guard.v]) as its [CompletionPolicyStore].  The world of the guard's calls
    is the store together with the environment draws its list calls will use.
    The store implements the page interface the guard relies on, so over a
    store that was only ever given publishable tasks the guard never turns a
    page down. *)

From S2P Require Import Prelude Text Protocol Store Policy Guard.

(** ** The store as the guard sees it *)

Record ledger := { ledger_state : StoreState; ledger_draws : nat -> list_env }.

(** The default [validate_list_page]: compare each task with its current row. *)
Definition validate_current_list_page {W} (current : string -> call W (option Task))
    (request : ListTasksRequest) (response : ListTasksResponse) : call W unit :=
  act_each (fun task : Task =>
    stored ← current (id task);
    expected ← pure_ (ok_or stored (Fail (task_not_found (id task))));
    pure_ (fail_if (negb (bool_decide (project_task request expected = task)))
             (Fail invalid_agent_response))) (resp_tasks response).

Section ledger.
Context `{TaskCodec, Layout}.

Definition ledger_get_ (task_id : string) : call ledger (option Task) := fun w =>
  (w, Ok (get task_id (ledger_state w))).

Definition ledger_list_ (req : ListTasksRequest) : call ledger ListTasksResponse := fun w =>
  let '(st, r) := store_list (ledger_draws w 0) req (ledger_state w) in
  ({| ledger_state := st; ledger_draws := fun k => ledger_draws w (S k) |}, r).

#[global] Instance bounded_policy_store : CompletionPolicyStore ledger := {|
  ledger_get := ledger_get_;
  ledger_list := ledger_list_;
  list_pages_are_self_authenticating := true;
  validate_list_page := validate_current_list_page ledger_get_ |}.

(** ** What was written is what is shown *)

(** [project_task], as a function of the scope alone. *)
Definition scope_project (scope : CursorScope) (task : Task) : Task := {|
  id := id task; context_id := context_id task; status := status task;
  artifacts := if scope_include_artifacts scope then artifacts task else None;
  history := trim_history (scope_history_length scope ≫= usize_of_Z) (history task);
  metadata := metadata task |}.

Lemma scope_project_request req ps task : scope_project (from_request req ps) task = project_task req task.
Proof. done. Qed.

Lemma snap_wf_unique snap ts ts' : snap_wf snap ts -> snap_wf snap ts' -> ts = ts'.
Proof.
  intros [Hd _ _ _ _] [Hd' _ _ _ _]. revert ts' Hd'.
  induction Hd as [|e t es ts Ht _ IH]; inversion 1; subst; [done|]. f_equal; [congruence|auto].
Qed.

Context (good : Task -> Prop).

Definition shows (scope : CursorScope) (t : Task) : Prop := exists t0, good t0 /\ t = scope_project scope t0.

(** Every stored task is good, and every frozen one is a projection of a good task. *)
Record kept (st : StoreState) : Prop := {
  kept_tasks : forall k t, tasks st !! k = Some t -> good t;
  kept_snapshots : Forall (fun p => exists ts, snap_wf p.2 ts /\ Forall (shows (snap_scope p.2)) ts)
                          (snapshots st) }.

Lemma frozen_view_shows st req ps : kept st -> Forall (shows (from_request req ps)) (frozen_view req st).
Proof.
  intros [Ht _]. unfold frozen_view, freeze_projection. apply Forall_fmap, Forall_forall.
  intros t Hin%sort_by_key_elem%list_elem_of_filter. destruct Hin as [_ Hin].
  apply list_elem_of_fmap in Hin as ([k t'] & -> & Hin%elem_of_map_to_list). simpl.
  exists t'. split; [by eapply Ht|done].
Qed.

Lemma memory_page_shows snap ts p resp :
  snap_wf snap ts -> (p <= length ts)%nat -> Forall (shows (snap_scope snap)) ts ->
  memory_page snap p = Ok resp -> Forall (shows (snap_scope snap)) (resp_tasks resp).
Proof.
  intros Hwf Hp Hts. rewrite (memory_page_Ok snap ts p) by done. intros [= <-]. simpl.
  by apply Forall_take, Forall_drop.
Qed.

Lemma collected_kept env st : kept st -> kept (collected env st).
Proof. intros [Ht Hs]. split; [exact Ht|].
  rewrite Forall_forall in Hs |- *. intros p [_ Hin]%list_elem_of_filter. auto.
Qed.

Lemma store_list_kept max_tasks registry env req st :
  store_wf max_tasks registry st -> kept st -> kept (store_list env req st).1.
Proof.
  intros Hwf Hk. assert (Hc := collected_kept env st Hk).
  destruct (store_list_cases _ _ env req _ Hwf) as [[e ->]|(ps & _ & _ & [->|(_ & snap & Hreg & ->)])].
  - done.
  - done.
  - destruct Hc as [Hct Hcs]. split; [exact Hct|]. simpl. apply Forall_app. split; [exact Hcs|].
    apply Forall_singleton. exists (frozen_view req (collected env st)).
    destruct (registers_wf max_tasks registry _ _ _ _ _ _ (gc_wf _ _ _ _ _ Hwf) Hreg) as (Hsw & Hsc & _).
    split; [exact Hsw|]. simpl. rewrite Hsc. by apply frozen_view_shows.
Qed.

Lemma create_kept max_tasks task st : good task -> kept st -> kept (create max_tasks task st).1.
Proof.
  intros Hg [Ht Hs]. unfold create. repeat case_match; [by split..|]. split; [|done]. simpl.
  intros k t [[_ ->]|[_ Hl]]%lookup_insert_Some; [done|by eapply Ht].
Qed.

Lemma update_kept task st : good task -> kept st -> kept (update task st).1.
Proof.
  intros Hg [Ht Hs]. unfold update. destruct (tasks st !! id task) as [stored|]; [|by split].
  repeat case_match; [by split..|]. split; [|done]. simpl.
  intros k t [[_ ->]|[_ Hl]]%lookup_insert_Some; [done|by eapply Ht].
Qed.

(** ** Runs of the ledger *)

(** The draws still to come name fresh snapshots, each its own. *)
Record ledger_ok (max_tasks registry : N) (w : ledger) : Prop := {
  ledger_wf : store_wf max_tasks registry (ledger_state w);
  ledger_kept : kept (ledger_state w);
  ledger_fresh : forall k, env_snapshot_id (ledger_draws w k) ∉ (snapshots (ledger_state w)).*1;
  ledger_distinct : forall i j, env_snapshot_id (ledger_draws w i) = env_snapshot_id (ledger_draws w j) -> i = j }.

(** The operations other parties run, with good tasks only, and the guard's lists. *)
Inductive ledger_step (max_tasks : N) : ledger -> ledger -> Prop :=
  | ledger_create task w : good task ->
      ledger_step max_tasks w {| ledger_state := (create max_tasks task (ledger_state w)).1;
                                 ledger_draws := ledger_draws w |}
  | ledger_update task w : good task ->
      ledger_step max_tasks w {| ledger_state := (update task (ledger_state w)).1;
                                 ledger_draws := ledger_draws w |}
  | ledger_page req w : ledger_step max_tasks w (ledger_list_ req w).1.

Definition new_ledger (registry : N) (draws : nat -> list_env) : ledger :=
  {| ledger_state := default_state registry; ledger_draws := draws |}.

Lemma store_list_ids max_tasks registry env req st i :
  store_wf max_tasks registry st -> i ∈ (snapshots (store_list env req st).1).*1 ->
  i = env_snapshot_id env \/ i ∈ (snapshots st).*1.
Proof.
  intros Hwf. assert (Hc : forall j, j ∈ (snapshots (collected env st)).*1 -> j ∈ (snapshots st).*1).
  { intros j (q & -> & [_ Hin]%list_elem_of_filter)%list_elem_of_fmap. by apply list_elem_of_fmap_2. }
  destruct (store_list_cases _ _ env req _ Hwf) as [[e ->]|(ps & _ & _ & [->|(_ & snap & Hreg & ->)])]; auto.
  simpl. rewrite fmap_app. set_solver.
Qed.

Lemma ledger_step_ok max_tasks registry w w' :
  ledger_step max_tasks w w' -> ledger_ok max_tasks registry w -> ledger_ok max_tasks registry w'.
Proof.
  intros Hstep [Hwf Hk Hf Hd]. destruct Hstep as [task w Hg|task w Hg|req w].
  - split; simpl; [by apply create_wf|by apply create_kept| |done]. by rewrite create_snapshots.
  - split; simpl; [by apply update_wf|by apply update_kept| |done]. by rewrite update_snapshots.
  - assert (Hids := fun i => store_list_ids _ _ (ledger_draws w 0) req _ i Hwf).
    assert (Hwf' := store_list_wf _ _ (ledger_draws w 0) req _ Hwf).
    assert (Hk' := store_list_kept _ _ (ledger_draws w 0) req _ Hwf Hk).
    unfold ledger_list_. destruct (store_list _ _ _) as [st r]. simpl in *. split; simpl; [done|done| |].
    + intros k [Heq|Hin]%Hids; [by apply Hd in Heq|by apply (Hf (S k))].
    + intros i j Hij%Hd. by injection Hij.
Qed.

Lemma ledger_run_ok max_tasks registry draws w :
  (forall i j, env_snapshot_id (draws i) = env_snapshot_id (draws j) -> i = j) ->
  rtc (ledger_step max_tasks) (new_ledger registry draws) w -> ledger_ok max_tasks registry w.
Proof.
  intros Hd Hrun. assert (Hinit : ledger_ok max_tasks registry (new_ledger registry draws)).
  { split; simpl; [apply default_wf| |intros k; apply not_elem_of_nil|done]. split; [|done].
    intros k t. simpl. by rewrite lookup_empty. }
  induction Hrun as [|w mid w' Hstep _ IH]; [done|]. apply IH. by eapply ledger_step_ok.
Qed.

#[global] Instance ledger_page_source max_tasks registry : PageSource good (ledger_ok max_tasks registry).
Proof.
  split; [|done]. intros req w w' resp [Hwf Hk Hf Hd] Hl. simpl in Hl. unfold ledger_list_ in Hl.
  assert (Hk' := store_list_kept _ _ (ledger_draws w 0) req _ Hwf Hk).
  destruct (store_list_cases _ _ (ledger_draws w 0) req _ Hwf) as [[e He]|(ps & Hv & Hans & _)].
  { rewrite He in Hl. discriminate Hl. }
  destruct (store_list (ledger_draws w 0) req (ledger_state w)) as [st r]. simpl in *.
  injection Hl as _ ->. apply validate_list_request_Ok in Hv as (Hps & _ & <-).
  split; [by eapply answer_page_ok, Hans|]. remember (Ok resp) as r eqn:Hr.
  destruct Hans as [e|Hle Htok|i snap ts p Hi Hts Hp Hsc]; [done| |].
  - injection Hr as <-. simpl. by apply (frozen_view_shows _ req ps).
  - destruct Hk' as [_ Hs]. rewrite Forall_forall in Hs. destruct (Hs _ Hi) as (ts' & Hts' & Hshow).
    simpl in *. rewrite <- (snap_wf_unique _ _ _ Hts Hts') in Hshow.
    rewrite (Hsc (Hf 0%nat)) in Hshow.
    pose proof (memory_page_shows snap ts p resp Hts Hp) as Hpage. rewrite (Hsc (Hf 0%nat)) in Hpage.
    exact (Hpage Hshow Hr).
Qed.
End ledger.

(** ** The guarded store *)

Section guarded.
Context `{TaskCodec, Layout, Sha256, HmacSha256, PolicyCodec, RecordCodec}.

(** The guard and the store agree on lists.  Over a store that was only given
    named tasks the guard would show (whatever the order of creates, updates
    and lists, and although pages come from frozen views), a valid list request
    is answered with exactly the store's answer: no genuine page is turned
    down, and nothing on it is changed. *)
Theorem guarded_list_is_store_list policy max_tasks registry draws w req :
  (forall i j, env_snapshot_id (draws i) = env_snapshot_id (draws j) -> i = j) ->
  rtc (ledger_step (publishable policy) max_tasks) (new_ledger registry draws) w ->
  req_tenant req = None -> validate_history_length (req_history_length req) = Ok tt ->
  list_tasks policy req w = ledger_list_ req w.
Proof.
  intros Hd Hrun Ht Hh.
  refine (list_tasks_passes policy (ledger_ok (publishable policy) max_tasks registry) req w _ Ht Hh).
  by eapply ledger_run_ok.
Qed.
End guarded.

(** ** A concrete run *)

#[local] Existing Instance sample_sha256.
#[local] Existing Instance sample_hmac.
#[local] Existing Instance Store.sample_codec.
#[local] Existing Instance Store.sample_layout.
#[local] Existing Instance Policy.sample_codec.
#[local] Existing Instance Guard.sample_records.

Definition sample_draws (k : nat) : list_env :=
  sample_env (N.of_nat k) "t" (bits (Pos.of_succ_nat k)).

Lemma guarded_list_is_store_list_witness :
  exists w t, get "a" (ledger_state w) = Some t /\
    list_tasks (sample_policy development) sample_request w = ledger_list_ sample_request w.
Proof.
  set (w0 := new_ledger sample_registry sample_draws).
  set (w1 := {| ledger_state := (create 3 (sample_task "a" Submitted 1) (ledger_state w0)).1;
                ledger_draws := ledger_draws w0 |}).
  exists w1, (sample_task "a" Submitted 1). split; [vm_compute; reflexivity|].
  apply (guarded_list_is_store_list (sample_policy development) 3 sample_registry sample_draws w1 sample_request).
  - intros i j Hij. apply bits_inj in Hij. lia.
  - apply rtc_once. apply ledger_create. split; [discriminate|].
    apply visible_other; [discriminate|discriminate|reflexivity|intros value Hv; discriminate Hv].
  - reflexivity.
  - reflexivity.
Defined.

