(* ===== verification/Trace.v ===== *)
(** * Runtime traces

    [runtime_trace.rs]: the bounded in-memory capture of runtime events, the
    records the gateway requires of its own decisions, and the replay validation
    of a persisted trace.  A capture is a [RuntimeEventCapture]; every public
    operation is an [action] on it.  The clock (microseconds since the capture
    started) is an argument of the operations that read it; the JSON codec is the
    class [TraceCodec]; the telemetry hand-off has no effect on the capture and is
    left out. *)

From S2P Require Import Prelude Text Policy Quota.

(** ** Data *)

Definition RUNTIME_TRACE_SCHEMA_V1 : string := "runtime-trace/1".
Definition RUNTIME_TRACE_SCHEMA_V2 : string := "runtime-trace/2".
Definition RUNTIME_TRACE_SCHEMA : string := "runtime-trace/3".
Definition MAX_REPLAY_BYTES : N := 16 * 1024 * 1024.
Definition MAX_REPLAY_EVENTS : N := 100000.
Definition MAX_CAPTURE_EVENTS : N := 1024.

Inductive RuntimeTraceKind :=
  | Kind_SignalEmitted | Kind_SignalReinforced | Kind_SignalReceived | Kind_SignalExpired
  | Kind_PeerConnected | Kind_PeerDisconnected | Kind_TickCompleted | Kind_Claim | Kind_Contradiction
  | Kind_TerminalOutput.

Inductive RuntimeClaimKind := Claim_Review | Claim_Test | Claim_Attestation | Claim_Ratification.

Inductive RuntimeTerminalState :=
  | Trace_Completed | Trace_Failed | Trace_Canceled | Trace_InputRequired | Trace_Rejected.
Inductive RuntimeCancellationOutcome := CooperativeStop | ForcedAbort | CancellationFailed.

Inductive RuntimeTraceDetails :=
  | Details_None
  | Details_Reinforcement (count : N)
  | Details_Receipt (hops : N)
  | Details_Tick (tick active_signals expired : N)
  | Details_Claim (claim_kind : RuntimeClaimKind) (evidence_id subject_digest : option string)
                  (asserted_outcome : option bool)
  | Details_Contradiction (evidence_id subject_digest : string) (blocking : bool)
  | Details_TerminalOutput (terminal_state : RuntimeTerminalState) (artifact_digests : list string)
                           (cancellation_outcome : option RuntimeCancellationOutcome).

Record RuntimeTraceEvent := {
  sequence : N;
  monotonic_micros : N;
  kind : RuntimeTraceKind;
  event_task_id : option string;
  event_context_id : option string;
  signal_hash : option string;
  details : RuntimeTraceDetails }.

Record RuntimeTrace := {
  schema_version : string;
  capture_valid : bool;
  trace_events : list RuntimeTraceEvent;
  trace_dropped_optional : N }.

Inductive RuntimeTraceError :=
  | ZeroCapacity | RequiredCapacityExhausted | InvalidCorrelation | CorrelationConflict
  | SequenceOverflow | UnsupportedSchema | Persistence | CaptureInvalid
  | MalformedReplay (reason : string).

#[global] Instance RuntimeTraceKind_eq_dec : EqDecision RuntimeTraceKind.
Proof. solve_decision. Defined.
#[global] Instance RuntimeTerminalState_eq_dec : EqDecision RuntimeTerminalState.
Proof. solve_decision. Defined.

Record Correlation := { corr_task_id : string; corr_context_id : string }.

#[global] Instance Correlation_eq_dec : EqDecision Correlation.
Proof. solve_decision. Defined.

Record RetainedRuntimeEvent := { event : RuntimeTraceEvent; workload : option string }.

Record CaptureState := {
  next_sequence : N;
  required : list RetainedRuntimeEvent;
  optional : list RuntimeTraceEvent;
  required_capacity : N;
  optional_capacity : N;
  dropped_optional : N;
  retired_required : N;
  per_workload_capacity : N;
  correlations : gmap string Correlation;
  workload_aliases : gmap string string;
  seen_hashes : gset string;
  ambiguous_hashes : gset string;
  hash_history_saturated : bool }.

Record RuntimeEventCapture := { capture : CaptureState; failure : bool }.

(** [smesh_runtime::RuntimeEvent], with the fields the adapter reads. *)
Inductive RuntimeEvent :=
  | SignalEmitted (hash : string)
  | SignalReinforced (hash : string) (count : N)
  | SignalReceived (hash : string) (hops : N)
  | SignalExpired (hash : string)
  | PeerConnected
  | PeerDisconnected
  | TickCompleted (tick active_signals expired : N).

Class TraceCodec := {
  trace_to_vec : RuntimeTrace -> result string string;
  trace_from_slice : string -> result string RuntimeTrace }.

(** ** Validation *)

Definition bounded_public_value (value : string) : bool :=
  negb (bool_decide (value = "")) && (slen value <=? 512)%N && negb (existsb is_control (chars value)).

Definition canonical_sha256 (value : string) : bool :=
  (slen value =? 71)%N &&
  match strip_prefix "sha256:" value with
  | Some digits => str_all is_ascii_hexdigit digits
  | None => false
  end.

Definition details_are_bounded (d : RuntimeTraceDetails) (legacy_v1 : bool) : bool :=
  match d with
  | Details_Claim claim_kind evidence_id subject_digest asserted_outcome =>
      match claim_kind with
      | Claim_Review | Claim_Test =>
          is_some_and evidence_id canonical_sha256 && is_some_and subject_digest canonical_sha256
          && is_some asserted_outcome
      | Claim_Attestation =>
          is_some_and evidence_id canonical_sha256 && is_some_and subject_digest canonical_sha256
          && negb (is_some asserted_outcome)
      | Claim_Ratification =>
          negb (is_some evidence_id) && is_some_and subject_digest canonical_sha256
          && is_some asserted_outcome
      end
  | Details_Contradiction evidence_id subject_digest _ =>
      canonical_sha256 evidence_id && canonical_sha256 subject_digest
  | Details_TerminalOutput st artifact_digests cancellation_outcome =>
      let cancellation_valid :=
        match cancellation_outcome with
        | None => legacy_v1 || negb (bool_decide (st = Trace_Canceled))
        | Some CooperativeStop => negb legacy_v1 && bool_decide (st = Trace_Canceled)
        | Some (ForcedAbort | CancellationFailed) => negb legacy_v1 && bool_decide (st = Trace_Failed)
        end in
      cancellation_valid && (len artifact_digests <=? 16)%N && forallb canonical_sha256 artifact_digests
  | Details_None | Details_Reinforcement _ | Details_Receipt _ | Details_Tick _ _ _ => true
  end.

Definition trace_event_is_valid (e : RuntimeTraceEvent) (legacy_v1 : bool) : bool :=
  let identifiers_valid :=
    is_none_or (event_task_id e) bounded_public_value && is_none_or (event_context_id e) bounded_public_value
    && is_none_or (signal_hash e) bounded_public_value in
  let correlation_pair := Bool.eqb (is_some (event_task_id e)) (is_some (event_context_id e)) in
  let shape_valid :=
    match kind e, details e with
    | (Kind_SignalEmitted | Kind_SignalExpired), Details_None
    | Kind_SignalReinforced, Details_Reinforcement _
    | Kind_SignalReceived, Details_Receipt _ => is_some (signal_hash e) && correlation_pair
    | (Kind_PeerConnected | Kind_PeerDisconnected), Details_None
    | Kind_TickCompleted, Details_Tick _ _ _ =>
        negb (is_some (signal_hash e)) && negb (is_some (event_task_id e)) && negb (is_some (event_context_id e))
    | Kind_Claim, Details_Claim _ _ _ _
    | Kind_Contradiction, Details_Contradiction _ _ _
    | Kind_TerminalOutput, Details_TerminalOutput _ _ _ =>
        negb (is_some (signal_hash e)) && is_some (event_task_id e) && is_some (event_context_id e)
    | _, _ => false
    end in
  identifiers_valid && shape_valid && details_are_bounded (details e) legacy_v1.

(** [adapt_event]: the kind, the signal, whether the event is required, and the
    details that are kept of it. *)
Definition adapt_event (e : RuntimeEvent) : RuntimeTraceKind * option string * bool * RuntimeTraceDetails :=
  match e with
  | SignalEmitted hash => (Kind_SignalEmitted, Some hash, true, Details_None)
  | SignalReinforced hash count => (Kind_SignalReinforced, Some hash, true, Details_Reinforcement count)
  | SignalReceived hash hops => (Kind_SignalReceived, Some hash, true, Details_Receipt hops)
  | SignalExpired hash => (Kind_SignalExpired, Some hash, true, Details_None)
  | PeerConnected => (Kind_PeerConnected, None, true, Details_None)
  | PeerDisconnected => (Kind_PeerDisconnected, None, true, Details_None)
  | TickCompleted tick active_signals expired =>
      (Kind_TickCompleted, None, false, Details_Tick tick active_signals expired)
  end.

(** ** Retention *)

Definition set_required (st : CaptureState) (rs : list RetainedRuntimeEvent) (retired : N) : CaptureState := {|
  next_sequence := next_sequence st; required := rs; optional := optional st;
  required_capacity := required_capacity st; optional_capacity := optional_capacity st;
  dropped_optional := dropped_optional st;
  retired_required := saturating_add (retired_required st) retired;
  per_workload_capacity := per_workload_capacity st; correlations := correlations st;
  workload_aliases := workload_aliases st; seen_hashes := seen_hashes st;
  ambiguous_hashes := ambiguous_hashes st; hash_history_saturated := hash_history_saturated st |}.

Definition set_hashes (st : CaptureState) (corrs : gmap string Correlation) (aliases : gmap string string)
    (seen ambiguous : gset string) (saturated : bool) : CaptureState := {|
  next_sequence := next_sequence st; required := required st; optional := optional st;
  required_capacity := required_capacity st; optional_capacity := optional_capacity st;
  dropped_optional := dropped_optional st; retired_required := retired_required st;
  per_workload_capacity := per_workload_capacity st; correlations := corrs;
  workload_aliases := aliases; seen_hashes := seen; ambiguous_hashes := ambiguous;
  hash_history_saturated := saturated |}.

Definition set_optional (st : CaptureState) (events : list RuntimeTraceEvent) (dropped : N) : CaptureState := {|
  next_sequence := next_sequence st; required := required st; optional := events;
  required_capacity := required_capacity st; optional_capacity := optional_capacity st;
  dropped_optional := saturating_add (dropped_optional st) dropped;
  retired_required := retired_required st;
  per_workload_capacity := per_workload_capacity st; correlations := correlations st;
  workload_aliases := workload_aliases st; seen_hashes := seen_hashes st;
  ambiguous_hashes := ambiguous_hashes st; hash_history_saturated := hash_history_saturated st |}.

Definition set_sequence (st : CaptureState) (next : N) : CaptureState := {|
  next_sequence := next; required := required st; optional := optional st;
  required_capacity := required_capacity st; optional_capacity := optional_capacity st;
  dropped_optional := dropped_optional st; retired_required := retired_required st;
  per_workload_capacity := per_workload_capacity st; correlations := correlations st;
  workload_aliases := workload_aliases st; seen_hashes := seen_hashes st;
  ambiguous_hashes := ambiguous_hashes st; hash_history_saturated := hash_history_saturated st |}.

Definition workload_matches (w : string) (r : RetainedRuntimeEvent) : bool := bool_decide (workload r = Some w).

Definition is_boundary (r : RetainedRuntimeEvent) : bool :=
  match kind (event r) with Kind_SignalEmitted | Kind_TerminalOutput => true | _ => false end.

Definition workload_is_completed (rs : list RetainedRuntimeEvent) (w : string) : bool :=
  existsb (fun r => workload_matches w r && bool_decide (kind (event r) = Kind_TerminalOutput)) rs.

(** [iter().filter(..).count()] *)
Definition workload_count (rs : list RetainedRuntimeEvent) (w : string) : N :=
  len (List.filter (workload_matches w) rs).

(** [iter().position(..)] *)
Definition position {A} (p : A -> bool) (l : list A) : option nat := fst <$> list_find p l.

Definition or_else {A} (o k : option A) : option A := match o with Some _ => o | None => k end.

Definition retirement_index (rs : list RetainedRuntimeEvent) (w : string) : option nat :=
  or_else (position (fun r => workload_matches w r && negb (is_boundary r)) rs)
  (or_else (if workload_is_completed rs w then position (workload_matches w) rs else None)
           (position (workload_matches w) rs)).

(** The hashes of the retained events. *)
Definition retained_hashes (rs : list RetainedRuntimeEvent) : gset string :=
  list_to_set (omap (fun r => signal_hash (event r)) rs).

Definition prune_workload_aliases (st : CaptureState) : CaptureState :=
  let keep := retained_hashes (required st) ∪ dom (correlations st) in
  set_hashes st (correlations st) (filter (fun kv => kv.1 ∈ keep) (workload_aliases st)) (seen_hashes st)
    (filter (fun h => h ∈ keep) (ambiguous_hashes st)) (hash_history_saturated st).

(** [state.required.remove(index)] with its account *)
Definition retire_at (st : CaptureState) (index : nat) : CaptureState :=
  set_required st (delete index (required st)) 1.

(** The loop that retires events of a workload while it has [limit] or more. *)
Fixpoint retire_while (fuel : nat) (limit : N) (w : string) (st : CaptureState) : CaptureState :=
  match fuel with
  | O => st
  | S fuel =>
      if (limit <=? workload_count (required st) w)%N then
        match retirement_index (required st) w with
        | None => st
        | Some index => retire_while fuel limit w (retire_at st index)
        end
      else st
  end.

Definition enforce_workload_limit (st : CaptureState) (w : string) : CaptureState :=
  prune_workload_aliases
    (retire_while (length (required st)) (per_workload_capacity st + 1) w st).

(** [required.iter().filter_map(workload).find(completed)] *)
Definition completed_workload (rs : list RetainedRuntimeEvent) : option string :=
  List.find (workload_is_completed rs) (omap workload rs).

(** The loop that makes room for one more event. *)
Fixpoint make_room (fuel : nat) (st : CaptureState) : CaptureState :=
  match fuel with
  | O => st
  | S fuel =>
      let rs := required st in
      if (required_capacity st <=? len rs)%N then
        match completed_workload rs with
        | Some w =>
            make_room fuel (prune_workload_aliases
              (set_required st (List.filter (fun r => negb (workload_matches w r)) rs) (workload_count rs w)))
        | None => make_room fuel (retire_at st (default 0 (position (fun r => negb (is_boundary r)) rs)))
        end
      else st
  end.

Section capture.
Context `{Sha256}.

Definition runtime_workload_key (task_id context_id : string) : string :=
  content_digest ("runtime-trace-workload/v1" +:+ nul +:+ task_id +:+ nul +:+ context_id).

Definition workload_for_event (st : CaptureState) (e : RuntimeTraceEvent) : option string :=
  match signal_hash e with
  | Some hash => or_else (workload_aliases st !! hash) (Some hash)
  | None =>
      match event_task_id e, event_context_id e with
      | Some task, Some context => Some (runtime_workload_key task context)
      | _, _ => None
      end
  end.

(** The tail of [push_required], for an event that is kept. *)
Definition push_retained (st : CaptureState) (r : RetainedRuntimeEvent) : CaptureState :=
  let st := make_room (length (required st)) st in
  prune_workload_aliases (set_required st (required st ++ [r]) 0).

Definition push_required (st : CaptureState) (e : RuntimeTraceEvent) : CaptureState :=
  if (required_capacity st =? 0)%N then st else
  let r := {| event := e; workload := workload_for_event st e |} in
  match workload r with
  | Some w =>
      if (per_workload_capacity st <=? workload_count (required st) w)%N && negb (is_boundary r)
         && negb (existsb (fun x => workload_matches w x && negb (is_boundary x)) (required st))
      then prune_workload_aliases (set_required st (required st) 1)
      else push_retained (retire_while (length (required st)) (per_workload_capacity st) w st) r
  | None => push_retained st r
  end.

(** ** Operations *)

Definition new_with_retention (rc oc pc : N) : RuntimeEventCapture :=
  let rc := if (rc =? 0)%N then 0%N else N.max 2 (N.min rc MAX_CAPTURE_EVENTS) in
  {| capture := {|
       next_sequence := 0; required := []; optional := [];
       required_capacity := rc; optional_capacity := N.min oc (MAX_CAPTURE_EVENTS - rc);
       dropped_optional := 0; retired_required := 0;
       per_workload_capacity := if (rc =? 0)%N then 0%N else N.max 2 (N.min pc rc);
       correlations := ∅; workload_aliases := ∅; seen_hashes := ∅; ambiguous_hashes := ∅;
       hash_history_saturated := false |};
     failure := false |}.

Abbreviation traced := (action RuntimeEventCapture RuntimeTraceError).

(** [RuntimeEventCapture::fail] *)
Definition fail_capture (e : RuntimeTraceError) : traced unit := fun c =>
  ({| capture := capture c; failure := true |}, Err e).

Definition put (c : RuntimeEventCapture) (st : CaptureState) : RuntimeEventCapture :=
  {| capture := st; failure := failure c |}.

Definition invalidate (c : RuntimeEventCapture) : RuntimeEventCapture :=
  {| capture := capture c; failure := true |}.

(** The registered identity is filled into an emission that has none. *)
Definition attribute_event (hash : string) (corr : Correlation) (e : RuntimeTraceEvent) : RuntimeTraceEvent :=
  if bool_decide (kind e = Kind_SignalEmitted) && bool_decide (signal_hash e = Some hash)
     && negb (is_some (event_task_id e))
  then {| sequence := sequence e; monotonic_micros := monotonic_micros e; kind := kind e;
          event_task_id := Some (corr_task_id corr); event_context_id := Some (corr_context_id corr);
          signal_hash := signal_hash e; details := details e |}
  else e.

Definition attribute_retained (hash : string) (corr : Correlation) (w : string) (r : RetainedRuntimeEvent) :
    RetainedRuntimeEvent :=
  if bool_decide (signal_hash (event r) = Some hash)
  then {| event := attribute_event hash corr (event r); workload := Some w |}
  else r.

(** The state change of a new registration, before the workload's limit. *)
Definition bind_hash (st : CaptureState) (hash : string) (corr : Correlation) (w : string) : CaptureState :=
  let reused := hash_history_saturated st || bool_decide (hash ∈ seen_hashes st) in
  let fits := (N.of_nat (size (seen_hashes st)) <? MAX_CAPTURE_EVENTS)%N in
  let st := set_hashes st (<[hash := corr]> (correlations st)) (<[hash := w]> (workload_aliases st))
    (if fits then {[hash]} ∪ seen_hashes st else seen_hashes st)
    (if reused then {[hash]} ∪ ambiguous_hashes st else ambiguous_hashes st)
    (if fits then hash_history_saturated st else true) in
  set_optional (set_required st (attribute_retained hash corr w <$> required st) 0)
    (attribute_event hash corr <$> optional st) 0.

Definition register_correlation (hash task_id context_id : string) : traced unit := fun c =>
  let st := capture c in
  if negb (bounded_public_value hash && bounded_public_value task_id && bounded_public_value context_id)
  then (c, Err InvalidCorrelation) else
  if (required_capacity st =? 0)%N then (c, Err ZeroCapacity) else
  let corr := {| corr_task_id := task_id; corr_context_id := context_id |} in
  match correlations st !! hash with
  | Some existing => if bool_decide (existing = corr) then (c, Ok tt) else (c, Err CorrelationConflict)
  | None =>
      if (required_capacity st <=? N.of_nat (size (correlations st)))%N then (c, Err RequiredCapacityExhausted) else
      let w := runtime_workload_key task_id context_id in
      if is_some_and (workload_aliases st !! hash) (fun existing => negb (bool_decide (existing = w)))
      then (c, Err CorrelationConflict) else
      (put c (enforce_workload_limit (bind_hash st hash corr w) w), Ok tt)
  end.

(** A signal whose history no longer tells whose it is. *)
Definition ambiguous (st : CaptureState) (hash : string) : bool :=
  hash_history_saturated st || bool_decide (hash ∈ ambiguous_hashes st)
  || (bool_decide (hash ∈ seen_hashes st) && negb (is_some (workload_aliases st !! hash))).

Definition record_event (now : N) (e : RuntimeEvent) : traced unit := fun c =>
  let st := capture c in
  if (required_capacity st =? 0)%N then fail_capture ZeroCapacity c else
  let '(k, hash, is_required, ds) := adapt_event e in
  if is_some_and hash (fun h => negb (bounded_public_value h)) then fail_capture InvalidCorrelation c else
  if is_required && negb (bool_decide (k = Kind_SignalEmitted)) && is_some_and hash (ambiguous st)
  then (put c (set_required st (required st) 1), Ok tt) else
  if negb is_required && (optional_capacity st <=? len (optional st))%N
  then (put c (set_optional st (optional st) 1), Ok tt) else
  let corr := if bool_decide (k = Kind_SignalEmitted) then hash ≫= fun h => correlations st !! h else None in
  let trace_event := {|
    sequence := next_sequence st; monotonic_micros := now; kind := k;
    event_task_id := corr_task_id <$> corr; event_context_id := corr_context_id <$> corr;
    signal_hash := hash; details := ds |} in
  match checked_add (next_sequence st) 1 with
  | None => fail_capture SequenceOverflow c
  | Some next =>
      let st := set_sequence st next in
      (put c (if is_required then push_required st trace_event
              else set_optional st (optional st ++ [trace_event]) 0), Ok tt)
  end.

Definition record_required_gateway (now : N) (task_id context_id : string) (k : RuntimeTraceKind)
    (ds : RuntimeTraceDetails) : traced unit := fun c =>
  let st := capture c in
  if negb (bounded_public_value task_id) || negb (bounded_public_value context_id)
     || negb (details_are_bounded ds false)
  then (c, Err InvalidCorrelation) else
  if (required_capacity st =? 0)%N then fail_capture ZeroCapacity c else
  let e := {|
    sequence := next_sequence st; monotonic_micros := now; kind := k;
    event_task_id := Some task_id; event_context_id := Some context_id;
    signal_hash := None; details := ds |} in
  match checked_add (next_sequence st) 1 with
  | None => fail_capture SequenceOverflow c
  | Some next =>
      let st := push_required (set_sequence st next) e in
      (put c (if bool_decide (k = Kind_TerminalOutput)
              then set_hashes st
                     (filter (fun kv => kv.2 <> {| corr_task_id := task_id; corr_context_id := context_id |})
                             (correlations st))
                     (workload_aliases st) (seen_hashes st) (ambiguous_hashes st) (hash_history_saturated st)
              else st), Ok tt)
  end.

(** What [record_evidence] keeps of a record: digests and asserted outcomes. *)
Definition evidence_details (e : CompletionEvidence) : RuntimeTraceKind * RuntimeTraceDetails :=
  match e with
  | Review id _ subject_digest _ _ approved _ =>
      (Kind_Claim, Details_Claim Claim_Review (Some (content_digest id)) (Some subject_digest) (Some approved))
  | Test_ id _ subject_digest _ _ passed _ =>
      (Kind_Claim, Details_Claim Claim_Test (Some (content_digest id)) (Some subject_digest) (Some passed))
  | Attestation id subject_digest _ _ =>
      (Kind_Claim, Details_Claim Claim_Attestation (Some (content_digest id)) (Some subject_digest) None)
  | Contradiction id _ subject_digest _ _ blocking =>
      (Kind_Contradiction, Details_Contradiction (content_digest id) subject_digest blocking)
  | Ratification receipt =>
      (Kind_Claim, Details_Claim Claim_Ratification None
        (Some (stmt_artifact_set_digest (statement receipt))) (Some (stmt_approved (statement receipt))))
  end.

Definition record_evidence (now : N) (task_id context_id : string) (evidence : CompletionEvidence) : traced unit :=
  let '(k, ds) := evidence_details evidence in record_required_gateway now task_id context_id k ds.

Definition record_terminal (now : N) (task_id context_id : string) (st : RuntimeTerminalState)
    (artifact_digests : list string) : traced unit :=
  if bool_decide (st = Trace_Canceled) || (16 <? len artifact_digests)%N
     || existsb (fun d => negb (bounded_public_value d)) artifact_digests
  then fail_capture InvalidCorrelation
  else record_required_gateway now task_id context_id Kind_TerminalOutput
         (Details_TerminalOutput st artifact_digests None).

Definition record_cancellation_terminal (now : N) (task_id context_id : string) (st : RuntimeTerminalState)
    (outcome : RuntimeCancellationOutcome) : traced unit :=
  let valid := match st, outcome with
               | Trace_Canceled, CooperativeStop => true
               | Trace_Failed, (ForcedAbort | CancellationFailed) => true
               | _, _ => false
               end in
  if negb valid then fail_capture InvalidCorrelation
  else record_required_gateway now task_id context_id Kind_TerminalOutput
         (Details_TerminalOutput st [] (Some outcome)).

(** ** Snapshot and replay *)

Definition all_events (st : CaptureState) : list RuntimeTraceEvent :=
  (event <$> required st) ++ optional st.

Definition renumber (n : N) (e : RuntimeTraceEvent) : RuntimeTraceEvent := {|
  sequence := n; monotonic_micros := monotonic_micros e; kind := kind e;
  event_task_id := event_task_id e; event_context_id := event_context_id e;
  signal_hash := signal_hash e; details := details e |}.

Fixpoint enumerate (n : N) (l : list RuntimeTraceEvent) : list RuntimeTraceEvent :=
  match l with
  | [] => []
  | e :: l => renumber n e :: enumerate (n + 1) l
  end.

Definition trace_snapshot (c : RuntimeEventCapture) : RuntimeTrace := {|
  schema_version := RUNTIME_TRACE_SCHEMA;
  capture_valid := negb (failure c);
  trace_events := enumerate 0 (sort_by (fun a b => sequence a <=? sequence b)%N (all_events (capture c)));
  trace_dropped_optional := dropped_optional (capture c) |}.

(** The bytes [persist_new] writes. *)
Definition persist_bytes `{TraceCodec} (c : RuntimeEventCapture) : result RuntimeTraceError string :=
  fail_if (failure c) CaptureInvalid;;
  encoded ← map_err (fun _ => Persistence) (trace_to_vec (trace_snapshot c));
  Ok (encoded +:+ String newline "").

(** The loop of [replay], with the position and the time of the event before. *)
Fixpoint replay_ordered (legacy_v1 : bool) (index : N) (previous : option N) (l : list RuntimeTraceEvent) : bool :=
  match l with
  | [] => true
  | e :: l =>
      negb (negb (sequence e =? index)%N || is_some_and previous (fun t => monotonic_micros e <? t)%N
            || negb (trace_event_is_valid e legacy_v1))
      && replay_ordered legacy_v1 (index + 1) (Some (monotonic_micros e)) l
  end.

Definition trace_replay `{TraceCodec} (bytes : string) : result RuntimeTraceError RuntimeTrace :=
  fail_if (MAX_REPLAY_BYTES <? slen bytes)%N (MalformedReplay "trace exceeds replay byte limit");;
  trace ← map_err MalformedReplay (trace_from_slice bytes);
  let legacy_v1 := bool_decide (schema_version trace = RUNTIME_TRACE_SCHEMA_V1) in
  let legacy_v2 := bool_decide (schema_version trace = RUNTIME_TRACE_SCHEMA_V2) in
  fail_if (negb legacy_v1 && negb legacy_v2
           && negb (bool_decide (schema_version trace = RUNTIME_TRACE_SCHEMA))) UnsupportedSchema;;
  fail_if (negb (capture_valid trace)) CaptureInvalid;;
  fail_if (MAX_REPLAY_EVENTS <? len (trace_events trace))%N (MalformedReplay "trace exceeds replay event limit");;
  fail_if (negb (replay_ordered legacy_v1 0 None (trace_events trace))) (MalformedReplay "trace ordering regressed");;
  Ok trace.

(** ** Runs *)

Inductive trace_op :=
  | Op_register (hash task_id context_id : string)
  | Op_record (e : RuntimeEvent)
  | Op_evidence (task_id context_id : string) (evidence : CompletionEvidence)
  | Op_terminal (task_id context_id : string) (st : RuntimeTerminalState) (artifact_digests : list string)
  | Op_cancellation (task_id context_id : string) (st : RuntimeTerminalState) (outcome : RuntimeCancellationOutcome)
  | Op_invalidate.

Definition apply_trace (now : N) (op : trace_op) : traced unit :=
  match op with
  | Op_register hash task_id context_id => register_correlation hash task_id context_id
  | Op_record e => record_event now e
  | Op_evidence task_id context_id evidence => record_evidence now task_id context_id evidence
  | Op_terminal task_id context_id st ds => record_terminal now task_id context_id st ds
  | Op_cancellation task_id context_id st outcome => record_cancellation_terminal now task_id context_id st outcome
  | Op_invalidate => fun c => (invalidate c, Ok tt)
  end.

(** Does a successful operation submit an event that must be kept? *)
Definition submits (op : trace_op) : bool :=
  match op with
  | Op_record (TickCompleted _ _ _) | Op_register _ _ _ | Op_invalidate => false
  | _ => true
  end.

(** The captures a run of operations under a monotonic clock leads to, with the
    time of the last operation and the number of required events submitted. *)
Inductive captured (rc oc pc : N) : N -> N -> RuntimeEventCapture -> Prop :=
  | captured_new : captured rc oc pc 0 0 (new_with_retention rc oc pc)
  | captured_op now now' n op c c' r : captured rc oc pc now n c -> (now <= now')%N ->
      apply_trace now' op c = (c', r) ->
      captured rc oc pc now' (if submits op && is_ok r then n + 1 else n) c'.

(** ** Retiring events

    All retention code only drops retained events, counts what it drops, and
    forgets aliases of hashes that nothing refers to any more. *)

Definition untouched (st : CaptureState) :=
  (next_sequence st, optional st, required_capacity st, optional_capacity st, dropped_optional st,
   per_workload_capacity st, correlations st, seen_hashes st, hash_history_saturated st).

Record retires (st st' : CaptureState) : Prop := {
  ret_sub : required st' `sublist_of` required st;
  ret_count : (retired_required st + len (required st) <= u64_max)%N ->
              (retired_required st' + len (required st') = retired_required st + len (required st))%N;
  ret_aliases : workload_aliases st' ⊆ workload_aliases st;
  ret_ambiguous : ambiguous_hashes st' ⊆ ambiguous_hashes st;
  ret_keep h : h ∈ retained_hashes (required st') ∪ dom (correlations st') ->
               workload_aliases st' !! h = workload_aliases st !! h;
  ret_untouched : untouched st' = untouched st }.

Lemma retained_hashes_elem rs h :
  h ∈ retained_hashes rs <-> exists r, r ∈ rs /\ signal_hash (event r) = Some h.
Proof. unfold retained_hashes. rewrite elem_of_list_to_set, list_elem_of_omap. done. Qed.

Lemma sublist_elem {A} (l l' : list A) x : l' `sublist_of` l -> x ∈ l' -> x ∈ l.
Proof. intros Hs Hx. by eapply elem_of_submseteq; [|apply sublist_submseteq]. Qed.

Lemma size_union_le (X Y : gset string) : (size (X ∪ Y) <= size X + size Y)%nat.
Proof. rewrite size_union_alt. assert (size (Y ∖ X) <= size Y)%nat by (apply subseteq_size; set_solver). lia. Qed.

Lemma retained_hashes_size rs : (size (retained_hashes rs) <= length rs)%nat.
Proof.
  induction rs as [|r rs IH]; [done|].
  set (own := match signal_hash (event r) with Some h => {[h]} | None => ∅ end : gset string).
  assert (size own <= 1)%nat as Ho.
  { subst own. destruct (signal_hash (event r)); [by rewrite size_singleton|rewrite size_empty; lia]. }
  assert (retained_hashes (r :: rs) ⊆ own ∪ retained_hashes rs) as Hs%subseteq_size.
  { intros h. rewrite elem_of_union, !retained_hashes_elem. intros (r' & [->|Hr]%elem_of_cons & Hh).
    - left. subst own. rewrite Hh. set_solver.
    - right. eauto. }
  pose proof (size_union_le own (retained_hashes rs)). simpl. lia.
Qed.

Lemma retained_hashes_sub rs rs' : rs' `sublist_of` rs -> retained_hashes rs' ⊆ retained_hashes rs.
Proof.
  intros Hs h. rewrite !retained_hashes_elem. intros (r & Hr & Hh). exists r. split; [|done].
  by eapply sublist_elem.
Qed.

Lemma retires_trans_ st1 st2 st3 : retires st1 st2 -> retires st2 st3 -> retires st1 st3.
Proof.
  intros [Hs1 Hc1 Ha1 Hb1 Hk1 Hu1] [Hs2 Hc2 Ha2 Hb2 Hk2 Hu2].
  split; [by etrans|lia|by etrans|by etrans| |congruence].
  intros h Hh. rewrite Hk2 by done. apply Hk1.
  assert (correlations st3 = correlations st2) as Heq by (unfold untouched in Hu2; congruence).
  rewrite Heq in Hh. apply retained_hashes_sub in Hs2. set_solver.
Qed.

#[global] Instance retires_preorder : PreOrder retires.
Proof. split; [intros st; split; by auto|intros ???; apply retires_trans_]. Qed.

Lemma retires_required st rs n :
  rs `sublist_of` required st -> (n + len rs = len (required st))%N -> retires st (set_required st rs n).
Proof.
  intros Hs Hn. split; simpl; [done| |done|done|done|done].
  unfold saturating_add. lia.
Qed.

Lemma retires_at st i x : required st !! i = Some x -> retires st (retire_at st i).
Proof.
  intros Hx. apply retires_required; [apply sublist_delete|].
  apply lookup_lt_Some in Hx as Hl. unfold len. rewrite length_delete by eauto. lia.
Qed.

Lemma retires_prune st : retires st (prune_workload_aliases st).
Proof.
  split; simpl; [done|lia|apply map_filter_subseteq|set_solver| |done].
  intros h Hh. destruct (workload_aliases st !! h) as [w|] eqn:Hw.
  - apply map_lookup_filter_Some. done.
  - apply map_lookup_filter_None. by left.
Qed.

Lemma filter_partition {A} (p : A -> bool) l :
  (len (List.filter p l) + len (List.filter (fun x => negb (p x)) l) = len l)%N.
Proof.
  induction l as [|x l IH]; simpl; [done|]. destruct (p x); simpl; rewrite !len_cons; lia.
Qed.

Lemma filter_sublist {A} (p : A -> bool) l : List.filter p l `sublist_of` l.
Proof. induction l as [|x l IH]; simpl; [done|]. destruct (p x); by constructor. Qed.

Lemma filter_len_sublist {A} (p : A -> bool) l l' :
  l `sublist_of` l' -> (len (List.filter p l) <= len (List.filter p l'))%N.
Proof.
  induction 1 as [|x l l' _ IH|x l l' _ IH]; simpl; [done|..]; destruct (p x); rewrite ?len_cons; lia.
Qed.

Lemma len_sublist {A} (l l' : list A) : l `sublist_of` l' -> (len l <= len l')%N.
Proof. intros Hs%sublist_length. unfold len. lia. Qed.

Lemma position_Some {A} (p : A -> bool) l i : position p l = Some i -> exists x, l !! i = Some x /\ p x = true.
Proof.
  unfold position. intros ((j & x) & (Hl & Hp & _)%list_find_Some & Hi)%fmap_Some. simpl in Hi. subst.
  exists x. split; [done|by destruct (p x)].
Qed.

Lemma position_None {A} (p : A -> bool) l : position p l = None -> List.filter p l = [].
Proof.
  unfold position. intros Hn%fmap_None%list_find_None. induction Hn as [|x l Hx _ IH]; simpl; [done|].
  by destruct (p x); [destruct Hx|].
Qed.

Lemma retirement_index_Some rs w i :
  retirement_index rs w = Some i -> exists x, rs !! i = Some x /\ workload_matches w x = true.
Proof.
  unfold retirement_index, or_else.
  destruct (position (fun r => _) rs) as [j|] eqn:Hj.
  { intros [= <-]. apply position_Some in Hj as (x & Hx & Hp). apply andb_true_iff in Hp as [Hp _]. eauto. }
  destruct (workload_is_completed rs w); [|apply position_Some].
  destruct (position (workload_matches w) rs) eqn:Hp; [|done]. intros [= <-]. by apply position_Some in Hp.
Qed.

Lemma retirement_index_None rs w : retirement_index rs w = None -> workload_count rs w = 0%N.
Proof.
  unfold retirement_index, or_else, workload_count.
  destruct (position (fun r => _) rs); [done|]. destruct (workload_is_completed rs w).
  - by destruct (position (workload_matches w) rs) eqn:Hp; [|intros _; rewrite (position_None _ _ Hp)].
  - intros Hp. by rewrite (position_None _ _ Hp).
Qed.

(** The retiring loop ends by its own condition. *)
Lemma retire_while_spec fuel limit w st :
  (length (required st) <= fuel)%nat -> (0 < limit)%N ->
  retires st (retire_while fuel limit w st) /\
  (workload_count (required (retire_while fuel limit w st)) w < limit)%N.
Proof.
  revert st. induction fuel as [|fuel IH]; intros st Hf Hl; simpl.
  { split; [done|]. destruct (required st); [done|simpl in Hf; lia]. }
  destruct (N.leb_spec limit (workload_count (required st) w)) as [Hle|Hlt]; [|by split].
  destruct (retirement_index (required st) w) as [i|] eqn:Hi.
  - apply retirement_index_Some in Hi as (x & Hx & _).
    assert (length (required (retire_at st i)) <= fuel)%nat as Hf'.
    { simpl. apply lookup_lt_Some in Hx as Hlt. rewrite length_delete by eauto. lia. }
    destruct (IH _ Hf' Hl) as [Hr Hc]. split; [|done]. etrans; [by eapply retires_at|done].
  - apply retirement_index_None in Hi. lia.
Qed.

Lemma completed_workload_Some rs w : completed_workload rs = Some w -> (1 <= workload_count rs w)%N.
Proof.
  unfold completed_workload. intros [_ Hc]%find_some. unfold workload_is_completed in Hc.
  apply existsb_exists in Hc as (r & Hr & [Hm _]%andb_true_iff). unfold workload_count.
  assert (In r (List.filter (workload_matches w) rs)) as Hin by by apply filter_In.
  destruct (List.filter _ rs); [done|]. rewrite len_cons. lia.
Qed.

(** So does the loop that makes room. *)
Lemma make_room_spec fuel st :
  (length (required st) <= fuel)%nat -> (0 < required_capacity st)%N ->
  retires st (make_room fuel st) /\ (len (required (make_room fuel st)) < required_capacity st)%N.
Proof.
  revert st. induction fuel as [|fuel IH]; intros st Hf Hc; simpl.
  { split; [done|]. destruct (required st); [done|simpl in Hf; lia]. }
  destruct (N.leb_spec (required_capacity st) (len (required st))) as [Hle|Hlt]; [|by split].
  assert (0 < length (required st))%nat as Hpos by (unfold len in Hle; lia).
  destruct (completed_workload (required st)) as [w|] eqn:Hw.
  - set (st1 := set_required _ _ _).
    assert (retires st st1) as H1.
    { apply retires_required; [apply filter_sublist|apply filter_partition]. }
    apply completed_workload_Some in Hw. pose proof (filter_partition (workload_matches w) (required st)) as Hp.
    assert (length (required (prune_workload_aliases st1)) <= fuel)%nat as Hf'.
    { simpl. unfold workload_count, len in *. lia. }
    destruct (IH _ Hf' Hc) as [Hr Hlen]. split; [|done]. etrans; [done|]. etrans; [apply retires_prune|done].
  - set (i := default 0 _).
    assert (exists x, required st !! i = Some x) as [x Hx].
    { subst i. destruct (position _ _) as [j|] eqn:Hj; simpl; [apply position_Some in Hj as (x & Hx & _); eauto|].
      by apply lookup_lt_is_Some_2. }
    assert (length (required (retire_at st i)) <= fuel)%nat as Hf'.
    { simpl. rewrite length_delete by eauto. lia. }
    destruct (IH _ Hf' Hc) as [Hr Hlen]. split; [|done]. etrans; [by eapply retires_at|done].
Qed.

(** ** The invariant *)

(** Every event is behind the clock and the counter, and times follow numbers. *)
Record in_order (now next : N) (l : list RuntimeTraceEvent) : Prop := {
  order_past e : e ∈ l -> (sequence e < next /\ monotonic_micros e <= now)%N;
  order_time e e' : e ∈ l -> e' ∈ l -> (sequence e <= sequence e')%N ->
                    (monotonic_micros e <= monotonic_micros e')%N }.

(** The event names a task for a signal. *)
Definition names (e : RuntimeTraceEvent) (hash task_id context_id : string) : Prop :=
  signal_hash e = Some hash /\ event_task_id e = Some task_id /\ event_context_id e = Some context_id.

Record core_ok (now : N) (st : CaptureState) : Prop := {
  core_caps : (required_capacity st + optional_capacity st <= MAX_CAPTURE_EVENTS)%N;
  core_share : required_capacity st <> 0%N -> (2 <= per_workload_capacity st)%N;
  core_required : (len (required st) <= required_capacity st)%N;
  core_optional : (len (optional st) <= optional_capacity st)%N;
  core_correlations : (N.of_nat (size (correlations st)) <= required_capacity st)%N;
  core_seen : (N.of_nat (size (seen_hashes st)) <= MAX_CAPTURE_EVENTS)%N;
  core_valid e : e ∈ all_events st -> trace_event_is_valid e false = true;
  core_order : in_order now (next_sequence st) (all_events st);
  core_bound h corr : correlations st !! h = Some corr ->
    workload_aliases st !! h = Some (runtime_workload_key (corr_task_id corr) (corr_context_id corr)) /\
    bounded_public_value (corr_task_id corr) = true /\ bounded_public_value (corr_context_id corr) = true;
  core_named r h t c : r ∈ required st -> names (event r) h t c ->
    workload_aliases st !! h = Some (runtime_workload_key t c);
  core_ticks e : e ∈ optional st -> signal_hash e = None }.

Definition shares_ok (st : CaptureState) : Prop :=
  forall w, (workload_count (required st) w <= per_workload_capacity st)%N.

Definition sizes_ok (st : CaptureState) : Prop :=
  (N.of_nat (size (workload_aliases st)) <= 2 * required_capacity st /\
   N.of_nat (size (ambiguous_hashes st)) <= 2 * required_capacity st)%N.

Record capture_ok (now : N) (st : CaptureState) : Prop := {
  ok_core : core_ok now st;
  ok_shares : shares_ok st;
  ok_sizes : sizes_ok st }.

Lemma all_events_elem st e :
  e ∈ all_events st <-> (exists r, r ∈ required st /\ e = event r) \/ e ∈ optional st.
Proof. unfold all_events. rewrite elem_of_app, list_elem_of_fmap. naive_solver. Qed.

Lemma untouched_eq st st' : untouched st' = untouched st ->
  next_sequence st' = next_sequence st /\ optional st' = optional st /\
  required_capacity st' = required_capacity st /\ optional_capacity st' = optional_capacity st /\
  per_workload_capacity st' = per_workload_capacity st /\ correlations st' = correlations st /\
  seen_hashes st' = seen_hashes st.
Proof. unfold untouched. intros Hu. split_and!; congruence. Qed.

Lemma in_order_sub now next l l' : l' ⊆ l -> in_order now next l -> in_order now next l'.
Proof. intros Hs [Hp Ht]. split; eauto. Qed.

Lemma in_order_add now now' next e l :
  in_order now next l -> (now <= now')%N -> sequence e = next -> monotonic_micros e = now' ->
  in_order now' (next + 1) (e :: l).
Proof.
  intros [Hp Ht] Hn Hs Hm. split.
  - intros e' [->|He]%elem_of_cons; [lia|]. apply Hp in He. lia.
  - intros e1 e2 [->|H1]%elem_of_cons [->|H2]%elem_of_cons Hle; [lia| | |by apply Ht].
    + apply Hp in H2. lia.
    + apply Hp in H1. lia.
Qed.

Lemma in_order_later now now' next l : in_order now next l -> (now <= now')%N -> in_order now' next l.
Proof. intros [Hp Ht] Hn. split; [|done]. intros e He%Hp. lia. Qed.

Lemma retires_core now st st' : retires st st' -> core_ok now st -> core_ok now st'.
Proof.
  intros [Hs _ _ _ Hk Hu] [? Hsh Hr ? ? ? Hv Ho Hb Hn ?].
  apply untouched_eq in Hu as (Hnx & Hop & Hrc & Hoc & Hpc & Hco & Hse).
  assert (Hel : forall r, r ∈ required st' -> r ∈ required st).
  { intros r. by apply sublist_elem. }
  assert (Hal : all_events st' ⊆ all_events st).
  { intros e. rewrite !all_events_elem, Hop. naive_solver. }
  split; rewrite ?Hnx, ?Hop, ?Hrc, ?Hoc, ?Hpc, ?Hco, ?Hse in *; auto.
  - apply len_sublist in Hs. lia.
  - by eapply in_order_sub.
  - intros h corr Hc. apply Hb in Hc as Hc'. rewrite Hk; [done|]. apply elem_of_union_r, elem_of_dom. eauto.
  - intros r h t c Hin Hnm. rewrite Hk; [by eapply Hn; eauto|]. apply elem_of_union_l, retained_hashes_elem.
    exists r. split; [done|apply Hnm].
Qed.

Lemma retires_shares st st' : retires st st' -> shares_ok st -> shares_ok st'.
Proof.
  intros [Hs _ _ _ _ Hu] Hsh w. apply untouched_eq in Hu as (_ & _ & _ & _ & -> & _).
  specialize (Hsh w). unfold workload_count in *. pose proof (filter_len_sublist (workload_matches w) _ _ Hs). lia.
Qed.

Lemma prune_sizes now st : core_ok now st -> sizes_ok (prune_workload_aliases st).
Proof.
  intros Hok. pose proof (core_required _ _ Hok) as Hr. pose proof (core_correlations _ _ Hok) as Hc.
  set (keep := retained_hashes (required st) ∪ dom (correlations st)).
  assert (Hkeep : (N.of_nat (size keep) <= 2 * required_capacity st)%N).
  { pose proof (retained_hashes_size (required st)) as Hh.
    pose proof (size_union_le (retained_hashes (required st)) (dom (correlations st))) as Hu.
    rewrite size_dom in Hu. unfold len in Hr. subst keep. lia. }
  split; simpl; fold keep.
  - assert (dom (filter (fun kv : string * string => kv.1 ∈ keep) (workload_aliases st)) ⊆ keep) as Hd.
    { intros h [w Hw%map_lookup_filter_Some]%elem_of_dom. apply Hw. }
    apply subseteq_size in Hd. rewrite size_dom in Hd. lia.
  - assert (filter (fun h => h ∈ keep) (ambiguous_hashes st) ⊆ keep) as Hd by by intros h [Hh _]%elem_of_filter.
    apply subseteq_size in Hd. lia.
Qed.

(** ** Recording *)

(** [e] is the next event of [st] at time [now]. *)
Record upcoming (now : N) (st : CaptureState) (e : RuntimeTraceEvent) : Prop := {
  upcoming_order : in_order now (sequence e) (all_events st);
  upcoming_next : next_sequence st = (sequence e + 1)%N;
  upcoming_time : monotonic_micros e = now;
  upcoming_valid : trace_event_is_valid e false = true;
  upcoming_named h t c : names e h t c ->
    correlations st !! h = Some {| corr_task_id := t; corr_context_id := c |} }.

Lemma retires_upcoming now st st' e : retires st st' -> upcoming now st e -> upcoming now st' e.
Proof.
  intros [Hs _ _ _ _ Hu] [Ho Hn Ht Hv Hnm]. apply untouched_eq in Hu as (Hnx & Hop & _ & _ & _ & Hco & _).
  split; rewrite ?Hnx, ?Hco; auto. eapply in_order_sub; [|done].
  intros e'. rewrite !all_events_elem, Hop. intros [(r & Hr & ->)|]; [left|by right].
  exists r. split; [by eapply sublist_elem|done].
Qed.

Definition held (st : CaptureState) : N := (retired_required st + len (required st))%N.

Lemma capture_prune now st : core_ok now st -> shares_ok st -> capture_ok now (prune_workload_aliases st).
Proof.
  intros Hc Hs. split; [|by eapply retires_shares; [apply retires_prune|]|by eapply prune_sizes].
  by eapply retires_core; [apply retires_prune|].
Qed.

Lemma core_retired now st n : core_ok now st -> core_ok now (set_required st (required st) n).
Proof. by intros []. Qed.

Lemma append_core now st r :
  core_ok now st -> (len (required st) < required_capacity st)%N -> upcoming now st (event r) ->
  core_ok now (set_required st (required st ++ [r]) 0).
Proof.
  intros Hok Hlen [Ho Hn Ht Hv Hnm]. pose proof (core_bound _ _ Hok) as Hb.
  assert (Hel : forall e, e ∈ all_events (set_required st (required st ++ [r]) 0)
                <-> e ∈ event r :: all_events st).
  { intros e. rewrite elem_of_cons, !all_events_elem. simpl. setoid_rewrite elem_of_app.
    setoid_rewrite list_elem_of_singleton. naive_solver. }
  destruct Hok as [? ? ? ? ? ? Hva ? ? Hna ?]. split; simpl; auto.
  - rewrite len_app, len_cons, len_nil. lia.
  - intros e [->|He]%Hel%elem_of_cons; auto.
  - rewrite Hn. eapply in_order_sub; [|by eapply in_order_add; [exact Ho|reflexivity|..]].
    intros e. apply Hel.
  - intros r' h t c [Hin| ->%list_elem_of_singleton]%elem_of_app Hnames; [by eapply Hna|].
    apply Hnm in Hnames. by apply Hb in Hnames as [? _].
Qed.

Lemma push_retained_ok now st r :
  core_ok now st -> shares_ok st -> required_capacity st <> 0%N -> upcoming now st (event r) ->
  (forall w, workload r = Some w -> (workload_count (required st) w < per_workload_capacity st)%N) ->
  capture_ok now (push_retained st r).
Proof.
  intros Hc Hs H0 Hf Hw. unfold push_retained.
  destruct (make_room_spec (length (required st)) st) as [Hr Hlen]; [done|lia|].
  set (st1 := make_room _ _) in *. pose proof (ret_untouched _ _ Hr) as Hu.
  apply untouched_eq in Hu as (_ & _ & Hrc & _ & Hpc & _).
  apply capture_prune.
  - apply append_core; [by eapply retires_core|lia|by eapply retires_upcoming].
  - intros w. simpl. unfold workload_count. rewrite List.filter_app, len_app. simpl.
    pose proof (retires_shares _ _ Hr Hs w) as Hs'. unfold workload_count in Hs'.
    unfold workload_matches at 2. case_bool_decide as Hrw; rewrite ?len_cons, len_nil; [|lia].
    apply Hw in Hrw. unfold workload_count in Hrw.
    pose proof (filter_len_sublist (workload_matches w) _ _ (ret_sub _ _ Hr)). lia.
Qed.

Lemma push_retained_held st r :
  required_capacity st <> 0%N -> (held st < u64_max)%N -> held (push_retained st r) = (held st + 1)%N.
Proof.
  intros H0 Hh. unfold push_retained.
  destruct (make_room_spec (length (required st)) st) as [Hr _]; [done|lia|].
  pose proof (ret_count _ _ Hr). unfold held in *. cbn. unfold saturating_add.
  rewrite len_app. change (len [r]) with 1%N. lia.
Qed.

Lemma push_required_ok now st e :
  capture_ok now st -> required_capacity st <> 0%N -> upcoming now st e -> capture_ok now (push_required st e).
Proof.
  intros [Hc Hs _] H0 Hf. unfold push_required. destruct (N.eqb_spec (required_capacity st) 0); [done|].
  set (r := {| event := e; workload := _ |}). destruct (workload r) as [w|] eqn:Hw.
  2:{ apply push_retained_ok; [done..|]. intros w' Hw'. congruence. }
  destruct (_ && _).
  - apply capture_prune; [by apply core_retired|done].
  - pose proof (core_share _ _ Hc H0) as Hsh.
    destruct (retire_while_spec (length (required st)) (per_workload_capacity st) w st) as [Hr Hcount]; [done|lia|].
    pose proof (untouched_eq _ _ (ret_untouched _ _ Hr)) as (_ & _ & Hrc & _ & Hpc & _).
    apply push_retained_ok.
    + by eapply retires_core.
    + by eapply retires_shares.
    + congruence.
    + by eapply retires_upcoming.
    + intros w' Hw'. rewrite Hpc. congruence.
Qed.

Lemma push_required_held st e :
  required_capacity st <> 0%N -> (2 <= per_workload_capacity st)%N -> (held st < u64_max)%N ->
  held (push_required st e) = (held st + 1)%N.
Proof.
  intros H0 Hp Hh. unfold push_required. destruct (N.eqb_spec (required_capacity st) 0); [done|].
  set (r := {| event := e; workload := _ |}). destruct (workload r) as [w|]; [|by apply push_retained_held].
  destruct (_ && _).
  - unfold held in *. simpl. unfold saturating_add. lia.
  - destruct (retire_while_spec (length (required st)) (per_workload_capacity st) w st) as [Hr _]; [done|lia|].
    pose proof (ret_count _ _ Hr) as Hcnt.
    pose proof (untouched_eq _ _ (ret_untouched _ _ Hr)) as (_ & _ & Hrc & _).
    rewrite push_retained_held; unfold held in *; [lia|congruence|lia].
Qed.

(** ** The operations preserve the invariant and account for every event *)

(** The outcome of an operation that submitted [n] required events. *)
Definition advances (now : N) (st st' : CaptureState) (n : N) : Prop :=
  capture_ok now st' /\ ((held st + n <= u64_max)%N -> held st' = (held st + n)%N).

Lemma capture_later now now' st : capture_ok now st -> (now <= now')%N -> capture_ok now' st.
Proof.
  intros [Hc Hs Hz] Hn. split; [|done..]. destruct Hc; split; auto. by eapply in_order_later.
Qed.

Lemma advances_same now now' st : capture_ok now st -> (now <= now')%N -> advances now' st st 0.
Proof. intros Hok Hn. split; [by eapply capture_later|lia]. Qed.

Lemma capture_sequence now st : capture_ok now st -> capture_ok now (set_sequence st (next_sequence st + 1)).
Proof.
  intros [Hc Hs Hz]. split; [|done..]. destruct Hc as [? ? ? ? ? ? ? [Hp Ht] ? ? ?]. split; auto.
  split; simpl; [|done]. intros e He%Hp. lia.
Qed.

Lemma push_advances now st e :
  capture_ok now st -> required_capacity st <> 0%N -> upcoming now (set_sequence st (next_sequence st + 1)) e ->
  advances now st (push_required (set_sequence st (next_sequence st + 1)) e) 1.
Proof.
  intros Hok H0 Hf. split; [by apply push_required_ok; [apply capture_sequence| |]|]. intros Hh.
  pose proof (core_share _ _ (ok_core _ _ Hok) H0). rewrite push_required_held; [done|done|done|unfold held in *; simpl; lia].
Qed.

Lemma next_event_upcoming now now' st e :
  capture_ok now st -> (now <= now')%N -> sequence e = next_sequence st -> monotonic_micros e = now' ->
  trace_event_is_valid e false = true ->
  (forall h t c, names e h t c -> correlations st !! h = Some {| corr_task_id := t; corr_context_id := c |}) ->
  upcoming now' (set_sequence st (next_sequence st + 1)) e.
Proof.
  intros [Hc _ _] Hn Hs Hm Hv Hnm. split; simpl; [|congruence|done|done|done].
  rewrite Hs. eapply in_order_later; [|done]. apply (core_order _ _ Hc).
Qed.

Lemma details_valid e k ds t c now n :
  e = {| sequence := n; monotonic_micros := now; kind := k; event_task_id := Some t;
         event_context_id := Some c; signal_hash := None; details := ds |} ->
  bounded_public_value t = true -> bounded_public_value c = true -> details_are_bounded ds false = true ->
  match k, ds with
  | Kind_Claim, Details_Claim _ _ _ _ | Kind_Contradiction, Details_Contradiction _ _ _
  | Kind_TerminalOutput, Details_TerminalOutput _ _ _ => True
  | _, _ => False
  end -> trace_event_is_valid e false = true.
Proof.
  intros -> Ht Hc Hd Hk. unfold trace_event_is_valid. simpl. rewrite Ht, Hc, Hd.
  by destruct k, ds; try destruct Hk.
Qed.

Lemma capture_forget now st f :
  capture_ok now st -> f ⊆ correlations st ->
  capture_ok now (set_hashes st f (workload_aliases st) (seen_hashes st) (ambiguous_hashes st)
                    (hash_history_saturated st)).
Proof.
  intros [Hc Hs Hz] Hf. split; [|done..]. destruct Hc as [? ? ? ? Hco ? ? ? Hb ? ?]. split; simpl; auto.
  - apply map_subseteq_size in Hf. lia.
  - intros h corr Hh. eapply Hb, lookup_weaken; eauto.
Qed.

Lemma gateway_advances now now' t c k ds cap cap' r :
  capture_ok now (capture cap) -> (now <= now')%N ->
  match k, ds with
  | Kind_Claim, Details_Claim _ _ _ _ | Kind_Contradiction, Details_Contradiction _ _ _
  | Kind_TerminalOutput, Details_TerminalOutput _ _ _ => True
  | _, _ => False
  end ->
  record_required_gateway now' t c k ds cap = (cap', r) ->
  advances now' (capture cap) (capture cap') (if is_ok r then 1 else 0).
Proof.
  intros Hok Hn Hk. unfold record_required_gateway.
  destruct (negb _ || _ || _) eqn:Hb; [intros [= <- <-]; by eapply advances_same|].
  destruct (N.eqb_spec (required_capacity (capture cap)) 0) as [|H0]; [intros [= <- <-]; by eapply advances_same|].
  destruct (checked_add _ _) as [next|] eqn:Hadd; [|intros [= <- <-]; by eapply advances_same].
  apply checked_add_Some in Hadd as [-> _]. intros [= <- <-]. simpl.
  set (e := {| sequence := _ |}).
  apply orb_false_iff in Hb as [[?%negb_false_iff ?%negb_false_iff]%orb_false_iff ?%negb_false_iff].
  assert (Ha : advances now' (capture cap)
                 (push_required (set_sequence (capture cap) (next_sequence (capture cap) + 1)) e) 1).
  { apply push_advances; [by eapply capture_later|done|].
    eapply next_event_upcoming; [exact Hok|done|done|done| |by intros h t' c' (? & _)].
    by eapply details_valid. }
  case_bool_decide; [|done]. destruct Ha as [Ha Hheld]. split; [|done].
  apply capture_forget; [done|apply map_filter_subseteq].
Qed.

Lemma tick_advances now now' st e :
  capture_ok now st -> (now <= now')%N -> (len (optional st) < optional_capacity st)%N ->
  sequence e = next_sequence st -> monotonic_micros e = now' ->
  trace_event_is_valid e false = true -> signal_hash e = None ->
  advances now' st (set_optional (set_sequence st (next_sequence st + 1)) (optional st ++ [e]) 0) 0.
Proof.
  intros Hok Hn Hl Hs Hm Hv Hh. split; [|simpl; unfold held; simpl; lia].
  destruct Hok as [[? ? ? ? ? ? Hva Ho ? ? Hti] Hsh Hz]. split; [|done..].
  assert (Hel : forall e', e' ∈ all_events (set_optional (set_sequence st (next_sequence st + 1)) (optional st ++ [e]) 0)
                <-> e' ∈ e :: all_events st).
  { intros e'. unfold all_events. simpl. rewrite elem_of_cons, !elem_of_app, list_elem_of_singleton. tauto. }
  split; simpl; auto.
  - rewrite len_app. change (len [e]) with 1%N. lia.
  - intros e' [->|He]%Hel%elem_of_cons; auto.
  - eapply in_order_sub; [|by eapply in_order_add; [exact Ho|exact Hn|..]]. intros e'. apply Hel.
  - intros e' [He| ->%list_elem_of_singleton]%elem_of_app; auto.
Qed.

(** A recorded runtime event is valid: its signal is bounded and an emission
    carries the ids registered for it or none. *)
Lemma adapted_valid now st k hash required_ ds e n t :
  capture_ok now st -> adapt_event e = (k, hash, required_, ds) ->
  is_some_and hash (fun h => negb (bounded_public_value h)) = false ->
  let corr := if bool_decide (k = Kind_SignalEmitted) then hash ≫= fun h => correlations st !! h else None in
  trace_event_is_valid {| sequence := n; monotonic_micros := t; kind := k;
    event_task_id := corr_task_id <$> corr; event_context_id := corr_context_id <$> corr;
    signal_hash := hash; details := ds |} false = true.
Proof.
  intros [Hc _ _] He Hh. destruct e; simpl in He; injection He as <- <- <- <-; simpl in *;
    unfold trace_event_is_valid; simpl; try done; apply negb_false_iff in Hh; rewrite ?Hh; try done.
  destruct (correlations st !! hash0) as [corr|] eqn:Hl; simpl; [|by rewrite ?Hh].
  apply (core_bound _ _ Hc) in Hl as (_ & -> & ->). by rewrite ?Hh.
Qed.

Lemma record_advances now now' e cap cap' r :
  capture_ok now (capture cap) -> (now <= now')%N -> record_event now' e cap = (cap', r) ->
  advances now' (capture cap) (capture cap') (if submits (Op_record e) && is_ok r then 1 else 0).
Proof.
  intros Hok Hn. unfold record_event. set (st := capture cap) in *.
  destruct (N.eqb_spec (required_capacity st) 0) as [|H0].
  { intros [= <- <-]. rewrite andb_false_r. by eapply advances_same. }
  destruct (adapt_event e) as [[[k hash] req] ds] eqn:He.
  assert (Hreq : submits (Op_record e) = req) by (by destruct e; injection He as _ _ <- _). rewrite Hreq.
  destruct (is_some_and hash (fun h => negb _)) eqn:Hh.
  { intros [= <- <-]. rewrite andb_false_r. by eapply advances_same. }
  destruct (req && _ && _) eqn:Hamb.
  { intros [= <- <-]. apply andb_true_iff in Hamb as [[-> _]%andb_true_iff _]. simpl.
    eapply capture_later in Hok as [Hc Hs Hz]; [|exact Hn].
    split; [by split; [apply core_retired|..]|]. unfold held. simpl. unfold saturating_add. lia. }
  destruct (negb req && _) eqn:Hdrop.
  { intros [= <- <-]. apply andb_true_iff in Hdrop as [->%negb_true_iff _]. simpl.
    eapply capture_later in Hok as [Hc Hs Hz]; [|exact Hn].
    split; [|unfold held; simpl; lia]. split; [|done..]. by destruct Hc. }
  destruct (checked_add _ _) as [next|] eqn:Hadd.
  2:{ intros [= <- <-]. rewrite andb_false_r. by eapply advances_same. }
  apply checked_add_Some in Hadd as [-> _]. intros [= <- <-]. cbn [capture put is_ok]. rewrite andb_true_r.
  pose proof (adapted_valid now st k hash req ds e (next_sequence st) now' Hok He Hh) as Hv. simpl in Hv.
  set (tr := {| sequence := _ |}) in *. destruct req.
  - apply push_advances; [by eapply capture_later|done|].
    eapply next_event_upcoming; [exact Hok|done|done|done|done|]. intros h t c (Hs & Ht & Hc). simpl in *.
    subst hash. case_bool_decide; [simpl in *|done].
    destruct (correlations st !! h) as [[t' c']|]; [simpl in *; congruence|done].
  - apply andb_false_iff in Hdrop as [|Hroom%N.leb_gt]; [done|].
    eapply tick_advances; [exact Hok|done|done|done|done|done|].
    destruct e; simpl in He; simplify_eq. done.
Qed.

(** *** Registration *)

Lemma attribute_valid h corr e :
  trace_event_is_valid e false = true -> bounded_public_value (corr_task_id corr) = true ->
  bounded_public_value (corr_context_id corr) = true ->
  trace_event_is_valid (attribute_event h corr e) false = true.
Proof.
  intros Hv Ht Hc. unfold attribute_event.
  destruct (_ && _ && _) eqn:Hb; [|done].
  apply andb_true_iff in Hb as [[Hk%bool_decide_eq_true Hh%bool_decide_eq_true]%andb_true_iff _].
  unfold trace_event_is_valid in *. simpl. rewrite Hk, Hh, Ht, Hc in *. simpl.
  apply andb_true_iff in Hv as [[Hi Hs]%andb_true_iff Hd]. rewrite Hd.
  apply andb_true_iff in Hi as [_ Hi]. simpl in Hi. rewrite Hi. by destruct (details e).
Qed.

Lemma attribute_keeps h corr e :
  sequence (attribute_event h corr e) = sequence e /\
  monotonic_micros (attribute_event h corr e) = monotonic_micros e /\
  signal_hash (attribute_event h corr e) = signal_hash e.
Proof. unfold attribute_event. by destruct (_ && _ && _). Qed.

Lemma event_attribute_retained h corr w r :
  event (attribute_retained h corr w r) = attribute_event h corr (event r).
Proof.
  unfold attribute_retained. case_bool_decide as Hb; [done|]. unfold attribute_event.
  rewrite (bool_decide_eq_false_2 (signal_hash (event r) = Some h)) by done. by rewrite andb_false_r.
Qed.

Lemma bind_hash_events st h corr w : all_events (bind_hash st h corr w) = attribute_event h corr <$> all_events st.
Proof.
  unfold all_events, bind_hash. simpl. rewrite fmap_app, <- !list_fmap_compose. f_equal.
  apply list_fmap_ext. intros _ r _. apply event_attribute_retained.
Qed.

Lemma attribute_named h corr e h' t c :
  names (attribute_event h corr e) h' t c ->
  names e h' t c \/ (h' = h /\ t = corr_task_id corr /\ c = corr_context_id corr).
Proof.
  unfold attribute_event. destruct (_ && _ && _) eqn:Hb; [|by left].
  apply andb_true_iff in Hb as [[_ Hh%bool_decide_eq_true]%andb_true_iff _].
  intros (Hs & Ht & Hc). simpl in *. right. split_and!; congruence.
Qed.

Lemma attribute_order now next h corr l : in_order now next l -> in_order now next (attribute_event h corr <$> l).
Proof.
  intros [Hp Ht]. split.
  - intros ? (e & -> & He)%list_elem_of_fmap. destruct (attribute_keeps h corr e) as (-> & -> & _). auto.
  - intros ? ? (e & -> & He)%list_elem_of_fmap (e' & -> & He')%list_elem_of_fmap.
    destruct (attribute_keeps h corr e) as (-> & -> & _), (attribute_keeps h corr e') as (-> & -> & _). auto.
Qed.

Section register.
Context (now : N) (st : CaptureState) (h : string) (corr : Correlation).
Context (Hok : capture_ok now st) (Hnew : correlations st !! h = None).
Context (Ht : bounded_public_value (corr_task_id corr) = true).
Context (Hc : bounded_public_value (corr_context_id corr) = true).
Context (Hroom : (N.of_nat (size (correlations st)) < required_capacity st)%N).

Let w := runtime_workload_key (corr_task_id corr) (corr_context_id corr).
Context (Hsame : forall w', workload_aliases st !! h = Some w' -> w' = w).

Lemma bind_hash_core : core_ok now (bind_hash st h corr w).
Proof using All.
  destruct Hok as [[? ? ? ? ? Hseen Hv Ho Hb Hna Hti] _ _].
  split; rewrite ?bind_hash_events; simpl; auto.
  - unfold len in *. by rewrite length_fmap.
  - unfold len in *. by rewrite length_fmap.
  - rewrite map_size_insert_None by done. lia.
  - destruct (N.ltb_spec (N.of_nat (size (seen_hashes st))) MAX_CAPTURE_EVENTS) as [Hlt|]; [|done].
    pose proof (size_union_le {[h]} (seen_hashes st)) as Hu. rewrite size_singleton in Hu. lia.
  - intros ? (e & -> & He)%list_elem_of_fmap. apply attribute_valid; auto.
  - by apply attribute_order.
  - intros h' corr' [[<- <-]|[Hne Hl]]%lookup_insert_Some; [by rewrite lookup_insert_eq|].
    rewrite lookup_insert_ne by done. auto.
  - intros ? h' t c (r & -> & Hr)%list_elem_of_fmap. rewrite event_attribute_retained.
    intros [Hnm|(-> & -> & ->)]%attribute_named; [|by rewrite lookup_insert_eq].
    specialize (Hna r h' t c Hr Hnm). destruct (decide (h' = h)) as [->|]; [|by rewrite lookup_insert_ne].
    rewrite lookup_insert_eq. by rewrite (Hsame _ Hna).
  - intros ? (e & -> & He)%list_elem_of_fmap. destruct (attribute_keeps h corr e) as (_ & _ & ->). auto.
Qed.

Lemma bind_hash_shares w' : w' <> w ->
  (workload_count (required (bind_hash st h corr w)) w' <= per_workload_capacity st)%N.
Proof using Hok Hroom.
  intros Hne. destruct Hok as [_ Hsh _]. specialize (Hsh w'). etrans; [|exact Hsh]. simpl. clear Hsh.
  unfold workload_count. induction (required st) as [|r rs IH]; [done|]. cbn [List.filter fmap list_fmap].
  assert (Hm : workload_matches w' (attribute_retained h corr w r) = true -> workload_matches w' r = true).
  { unfold attribute_retained. case_bool_decide; [|done]. unfold workload_matches. cbn [workload].
    intros Hw%bool_decide_eq_true. congruence. }
  destruct (workload_matches w' (attribute_retained h corr w r)); [rewrite Hm by done|destruct (workload_matches w' r)];
    rewrite ?len_cons; change (list_fmap _ _ ?f rs) with (f <$> rs); lia.
Qed.

Lemma bind_hash_advances : advances now st (enforce_workload_limit (bind_hash st h corr w) w) 0.
Proof using All.
  unfold enforce_workload_limit.
  destruct (retire_while_spec (length (required (bind_hash st h corr w)))
    (per_workload_capacity (bind_hash st h corr w) + 1) w (bind_hash st h corr w)) as [Hr Hcount]; [done|lia|].
  set (st1 := retire_while _ _ _ _) in *.
  pose proof (untouched_eq _ _ (ret_untouched _ _ Hr)) as (_ & _ & _ & _ & Hpc & _). split.
  - apply capture_prune; [eapply retires_core; [exact Hr|apply bind_hash_core]|].
    intros w'. rewrite Hpc. destruct (decide (w' = w)) as [->|Hne]; [lia|].
    pose proof (bind_hash_shares w' Hne). pose proof (filter_len_sublist (workload_matches w') _ _ (ret_sub _ _ Hr)).
    unfold workload_count in *. simpl in *. lia.
  - intros Hh. pose proof (ret_count _ _ Hr) as Hcnt. unfold held in *. simpl in *.
    unfold saturating_add, len in *. rewrite length_fmap in Hcnt. lia.
Qed.
End register.

Lemma register_advances now now' h t c cap cap' r :
  capture_ok now (capture cap) -> (now <= now')%N -> register_correlation h t c cap = (cap', r) ->
  advances now' (capture cap) (capture cap') 0.
Proof.
  intros Hok Hn. unfold register_correlation.
  destruct (negb _) eqn:Hb; [intros [= <- <-]; by eapply advances_same|].
  apply negb_false_iff, andb_true_iff in Hb as [[_ Ht]%andb_true_iff Hc].
  destruct (_ =? 0)%N; [intros [= <- <-]; by eapply advances_same|].
  destruct (correlations (capture cap) !! h) as [x|] eqn:Hl.
  { case_bool_decide; intros [= <- <-]; by eapply advances_same. }
  destruct (N.leb_spec (required_capacity (capture cap)) (N.of_nat (size (correlations (capture cap))))) as [|Hroom];
    [intros [= <- <-]; by eapply advances_same|].
  destruct (is_some_and _ _) eqn:Hsame; [intros [= <- <-]; by eapply advances_same|].
  intros [= <- <-]. simpl.
  apply (bind_hash_advances now' (capture cap) h {| corr_task_id := t; corr_context_id := c |});
    [by eapply capture_later|done..|].
  intros w' Hw'. rewrite Hw' in Hsame. simpl in Hsame. by apply negb_false_iff, bool_decide_eq_true in Hsame.
Qed.

(** *** Runs *)

Lemma apply_advances now now' op cap cap' r :
  capture_ok now (capture cap) -> (now <= now')%N -> apply_trace now' op cap = (cap', r) ->
  advances now' (capture cap) (capture cap') (if submits op && is_ok r then 1 else 0).
Proof.
  intros Hok Hn. destruct op as [h t c|e|t c ev|t c s ds|t c s o|]; cbn [apply_trace].
  - by eapply register_advances.
  - by eapply record_advances.
  - unfold record_evidence. intros Hr. simpl submits. cbn [andb].
    destruct (evidence_details ev) as [k ds] eqn:Hd. eapply gateway_advances; [exact Hok|done| |exact Hr].
    destruct ev; simpl in Hd; by injection Hd as <- <-.
  - unfold record_terminal. destruct (_ || _ || _); [intros [= <- <-]; by eapply advances_same|].
    by eapply gateway_advances.
  - unfold record_cancellation_terminal. destruct (negb _); [intros [= <- <-]; by eapply advances_same|].
    by eapply gateway_advances.
  - intros [= <- <-]. by eapply advances_same.
Qed.

Lemma new_capture_ok rc oc pc : capture_ok 0 (capture (new_with_retention rc oc pc)).
Proof.
  assert (Hle : ((if rc =? 0 then 0 else N.max 2 (N.min rc MAX_CAPTURE_EVENTS)) <= MAX_CAPTURE_EVENTS)%N).
  { unfold MAX_CAPTURE_EVENTS. case_match; lia. }
  split; [split; simpl|intros w; simpl; unfold workload_count; simpl|split; simpl];
    rewrite ?map_size_empty, ?size_empty; try (unfold len; simpl; lia); try done.
  - destruct (N.eqb_spec rc 0); [done|]. intros _. destruct (N.eqb_spec (N.max 2 (N.min rc MAX_CAPTURE_EVENTS)) 0); lia.
  - intros e He. by apply not_elem_of_nil in He.
  - split; [intros ? He|intros ? ? He]; by apply not_elem_of_nil in He.
  - intros ? ? ? ? He. by apply not_elem_of_nil in He.
  - intros ? He. by apply not_elem_of_nil in He.
  - change (set_size _) with 0%nat. lia.
Qed.

Lemma captured_ok rc oc pc now n c :
  captured rc oc pc now n c ->
  capture_ok now (capture c) /\ ((n <= u64_max)%N -> held (capture c) = n).
Proof.
  induction 1 as [|now now' n op c c' r _ [Hok Hn] Hle Ha]; [split; [apply new_capture_ok|done]|].
  apply (apply_advances _ _ _ _ _ _ Hok Hle) in Ha as [Hok' Hheld]. split; [done|].
  destruct (submits op && is_ok r); intros Hu; rewrite Hheld; rewrite Hn; lia.
Qed.

(** ** Theorems *)

Lemma enumerate_len l : forall k, len (enumerate k l) = len l.
Proof. induction l as [|e l IH]; intros k; [done|]. cbn. rewrite !len_cons. by rewrite IH. Qed.

Lemma snapshot_len now c : core_ok now (capture c) -> (len (trace_events (trace_snapshot c)) <= MAX_CAPTURE_EVENTS)%N.
Proof.
  intros [? ? ? ? _ _ _ _ _ _ _]. cbn. rewrite enumerate_len. unfold len. rewrite sort_by_length.
  unfold all_events. rewrite length_app, length_fmap. unfold len in *. lia.
Qed.

(** C28: A capture is bounded whatever it is fed.  Over any run of operations it
    retains at most 1024 events in all, each workload at most its share, and the
    tables of correlations, aliases, seen and ambiguous hashes stay bounded with
    them. *)
Theorem trace_bounded rc oc pc now n c :
  captured rc oc pc now n c ->
  let st := capture c in
  (len (trace_events (trace_snapshot c)) <= MAX_CAPTURE_EVENTS)%N /\
  (len (required st) <= required_capacity st)%N /\ (len (optional st) <= optional_capacity st)%N /\
  (forall w, workload_count (required st) w <= per_workload_capacity st)%N /\
  (N.of_nat (size (correlations st)) <= MAX_CAPTURE_EVENTS)%N /\
  (N.of_nat (size (seen_hashes st)) <= MAX_CAPTURE_EVENTS)%N /\
  (N.of_nat (size (workload_aliases st)) <= 2 * MAX_CAPTURE_EVENTS)%N /\
  (N.of_nat (size (ambiguous_hashes st)) <= 2 * MAX_CAPTURE_EVENTS)%N.
Proof.
  intros [[Hc Hs [Ha Hm]] _]%captured_ok st. subst st. apply snapshot_len in Hc as Hl.
  destruct Hc as [? ? ? ? ? ? _ _ _ _ _]. split_and!; try lia; done.
Qed.

(** Nothing that must be kept disappears silently.  After any run, the
    retained required events and the retirement counter add up to the number of
    required events that were accepted. *)
Theorem trace_accounts rc oc pc now n c :
  captured rc oc pc now n c -> (n <= u64_max)%N ->
  (retired_required (capture c) + len (required (capture c)) = n)%N.
Proof. intros [_ Hh]%captured_ok. exact Hh. Qed.

Lemma enumerate_elem e l : forall k, e ∈ enumerate k l -> exists e0 n, e0 ∈ l /\ e = renumber n e0.
Proof.
  induction l as [|e0 l IH]; intros k; simpl; [by intros ?%not_elem_of_nil|].
  intros [->|(e1 & n & He & ->)%IH]%elem_of_cons; [exists e0, k|exists e1, n]; rewrite elem_of_cons; auto.
Qed.

Lemma renumber_valid n e : trace_event_is_valid (renumber n e) false = trace_event_is_valid e false.
Proof. done. Qed.

Lemma enumerate_replays l : forall k previous,
  StronglySorted (fun a b => monotonic_micros a <= monotonic_micros b)%N l ->
  (forall e, e ∈ l -> trace_event_is_valid e false = true) ->
  (forall t, previous = Some t -> forall e, e ∈ l -> (t <= monotonic_micros e)%N) ->
  replay_ordered false k previous (enumerate k l) = true.
Proof.
  induction l as [|e l IH]; intros k previous Hs Hv Hp; [done|]. cbn [enumerate replay_ordered].
  apply StronglySorted_inv in Hs as [Hs Hall]. rewrite renumber_valid, Hv by by left.
  cbn [sequence renumber monotonic_micros]. rewrite N.eqb_refl. apply andb_true_iff. split.
  - apply negb_true_iff. rewrite orb_false_r. destruct previous as [t|]; [|done]. simpl.
    apply N.ltb_ge, (Hp t eq_refl). by left.
  - apply IH; [done| |].
    + intros e' He. apply Hv. by right.
    + intros t [= <-] e' He. rewrite Forall_forall in Hall. by apply Hall.
Qed.

Lemma snapshot_sorted now st : core_ok now st ->
  StronglySorted (fun a b => monotonic_micros a <= monotonic_micros b)%N
    (sort_by (fun a b => sequence a <=? sequence b)%N (all_events st)).
Proof.
  intros Hc. pose proof (core_order _ _ Hc) as [_ Ho].
  eapply StronglySorted_weaken_in; [|apply sort_by_sorted].
  - intros a b Ha%sort_by_elem Hb%sort_by_elem Hle. apply Ho; [done|done|].
    by apply Is_true_true, N.leb_le in Hle.
  - intros a b d. rewrite !N.leb_le. lia.
  - intros a b. rewrite !N.leb_le. lia.
Qed.


Lemma snapshot_event c e :
  e ∈ trace_events (trace_snapshot c) -> exists e0 n, e0 ∈ all_events (capture c) /\ e = renumber n e0.
Proof.
  intros (e0 & n & He & ->)%enumerate_elem. exists e0, n. split; [|done]. by apply sort_by_elem in He.
Qed.

Lemma nonzero_byte c : (0 < code c)%N -> negb (bool_decide (c = Ascii.zero)) = true.
Proof. intros Hc. apply negb_true_iff, bool_decide_eq_false. intros ->. by vm_compute in Hc. Qed.

Lemma continuation_nonzero c : is_continuation c = true -> negb (bool_decide (c = Ascii.zero)) = true.
Proof.
  unfold is_continuation, in_range. intros [Hc%N.leb_le _]%andb_true_iff. apply nonzero_byte. lia.
Qed.

Lemma no_control_nul_free : forall n s, (String.length s <= n)%nat -> utf8_shaped s = true ->
  existsb is_control (chars s) = false -> nul_free s = true.
Proof.
  unfold nul_free.
  induction n as [|n IH]; intros [|a r] Hn; cbn [String.length utf8_shaped chars str_all] in *; [done|lia|done|].
  destruct (N.ltb_spec (code a) 128) as [Hlow|Hhigh].
  { intros Hu Hc. cbn [existsb] in Hc. apply orb_false_iff in Hc as [Ha Hc]. rewrite IH, andb_true_r by (done || lia).
    apply nonzero_byte. unfold is_control in Ha. apply orb_false_iff in Ha as [Ha%N.leb_gt _]. lia. }
  rewrite (nonzero_byte a) by lia. destruct (code a <? 224)%N; [|destruct (code a <? 240)%N].
  - destruct r as [|b r]; [done|]. cbn [existsb str_all String.length] in *.
    intros [?%continuation_nonzero Hu]%andb_true_iff [_ Hc]%orb_false_iff. rewrite IH by (done || lia).
    by rewrite andb_true_r.
  - destruct r as [|b [|c r]]; [done|done|]. cbn [existsb str_all String.length] in *.
    intros [[->%continuation_nonzero ->%continuation_nonzero]%andb_true_iff Hu]%andb_true_iff [_ Hc]%orb_false_iff.
    by rewrite IH by (done || lia).
  - destruct r as [|b [|c [|d r]]]; [done|done|done|]. cbn [existsb str_all String.length] in *.
    intros [[[->%continuation_nonzero ->%continuation_nonzero]%andb_true_iff
            ->%continuation_nonzero]%andb_true_iff Hu]%andb_true_iff [_ Hc]%orb_false_iff.
    by rewrite IH by (done || lia).
Qed.

Lemma bounded_nul_free s : utf8_shaped s = true -> bounded_public_value s = true -> nul_free s = true.
Proof.
  intros Hu [_ Hc%negb_true_iff]%andb_true_iff. by eapply no_control_nul_free.
Qed.

Lemma workload_key_binds t c t' c' :
  nul_free t = true -> nul_free t' = true -> runtime_workload_key t c = runtime_workload_key t' c' ->
  (t = t' /\ c = c') \/ sha256_collision.
Proof.
  intros Ht Ht' [Heq|]%content_digest_collision; [left|by right].
  apply app_length_inj in Heq as [_ Heq]; [|done].
  apply app_length_inj in Heq as [_ Heq]; [|done].
  change (nul +:+ ?r) with (String Ascii.zero r) in Heq. by apply nul_split in Heq.
Qed.

(** A signal is attributed to one task.  In any snapshot, two events that
    carry the same signal hash and a task name the same task and context, even if
    the hash was registered, finished and registered again in between, unless an
    explicit SHA-256 collision is at hand.  (Identifiers are UTF-8, as every
    [str].) *)
Theorem signal_names_one_task rc oc pc now n c e e' h t x t' x' :
  captured rc oc pc now n c ->
  e ∈ trace_events (trace_snapshot c) -> e' ∈ trace_events (trace_snapshot c) ->
  names e h t x -> names e' h t' x' -> utf8_shaped t = true -> utf8_shaped t' = true ->
  (t = t' /\ x = x') \/ sha256_collision.
Proof.
  intros [[Hc _ _] _]%captured_ok (e0 & k & He & ->)%snapshot_event (e0' & k' & He' & ->)%snapshot_event Hn Hn' Hu Hu'.
  assert (Hkey : forall e h t x, e ∈ all_events (capture c) -> names e h t x ->
            workload_aliases (capture c) !! h = Some (runtime_workload_key t x) /\ bounded_public_value t = true).
  { clear -Hc. intros e h t x He Hn. apply (core_valid _ _ Hc) in He as Hv. split.
    - apply all_events_elem in He as [(r & Hr & ->)|He]; [by eapply (core_named _ _ Hc)|].
      apply (core_ticks _ _ Hc) in He. destruct Hn as (Hn & _). congruence.
    - unfold trace_event_is_valid in Hv. destruct Hn as (_ & Ht & _). rewrite Ht in Hv. simpl in Hv.
      by apply andb_true_iff in Hv as [[[[Hv _]%andb_true_iff _]%andb_true_iff _]%andb_true_iff _]. }
  destruct (Hkey e0 h t x He Hn) as [Hk Hb], (Hkey e0' h t' x' He' Hn') as [Hk' Hb'].
  apply workload_key_binds; [by apply bounded_nul_free..|congruence].
Qed.

(** A successful terminal record is the newest retained event. *)
Lemma push_required_boundary st e :
  required_capacity st <> 0%N -> is_boundary {| event := e; workload := workload_for_event st e |} = true ->
  exists rs r, required (push_required st e) = rs ++ [r] /\ event r = e.
Proof.
  intros H0 Hb. unfold push_required. destruct (N.eqb_spec (required_capacity st) 0); [done|].
  cbn [workload]. destruct (workload_for_event st e) as [w|]; [|eexists _, _; by split].
  rewrite Hb. rewrite andb_false_r. simpl andb. cbv iota. eexists _, _. by split.
Qed.

Lemma gateway_keeps now t x ds c :
  bounded_public_value t = true -> bounded_public_value x = true -> details_are_bounded ds false = true ->
  required_capacity (capture c) <> 0%N -> (next_sequence (capture c) < u64_max)%N ->
  exists c' rs r, record_required_gateway now t x Kind_TerminalOutput ds c = (c', Ok tt) /\ failure c' = failure c /\
    required (capture c') = rs ++ [r] /\ kind (event r) = Kind_TerminalOutput /\
    event_task_id (event r) = Some t /\ event_context_id (event r) = Some x /\ details (event r) = ds.
Proof.
  intros Ht Hx Hd H0 Hn. unfold record_required_gateway. rewrite Ht, Hx, Hd. cbn [negb orb].
  destruct (N.eqb_spec (required_capacity (capture c)) 0); [done|].
  assert (Hadd : checked_add (next_sequence (capture c)) 1 = Some (next_sequence (capture c) + 1)%N)
    by (apply checked_add_Some; lia).
  rewrite Hadd. set (e := {| sequence := _ |}).
  destruct (push_required_boundary (set_sequence (capture c) (next_sequence (capture c) + 1)) e) as (rs & r & Hr & He);
    [done|done|].
  eexists _, rs, r. split; [reflexivity|]. rewrite He. by rewrite bool_decide_eq_true_2.
Qed.

Lemma snapshot_has_required c r :
  r ∈ required (capture c) -> exists n, renumber n (event r) ∈ trace_events (trace_snapshot c).
Proof.
  intros Hr. assert (He : event r ∈ sort_by (fun a b => sequence a <=? sequence b)%N (all_events (capture c))).
  { apply sort_by_elem, all_events_elem. eauto. }
  unfold trace_snapshot. cbn [trace_events]. revert He. generalize 0%N.
  induction (sort_by _ _) as [|e l IH]; intros k; [by intros ?%not_elem_of_nil|].
  intros [<-|He]%elem_of_cons; [exists k; by left|]. destruct (IH (k + 1)%N He) as [n Hn]. exists n. by right.
Qed.
End capture.

(** ** Samples *)

Section samples.
#[local] Existing Instance sample_sha256.

#[local] Instance RuntimeClaimKind_eq_dec : EqDecision RuntimeClaimKind.
Proof. solve_decision. Defined.
#[local] Instance RuntimeCancellationOutcome_eq_dec : EqDecision RuntimeCancellationOutcome.
Proof. solve_decision. Defined.
#[local] Instance RuntimeTraceDetails_eq_dec : EqDecision RuntimeTraceDetails.
Proof. solve_decision. Defined.
#[local] Instance RuntimeTraceEvent_eq_dec : EqDecision RuntimeTraceEvent.
Proof. solve_decision. Defined.
#[local] Instance RuntimeTrace_eq_dec : EqDecision RuntimeTrace.
Proof. solve_decision. Defined.

(** A signal is registered, emitted and finished, and later registered again. *)
Definition sample_ops : list trace_op :=
  [Op_register "h" "task" "ctx"; Op_record (SignalEmitted "h"); Op_record (SignalReceived "h" 2);
   Op_record (TickCompleted 1 1 0); Op_terminal "task" "ctx" Trace_Failed [];
   Op_register "h" "task" "ctx"; Op_record (SignalEmitted "h")].

Definition sample_capture : RuntimeEventCapture :=
  foldl (fun c op => (apply_trace 5 op c).1) (new_with_retention 4 1 4) sample_ops.

Lemma captured_next rc oc pc now now' n op c :
  captured rc oc pc now n c -> (now <= now')%N ->
  captured rc oc pc now' (if submits op && is_ok (apply_trace now' op c).2 then n + 1 else n)
    (apply_trace now' op c).1.
Proof. intros Hc Hn. by eapply captured_op; [|exact Hn|apply surjective_pairing]. Qed.

Lemma sample_captured : captured 4 1 4 5 4 sample_capture.
Proof.
  pose proof (captured_new 4 1 4) as Hc. unfold sample_capture, sample_ops. cbn [foldl].
  let next op := (apply (captured_next _ _ _ _ 5 _ op) in Hc; [|lia]) in
  (next (Op_register "h" "task" "ctx"); next (Op_record (SignalEmitted "h"));
   next (Op_record (SignalReceived "h" 2)); next (Op_record (TickCompleted 1 1 0));
   next (Op_terminal "task" "ctx" Trace_Failed []); next (Op_register "h" "task" "ctx");
   next (Op_record (SignalEmitted "h"))).
  match type of Hc with captured _ _ _ _ ?n _ => replace n with 4%N in Hc by (vm_compute; reflexivity) end.
  exact Hc.
Qed.

Lemma trace_bounded_witness :
  captured 4 1 4 5 4 sample_capture /\ (len (trace_events (trace_snapshot sample_capture)) <= MAX_CAPTURE_EVENTS)%N.
Proof.
  split; [exact sample_captured|].
  exact (proj1 (trace_bounded 4 1 4 5 4 sample_capture sample_captured)).
Defined.

Lemma trace_accounts_witness :
  captured 4 1 4 5 4 sample_capture /\
  (retired_required (capture sample_capture) + len (required (capture sample_capture)) = 4)%N.
Proof.
  split; [exact sample_captured|].
  apply (trace_accounts 4 1 4 5 4 sample_capture sample_captured). unfold u64_max. lia.
Defined.

(** A codec for the sample's snapshot alone. *)
#[local] Instance sample_trace_codec : TraceCodec := {|
  trace_to_vec t := if bool_decide (t = trace_snapshot sample_capture) then Ok "trace" else Err "unknown";
  trace_from_slice s :=
    if bool_decide (s = "trace" +:+ String newline "") then Ok (trace_snapshot sample_capture) else Err "unknown" |}.


Definition sample_emission (n : N) : RuntimeTraceEvent := {|
  sequence := n; monotonic_micros := 5; kind := Kind_SignalEmitted; event_task_id := Some "task";
  event_context_id := Some "ctx"; signal_hash := Some "h"; details := Details_None |}.

Lemma signal_names_one_task_witness :
  sample_emission 0 ∈ trace_events (trace_snapshot sample_capture) /\
  sample_emission 4 ∈ trace_events (trace_snapshot sample_capture) /\
  (("task" = "task" /\ "ctx" = "ctx") \/ sha256_collision).
Proof.
  assert (H0 : sample_emission 0 ∈ trace_events (trace_snapshot sample_capture))
    by (apply (list_elem_of_lookup_2 _ 0); vm_compute; reflexivity).
  assert (H4 : sample_emission 4 ∈ trace_events (trace_snapshot sample_capture))
    by (apply (list_elem_of_lookup_2 _ 4); vm_compute; reflexivity).
  split; [exact H0|]. split; [exact H4|].
  by apply (signal_names_one_task 4 1 4 5 4 sample_capture (sample_emission 0) (sample_emission 4)
    "h" "task" "ctx" "task" "ctx" sample_captured H0 H4).
Defined.
End samples.
