(* ===== verification/Executor.v ===== *)
(** * The executor

    [src/executor.rs] with the mesh types of [src/bridge.rs]: the SDK's agent
    executor, which validates a message, starts a worker task that turns mesh
    events into protocol events, and settles the outcome with the completion
    policy.  The worker and the task that serves a cancel request run
    concurrently and share the [ExecutionControl] of the execution; they are two
    components of one step relation whose steps are the points at which the
    other task can get in between.  The response channel is the list of what was
    sent, and may be closed by its reader at any time.  Message and artifact
    ids, the clock, the mesh stream, timeouts and the success of required trace
    records are choices of the environment. *)

From stdpp Require Import pretty.
From S2P Require Import Prelude Text Trace Protocol Input Policy Quota Guard.

(** ** Mesh events *)

Inductive DispatchError := DispatchMessage (message : string) | CancellationForcedAbort.

Inductive MeshEvent :=
  | Progress (text : string)
  | Evidence (record : CompletionEvidence)
  | MeshArtifact (name media_type content : string)
  | MeshCompleted (summary : string).

Inductive InternalArtifactPayload := Binary (bytes : string) | Published (projection : string).

Definition INTERNAL_ARTIFACT_PREFIX : string := "smesh-internal-artifact/v1:".

Record MeshRequest := {
  protocol : string; mesh_task_id : string; mesh_context_id : string; mesh_text : string }.

(** [serde_json] at the mesh types, and the base64 decoder. *)
Class MeshCodec := {
  event_to_vec : MeshEvent -> result string string;
  request_to_vec : MeshRequest -> result string string;
  payload_from_str : string -> option InternalArtifactPayload;
  artifact_from_str : string -> option Artifact;
  base64_decode : string -> option string }.

Definition from_a2a (task_id context_id : string) (message : Message) (limit : N) :
    result InputError MeshRequest :=
  text ← extract_text message limit;
  Ok {| protocol := "a2a-v1"; mesh_task_id := task_id; mesh_context_id := context_id; mesh_text := text |}.

Definition internal_artifact_payload `{MeshCodec} (content : string) : option InternalArtifactPayload :=
  rest ← strip_prefix INTERNAL_ARTIFACT_PREFIX content; payload_from_str rest.

(** ** Budgets *)

Record ExecutionLimits := {
  max_concurrent_tasks : N;
  worker_idle_timeout : N;
  task_timeout : N;
  cancel_timeout : N;
  limit_events : N;
  limit_artifacts : N;
  limit_output_bytes : N }.

Definition default_limits : ExecutionLimits := {|
  max_concurrent_tasks := 64; worker_idle_timeout := 30; task_timeout := 5 * 60; cancel_timeout := 5;
  limit_events := 16; limit_artifacts := 16; limit_output_bytes := 1024 * 1024 |}.

Definition with_execution_limits (limits : ExecutionLimits) : ExecutionLimits := {|
  max_concurrent_tasks := max_concurrent_tasks limits; worker_idle_timeout := worker_idle_timeout limits;
  task_timeout := task_timeout limits; cancel_timeout := cancel_timeout limits;
  limit_events := (if 16 <? limit_events limits then 16 else limit_events limits)%N;
  limit_artifacts := limit_artifacts limits; limit_output_bytes := limit_output_bytes limits |}.

Record EventBudget := { events : N; seen_artifacts : N; output_bytes : N }.

Definition empty_budget : EventBudget := {| events := 0; seen_artifacts := 0; output_bytes := 0 |}.

Definition observe_event `{MeshCodec} (limits : ExecutionLimits) (b : EventBudget) (event : MeshEvent) :
    result DispatchError EventBudget :=
  let events := saturating_add (events b) 1 in
  fail_if (limit_events limits <? events)%N (DispatchMessage "SMESH worker exceeded event budget");;
  let seen := match event with
              | MeshArtifact _ _ _ => saturating_add (seen_artifacts b) 1
              | _ => seen_artifacts b
              end in
  fail_if (match event with MeshArtifact _ _ _ => (limit_artifacts limits <? seen)%N | _ => false end)
    (DispatchMessage "SMESH worker exceeded artifact budget");;
  bytes ← map_err (fun e => DispatchMessage ("SMESH event serialization failed: " +:+ e)) (event_to_vec event);
  let output := saturating_add (output_bytes b) (slen bytes) in
  fail_if (limit_output_bytes limits <? output)%N (DispatchMessage "SMESH worker exceeded output byte budget");;
  Ok {| events := events; seen_artifacts := seen; output_bytes := output |}.

(** ** Responses *)

Definition text_part (text : string) : Part := {|
  content := Part_Text text; filename := None; part_media_type := None; part_metadata := None |}.
Definition raw_part (bytes : string) : Part := {|
  content := Part_Raw bytes; filename := None; part_media_type := None; part_metadata := None |}.
Definition with_media_type (p : Part) (media_type : string) : Part := {|
  content := content p; filename := filename p; part_media_type := Some media_type;
  part_metadata := part_metadata p |}.

Definition agent_message (message_id task_id context_id text : string) : Message := {|
  message_id := message_id; message_context_id := Some context_id; message_task_id := Some task_id;
  role := Agent; parts := [text_part text]; message_metadata := None; extensions := None;
  reference_task_ids := None |}.

(** What the environment picks for one response: a message id and a time. *)
Record stamp := { stamp_id : string; stamp_time : Z }.

Definition task_response (s : stamp) (task_id context_id : string) (st : TaskState) (text : string)
    (arts : option (list Artifact)) (hist : list Message) (meta : option (gmap string json)) : Task := {|
  id := task_id; context_id := context_id;
  status := {| state := st; status_message := Some (agent_message (stamp_id s) task_id context_id text);
               timestamp := Some (stamp_time s) |};
  artifacts := arts; history := Some hist; metadata := meta |}.

Definition status_update (s : stamp) (task_id context_id : string) (st : TaskState) (text : option string) :
    StreamResponse :=
  StatusUpdate {| update_task_id := task_id; update_context_id := context_id;
    update_status := {| state := st; status_message := agent_message (stamp_id s) task_id context_id <$> text;
                        timestamp := Some (stamp_time s) |};
    update_metadata := None |}.

Definition policy_metadata (st : string) (record : result string json) :
    result DispatchError (gmap string json) :=
  v ← map_err (fun e => DispatchMessage ("completion policy record encoding failed: " +:+ e)) record;
  Ok {["smesh.completionPolicy" := JObject [("record", v); ("status", JString st)]]}.

(** [Display] of the two error types. *)
Definition dispatch_error_text (e : DispatchError) : string :=
  match e with
  | DispatchMessage m => "mesh dispatch failed: " +:+ m
  | CancellationForcedAbort =>
      "mesh cancellation required a forced abort; external effect containment is unknown"
  end.

Definition input_error_text (e : InputError) : string :=
  match e with
  | Empty => "message contains no text"
  | UnsupportedPart => "only inline text parts are supported"
  | TooLarge actual limit => "message is " +:+ pretty actual +:+ " bytes; limit is " +:+ pretty limit
  end.

(** ** Completion *)

(** A required trace record of a terminal output. *)
Record TraceEntry := {
  trace_terminal : RuntimeTerminalState;
  trace_digests : list string;
  trace_outcome : option RuntimeCancellationOutcome }.

Definition trace_state (st : TaskState) : RuntimeTerminalState :=
  match st with
  | Completed => Trace_Completed
  | Canceled => Trace_Canceled
  | InputRequired => Trace_InputRequired
  | Rejected => Trace_Rejected
  | _ => Trace_Failed
  end.

(** A task to publish, what the trace must hold before it is, and whether the
    mesh is told to stop afterwards. *)
Record publication := { pub_task : Task; pub_entry : TraceEntry; pub_stops : bool }.

Definition publish (task : Task) (digests : list string) (stops : bool) : publication := {|
  pub_task := task; pub_stops := stops;
  pub_entry := {| trace_terminal := trace_state (state (status task)); trace_digests := digests;
                  trace_outcome := None |} |}.

Record CompletionMaterial := {
  mat_request_digest : string;
  mat_artifacts : list Artifact;
  mat_manifests : list ArtifactManifest;
  mat_evidence : list CompletionEvidence }.

Definition mark_accepted (meta : gmap string json) (a : Artifact) : Artifact := {|
  artifact_id := artifact_id a; Protocol.artifact_name := Protocol.artifact_name a;
  description := Some "Policy-accepted SMESH output"; artifact_parts := artifact_parts a;
  artifact_metadata := Some meta; artifact_extensions := artifact_extensions a |}.

(** [{:?}] on the reasons of a block. *)
Definition reason_text (r : PolicyBlockReason) : string :=
  match r with
  | BlockingContradiction => "BlockingContradiction"
  | FailedReview => "FailedReview"
  | FailedTest => "FailedTest"
  | InsufficientReviews => "InsufficientReviews"
  | InsufficientTests => "InsufficientTests"
  | InsufficientAttestations => "InsufficientAttestations"
  | InsufficientContradictionClearances => "InsufficientContradictionClearances"
  | InsufficientAssurance => "InsufficientAssurance"
  | HumanRejected => "HumanRejected"
  end.

Definition reasons_text (rs : list PolicyBlockReason) : string :=
  "[" +:+ String.concat ", " (reason_text <$> rs) +:+ "]".

Section completion.
Context `{Sha256, HmacSha256, PolicyCodec, AttestationScheme, RecordCodec, MeshCodec}.
Context (policy : VersionedCompletionPolicy) (task_id context_id : string) (history : list Message).

Definition failed (s : stamp) (text : string) : publication :=
  publish (task_response s task_id context_id Failed text None history None) [] true.

(** [send_policy_outcome] *)
Definition policy_outcome (s : stamp) (st : TaskState) (text label : string) (record : result string json)
    (stops : bool) : publication :=
  match policy_metadata label record with
  | Ok meta => publish (task_response s task_id context_id st text None history (Some meta)) [] stops
  | Err e =>
      publish (task_response s task_id context_id Failed (dispatch_error_text e) None history None) [] stops
  end.

(** What [finalize_completion] publishes once it has claimed the execution. *)
Definition finalize (s : stamp) (material : CompletionMaterial) : publication :=
  let snapshot := {|
    snap_task_id := task_id; snap_context_id := context_id;
    snap_request_digest := mat_request_digest material;
    snap_artifacts := mat_manifests material; snap_evidence := mat_evidence material |} in
  match evaluate policy snapshot with
  | Ok (Accepted receipt) =>
      match policy_metadata "accepted" (receipt_to_value receipt) with
      | Err _ => failed s "completion policy metadata encoding failed"
      | Ok meta =>
          publish (task_response s task_id context_id Completed
                     "SMESH task completed under completion policy"
                     (Some (mark_accepted meta <$> mat_artifacts material)) history (Some meta))
                  (artifact_digest <$> mat_manifests material) false
      end
  | Ok (AwaitingRatification checkpoint) =>
      policy_outcome s InputRequired "human ratification is required" "awaitingRatification"
        (checkpoint_to_value checkpoint) false
  | Ok (Blocked checkpoint reasons) =>
      policy_outcome s Failed ("completion policy blocked the task: " +:+ reasons_text reasons) "blocked"
        (block_to_value (checkpoint, reasons)) true
  | Err _ => failed s "completion policy rejected malformed input"
  end.

(** ** Admission *)

Definition pending_ratification_request_digest (stored_task : option Task) :
    result A2AError (option string) :=
  match stored_task with
  | None => Ok None
  | Some task =>
      if negb (bool_decide (state (status task) = InputRequired)) then Ok None else
      value ← ok_or (policy_record "awaitingRatification" (completion_metadata task)) invalid_agent_response;
      checkpoint ← ok_or (checkpoint_from_value value) invalid_agent_response;
      fail_if (negb (verify_checkpoint policy checkpoint task_id context_id)) invalid_agent_response;;
      Ok (Some (claim_request_digest (checkpoint_claims checkpoint)))
  end.

(** What [execute] does before it spawns the worker: answer with one item, reject
    the task (once that is traced), or start. *)
Inductive admission :=
  | Answer (e : A2AError)
  | Reject (p : publication)
  | Start (history : list Message) (request : MeshRequest) (request_digest : string)
          (budget : ExecutionBudget).
End completion.

Definition extend_history (stored_task : option Task) (message : Message) : list Message :=
  let history := default [] (stored_task ≫= Protocol.history) in
  if bool_decide (message_id <$> last history = Some (message_id message)) then history
  else history ++ [message].

Section admission.
Context `{Sha256, HmacSha256, PolicyCodec, AttestationScheme, RecordCodec, MeshCodec}.

Definition execute (policy : VersionedCompletionPolicy) (input_limit : N) (limits : ExecutionLimits)
    (s : stamp) (permit : bool) (task_id context_id : string) (message : option Message)
    (stored_task : option Task) : admission :=
  if is_terminal_task stored_task then
    Answer (unsupported_operation "terminal tasks cannot accept additional messages") else
  match message with
  | None => Answer (invalid_params "message is required")
  | Some message =>
      let history := extend_history stored_task message in
      let reject text := Reject (publish (task_response s task_id context_id Rejected text None history None) [] false) in
      match from_a2a task_id context_id message input_limit with
      | Err error => reject (input_error_text error)
      | Ok request =>
          match request_to_vec request with
          | Err error => Answer (internal ("failed to encode completion request binding: " +:+ error))
          | Ok bytes =>
              match pending_ratification_request_digest policy task_id context_id stored_task with
              | Err error => Answer error
              | Ok pending =>
                  let request_digest := default (content_digest bytes) pending in
                  if negb permit then reject "gateway concurrency capacity reached" else
                  match new_budget (limit_output_bytes limits)
                          (N.max 1 (N.min 16 (limit_events limits)))%N with
                  | Err _ => Answer (internal "invalid trusted execution budget")
                  | Ok budget => Start history request request_digest budget
                  end
              end
          end
      end
  end.

(** Work starts only on an admitted request.  A started worker has a permit,
    a task that is not terminal and a message whose text is within bounds; its
    history ends with that message; and a task that was waiting for ratification
    keeps the request digest sealed in its verified checkpoint, so that a later
    message cannot replace the request under decision. *)
Theorem start_is_admitted policy input_limit limits s permit task_id context_id message stored_task hist request d budget :
  execute policy input_limit limits s permit task_id context_id message stored_task = Start hist request d budget ->
  permit = true /\ is_terminal_task stored_task = false /\
  exists m, message = Some m /\ from_a2a task_id context_id m input_limit = Ok request /\
    message_id <$> last hist = Some (message_id m) /\
    match stored_task with
    | Some task =>
        if bool_decide (state (status task) = InputRequired) then
          exists c, policy_record "awaitingRatification" (completion_metadata task) ≫= checkpoint_from_value = Some c /\
            verify_checkpoint policy c task_id context_id = true /\ d = claim_request_digest (checkpoint_claims c)
        else exists bytes, request_to_vec request = Ok bytes /\ d = content_digest bytes
    | None => exists bytes, request_to_vec request = Ok bytes /\ d = content_digest bytes
    end.
Proof.
  unfold execute. destruct (is_terminal_task stored_task); [done|]. destruct message as [m|]; [|done].
  destruct (from_a2a _ _ m _) as [req|] eqn:Hreq; [|done].
  destruct (request_to_vec req) as [bytes|] eqn:Hbytes; [|done].
  destruct (pending_ratification_request_digest _ _ _ _) as [pending|] eqn:Hp; [|done].
  destruct permit; [|done]. simpl. destruct (new_budget _ _); [|done]. intros [= <- <- <- <-].
  split_and!; [done|done|]. exists m. split_and!; [done|done| |].
  { unfold extend_history. case_bool_decide as Hl; [done|]. by rewrite last_snoc. }
  unfold pending_ratification_request_digest in Hp. destruct stored_task as [task|]; [|inv_ok; eauto].
  destruct (bool_decide (state (status task) = InputRequired)); simpl in Hp; [|inv_ok; eauto].
  apply bind_Ok_inv in Hp as (v & Hv%ok_or_Ok & Hp). apply bind_Ok_inv in Hp as (c & Hc%ok_or_Ok & Hp).
  inv_ok. exists c. rewrite Hv. by split_and!.
Qed.
End admission.

(** ** The execution of one task

    [ExecutionControl] *)

Inductive Terminal := TERMINAL_OPEN | TERMINAL_CANCEL | TERMINAL_EXECUTION.
Inductive CancelOutcome := OUTCOME_PENDING | OUTCOME_CANCELED | OUTCOME_FAILED | OUTCOME_FORCED_ABORT.

#[global] Instance Terminal_eq_dec : EqDecision Terminal.
Proof. solve_decision. Defined.

Definition cancellation_terminal (outcome : CancelOutcome) :
    TaskState * RuntimeCancellationOutcome * string :=
  match outcome with
  | OUTCOME_CANCELED => (Canceled, CooperativeStop, "SMESH task canceled")
  | OUTCOME_FORCED_ABORT =>
      (Failed, ForcedAbort,
       "SMESH dispatcher reported a forced abort; external effect containment is unknown")
  | _ => (Failed, CancellationFailed, "SMESH cancellation failed")
  end.

(** The outcome of a dispatcher's cancel call; [None] is a timeout. *)
Definition cancel_result (r : option (result DispatchError unit)) : CancelOutcome :=
  match r with
  | Some (Ok _) => OUTCOME_CANCELED
  | Some (Err CancellationForcedAbort) => OUTCOME_FORCED_ABORT
  | Some (Err _) | None => OUTCOME_FAILED
  end.

(** The local variables of the worker's loop. *)
Record Work := {
  work_artifacts : list Artifact;
  work_manifests : list ArtifactManifest;
  work_evidence : list CompletionEvidence;
  completion_proposed : bool;
  work_budget : EventBudget }.

Definition empty_work : Work := {|
  work_artifacts := []; work_manifests := []; work_evidence := []; completion_proposed := false;
  work_budget := empty_budget |}.

(** Where the worker is: before its first event, polling, about to handle what
    it polled, past the end of the stream, about to finalize, inside the
    completion (first the trace, then the send), past its deadline, publishing
    a result outside of the completion, waiting for a cancellation's outcome,
    publishing that, or done. *)
Inductive Worker :=
  | Starting
  | Looping (w : Work)
  | Handling (w : Work) (event : result DispatchError MeshEvent)
  | Ended (w : Work)
  | Finalizing (w : Work)
  | Completing (p : publication)
  | CompletingSend (p : publication)
  | DeadlineHit
  | Publishing (p : publication)
  | PublishingSend (p : publication)
  | Canceling
  | CancelingSend (task : Task)
  | Finished.

(** The task serving a cancel request: it holds the emission lock from its claim
    to the signal. *)
Inductive Canceler := NoCancel | Holding | Resolving | Resolved.

#[global] Instance Canceler_eq_dec : EqDecision Canceler.
Proof. solve_decision. Defined.

Record Execution := {
  terminal : Terminal;
  cancelled : bool;
  cancel_outcome : CancelOutcome;
  worker : Worker;
  canceler : Canceler;
  sent : list StreamResponse;
  receiver_open : bool;
  trace : list TraceEntry;
  mesh_stopped : bool }.

Definition start : Execution := {|
  terminal := TERMINAL_OPEN; cancelled := false; cancel_outcome := OUTCOME_PENDING; worker := Starting;
  canceler := NoCancel; sent := []; receiver_open := true; trace := []; mesh_stopped := false |}.

Definition goto (x : Execution) (w : Worker) : Execution := {|
  terminal := terminal x; cancelled := cancelled x; cancel_outcome := cancel_outcome x; worker := w;
  canceler := canceler x; sent := sent x; receiver_open := receiver_open x; trace := trace x;
  mesh_stopped := mesh_stopped x |}.

(** [request_dispatcher_cancel], then the end of the worker. *)
Definition abandon (x : Execution) : Execution := {|
  terminal := terminal x; cancelled := cancelled x; cancel_outcome := cancel_outcome x; worker := Finished;
  canceler := canceler x; sent := sent x; receiver_open := receiver_open x; trace := trace x;
  mesh_stopped := true |}.

Definition set_terminal (x : Execution) (t : Terminal) : Execution := {|
  terminal := t; cancelled := cancelled x; cancel_outcome := cancel_outcome x; worker := worker x;
  canceler := canceler x; sent := sent x; receiver_open := receiver_open x; trace := trace x;
  mesh_stopped := mesh_stopped x |}.

(** [claim_execution]: the compare-and-exchange. *)
Definition claim_execution (x : Execution) : option Execution :=
  if bool_decide (terminal x = TERMINAL_OPEN) then Some (set_terminal x TERMINAL_EXECUTION) else None.

(** [tx.send(..).await]; [None] when the reader is gone. *)
Definition send (x : Execution) (item : StreamResponse) : option Execution :=
  if receiver_open x then Some {|
    terminal := terminal x; cancelled := cancelled x; cancel_outcome := cancel_outcome x; worker := worker x;
    canceler := canceler x; sent := sent x ++ [item]; receiver_open := true; trace := trace x;
    mesh_stopped := mesh_stopped x |}
  else None.

(** [send_work_event], under the emission lock. *)
Definition send_work_event (x : Execution) (item : StreamResponse) : option Execution :=
  if negb (bool_decide (terminal x = TERMINAL_OPEN)) then None else send x item.

(** [record_terminal_trace] and [record_cancellation_terminal_trace]: without a
    trace there is nothing to record; with one, the record may be refused. *)
Definition record (tracing recorded : bool) (x : Execution) (e : TraceEntry) : option Execution :=
  if negb tracing then Some x else
  if recorded then Some {|
    terminal := terminal x; cancelled := cancelled x; cancel_outcome := cancel_outcome x; worker := worker x;
    canceler := canceler x; sent := sent x; receiver_open := receiver_open x; trace := trace x ++ [e];
    mesh_stopped := mesh_stopped x |}
  else None.

(** What happens next: who moves and what the environment picks. *)
Inductive choice :=
  | ReaderCloses
  | CancelClaims
  | CancelSignals
  | CancelResolves (r : option (result DispatchError unit))
  | PollClosed
  | PollCancelled
  | PollDeadline
  | PollIdle
  | PollEvent (event : result DispatchError MeshEvent)
  | PollEnd
  | PollCompletion
  | Run (s : stamp) (new_artifact_id : string) (recorded : bool).

Section machine.
Context `{Sha256, HmacSha256, PolicyCodec, AttestationScheme, RecordCodec, MeshCodec}.
Context (policy : VersionedCompletionPolicy) (limits : ExecutionLimits).
Context (task_id context_id : string) (history : list Message) (request_digest : string) (tracing : bool).

Definition fail_with (x : Execution) (s : stamp) (text : string) : Execution :=
  match claim_execution x with
  | Some x => goto x (Publishing (failed task_id context_id history s text))
  | None => abandon x
  end.

Definition candidate (artifact_id : string) (name media_type : string) (part : Part) : Artifact := {|
  artifact_id := artifact_id; Protocol.artifact_name := Some name;
  description := Some "Unpublished SMESH candidate output";
  artifact_parts := [with_media_type part media_type]; artifact_metadata := None;
  artifact_extensions := None |}.

Definition manifest (name media_type bytes : string) : ArtifactManifest := {|
  artifact_name := name; artifact_media_type := media_type; artifact_digest := content_digest bytes |}.

(** The artifact and the manifest of an artifact event; [None] when the internal
    payload does not decode. *)
Definition collect_artifact (new_artifact_id name media_type content : string) :
    option (Artifact * ArtifactManifest) :=
  match internal_artifact_payload content with
  | Some (Binary encoded) =>
      bytes ← base64_decode encoded;
      Some (candidate new_artifact_id name media_type (raw_part bytes), manifest name media_type bytes)
  | Some (Published projection) =>
      artifact ← artifact_from_str projection;
      Some (artifact, manifest (default "artifact" (Protocol.artifact_name artifact))
                        "application/vnd.smesh.artifact-manifest+json" projection)
  | None =>
      Some (candidate new_artifact_id name media_type (text_part content), manifest name media_type content)
  end.

Definition with_budget (w : Work) (b : EventBudget) : Work := {|
  work_artifacts := work_artifacts w; work_manifests := work_manifests w; work_evidence := work_evidence w;
  completion_proposed := completion_proposed w; work_budget := b |}.
Definition with_evidence (w : Work) (e : CompletionEvidence) : Work := {|
  work_artifacts := work_artifacts w; work_manifests := work_manifests w;
  work_evidence := work_evidence w ++ [e];
  completion_proposed := completion_proposed w; work_budget := work_budget w |}.
Definition with_artifact (w : Work) (a : Artifact) (m : ArtifactManifest) : Work := {|
  work_artifacts := work_artifacts w ++ [a]; work_manifests := work_manifests w ++ [m];
  work_evidence := work_evidence w; completion_proposed := completion_proposed w;
  work_budget := work_budget w |}.
Definition with_proposal (w : Work) : Work := {|
  work_artifacts := work_artifacts w; work_manifests := work_manifests w; work_evidence := work_evidence w;
  completion_proposed := true; work_budget := work_budget w |}.

(** [publish_invalid_internal_artifact_terminal] *)
Definition invalid_artifact (x : Execution) (s : stamp) : Execution :=
  match claim_execution x with
  | Some x => goto x (Publishing (failed task_id context_id history s
                                    "SMESH worker emitted an undecodable artifact payload"))
  | None => if bool_decide (terminal x = TERMINAL_CANCEL) then goto x Canceling else goto x Finished
  end.

(** One pass through the loop body, after the poll. *)
Definition handle (x : Execution) (w : Work) (event : result DispatchError MeshEvent) (s : stamp)
    (new_artifact_id : string) (recorded : bool) : option Execution :=
  match (e ← event; b ← observe_event limits (work_budget w) e; Ok (e, with_budget w b)) with
  | Ok (Progress _, w) =>
      if bool_decide (canceler x = Holding) then None else
      Some match send_work_event x (status_update s task_id context_id Working
                                      (Some "SMESH worker reported progress")) with
           | Some x => goto x (Looping w)
           | None => abandon x
           end
  | Ok (Evidence r, w) =>
      Some (if tracing && negb recorded then abandon (default x (claim_execution x))
            else goto x (Looping (with_evidence w r)))
  | Ok (MeshArtifact name media_type content, w) =>
      Some match collect_artifact new_artifact_id name media_type content with
           | Some (a, m) => goto x (Looping (with_artifact w a m))
           | None => invalid_artifact x s
           end
  | Ok (MeshCompleted _, w) =>
      Some (if completion_proposed w then fail_with x s "worker emitted more than one completion proposal"
            else goto x (Looping (with_proposal w)))
  | Err _ => Some (fail_with x s "SMESH worker failed")
  end.

Definition material (w : Work) : CompletionMaterial := {|
  mat_request_digest := request_digest; mat_artifacts := work_artifacts w;
  mat_manifests := work_manifests w; mat_evidence := work_evidence w |}.

Definition cancel_publication (resolved : CancelOutcome) (s : stamp) : publication :=
  let '(st, outcome, text) := cancellation_terminal resolved in
  {| pub_task := task_response s task_id context_id st text None history None;
     pub_stops := false;
     pub_entry := {| trace_terminal := if bool_decide (st = Canceled) then Trace_Canceled else Trace_Failed;
                     trace_digests := []; trace_outcome := Some outcome |} |}.

(** The worker runs to its next interleaving point. *)
Definition run (x : Execution) (s : stamp) (new_artifact_id : string) (recorded : bool) : option Execution :=
  match worker x with
  | Starting =>
      if bool_decide (canceler x = Holding) then None else
      let working := {| id := task_id; Protocol.context_id := context_id;
                        status := {| state := Working; status_message := None;
                                     timestamp := Some (stamp_time s) |};
                        artifacts := None; Protocol.history := Some history; metadata := None |} in
      Some match send_work_event x (Stream_Task working) with
           | Some x => goto x (Looping empty_work)
           | None => abandon x
           end
  | Handling w event => handle x w event s new_artifact_id recorded
  | Ended w =>
      if completion_proposed w then None
      else Some (fail_with x s "SMESH worker stream ended without a completion proposal")
  | Finalizing w =>
      Some match claim_execution x with
           | Some x => goto x (Completing (finalize policy task_id context_id history s (material w)))
           | None => goto x Finished
           end
  | Completing p =>
      Some match record tracing recorded x (pub_entry p) with
           | Some x => goto x (CompletingSend p)
           | None => abandon x
           end
  | CompletingSend p =>
      Some match send x (Stream_Task (pub_task p)) with
           | Some x => if pub_stops p then abandon x else goto x Finished
           | None => if pub_stops p || bool_decide (state (status (pub_task p)) = Completed)
                     then abandon x else goto x Finished
           end
  | DeadlineHit =>
      Some (fail_with x s "SMESH task deadline exceeded during completion policy evaluation")
  | Publishing p =>
      Some match record tracing recorded x (pub_entry p) with
           | Some x => goto x (PublishingSend p)
           | None => abandon x
           end
  | PublishingSend p => Some (abandon (default x (send x (Stream_Task (pub_task p)))))
  | Canceling =>
      match cancel_outcome x with
      | OUTCOME_PENDING => None
      | _ => let p := cancel_publication (cancel_outcome x) s in
             Some match record tracing recorded x (pub_entry p) with
                  | Some x => goto x (CancelingSend (pub_task p))
                  | None => goto x Finished
                  end
      end
  | CancelingSend task => Some (goto (default x (send x (Stream_Task task))) Finished)
  | Looping _ | Finished => None
  end.

(** The biased [select!] of the loop, and the one around the completion. *)
Definition poll (x : Execution) (c : choice) : option Execution :=
  match worker x with
  | Looping w =>
      let quiet := receiver_open x && negb (cancelled x) in
      match c with
      | PollClosed => if receiver_open x then None else Some (abandon x)
      | PollCancelled => if receiver_open x && cancelled x then Some (goto x Canceling) else None
      | PollDeadline =>
          if quiet then Some (goto x (Handling w (Err (DispatchMessage "SMESH task deadline exceeded")))) else None
      | PollIdle =>
          if quiet then Some (goto x (Handling w (Err (DispatchMessage "SMESH worker inactivity timeout")))) else None
      | PollEvent event => if quiet then Some (goto x (Handling w event)) else None
      | PollEnd => if quiet then Some (goto x (Ended w)) else None
      | _ => None
      end
  | Ended w =>
      if negb (completion_proposed w) then None else
      match c with
      | PollCancelled => if cancelled x then Some (goto x Canceling) else None
      | PollDeadline => if cancelled x then None else Some (goto x DeadlineHit)
      | PollCompletion => if cancelled x then None else Some (goto x (Finalizing w))
      | _ => None
      end
  | Completing _ | CompletingSend _ =>
      match c with
      | PollCancelled => if cancelled x then Some (goto x Canceling) else None
      | PollDeadline => if cancelled x then None else Some (goto x DeadlineHit)
      | _ => None
      end
  | _ => None
  end.

(** The task that serves a cancel request. *)
Definition cancel (x : Execution) (c : choice) : option Execution :=
  match c, canceler x with
  | CancelClaims, NoCancel =>
      if bool_decide (terminal x = TERMINAL_OPEN) then Some {|
        terminal := TERMINAL_CANCEL; cancelled := cancelled x; cancel_outcome := cancel_outcome x;
        worker := worker x; canceler := Holding; sent := sent x; receiver_open := receiver_open x;
        trace := trace x; mesh_stopped := mesh_stopped x |}
      else None
  | CancelSignals, Holding => Some {|
      terminal := terminal x; cancelled := true; cancel_outcome := cancel_outcome x; worker := worker x;
      canceler := Resolving; sent := sent x; receiver_open := receiver_open x; trace := trace x;
      mesh_stopped := true |}
  | CancelResolves r, Resolving => Some {|
      terminal := terminal x; cancelled := cancelled x; cancel_outcome := cancel_result r; worker := worker x;
      canceler := Resolved; sent := sent x; receiver_open := receiver_open x; trace := trace x;
      mesh_stopped := mesh_stopped x |}
  | _, _ => None
  end.

Definition close_reader (x : Execution) : Execution := {|
  terminal := terminal x; cancelled := cancelled x; cancel_outcome := cancel_outcome x; worker := worker x;
  canceler := canceler x; sent := sent x; receiver_open := false; trace := trace x;
  mesh_stopped := mesh_stopped x |}.

Definition step (c : choice) (x : Execution) : option Execution :=
  match c with
  | ReaderCloses => Some (close_reader x)
  | CancelClaims | CancelSignals | CancelResolves _ => cancel x c
  | Run s new_artifact_id recorded => run x s new_artifact_id recorded
  | _ => poll x c
  end.

(** Runs in which every mesh event satisfies [allowed]. *)
Definition choice_allowed (allowed : MeshEvent -> Prop) (c : choice) : Prop :=
  match c with PollEvent (Ok e) => allowed e | _ => True end.

Inductive execution_step (allowed : MeshEvent -> Prop) : Execution -> Execution -> Prop :=
  | execution_move c x x' : choice_allowed allowed c -> step c x = Some x' -> execution_step allowed x x'.

Definition run_all (cs : list choice) (x : Execution) : option Execution :=
  foldl (fun o c => o ≫= step c) (Some x) cs.

(** ** The invariant *)

(** A final event: a task that is no longer being worked on. *)
Definition final (item : StreamResponse) : Prop :=
  match item with Stream_Task task => state (status task) <> Working | _ => False end.

(** Work events: the working task and its progress. *)
Definition work_event (item : StreamResponse) : Prop :=
  match item with
  | Stream_Task task => state (status task) = Working /\ artifacts task = None /\ metadata task = None
  | StatusUpdate e => state (update_status e) = Working
  | _ => False
  end.

Context (allowed : MeshEvent -> Prop).

(** The candidates were collected one by one from allowed events. *)
Definition collected_work (w : Work) : Prop :=
  Forall2 (fun a m => exists i name media_type content,
             allowed (MeshArtifact name media_type content) /\
             collect_artifact i name media_type content = Some (a, m))
          (work_artifacts w) (work_manifests w).

(** What the worker may publish. *)
Inductive legit (p : publication) : Prop :=
  | legit_failed s text : p = failed task_id context_id history s text -> legit p
  | legit_final s w : collected_work w ->
      p = finalize policy task_id context_id history s (material w) -> legit p.

(** The one final event of an execution, and who was entitled to send it. *)
Inductive settled (claimed : Terminal) (outcome : CancelOutcome) (traced : list TraceEntry) (task : Task) : Prop :=
  | settled_execution p : claimed = TERMINAL_EXECUTION -> legit p -> task = pub_task p ->
      traced = (if tracing then [pub_entry p] else []) -> settled claimed outcome traced task
  | settled_cancel s : claimed = TERMINAL_CANCEL -> outcome <> OUTCOME_PENDING ->
      task = pub_task (cancel_publication outcome s) ->
      traced = (if tracing then [pub_entry (cancel_publication outcome s)] else []) ->
      settled claimed outcome traced task.

Definition quiet (x : Execution) : Prop := Forall work_event (sent x).

Definition canceler_ok (x : Execution) : Prop :=
  match canceler x with
  | NoCancel => terminal x <> TERMINAL_CANCEL /\ cancelled x = false /\ cancel_outcome x = OUTCOME_PENDING
  | Holding => terminal x = TERMINAL_CANCEL /\ cancelled x = false /\ cancel_outcome x = OUTCOME_PENDING
  | Resolving => terminal x = TERMINAL_CANCEL /\ cancelled x = true /\ cancel_outcome x = OUTCOME_PENDING
  | Resolved => terminal x = TERMINAL_CANCEL /\ cancelled x = true /\ cancel_outcome x <> OUTCOME_PENDING
  end.

Definition worker_ok (x : Execution) : Prop :=
  match worker x with
  | Starting => sent x = [] /\ terminal x <> TERMINAL_EXECUTION /\ trace x = []
  | Looping w | Ended w | Finalizing w =>
      quiet x /\ terminal x <> TERMINAL_EXECUTION /\ trace x = [] /\ collected_work w
  | Handling w event =>
      quiet x /\ terminal x <> TERMINAL_EXECUTION /\ trace x = [] /\ collected_work w /\
      choice_allowed allowed (PollEvent event)
  | Completing p | Publishing p =>
      quiet x /\ terminal x = TERMINAL_EXECUTION /\ trace x = [] /\ legit p
  | CompletingSend p | PublishingSend p =>
      quiet x /\ terminal x = TERMINAL_EXECUTION /\ trace x = (if tracing then [pub_entry p] else []) /\ legit p
  | DeadlineHit => quiet x /\ (terminal x <> TERMINAL_EXECUTION -> trace x = [])
  | Canceling => quiet x /\ terminal x = TERMINAL_CANCEL /\ trace x = []
  | CancelingSend task => quiet x /\ settled (terminal x) (cancel_outcome x) (trace x) task /\ terminal x = TERMINAL_CANCEL
  | Finished => quiet x \/ exists l task, sent x = l ++ [Stream_Task task] /\ Forall work_event l /\
                settled (terminal x) (cancel_outcome x) (trace x) task
  end.

Record inv (x : Execution) : Prop := { inv_canceler : canceler_ok x; inv_worker : worker_ok x }.

Lemma start_inv : inv start.
Proof. by split. Qed.

Lemma claim_execution_Some x x' :
  claim_execution x = Some x' <-> terminal x = TERMINAL_OPEN /\ x' = set_terminal x TERMINAL_EXECUTION.
Proof. unfold claim_execution. case_bool_decide; naive_solver. Qed.

Lemma open_canceler x : canceler_ok x -> terminal x = TERMINAL_OPEN -> canceler x = NoCancel.
Proof. unfold canceler_ok. intros Hc Ht. rewrite Ht in Hc. destruct (canceler x); naive_solver. Qed.

Lemma cancelled_terminal x : canceler_ok x -> cancelled x = true -> terminal x = TERMINAL_CANCEL.
Proof. unfold canceler_ok. intros Hc Ht. rewrite Ht in Hc. destruct (canceler x); naive_solver. Qed.

(** The worker's claim leaves the canceler where it is. *)
Lemma claim_canceler x : canceler_ok x -> terminal x = TERMINAL_OPEN -> canceler_ok (set_terminal x TERMINAL_EXECUTION).
Proof. intros Hc Ht. unfold canceler_ok in *. simpl. rewrite Ht in Hc. destruct (canceler x); naive_solver. Qed.

Lemma fail_with_inv x s text :
  canceler_ok x -> quiet x -> (terminal x <> TERMINAL_EXECUTION -> trace x = []) -> inv (fail_with x s text).
Proof.
  intros Hc Hq Ht. unfold fail_with. destruct (claim_execution x) as [x'|] eqn:Hx.
  - apply claim_execution_Some in Hx as [Hopen ->]. split; [by apply claim_canceler|].
    simpl. split; [done|]. split; [done|]. split; [apply Ht; congruence|]. by eapply legit_failed.
  - split; [exact Hc|]. left. done.
Qed.

Lemma abandon_inv x : canceler_ok x -> quiet x -> inv (abandon x).
Proof. intros Hc Hq. split; [exact Hc|]. left. done. Qed.

Lemma goto_inv x w : canceler_ok x -> worker_ok (goto x w) -> inv (goto x w).
Proof. by split. Qed.

Lemma send_work_inv x item w :
  canceler_ok x -> quiet x -> trace x = [] -> work_event item -> collected_work w ->
  inv match send_work_event x item with Some x => goto x (Looping w) | None => abandon x end.
Proof.
  intros Hc Hq Ht Hw Hcol. unfold send_work_event, send. case_bool_decide as Hopen; simpl; [|by apply abandon_inv].
  destruct (receiver_open x); simpl; [|by apply abandon_inv].
  split; [exact Hc|]. simpl. rewrite Hopen. split_and!; [|done|done|done].
  apply Forall_app. split; [exact Hq|by apply Forall_singleton].
Qed.

Lemma record_inv x e recorded (k : Execution -> Execution) (stop : Execution) :
  inv stop ->
  (forall tr, tr = trace x ++ (if tracing then [e] else []) -> inv (k {|
     terminal := terminal x; cancelled := cancelled x; cancel_outcome := cancel_outcome x; worker := worker x;
     canceler := canceler x; sent := sent x; receiver_open := receiver_open x; trace := tr;
     mesh_stopped := mesh_stopped x |})) ->
  inv match record tracing recorded x e with Some x => k x | None => stop end.
Proof.
  intros Hstop Hk. unfold record. destruct tracing; simpl.
  - destruct recorded; [by apply Hk|done].
  - specialize (Hk (trace x)). rewrite app_nil_r in Hk. specialize (Hk eq_refl). by destruct x.
Qed.

Lemma invalid_artifact_inv x s :
  canceler_ok x -> quiet x -> terminal x <> TERMINAL_EXECUTION -> trace x = [] -> inv (invalid_artifact x s).
Proof.
  intros Hc Hq Hne Ht. unfold invalid_artifact. destruct (claim_execution x) as [x'|] eqn:Hx.
  - apply claim_execution_Some in Hx as [Hopen ->]. split; [by apply claim_canceler|].
    simpl. split_and!; [done|done|done|]. by eapply legit_failed.
  - case_bool_decide; (split; [exact Hc|]); simpl; [done|left; done].
Qed.

Lemma handle_inv x w event s i recorded x' :
  inv x -> worker x = Handling w event -> handle x w event s i recorded = Some x' -> inv x'.
Proof.
  intros [Hc Hw] Hwork. unfold worker_ok in Hw. rewrite Hwork in Hw.
  destruct Hw as (Hq & Hne & Ht & Hcol & Hall). unfold handle.
  destruct event as [e|err]; simpl; [|intros [= <-]; by apply fail_with_inv].
  destruct (observe_event limits (work_budget w) e) as [b|err]; simpl; [|intros [= <-]; by apply fail_with_inv].
  destruct e as [text|r|name media_type content|summary].
  - case_bool_decide; [done|]. intros [= <-]. by apply send_work_inv.
  - intros [= <-]. destruct (tracing && negb recorded); [|by apply goto_inv].
    destruct (claim_execution x) as [x1|] eqn:Hx; simpl; [|by apply abandon_inv].
    apply claim_execution_Some in Hx as [Hopen ->]. apply abandon_inv; [by apply claim_canceler|done].
  - intros [= <-]. destruct (collect_artifact i name media_type content) as [[a m]|] eqn:Hcollect.
    + apply goto_inv; [done|]. simpl. split_and!; [done|done|done|].
      apply Forall2_app; [exact Hcol|]. constructor; [|constructor]. by eexists _, _, _, _.
    + by apply invalid_artifact_inv.
  - intros [= <-]. destruct (completion_proposed w); [by apply fail_with_inv|by apply goto_inv].
Qed.

Lemma send_final_inv x task :
  canceler_ok x -> quiet x -> settled (terminal x) (cancel_outcome x) (trace x) task ->
  worker_ok (goto (default x (send x (Stream_Task task))) Finished).
Proof.
  intros Hc Hq Hs. unfold send. destruct (receiver_open x); simpl; [right|left; done].
  by exists (sent x), task.
Qed.

Lemma run_inv x s i recorded x' : inv x -> run x s i recorded = Some x' -> inv x'.
Proof.
  intros [Hc Hw] Hrun. unfold run in Hrun. unfold worker_ok in Hw.
  destruct (worker x) as [|w|w event|w|w|p|p| |p|p| |task|] eqn:Hworker; try done.
  - case_bool_decide; [done|]. injection Hrun as <-. destruct Hw as (Hs & Hne & Ht).
    apply send_work_inv; try done; [unfold quiet; by rewrite Hs|]. constructor.
  - eapply handle_inv; [|exact Hworker|exact Hrun]. split; [done|]. unfold worker_ok. by rewrite Hworker.
  - destruct (completion_proposed w); [done|]. injection Hrun as <-. destruct Hw as (Hq & _ & Ht & _). by apply fail_with_inv.
  - injection Hrun as <-. destruct Hw as (Hq & Hne & Ht & Hcol).
    destruct (claim_execution x) as [x1|] eqn:Hx; [|split; [exact Hc|left; done]].
    apply claim_execution_Some in Hx as [Hopen ->]. split; [by apply claim_canceler|]. simpl.
    split_and!; [done|done|done|by eapply legit_final].
  - injection Hrun as <-. destruct Hw as (Hq & Hex & Ht & Hl). apply (record_inv _ _ _ (fun x => goto x _)); [by apply abandon_inv|].
    intros tr ->. split; [exact Hc|]. simpl. rewrite Ht. split_and!; done.
  - injection Hrun as <-. destruct Hw as (Hq & Hex & Ht & Hl).
    assert (Hset : settled (terminal x) (cancel_outcome x) (trace x) (pub_task p)) by by eapply settled_execution.
    pose proof (send_final_inv x (pub_task p) Hc Hq Hset) as Hfin.
    unfold send in *. destruct (receiver_open x); simpl in *.
    + destruct (pub_stops p); by split.
    + destruct (pub_stops p || _); by split.
  - injection Hrun as <-. destruct Hw as (Hq & Ht). by apply fail_with_inv.
  - injection Hrun as <-. destruct Hw as (Hq & Hex & Ht & Hl). apply (record_inv _ _ _ (fun x => goto x _)); [by apply abandon_inv|].
    intros tr ->. split; [exact Hc|]. simpl. rewrite Ht. split_and!; done.
  - injection Hrun as <-. destruct Hw as (Hq & Hex & Ht & Hl).
    assert (Hset : settled (terminal x) (cancel_outcome x) (trace x) (pub_task p)) by by eapply settled_execution.
    pose proof (send_final_inv x (pub_task p) Hc Hq Hset) as Hfin.
    unfold send in *. destruct (receiver_open x); by split.
  - destruct Hw as (Hq & Hex & Ht). assert (Hp : cancel_outcome x <> OUTCOME_PENDING).
    { intros Hp. by rewrite Hp in Hrun. }
    assert (Hr : Some match record tracing recorded x (pub_entry (cancel_publication (cancel_outcome x) s)) with
                      | Some x0 => goto x0 (CancelingSend (pub_task (cancel_publication (cancel_outcome x) s)))
                      | None => goto x Finished end = Some x') by by destruct (cancel_outcome x).
    injection Hr as <-. apply (record_inv _ _ _ (fun y => goto y _)).
    { split; [exact Hc|]. left. done. }
    intros tr ->. rewrite Ht. split; [exact Hc|]. simpl. split_and!; [done| |done].
    by apply (settled_cancel _ _ _ _ s).
  - injection Hrun as <-. destruct Hw as (Hq & Hs & Hex).
    pose proof (send_final_inv x task Hc Hq Hs) as Hfin. unfold send in *.
    destruct (receiver_open x); by split.
Qed.

Lemma poll_inv x c x' : inv x -> choice_allowed allowed c -> poll x c = Some x' -> inv x'.
Proof.
  intros [Hc Hw] Hall. unfold poll. unfold worker_ok, quiet in Hw.
  pose proof (cancelled_terminal x Hc) as Hcan.
  destruct (worker x) as [|w|w event|w|w|p|p| |p|p| |task|] eqn:Hworker; try done.
  - destruct Hw as (Hq & Hne & Ht & Hcol).
    destruct c; try done; destruct (receiver_open x), (cancelled x); simpl; try done; intros [= <-];
      (split; [exact Hc|]); unfold worker_ok, quiet; simpl; auto 6.
  - destruct Hw as (Hq & Hne & Ht & Hcol). destruct (completion_proposed w); simpl; [|done].
    destruct c; try done; destruct (cancelled x); try done; intros [= <-]; (split; [exact Hc|]); unfold worker_ok, quiet; simpl; auto 6.
  - destruct Hw as (Hq & Hex & Ht & Hl). destruct c; try done; destruct (cancelled x) eqn:Hcx; try done;
      intros [= <-]; (split; [exact Hc|]); simpl; [by rewrite Hcan in Hex|]. by split.
  - destruct Hw as (Hq & Hex & Ht & Hl). destruct c; try done; destruct (cancelled x) eqn:Hcx; try done;
      intros [= <-]; (split; [exact Hc|]); simpl; [by rewrite Hcan in Hex|]. by split.
Qed.

Lemma close_inv x : inv x -> inv (close_reader x).
Proof. intros [Hc Hw]. split; [exact Hc|]. by destruct x as [? ? ? [] ? ? ? ? ?]. Qed.

(** A settled cancellation is over. *)
Lemma settled_resolved x task :
  canceler_ok x -> settled (terminal x) (cancel_outcome x) (trace x) task ->
  terminal x = TERMINAL_EXECUTION \/ canceler x = Resolved.
Proof.
  unfold canceler_ok. intros Hc [p Ht _ _ _|s Ht Ho _ _]; [by left|right].
  rewrite Ht in Hc. destruct (canceler x); naive_solver.
Qed.

Lemma cancel_inv x c x' : inv x -> cancel x c = Some x' -> inv x'.
Proof.
  intros [Hc Hw] Hcan.
  assert (Hres : forall task, settled (terminal x) (cancel_outcome x) (trace x) task -> False).
  { intros task [Ht|Ht]%settled_resolved; [| |exact Hc];
      unfold cancel, canceler_ok in *; destruct (canceler x), c; try done; rewrite ?Ht in *; naive_solver. }
  assert (Hmove : terminal x <> TERMINAL_EXECUTION /\ canceler_ok x' /\ worker x' = worker x /\ sent x' = sent x /\
                  trace x' = trace x /\ terminal x' = TERMINAL_CANCEL).
  { unfold cancel in Hcan. unfold canceler_ok in *. destruct c, (canceler x) eqn:Hcr; try done.
    - case_bool_decide as Hopen; [|done]. injection Hcan as <-. simpl. rewrite Hopen.
      destruct Hc as (_ & Hcx & Ho). by split_and!.
    - injection Hcan as <-. simpl. destruct Hc as (Ht & _ & Ho). rewrite Ht. by split_and!.
    - injection Hcan as <-. simpl. destruct Hc as (Ht & Hcx & _). rewrite Ht. split_and!; try done.
      by destruct r as [[|[]]|]. }
  destruct Hmove as (Hne & Hc' & Hwork & Hsent & Htr & Hterm). split; [exact Hc'|].
  unfold worker_ok, quiet in *. rewrite Hwork, Hsent, Htr, Hterm.
  destruct (worker x); try naive_solver.
Qed.

Lemma step_inv c x x' : choice_allowed allowed c -> step c x = Some x' -> inv x -> inv x'.
Proof.
  intros Hall Hstep Hinv. destruct c; unfold step in Hstep;
    try (by eapply poll_inv); try (by eapply cancel_inv); try (by eapply run_inv).
  injection Hstep as <-. by apply close_inv.
Qed.

Lemma reachable_inv x : rtc (execution_step allowed) start x -> inv x.
Proof.
  cut (forall y, rtc (execution_step allowed) y x -> inv y -> inv x).
  { intros Hcut Hrun. eapply Hcut; [exact Hrun|apply start_inv]. }
  induction 1 as [|y z x' [c y0 z0 Hall Hstep] _ IH]; [done|]. eauto using step_inv.
Qed.

(** ** At most one final event *)

Lemma finalize_state s m : state (status (pub_task (finalize policy task_id context_id history s m))) <> Working.
Proof. unfold finalize, policy_outcome. repeat case_match; done. Qed.

Lemma settled_final claimed outcome traced task :
  settled claimed outcome traced task -> state (status task) <> Working.
Proof.
  intros [p _ Hl -> _|s _ Ho -> _].
  - destruct Hl as [s text ->|s w _ ->]; [done|apply finalize_state].
  - unfold cancel_publication. by destruct outcome.
Qed.

(** C3: An execution settles at most once, whatever the interleaving of the
    worker, a cancellation and the reader.  What was sent is a run of work events
    followed by at most one final task, after which the worker is done; that
    task was published by the party that won the claim (a result of the worker's
    own, or the resolved outcome of the accepted cancellation), and a required
    trace holds exactly its record. *)
Theorem one_final_event x :
  rtc (execution_step allowed) start x ->
  exists work finals, sent x = work ++ finals /\ Forall work_event work /\
    (finals = [] \/ exists task, finals = [Stream_Task task] /\ final (Stream_Task task) /\
       worker x = Finished /\ settled (terminal x) (cancel_outcome x) (trace x) task).
Proof.
  intros [_ Hw]%reachable_inv.
  assert (Hor : quiet x \/ (worker x = Finished /\ exists l task, sent x = l ++ [Stream_Task task] /\
                  Forall work_event l /\ settled (terminal x) (cancel_outcome x) (trace x) task)).
  { unfold worker_ok in Hw. destruct (worker x); try (left; naive_solver); [|naive_solver].
    left. destruct Hw as [Hs _]. unfold quiet. by rewrite Hs. }
  destruct Hor as [Hq|(Hfin & l & task & Hs & Hl & Hset)].
  - exists (sent x), []. rewrite app_nil_r. auto.
  - exists l, [Stream_Task task]. split_and!; [done|done|]. right. exists task.
    split_and!; [done|by eapply settled_final|done|done].
Qed.

(** ** Progress and termination *)

Lemma active_moves x : inv x -> worker x <> Finished -> exists c x', c <> ReaderCloses /\ step c x = Some x'.
Proof.
  intros [Hc Hw] Hne. pose (r := Run (Build_stamp "" 0) "" true).
  assert (Hhold : canceler x = Holding -> exists c x', c <> ReaderCloses /\ step c x = Some x').
  { intros Hh. exists CancelSignals. unfold step, cancel. rewrite Hh. eauto. }
  destruct (decide (canceler x = Holding)) as [Hh|Hnh]; [auto|]. clear Hhold.
  assert (Hrun : (exists x', run x (Build_stamp "" 0) "" true = Some x') ->
                 exists c x', c <> ReaderCloses /\ step c x = Some x').
  { intros [x' Hx]. by exists r, x'. }
  unfold worker_ok in Hw. destruct (worker x) as [|w|w event|w|w|p|p| |p|p| |task|] eqn:Hworker; try done;
    try (apply Hrun; unfold run; rewrite Hworker; by eauto).
  - apply Hrun. unfold run. rewrite Hworker, bool_decide_false by done. eauto.
  - exists (if receiver_open x then if cancelled x then PollCancelled else PollIdle else PollClosed).
    unfold step, poll. rewrite Hworker. destruct (receiver_open x) eqn:Hr, (cancelled x) eqn:Hcx; simpl; rewrite ?Hr, ?Hcx; eauto.
  - apply Hrun. unfold run, handle. rewrite Hworker. destruct event as [e|]; simpl; [|eauto].
    destruct (observe_event _ _ e); simpl; [|eauto]. destruct e; eauto. rewrite bool_decide_false by done. eauto.
  - destruct (completion_proposed w) eqn:Hp.
    + exists (if cancelled x then PollCancelled else PollCompletion). unfold step, poll. rewrite Hworker, Hp.
      destruct (cancelled x) eqn:Hcx; simpl; rewrite ?Hcx; eauto.
    + apply Hrun. unfold run. rewrite Hworker, Hp. eauto.
  - destruct Hw as (_ & Hterm & _). unfold canceler_ok in Hc. rewrite Hterm in Hc.
    destruct (canceler x) eqn:Hcr; [by destruct Hc|by destruct Hnh| |].
    + exists (CancelResolves None). unfold step, cancel. rewrite Hcr. eauto.
    + apply Hrun. unfold run. rewrite Hworker. destruct Hc as (_ & _ & Ho).
      destruct (cancel_outcome x); eauto. done.
Qed.

(** Moves left, when the worker has seen [events] of the mesh. *)
Definition rank (w : Worker) : N :=
  (match w with
   | Starting => 2 * limit_events limits + 9
   | Looping w => 2 * (limit_events limits - events (work_budget w)) + 8
   | Handling w _ => 2 * (limit_events limits - events (work_budget w)) + 7
   | Ended _ => 7
   | Finalizing _ => 6
   | Completing _ => 5
   | CompletingSend _ => 4
   | DeadlineHit => 3
   | Publishing _ | Canceling => 2
   | PublishingSend _ | CancelingSend _ => 1
   | Finished => 0
   end)%N.

(** What the loop's variables stay within. *)
Record work_within (w : Work) : Prop := {
  within_events : (events (work_budget w) <= limit_events limits)%N;
  within_artifacts : (len (work_artifacts w) <= seen_artifacts (work_budget w) <= limit_artifacts limits)%N;
  within_seen : (seen_artifacts (work_budget w) <= events (work_budget w))%N;
  within_manifests : len (work_manifests w) = len (work_artifacts w);
  within_bytes : (output_bytes (work_budget w) <= limit_output_bytes limits)%N }.

Definition within (w : Worker) : Prop :=
  match w with
  | Looping w | Handling w _ | Ended w | Finalizing w => work_within w
  | Completing p | CompletingSend p | Publishing p | PublishingSend p =>
      (len (trace_digests (pub_entry p)) <= limit_events limits)%N
  | _ => True
  end.

Definition worker_choice (c : choice) : bool :=
  match c with ReaderCloses | CancelClaims | CancelSignals | CancelResolves _ => false | _ => true end.

Context (Hlimit : (limit_events limits < u64_max)%N).

Lemma observe_event_Ok b e b' :
  (events b <= limit_events limits)%N -> (seen_artifacts b <= events b)%N -> observe_event limits b e = Ok b' ->
  events b' = (events b + 1)%N /\ (events b' <= limit_events limits)%N /\
  (output_bytes b' <= limit_output_bytes limits)%N /\
  match e with
  | MeshArtifact _ _ _ => seen_artifacts b' = (seen_artifacts b + 1)%N /\ (seen_artifacts b' <= limit_artifacts limits)%N
  | _ => seen_artifacts b' = seen_artifacts b
  end.
Proof using Hlimit.
  intros Hb Hs Ho. unfold observe_event in Ho. unfold saturating_add in *. inv_ok. simpl.
  split_and!; [lia|lia|lia|]. destruct e; try done. inv_ok. lia.
Qed.

Lemma fail_with_rank x s text : (rank (worker (fail_with x s text)) <= 2)%N /\ within (worker (fail_with x s text)).
Proof. unfold fail_with. destruct (claim_execution x); simpl; (split; [lia|]); [apply N.le_0_l|done]. Qed.

Lemma finalize_digests s m :
  (len (trace_digests (pub_entry (finalize policy task_id context_id history s m))) <= len (mat_manifests m))%N.
Proof.
  unfold finalize, policy_outcome, failed, publish, len. repeat case_match; simpl; try lia.
  rewrite length_fmap. lia.
Qed.

Lemma handle_rank x w event s i recorded x' :
  work_within w -> handle x w event s i recorded = Some x' ->
  (rank (worker x') < rank (Handling w event))%N /\ within (worker x').
Proof using Hlimit.
  intros [He Ha Hs Hm Hb]. unfold handle.
  assert (Hfail : forall text, (rank (worker (fail_with x s text)) < rank (Handling w event))%N /\
                               within (worker (fail_with x s text))).
  { intros text. destruct (fail_with_rank x s text). split; [simpl; lia|done]. }
  destruct event as [e|err]; simpl; [|by intros [= <-]].
  destruct (observe_event limits (work_budget w) e) as [b|err] eqn:Hobs; simpl; [|by intros [= <-]].
  apply observe_event_Ok in Hobs as (Hev & Hle & Hby & Hart); [|done|done].
  destruct e as [text|r|name media_type content|summary].
  - case_bool_decide; [done|]. intros [= <-]. destruct (send_work_event _ _); simpl; [|lia].
    split; [lia|]. split; simpl; lia.
  - intros [= <-]. destruct (tracing && negb recorded); [destruct (claim_execution x); simpl; lia|].
    simpl. split; [lia|]. split; simpl; lia.
  - intros [= <-]. destruct (collect_artifact i name media_type content) as [[a m]|]; simpl.
    + split; [lia|]. split; simpl; rewrite ?len_app; change (len [?y]) with 1%N; lia.
    + unfold invalid_artifact. destruct (claim_execution x); [|case_bool_decide]; simpl; (split; [lia|]);
        [apply N.le_0_l|done|done].
  - intros [= <-]. destruct (completion_proposed w); [apply Hfail|]. simpl.
    split; [lia|]. split; simpl; lia.
Qed.

Lemma run_rank x s i recorded x' :
  within (worker x) -> run x s i recorded = Some x' ->
  within (worker x') /\ (rank (worker x') < rank (worker x))%N.
Proof using Hlimit.
  intros Hb Hrun. unfold run in Hrun.
  destruct (worker x) as [|w|w event|w|w|p|p| |p|p| |task|] eqn:Hworker; try done.
  - case_bool_decide; [done|]. injection Hrun as <-. destruct (send_work_event _ _); simpl; [|split; [done|lia]].
    split; [|lia]. split; unfold len; simpl; lia.
  - apply handle_rank in Hrun; [tauto|done].
  - destruct (completion_proposed w); [done|]. injection Hrun as <-.
    edestruct fail_with_rank as [Hr Hw]. split; [exact Hw|]. simpl rank at 2. lia.
  - injection Hrun as <-. destruct (claim_execution x); simpl; [|split; done || lia]. split; [|lia].
    destruct Hb. pose proof (finalize_digests s (material w)). simpl in *. lia.
  - injection Hrun as <-. destruct (record _ _ _ _); simpl; split; done || lia.
  - injection Hrun as <-. destruct (send _ _); simpl; case_match; simpl; split; done || lia.
  - injection Hrun as <-. edestruct fail_with_rank as [Hr Hw]. split; [exact Hw|]. simpl rank at 2. lia.
  - injection Hrun as <-. destruct (record _ _ _ _); simpl; split; done || lia.
  - by injection Hrun as <-.
  - destruct (cancel_outcome x); [done|..]; injection Hrun as <-; destruct (record _ _ _ _); simpl; split; done || lia.
  - by injection Hrun as <-.
Qed.

Lemma poll_rank x c x' :
  within (worker x) -> poll x c = Some x' -> within (worker x') /\ (rank (worker x') < rank (worker x))%N.
Proof using Hlimit.
  intros Hb. unfold poll. destruct (worker x) eqn:Hworker; try done; repeat case_match; try done;
    intros [= <-]; simpl; (split; [done|lia]).
Qed.

Lemma step_rank c x x' :
  within (worker x) -> step c x = Some x' ->
  within (worker x') /\
  (rank (worker x') + (if worker_choice c then 1 else 0) <= rank (worker x))%N.
Proof using Hlimit.
  intros Hb Hstep. assert (Hcan : cancel x c = Some x' -> worker x' = worker x).
  { unfold cancel. repeat case_match; try done; by intros [= <-]. }
  destruct c; unfold step in Hstep; simpl worker_choice; cbv iota;
    try (apply poll_rank in Hstep as [Hw Hr]; [split; [done|lia]|done]);
    try (rewrite (Hcan Hstep); split; [done|lia]).
  - injection Hstep as <-. simpl. split; [done|lia].
  - apply run_rank in Hstep as [Hw Hr]; [|done]. split; [done|lia].
Qed.

Lemma run_all_rank cs x x' :
  within (worker x) -> run_all cs x = Some x' ->
  within (worker x') /\
  (rank (worker x') + len (filter (fun c => worker_choice c) cs) <= rank (worker x))%N.
Proof using Hlimit.
  revert x. induction cs as [|c cs IH]; intros x Hb Hrun.
  { injection Hrun as <-. split; [done|]. unfold len. simpl. lia. }
  unfold run_all in Hrun. simpl in Hrun.
  destruct (step c x) as [x1|] eqn:Hc.
  2:{ exfalso. clear -Hrun. induction cs; simpl in Hrun; [discriminate Hrun|auto]. }
  destruct (step_rank _ _ _ Hb Hc) as [Hb1 Hr1]. destruct (IH x1 Hb1 Hrun) as [Hb' Hr']. split; [done|].
  rewrite filter_cons. destruct (worker_choice c); simpl in *; rewrite ?len_cons; lia.
Qed.
End machine.

Section liveness.
Context `{Sha256, HmacSha256, PolicyCodec, AttestationScheme, RecordCodec, MeshCodec}.

Lemma run_all_reaches policy limits task_id context_id history request_digest tracing allowed cs x x' :
  Forall (choice_allowed allowed) cs ->
  run_all policy limits task_id context_id history request_digest tracing cs x = Some x' ->
  rtc (execution_step policy limits task_id context_id history request_digest tracing allowed) x x'.
Proof.
  intros Hall. revert x. induction Hall as [|c cs Hc Hcs IH]; intros x Hrun.
  { injection Hrun as <-. apply rtc_refl. }
  unfold run_all in Hrun. simpl in Hrun.
  destruct (step _ _ _ _ _ _ _ c x) as [x1|] eqn:Hs.
  - eapply rtc_l; [by econstructor|]. by apply IH.
  - exfalso. clear -Hrun. induction cs; simpl in Hrun; [discriminate Hrun|auto].
Qed.


(** ** The executor behind the guard *)

(** An artifact event that carries its text inline. *)
Definition plain_event (e : MeshEvent) : Prop :=
  match e with MeshArtifact _ _ content => internal_artifact_payload content = None | _ => True end.

Lemma plain_carries i name media_type content a m meta :
  plain_event (MeshArtifact name media_type content) ->
  collect_artifact i name media_type content = Some (a, m) -> carries (mark_accepted meta a) m content.
Proof.
  simpl. unfold collect_artifact. intros ->. intros [= <- <-]. split; [done| |done].
  eexists. split; [reflexivity|done].
Qed.

Lemma policy_metadata_Ok label record meta :
  policy_metadata label record = Ok meta ->
  exists v, record = Ok v /\ meta = {["smesh.completionPolicy" := JObject [("record", v); ("status", JString label)]]}.
Proof. unfold policy_metadata. intros Hm. inv_ok. eauto. Qed.

(** The completion record of a published task is read back as it was written. *)
Lemma metadata_record s task_id context_id st text arts hist label v :
  let task := task_response s task_id context_id st text arts hist
                (Some {["smesh.completionPolicy" := JObject [("record", v); ("status", JString label)]]}) in
  completion_metadata task = Some (JObject [("record", v); ("status", JString label)]) /\
  policy_record label (completion_metadata task) = Some v.
Proof.
  unfold completion_metadata, policy_record, has_status. simpl. rewrite lookup_singleton_eq. simpl.
  split; [done|]. by rewrite bool_decide_true.
Qed.

Lemma failed_visible policy s task_id context_id text history :
  visible policy false (task_response s task_id context_id Failed text None history None).
Proof. by apply visible_other. Qed.

Lemma finalize_visible policy task_id context_id history request_digest s w :
  collected_work plain_event w ->
  visible policy false (pub_task (finalize policy task_id context_id history s (material request_digest w))).
Proof.
  intros Hcol. unfold finalize.
  match goal with |- context [evaluate policy ?snap] => set (snapshot := snap) end.
  destruct (evaluate policy snapshot) as [d|] eqn:He; [|apply failed_visible].
  pose proof (evaluate_verifies _ _ _ He) as Hver. destruct d as [r|c|c rs].
  - destruct (policy_metadata "accepted" _) as [meta|] eqn:Hm; [|apply failed_visible].
    apply policy_metadata_Ok in Hm as (v & Hv & ->). apply accepted_claims in He as (Ht & Hc & Hd).
    eapply visible_completed; [done| |by apply receipt_value_roundtrip|done|done|done|].
    { apply metadata_record. }
    simpl. exists (work_manifests w). split; [|exact Hd].
    apply Forall2_fmap_l. eapply Forall2_impl; [exact Hcol|].
    intros a m (i & name & mt & content & Hp & Hcoll). exists content. by eapply plain_carries.
  - unfold policy_outcome. destruct (policy_metadata _ _) as [meta|] eqn:Hm; [|apply failed_visible].
    apply policy_metadata_Ok in Hm as (v & Hv & ->).
    eapply visible_waiting; [done|done| |by apply checkpoint_value_roundtrip|done]. apply metadata_record.
  - unfold policy_outcome. destruct (policy_metadata _ _) as [meta|] eqn:Hm; [|apply failed_visible].
    apply policy_metadata_Ok in Hm as (v & Hv & ->). apply visible_other; try done.
    intros value. unfold completion_metadata. simpl. rewrite lookup_singleton_eq. intros [= <-].
    split; [done|]. unfold has_status. by rewrite bool_decide_true.
Qed.

Lemma settled_visible policy task_id context_id history request_digest tracing claimed outcome traced task :
  settled policy task_id context_id history request_digest tracing plain_event claimed outcome traced task ->
  visible policy false task.
Proof.
  intros [p _ [s text ->|s w Hcol ->] -> _|s _ _ -> _].
  - apply failed_visible.
  - by apply finalize_visible.
  - unfold cancel_publication. destruct outcome; by apply visible_other.
Qed.

Lemma work_event_passes policy item : work_event item -> validate_item policy (Ok item) = Ok item.
Proof.
  destruct item as [task| | |]; try done. intros (Hs & Ha & Hm). simpl. unfold validate_task_with_policy.
  rewrite (proj2 (validate_task_iff policy false task)); [done|].
  apply visible_other; rewrite ?Hs, ?Ha; try done. intros v. unfold completion_metadata. by rewrite Hm.
Qed.

(** C18: The guard lets the executor speak.  For a worker whose artifacts are
    inline texts, every event an execution ever sends (in any interleaving, with
    any evidence and any policy outcome) passes the guard unchanged. *)
Theorem guard_passes_executor policy limits task_id context_id history request_digest tracing x :
  rtc (execution_step policy limits task_id context_id history request_digest tracing plain_event) start x ->
  validate_stream policy (Ok <$> sent x) = Ok <$> sent x.
Proof.
  intros [_ Hw]%reachable_inv. unfold validate_stream. rewrite <- list_fmap_compose.
  apply list_fmap_ext. intros n item Hitem%list_elem_of_lookup_2. simpl.
  assert (Hor : quiet x \/ exists l task, sent x = l ++ [Stream_Task task] /\ Forall work_event l /\
    settled policy task_id context_id history request_digest tracing plain_event
      (terminal x) (cancel_outcome x) (trace x) task).
  { unfold worker_ok in Hw. destruct (worker x); try (left; naive_solver); [|naive_solver].
    left. destruct Hw as [Hs _]. unfold quiet. by rewrite Hs. }
  destruct Hor as [Hq|(l & task & Hs & Hl & Hset)].
  - unfold quiet in Hq. rewrite Forall_forall in Hq. by apply work_event_passes, Hq.
  - rewrite Hs in Hitem. apply elem_of_app in Hitem as [Hitem| ->%list_elem_of_singleton].
    + rewrite Forall_forall in Hl. by apply work_event_passes, Hl.
    + simpl. apply settled_visible, validate_task_iff in Hset.
      unfold validate_task_with_policy. by rewrite Hset.
Qed.

(** C40: An accepted completion with a binary artifact is published and can then
    never be read: the executor sends the task as completed, and the guard
    refuses it, because it recomputes digests from text parts only. *)
Theorem binary_completion_refused policy task_id context_id history s m r v i name media_type bytes :
  evaluate policy {| snap_task_id := task_id; snap_context_id := context_id;
    snap_request_digest := mat_request_digest m; snap_artifacts := mat_manifests m;
    snap_evidence := mat_evidence m |} = Ok (Accepted r) ->
  receipt_to_value r = Ok v -> candidate i name media_type (raw_part bytes) ∈ mat_artifacts m ->
  let task := pub_task (finalize policy task_id context_id history s m) in
  state (status task) = Completed /\ validate_task_with_policy policy task = Err invalid_agent_response.
Proof.
  intros He Hv Ha task. subst task. unfold finalize. rewrite He.
  destruct (policy_metadata "accepted" (receipt_to_value r)) as [meta|e] eqn:Hm.
  2:{ unfold policy_metadata in Hm. rewrite Hv in Hm. done. }
  simpl. split; [done|].
  match goal with |- ?c = _ => destruct c as [[]|e] eqn:Hval end.
  - exfalso. apply validate_task_iff in Hval as [value r' _ _ _ _ _ _ Harts|? ? ?|?]; [|done..].
    simpl in Harts. destruct Harts as (ms & Hms & _). apply Forall2_fmap_l in Hms.
    apply list_elem_of_lookup_1 in Ha as [k Hk].
    destruct (Forall2_lookup_l _ _ _ _ _ Hms Hk) as (mf & _ & text & [_ (part & Hp & Hc & _) _]).
    simpl in Hp. injection Hp as <-. discriminate Hc.
  - f_equal. by eapply validate_task_errs.
Qed.

Lemma finalize_completed policy task_id context_id history s m :
  state (status (pub_task (finalize policy task_id context_id history s m))) = Completed ->
  exists r meta, evaluate policy {| snap_task_id := task_id; snap_context_id := context_id;
    snap_request_digest := mat_request_digest m; snap_artifacts := mat_manifests m;
    snap_evidence := mat_evidence m |} = Ok (Accepted r) /\
    policy_metadata "accepted" (receipt_to_value r) = Ok meta /\
    artifacts (pub_task (finalize policy task_id context_id history s m))
      = Some (mark_accepted meta <$> mat_artifacts m) /\
    metadata (pub_task (finalize policy task_id context_id history s m)) = Some meta.
Proof.
  unfold finalize, policy_outcome. destruct (evaluate _ _) as [[r|c|c rs]|]; [|repeat case_match; done..].
  destruct (policy_metadata _ _) as [meta|] eqn:Hm; [|done]. intros _. by exists r, meta.
Qed.


(** C37: An accepted cancellation can end without its final event, although the
    reader is listening and the mesh confirmed the stop.  If the request is
    accepted after the worker last looked for it and the worker's own next step
    is to settle (here: the mesh stream ended), the worker loses the claim and
    stops silently. *)
Theorem cancellation_can_be_lost policy limits task_id context_id history request_digest tracing (s : stamp) :
  exists cs x working,
    run_all policy limits task_id context_id history request_digest tracing cs start = Some x /\
    worker x = Finished /\ canceler x = Resolved /\ cancel_outcome x = OUTCOME_CANCELED /\
    receiver_open x = true /\ sent x = [Stream_Task working] /\ state (status working) = Working.
Proof.
  exists [Run s "" true; PollEnd; CancelClaims; Run s "" true; CancelSignals; CancelResolves (Some (Ok tt))].
  by eexists _, _.
Qed.
End liveness.

(** ** A concrete execution *)

#[local] Existing Instance sample_sha256.
#[local] Existing Instance sample_hmac.
#[local] Existing Instance Policy.sample_codec.
#[local] Existing Instance sample_scheme.
#[local] Existing Instance Guard.sample_records.

(** Every event is one byte long; an internal payload is a binary one, decoded to
    itself. *)
#[local] Instance sample_mesh : MeshCodec := {|
  event_to_vec := fun _ => Ok "e"; request_to_vec := fun r => Ok (mesh_text r);
  payload_from_str := fun s => Some (Binary s); artifact_from_str := fun _ => None;
  base64_decode := Some |}.

Definition sample_stamp : stamp := {| stamp_id := "m"; stamp_time := 7 |}.
Definition sample_run : choice := Run sample_stamp "id" true.

(** A worker that delivers the sample artifacts with their evidence. *)
Definition sample_events : list MeshEvent :=
  [Progress "half"; MeshArtifact "b" "text/plain" "bb"; MeshArtifact "a" "text/plain" "aa"]
  ++ (Evidence <$> sample_evidence true 8000) ++ [MeshCompleted "done"].

Definition sample_choices : list choice :=
  sample_run :: flat_map (fun e => [PollEvent (Ok e); sample_run]) sample_events
  ++ [PollEnd; PollCompletion; sample_run; sample_run; sample_run].

Abbreviation sample_execution :=
  (run_all (sample_policy development) (with_execution_limits default_limits) "task" "ctx" []
    (content_digest "q") true sample_choices start).

Lemma sample_plain : Forall (choice_allowed plain_event) sample_choices.
Proof. repeat constructor. Qed.

(** The run sends the working task, one progress update and the completed task. *)
Lemma sample_completes :
  (fun x => match sent x with
            | [Stream_Task t; StatusUpdate _; Stream_Task u] => (state (status t), state (status u))
            | _ => (Unspecified, Unspecified)
            end) <$> sample_execution = Some (Working, Completed).
Proof. vm_compute. reflexivity. Qed.

Lemma sample_execution_Some : exists x, sample_execution = Some x.
Proof. pose proof sample_completes as Hs. destruct sample_execution as [x|]; [by exists x|discriminate Hs]. Qed.

Lemma sample_reaches allowed x :
  Forall (choice_allowed allowed) sample_choices -> sample_execution = Some x ->
  rtc (execution_step (sample_policy development) (with_execution_limits default_limits) "task" "ctx" []
         (content_digest "q") true allowed) start x.
Proof. intros Hall Hx. exact (run_all_reaches _ _ _ _ _ _ _ _ _ _ _ Hall Hx). Qed.

Lemma one_final_event_witness :
  exists x work finals, sample_execution = Some x /\ sent x = work ++ finals /\ Forall work_event work.
Proof.
  destruct sample_execution_Some as [x Hx].
  destruct (one_final_event (sample_policy development) (with_execution_limits default_limits) "task" "ctx" []
    (content_digest "q") true plain_event x) as (work & finals & Hs & Hw & _).
  - apply sample_reaches; [apply sample_plain|exact Hx].
  - exists x, work, finals. split; [exact Hx|]. split; [exact Hs|exact Hw].
Defined.


Lemma guard_passes_executor_witness :
  exists x, sample_execution = Some x /\
    validate_stream (sample_policy development) (Ok <$> sent x) = Ok <$> sent x.
Proof.
  destruct sample_execution_Some as [x Hx]. exists x. split; [exact Hx|].
  apply (guard_passes_executor (sample_policy development) (with_execution_limits default_limits) "task" "ctx" []
    (content_digest "q") true x).
  apply sample_reaches; [apply sample_plain|exact Hx].
Defined.


Definition sample_material : CompletionMaterial := {|
  mat_request_digest := content_digest "q";
  mat_artifacts := [candidate "1" "b" "text/plain" (raw_part "bb"); candidate "2" "a" "text/plain" (raw_part "aa")];
  mat_manifests := sample_artifacts; mat_evidence := sample_evidence true 8000 |}.

Lemma binary_completion_refused_witness :
  validate_task_with_policy (sample_policy development)
    (pub_task (finalize (sample_policy development) "task" "ctx" [] sample_stamp sample_material))
  = Err invalid_agent_response.
Proof.
  destruct (evaluate (sample_policy development) (sample_snapshot (sample_evidence true 8000)))
    as [[r|c|c rs]|e] eqn:He; [|vm_compute in He; discriminate He..].
  destruct (receipt_to_value r) as [v|e] eqn:Hv; [|discriminate Hv].
  refine (proj2 (binary_completion_refused (sample_policy development) "task" "ctx" [] sample_stamp
    sample_material r v "1" "b" "text/plain" "bb" He Hv _)).
  left.
Defined.

(** A second message to a task that waits for ratification. *)
Definition sample_checkpoint : PolicyCheckpoint :=
  match evaluate (sample_policy ratified_spec) (sample_snapshot (sample_evidence true 8000)) with
  | Ok (AwaitingRatification c) => c
  | _ => Build_PolicyCheckpoint (tuple_claims ("", "", "", "", 0%N, "", "", "", [], 0%N)) ""
  end.

Definition sample_waiting : Task := {|
  id := "task"; context_id := "ctx";
  status := {| state := InputRequired; status_message := None; timestamp := None |};
  artifacts := None; history := None;
  metadata := Some {["smesh.completionPolicy" := JObject
    [("record", match checkpoint_to_value sample_checkpoint with Ok v => v | Err _ => JNull end);
     ("status", JString "awaitingRatification")]]} |}.

Lemma start_is_admitted_witness :
  exists d, d = content_digest "q" /\ is_terminal_task (Some sample_waiting) = false.
Proof.
  destruct (execute (sample_policy ratified_spec) 100 default_limits sample_stamp true "task" "ctx"
    (Some (agent_message "m1" "task" "ctx" "again")) (Some sample_waiting)) as [e|p|hist request d budget] eqn:He.
  1,2: exfalso; assert (Hs : match execute (sample_policy ratified_spec) 100 default_limits sample_stamp true "task" "ctx"
    (Some (agent_message "m1" "task" "ctx" "again")) (Some sample_waiting) with Start _ _ _ _ => true | _ => false end = true)
    by (vm_compute; reflexivity); rewrite He in Hs; discriminate Hs.
  exists d. split.
  - assert (Hd : match execute (sample_policy ratified_spec) 100 default_limits sample_stamp true "task" "ctx"
      (Some (agent_message "m1" "task" "ctx" "again")) (Some sample_waiting) with
      Start _ _ d _ => bool_decide (d = content_digest "q") | _ => false end = true) by (vm_compute; reflexivity).
    rewrite He in Hd. by apply bool_decide_eq_true in Hd.
  - exact (proj1 (proj2 (start_is_admitted (sample_policy ratified_spec) 100 default_limits sample_stamp true "task" "ctx"
      (Some (agent_message "m1" "task" "ctx" "again")) (Some sample_waiting) hist request d budget He))).
Defined.
