(* ===== verification/Traced.v ===== *)
(** * The executor and its required trace

    An executor with a runtime trace publishes a final event only once the
    capture has recorded it ([record_terminal_trace] and
    [record_cancellation_terminal_trace] of [executor.rs], on the capture of
    [runtime_trace.rs]).  In [Executor] the success of that record is a choice of
    the environment; here the two components are put together. *)

From S2P Require Import Prelude Text Trace Protocol Input Policy Quota Guard Executor.

Section traced.
Context `{Sha256, HmacSha256, PolicyCodec, AttestationScheme, RecordCodec, MeshCodec}.

(** The record of a publication. *)
Definition record_entry (now : N) (task_id context_id : string) (e : TraceEntry) :
    action RuntimeEventCapture RuntimeTraceError unit :=
  match trace_outcome e with
  | None => record_terminal now task_id context_id (trace_terminal e) (trace_digests e)
  | Some outcome => record_cancellation_terminal now task_id context_id (trace_terminal e) outcome
  end.

Section execution.
Context (policy : VersionedCompletionPolicy) (limits : ExecutionLimits).
Context (task_id context_id : string) (history : list Message) (request_digest : string) (tracing : bool).

(** The next thing [x] does is to record the publication [p]. *)
Inductive recording (x : Execution) (p : publication) : Prop :=
  | recording_result : worker x = Completing p \/ worker x = Publishing p -> recording x p
  | recording_cancel s : worker x = Canceling -> cancel_outcome x <> OUTCOME_PENDING ->
      p = cancel_publication task_id context_id history (cancel_outcome x) s -> recording x p.

Let reaches := rtc (execution_step policy (with_execution_limits limits) task_id context_id history
                      request_digest tracing (fun _ => True)) start.

Lemma limits_clamped : (limit_events (with_execution_limits limits) <= 16)%N.
Proof. simpl. destruct (N.ltb_spec 16 (limit_events limits)); lia. Qed.

Lemma reaches_within x : reaches x -> within (with_execution_limits limits) (worker x).
Proof.
  pose proof limits_clamped as Hl.
  apply (rtc_ind_r (fun y => within (with_execution_limits limits) (worker y)) start); [done|].
  intros y z _ [c y' z' _ Hs] IH. eapply step_rank in Hs as [Hw _]; [done| |done]. unfold u64_max. lia.
Qed.

Lemma digest_public d :
  is_digest d = true -> canonical_sha256 d = true /\ bounded_public_value d = true.
Proof.
  unfold is_digest. intros [Hlen Hw]%andb_true_iff.
  destruct (strip_prefix "sha256:" d) as [digits|] eqn:Hp; [|done].
  assert (Hg : str_all is_ascii_graphic d = true).
  { apply strip_prefix_Some in Hp as ->. rewrite str_all_app. apply andb_true_iff. split; [done|].
    revert Hw. rewrite !str_all_spec. intros Hw c Hc%Hw. revert Hc.
    unfold is_ascii_graphic, is_ascii_digit, in_range. rewrite orb_true_iff, !andb_true_iff, !N.leb_le. lia. }
  split.
  - unfold canonical_sha256. rewrite Hlen, Hp. simpl. revert Hw. rewrite !str_all_spec. intros Hw c Hc%Hw.
    unfold is_ascii_hexdigit. by rewrite Hc.
  - apply N.eqb_eq in Hlen. unfold bounded_public_value. rewrite Hlen.
    rewrite bool_decide_eq_false_2 by (intros Heq; by rewrite Heq in Hlen). simpl.
    rewrite str_all_spec in Hg. rewrite chars_ascii.
    + apply negb_true_iff. rewrite <- not_true_iff_false, existsb_exists.
      intros (k & Hk & Hctl). apply list_elem_of_In, list_elem_of_fmap in Hk as (c & -> & Hc). apply Hg in Hc.
      revert Hc Hctl. unfold is_ascii_graphic, in_range, is_control.
      rewrite orb_true_iff, !andb_true_iff, !N.leb_le. lia.
    + apply str_all_spec. intros c Hc%Hg. revert Hc. unfold is_ascii_graphic, in_range.
      rewrite andb_true_iff, !N.leb_le, N.ltb_lt. lia.
Qed.

(** What the capture asks of a terminal record. *)
Definition recordable (e : TraceEntry) : Prop :=
  match trace_outcome e with
  | None => trace_terminal e <> Trace_Canceled /\ (len (trace_digests e) <= 16)%N /\
            forall d, d ∈ trace_digests e -> is_digest d = true
  | Some outcome =>
      trace_digests e = [] /\
      trace_terminal e = match outcome with CooperativeStop => Trace_Canceled | _ => Trace_Failed end
  end.

Lemma finalize_entry s m :
  let e := pub_entry (finalize policy task_id context_id history s m) in
  trace_outcome e = None /\ trace_terminal e <> Trace_Canceled /\
  (forall d, d ∈ trace_digests e -> d ∈ artifact_digest <$> mat_manifests m).
Proof.
  unfold finalize, policy_outcome, failed, publish. cbn zeta.
  repeat case_match; simpl; (split_and!; [done|done|]); try done; by intros d ?%not_elem_of_nil.
Qed.

Lemma collected_digests allowed w m :
  collected_work allowed w -> m ∈ work_manifests w -> is_digest (artifact_digest m) = true.
Proof.
  intros Hc Hm. apply list_elem_of_lookup_1 in Hm as [k Hk].
  destruct (Forall2_lookup_r _ _ _ _ _ Hc Hk) as (a & _ & i & name & media_type & content & _ & Hcol).
  unfold collect_artifact in Hcol. repeat case_match; simplify_option_eq; apply content_digest_wf.
Qed.

Lemma recording_recordable x p : reaches x -> recording x p -> recordable (pub_entry p).
Proof.
  intros Hr Hrec. pose proof (reaches_within x Hr) as Hw. apply reachable_inv in Hr as [_ Hok].
  pose proof limits_clamped as Hl. unfold worker_ok in Hok.
  assert (Hlegit : forall q, (len (trace_digests (pub_entry q)) <= 16)%N ->
    legit policy task_id context_id history request_digest (fun _ => True) q -> recordable (pub_entry q)).
  { clear. intros q Hlen [s text ->|s w Hcol ->].
    - split_and!; [done|done|]. by intros d ?%not_elem_of_nil.
    - destruct (finalize_entry s (material request_digest w)) as (Ho & Ht & Hd). unfold recordable. rewrite Ho.
      split_and!; [done|done|]. intros d (m & -> & Hm)%Hd%list_elem_of_fmap. by eapply collected_digests. }
  destruct Hrec as [Hwk|s Hwk Ho ->].
  - destruct Hwk as [Hwk|Hwk]; rewrite Hwk in *; cbn [within] in Hw; (apply Hlegit; [lia|apply Hok]).
  - unfold recordable, cancel_publication. by destruct (cancel_outcome x).
Qed.

(** Such a record goes straight to the capture. *)
Lemma record_entry_gateway now e :
  recordable e -> record_entry now task_id context_id e =
    record_required_gateway now task_id context_id Kind_TerminalOutput
      (Details_TerminalOutput (trace_terminal e) (trace_digests e) (trace_outcome e)).
Proof.
  unfold record_entry, recordable. destruct (trace_outcome e) as [o|].
  - intros [Hds Hst]. rewrite Hds. unfold record_cancellation_terminal. rewrite Hst. by destruct o.
  - intros (Hst & Hlen & Hds). unfold record_terminal. rewrite bool_decide_eq_false_2 by done.
    rewrite (proj2 (N.ltb_ge _ _) Hlen). simpl. destruct (existsb _ _) eqn:Hex; [|done].
    apply existsb_exists in Hex as (d & Hin%list_elem_of_In & Hb). apply Hds, digest_public in Hin as [_ Hp].
    by rewrite Hp in Hb.
Qed.

(** A recordable entry is recorded by every capture with room for a number. *)
Lemma record_entry_ok now e c :
  recordable e -> bounded_public_value task_id = true -> bounded_public_value context_id = true ->
  required_capacity (capture c) <> 0%N -> (next_sequence (capture c) < u64_max)%N ->
  exists c' n ev, record_entry now task_id context_id e c = (c', Ok tt) /\ failure c' = failure c /\
    renumber n ev ∈ trace_events (trace_snapshot c') /\
    event_task_id ev = Some task_id /\ event_context_id ev = Some context_id /\
    details ev = Details_TerminalOutput (trace_terminal e) (trace_digests e) (trace_outcome e).
Proof.
  intros He Ht Hc Hcap Hn.
  assert (Hd : details_are_bounded (Details_TerminalOutput (trace_terminal e) (trace_digests e) (trace_outcome e)) false = true).
  { unfold recordable in He. simpl. destruct (trace_outcome e) as [o|].
    - destruct He as [-> ->]. by destruct o.
    - destruct He as (Hst & Hlen & Hds). rewrite bool_decide_eq_false_2 by done. simpl.
      apply andb_true_iff. split; [by apply N.leb_le|]. apply forallb_forall. intros d Hin%list_elem_of_In.
      by apply digest_public, Hds. }
  destruct (gateway_keeps now task_id context_id _ c Ht Hc Hd Hcap Hn) as (c' & rs & r & Hrec & Hf & Hreq & _ & Het & Hec & Hdt).
  destruct (snapshot_has_required c' r) as [n Hin]; [rewrite Hreq; apply elem_of_app; right; by left|].
  exists c', n, (event r). split_and!; try done.
  by rewrite record_entry_gateway.
Qed.
End execution.

(** The required trace never stands in the way of a final event.  Whatever an
    execution is about to publish, in any interleaving, a capture with a non-empty
    window accepts its record as long as the task and context ids are public
    values; the record is then part of every snapshot taken at that point, with
    the digests of exactly the artifacts the policy judged. *)
Theorem final_events_traceable policy limits task_id context_id history request_digest tracing x p now c :
  rtc (execution_step policy (with_execution_limits limits) task_id context_id history request_digest tracing
        (fun _ => True)) start x ->
  recording task_id context_id history x p ->
  bounded_public_value task_id = true -> bounded_public_value context_id = true ->
  required_capacity (capture c) <> 0%N -> (next_sequence (capture c) < u64_max)%N ->
  exists c' n ev, record_entry now task_id context_id (pub_entry p) c = (c', Ok tt) /\ failure c' = failure c /\
    renumber n ev ∈ trace_events (trace_snapshot c') /\
    event_task_id ev = Some task_id /\ event_context_id ev = Some context_id /\
    details ev = Details_TerminalOutput (trace_terminal (pub_entry p)) (trace_digests (pub_entry p))
                   (trace_outcome (pub_entry p)).
Proof.
  intros Hr Hrec. apply record_entry_ok. by eapply recording_recordable.
Qed.

(** ** Unrecordable executions *)

Definition refused (c : choice) : Prop := match c with Run _ _ recorded => recorded = false | _ => True end.

Section refused.
Context (policy : VersionedCompletionPolicy) (limits : ExecutionLimits).
Context (task_id context_id : string) (history : list Message) (request_digest : string).

Lemma fail_with_trace x s text : Executor.trace (fail_with task_id context_id history x s text) = Executor.trace x.
Proof. unfold fail_with, claim_execution. by case_bool_decide. Qed.

Lemma claim_trace x : Executor.trace (default x (claim_execution x)) = Executor.trace x.
Proof. unfold claim_execution. by case_bool_decide. Qed.

Lemma send_trace x x' item : send x item = Some x' -> Executor.trace x' = Executor.trace x.
Proof. unfold send. destruct (receiver_open x); [by intros [= <-]|done]. Qed.

Lemma send_work_trace x item (k : Execution -> Execution) (stop : Execution) :
  (forall y, Executor.trace (k y) = Executor.trace y) -> Executor.trace stop = Executor.trace x ->
  Executor.trace match send_work_event x item with Some y => k y | None => stop end = Executor.trace x.
Proof.
  intros Hk Hs. unfold send_work_event. case_bool_decide; [|done]. simpl.
  destruct (send x item) as [y|] eqn:Hy; [|done]. rewrite Hk. by eapply send_trace.
Qed.

Lemma handle_trace x w event s i recorded x' :
  handle limits task_id context_id history true x w event s i recorded = Some x' ->
  Executor.trace x' = Executor.trace x.
Proof.
  unfold handle. destruct (e ← event; _) as [[[text|r|name media_type content|summary] w']|err].
  - case_bool_decide; [done|]. intros [= <-]. by apply send_work_trace.
  - intros [= <-]. destruct recorded; [done|]. apply claim_trace.
  - intros [= <-]. destruct (collect_artifact _ _ _ _) as [[a m]|]; [done|]. unfold invalid_artifact, claim_execution.
    by repeat case_bool_decide.
  - intros [= <-]. destruct (completion_proposed w'); [apply fail_with_trace|done].
  - intros [= <-]. apply fail_with_trace.
Qed.

Lemma run_trace x s i x' :
  run policy limits task_id context_id history request_digest true x s i false = Some x' ->
  Executor.trace x' = Executor.trace x.
Proof.
  unfold run, record. cbn [negb]. destruct (worker x) as [|w|w event|w|w|p|p| |p|p| |task|]; try done.
  - case_bool_decide; [done|]. intros [= <-]. by apply send_work_trace.
  - apply handle_trace.
  - destruct (completion_proposed w); [done|]. intros [= <-]. apply fail_with_trace.
  - intros [= <-]. unfold claim_execution. by case_bool_decide.
  - by intros [= <-].
  - intros [= <-]. destruct (send x _) as [y|] eqn:Hy; [apply send_trace in Hy as <-|]; by case_match.
  - intros [= <-]. apply fail_with_trace.
  - by intros [= <-].
  - intros [= <-]. simpl. destruct (send x _) as [y|] eqn:Hy; simpl; [by eapply send_trace|done].
  - destruct (cancel_outcome x); [done|..]; by intros [= <-].
  - intros [= <-]. simpl. destruct (send x _) as [y|] eqn:Hy; simpl; [by eapply send_trace|done].
Qed.

Lemma refused_step c x x' :
  refused c -> step policy limits task_id context_id history request_digest true c x = Some x' ->
  Executor.trace x' = Executor.trace x.
Proof.
  intros Hc. unfold step, cancel, poll.
  destruct c as [| | | r| | | | |event| | |s i recorded]; simpl in Hc;
    try (repeat case_match; try done; by intros [= <-]).
  subst recorded. apply run_trace.
Qed.

Lemma refused_run cs x x' :
  Forall refused cs -> run_all policy limits task_id context_id history request_digest true cs x = Some x' ->
  Executor.trace x' = Executor.trace x.
Proof.
  intros Hcs. revert x. induction Hcs as [|c cs Hc Hcs IH]; intros x Hrun; [by injection Hrun as <-|].
  unfold run_all in Hrun. simpl in Hrun.
  destruct (step _ _ _ _ _ _ _ c x) as [x1|] eqn:Hs.
  - rewrite (IH x1 Hrun). by eapply refused_step.
  - exfalso. clear -Hrun. induction cs; simpl in Hrun; [discriminate Hrun|auto].
Qed.
End refused.

End traced.

(** ** Samples *)

Section samples.
#[local] Existing Instance sample_sha256.
#[local] Existing Instance sample_hmac.
#[local] Existing Instance Policy.sample_codec.
#[local] Existing Instance sample_scheme.
#[local] Existing Instance Guard.sample_records.
#[local] Existing Instance sample_mesh.

Definition sample_silent : list choice := [Run sample_stamp "id" false; PollEnd; Run sample_stamp "id" false].

Definition sample_failure (context_id : string) : publication :=
  failed "task" context_id [] sample_stamp "SMESH worker stream ended without a completion proposal".

Lemma final_events_traceable_witness :
  exists c', record_entry 9 "task" "ctx" (pub_entry (sample_failure "ctx")) (new_with_retention 4 1 4) = (c', Ok tt).
Proof.
  pose (o := run_all (sample_policy development) (with_execution_limits default_limits) "task" "ctx" []
               (content_digest "q") true sample_silent start).
  assert (Hx : exists x, o = Some x /\ worker x = Publishing (sample_failure "ctx")) by (eexists; split; reflexivity).
  destruct Hx as (x & Hx & Hw).
  destruct (final_events_traceable (sample_policy development) default_limits "task" "ctx" [] (content_digest "q") true
    x (sample_failure "ctx") 9 (new_with_retention 4 1 4)) as (c' & n & ev & Hrec & _).
  - eapply run_all_reaches; [|exact Hx]. repeat constructor.
  - apply recording_result. right. exact Hw.
  - reflexivity.
  - reflexivity.
  - discriminate.
  - reflexivity.
  - exists c'. exact Hrec.
Defined.

End samples.
