(* ===== verification/Concordance.v ===== *)
(** * The text-concordance workload

    [text_concordance.rs]: the closed input shape, the deterministic computation
    of the artifact (byte, line and word counts and word frequencies), the
    processor that proposes it to the mesh, and the validation of such a proposal.
    The counters are [u64]s, the frequencies a map, and the loop over the bytes
    keeps the start index of the word it is in, as the code does.  The canonical
    JSON of the artifact and the base64 and JSON encoders of the mesh envelope are
    parameters. *)

From S2P Require Import Prelude Text Trace Protocol Policy Quota Executor.

(** ** Data *)

Definition STANDALONE_TEXT_CONCORDANCE_PROFILE_V1 : string := "standalone-postgres-text-concordance/v1".
Definition TEXT_CONCORDANCE_WORKLOAD_V1 : string := "text-concordance/v1".
Definition TEXT_CONCORDANCE_ARTIFACT_NAME_V1 : string := "text-concordance.v1.json".
Definition TEXT_CONCORDANCE_MEDIA_TYPE : string := "application/json".

Record TextConcordanceLimits := {
  max_input_bytes : N;
  max_line_count : N;
  max_ascii_word_count : N;
  max_word_frequency : N;
  max_artifact_bytes : N }.

Definition default_concordance_limits : TextConcordanceLimits := {|
  max_input_bytes := 64 * 1024; max_line_count := 64 * 1024; max_ascii_word_count := 32 * 1024;
  max_word_frequency := 32 * 1024; max_artifact_bytes := 1024 * 1024 |}.

Record TextConcordanceOutput := {
  out_request_digest : string;
  artifact_bytes : string;
  out_artifact_digest : string;
  out_manifest : ArtifactManifest;
  out_artifact_set_digest : string }.

Inductive TextConcordanceError :=
  | InputBytesExceeded | LineCountExceeded | AsciiWordCountExceeded | WordFrequencyExceeded
  | ArtifactBytesExceeded | CounterOverflow | CanonicalEncoding | InvalidRuntimeProposal.

Inductive TextConcordanceInputError :=
  | PartCount | ConcordanceUnsupportedPart | PartDecorations | MessageExtensions | WrongRole
  | ConcordanceInputBytesExceeded.

Record CanonicalArtifact := {
  canonical_schema : string;
  input_sha256 : string;
  utf8_bytes : N;
  line_count : N;
  ascii_word_count : N;
  word_frequencies : gmap string N }.

Inductive DurableReceiverTermination :=
  | Success
  | InputRequiredTermination (message : string)
  | AuthRequiredTermination (message : string).

Record DurableReceiverResult := {
  result_events : list MeshEvent;
  termination : DurableReceiverTermination }.

(** [serde_json] at the artifact and the internal payload, and the base64 encoder. *)
Class ConcordanceCodec := {
  canonical_to_vec : CanonicalArtifact -> result string string;
  payload_to_string : InternalArtifactPayload -> string;
  base64_encode : string -> string }.

(** ** Input *)

Definition extract_text_concordance_input (message : Message) (limit : N) :
    result TextConcordanceInputError string :=
  fail_if (negb (bool_decide (role message = User))) WrongRole;;
  fail_if (is_some (message_metadata message) || is_some (extensions message)
           || is_some (reference_task_ids message)) MessageExtensions;;
  match parts message with
  | [part] =>
      fail_if (is_some (filename part) || is_some (part_media_type part) || is_some (part_metadata part))
        PartDecorations;;
      match content part with
      | Part_Text text =>
          fail_if (limit <? slen text)%N ConcordanceInputBytesExceeded;;
          Ok text
      | _ => Err ConcordanceUnsupportedPart
      end
  | _ => Err PartCount
  end.

(** ** The computation *)

(** [input_bytes.iter().try_fold(0, ..)] over the line feeds *)
Fixpoint count_delimiters (s : string) (count : N) : option N :=
  match s with
  | EmptyString => Some count
  | String c s =>
      if bool_decide (c = newline) then checked_add count 1 ≫= count_delimiters s else count_delimiters s count
  end.

(** [input_bytes.last()] *)
Fixpoint last_byte (s : string) : option ascii :=
  match s with
  | EmptyString => None
  | String c EmptyString => Some c
  | String _ s => last_byte s
  end.

Definition count_lines (s : string) : result TextConcordanceError N :=
  if bool_decide (s = "") then Ok 0%N else
  delimiters ← ok_or (count_delimiters s 0) CounterOverflow;
  if bool_decide (last_byte s = Some newline) then Ok delimiters
  else ok_or (checked_add delimiters 1) CounterOverflow.

(** The counters the scan threads: the word count and the frequencies. *)
Definition tally_state : Type := N * gmap string N.

Definition record_word (limits : TextConcordanceLimits) (st : tally_state) (bytes : string) :
    result TextConcordanceError tally_state :=
  count ← ok_or (checked_add st.1 1) CounterOverflow;
  fail_if (max_ascii_word_count limits <? count)%N AsciiWordCountExceeded;;
  let normalized := lowercase bytes in
  frequency ← ok_or (checked_add (default 0%N (st.2 !! normalized)) 1) CounterOverflow;
  fail_if (max_word_frequency limits <? frequency)%N WordFrequencyExceeded;;
  Ok (count, <[normalized := frequency]> st.2).

(** The loop over the bytes from [index] on; [start] is where the current word
    began. *)
Fixpoint scan_words (limits : TextConcordanceLimits) (input : string) (index : nat) (start : option nat)
    (rest : string) (st : tally_state) : result TextConcordanceError tally_state :=
  match rest with
  | EmptyString =>
      match start with
      | Some word_start => record_word limits st (String.substring word_start (index - word_start) input)
      | None => Ok st
      end
  | String byte rest =>
      if is_ascii_alphabetic byte
      then scan_words limits input (S index) (Some (default index start)) rest st
      else match start with
           | Some word_start =>
               st ← record_word limits st (String.substring word_start (index - word_start) input);
               scan_words limits input (S index) None rest st
           | None => scan_words limits input (S index) None rest st
           end
  end.

Section concordance.
Context `{Sha256, PolicyCodec, MeshCodec, ConcordanceCodec}.

Definition text_concordance_request_digest (input : string) : string :=
  sha256_tag (sha256 ("SMESH-A2A" +:+ nul +:+ "standalone-request" +:+ nul +:+ "v1" +:+ nul
    +:+ frame STANDALONE_TEXT_CONCORDANCE_PROFILE_V1 +:+ frame TEXT_CONCORDANCE_WORKLOAD_V1 +:+ frame input)).

Definition hex_sha256 (bytes : string) : string := hex (sha256 bytes).

Definition concordance_manifest (bytes : string) : ArtifactManifest := {|
  artifact_name := TEXT_CONCORDANCE_ARTIFACT_NAME_V1; artifact_media_type := TEXT_CONCORDANCE_MEDIA_TYPE;
  artifact_digest := content_digest bytes |}.

Definition process_text_concordance (input : string) (limits : TextConcordanceLimits) :
    result TextConcordanceError TextConcordanceOutput :=
  fail_if (max_input_bytes limits <? slen input)%N InputBytesExceeded;;
  lines ← count_lines input;
  fail_if (max_line_count limits <? lines)%N LineCountExceeded;;
  st ← scan_words limits input 0 None input (0%N, ∅);
  encoded ← map_err (fun _ => CanonicalEncoding) (canonical_to_vec {|
    canonical_schema := TEXT_CONCORDANCE_WORKLOAD_V1; input_sha256 := hex_sha256 input;
    utf8_bytes := slen input; line_count := lines; ascii_word_count := st.1;
    word_frequencies := st.2 |});
  let bytes := encoded +:+ String newline "" in
  fail_if (max_artifact_bytes limits <? slen bytes)%N ArtifactBytesExceeded;;
  set_digest ← map_err (fun _ => CanonicalEncoding) (artifact_set_digest [concordance_manifest bytes]);
  Ok {| out_request_digest := text_concordance_request_digest input; artifact_bytes := bytes;
        out_artifact_digest := content_digest bytes; out_manifest := concordance_manifest bytes;
        out_artifact_set_digest := set_digest |}.

(** ** Proposals *)

Definition binary_artifact_event (name media_type bytes : string) : MeshEvent :=
  MeshArtifact name media_type
    (INTERNAL_ARTIFACT_PREFIX +:+ payload_to_string (Binary (base64_encode bytes))).

(** What the processor sees of its surroundings: whether it is canceled when it
    looks for the [k]-th time, whether the runtime holds the signal, and the answer
    of the event sink. *)
Record processor_env := {
  env_cancelled : nat -> bool;
  env_retained : bool;
  env_emit : list MeshEvent -> MeshEvent -> result DispatchError unit }.

Abbreviation processing := (action (list MeshEvent) DispatchError).

Definition emit (env : processor_env) (e : MeshEvent) : processing unit := fun sent =>
  match env_emit env sent e with
  | Ok _ => (sent ++ [e], Ok tt)
  | Err err => (sent, Err err)
  end.

Definition check_cancelled (env : processor_env) (k : nat) : processing unit :=
  pure_ (fail_if (env_cancelled env k) (DispatchMessage "text-concordance processor canceled")).

(** [TextConcordanceProcessor::process] *)
Definition process (limits : TextConcordanceLimits) (env : processor_env) (text : string) : processing unit :=
  check_cancelled env 0;;
  pure_ (fail_if (negb (env_retained env))
    (DispatchMessage "runtime did not retain the emitted text-concordance query signal"));;
  output ← pure_ (map_err (fun _ => DispatchMessage "text-concordance processing rejected input")
                    (process_text_concordance text limits));
  check_cancelled env 1;;
  emit env (binary_artifact_event TEXT_CONCORDANCE_ARTIFACT_NAME_V1 TEXT_CONCORDANCE_MEDIA_TYPE
              (artifact_bytes output));;
  check_cancelled env 2;;
  emit env (MeshCompleted "text-concordance/v1 candidate proposed").

Definition validate_text_concordance_runtime_proposal (input : string) (proposal : DurableReceiverResult) :
    result TextConcordanceError string :=
  match termination proposal, result_events proposal with
  | Success, [Progress message; artifact; completion] =>
      fail_if (negb (bool_decide (message = "SMESH runtime retained the query"))) InvalidRuntimeProposal;;
      bytes ← match artifact with
              | MeshArtifact name media_type content =>
                  if bool_decide (name = TEXT_CONCORDANCE_ARTIFACT_NAME_V1)
                     && bool_decide (media_type = TEXT_CONCORDANCE_MEDIA_TYPE)
                  then match internal_artifact_payload content with
                       | Some (Binary bytes) => ok_or (base64_decode bytes) InvalidRuntimeProposal
                       | Some (Published _) | None => Err InvalidRuntimeProposal
                       end
                  else Err InvalidRuntimeProposal
              | _ => Err InvalidRuntimeProposal
              end;
      fail_if (match completion with
               | MeshCompleted summary => negb (bool_decide (summary = "text-concordance/v1 candidate proposed"))
               | _ => true
               end) InvalidRuntimeProposal;;
      expected ← process_text_concordance input default_concordance_limits;
      fail_if (negb (bool_decide (bytes = artifact_bytes expected))) InvalidRuntimeProposal;;
      Ok bytes
  | _, _ => Err InvalidRuntimeProposal
  end.
End concordance.

(** ** Reference *)

(** The alphabetic run a string starts with. *)
Fixpoint word_run (s : string) : string :=
  match s with
  | String c s => if is_ascii_alphabetic c then String c (word_run s) else EmptyString
  | EmptyString => EmptyString
  end.

(** The maximal alphabetic runs: one at every letter that does not follow a letter. *)
Fixpoint runs (after_letter : bool) (s : string) : list string :=
  match s with
  | EmptyString => []
  | String c s' =>
      if is_ascii_alphabetic c
      then (if after_letter then [] else [word_run s]) ++ runs true s'
      else runs false s'
  end.

Definition words (s : string) : list string := lowercase <$> runs false s.

(** The lines of a text; a final line feed does not begin another line. *)
Fixpoint lines (s : string) : list string :=
  match s with
  | EmptyString => []
  | String c s' =>
      if bool_decide (c = newline) then EmptyString :: lines s'
      else match lines s' with
           | [] => [String c EmptyString]
           | l :: ls => String c l :: ls
           end
  end.

Definition occurrences (w : string) (ws : list string) : N := len (filter (fun x => x = w) ws).

(** ** The scan computes the reference *)

Lemma lines_cons c s : s <> "" -> c <> newline -> len (lines (String c s)) = len (lines s).
Proof.
  intros Hs Hc. cbn [lines]. rewrite bool_decide_eq_false_2 by done.
  assert (Hne : lines s <> []).
  { destruct s as [|c' s]; [done|]. cbn [lines]. by repeat case_match. }
  destruct (lines s); [done|]. by rewrite !len_cons.
Qed.

Lemma lines_len s : (len (lines s) <= slen s)%N.
Proof.
  induction s as [|c s IH]; [done|]. rewrite slen_cons. cbn [lines].
  case_bool_decide; [rewrite len_cons; lia|]. destruct (lines s) as [|l ls].
  - change (len [String c ""]) with 1%N. lia.
  - rewrite len_cons in *. lia.
Qed.

Lemma count_delimiters_spec s : forall n, s <> "" -> (n + slen s <= u64_max)%N -> exists d,
  count_delimiters s n = Some d /\
  (d + (if bool_decide (last_byte s = Some newline) then 0 else 1) = n + len (lines s))%N.
Proof.
  induction s as [|c s IH]; intros n Hne Hmax; [done|]. rewrite slen_cons in Hmax. cbn [count_delimiters].
  assert (Hadd : checked_add n 1 = Some (n + 1)%N) by (apply checked_add_Some; lia).
  destruct (decide (s = "")) as [->|Hs].
  - cbn [last_byte lines count_delimiters]. destruct (bool_decide_reflect (c = newline)) as [->|Hc].
    + rewrite Hadd. exists (n + 1)%N. rewrite bool_decide_eq_true_2 by done. split; [done|].
      change (len [""]) with 1%N. lia.
    + exists n. rewrite bool_decide_eq_false_2 by congruence. split; [done|]. by change (len [String c ""]) with 1%N.
  - assert (Hl : last_byte (String c s) = last_byte s) by by destruct s. rewrite Hl.
    destruct (bool_decide_reflect (c = newline)) as [->|Hc].
    + rewrite Hadd. simpl mbind. destruct (IH (n + 1)%N Hs) as (d & Hd & Heq); [lia|]. exists d. split; [done|].
      cbn [lines]. rewrite (bool_decide_eq_true_2 (newline = newline)) by done. rewrite len_cons. lia.
    + rewrite lines_cons by done. apply IH; [done|lia].
Qed.

Lemma count_lines_spec s : (slen s <= u64_max)%N -> count_lines s = Ok (len (lines s)).
Proof.
  intros Hmax. unfold count_lines. case_bool_decide as Hne; [by subst|].
  destruct (count_delimiters_spec s 0 Hne) as (d & -> & Hd); [lia|]. simpl. pose proof (lines_len s).
  destruct (bool_decide _); [f_equal; lia|].
  by rewrite (proj2 (checked_add_Some d 1 (len (lines s)))) by lia.
Qed.

(** The slice [input[k..k + n]] *)
Lemma substring_app p w r : String.substring (String.length p) (String.length w) (p +:+ w +:+ r) = w.
Proof.
  induction p as [|c p IH]; [exact (substring_app_l w r)|exact IH].
Qed.

Lemma word_run_app w r : str_all is_ascii_alphabetic w = true -> word_run (w +:+ r) = w +:+ word_run r.
Proof.
  induction w as [|c w IH]; [done|]. cbn [str_all]. intros [Hc Hw]%andb_true_iff.
  rewrite !string_app_cons. cbn [word_run]. by rewrite Hc, IH.
Qed.

(** The loop records, from where it stands, the word it is in and the runs to come. *)
Lemma scan_words_spec limits rest : forall p w index start st,
  str_all is_ascii_alphabetic w = true ->
  index = (String.length p + String.length w)%nat ->
  (w = "" -> start = None) -> (w <> "" -> start = Some (String.length p)) ->
  scan_words limits (p +:+ w +:+ rest) index start rest st =
    try_fold (record_word limits) st
      (if bool_decide (w = "") then runs false rest else (w +:+ word_run rest) :: runs true rest).
Proof.
  induction rest as [|c rest IH]; intros p w index start st Hw -> Hn Hs; cbn [scan_words].
  { destruct (bool_decide_reflect (w = "")) as [He|He]; [by rewrite Hn|]. rewrite Hs by done.
    replace (_ + _ - _)%nat with (String.length w) by lia. rewrite substring_app. cbn [word_run runs].
    rewrite string_app_nil_r. simpl. by destruct (record_word limits st w). }
  destruct (is_ascii_alphabetic c) eqn:Hc.
  - replace (p +:+ w +:+ String c rest) with (p +:+ (w +:+ String c "") +:+ rest).
    2:{ by rewrite <- string_app_assoc. }
    assert (Hne : w +:+ String c "" <> "") by by destruct w.
    rewrite IH.
    + rewrite (bool_decide_eq_false_2 _ Hne). cbn [runs word_run]. rewrite Hc.
      destruct (bool_decide_reflect (w = "")) as [->|He]; [done|]. simpl app.
      by rewrite <- string_app_assoc.
    + rewrite str_all_app, Hw. simpl. by rewrite Hc.
    + rewrite string_length_app. simpl. lia.
    + done.
    + intros _. destruct (decide (w = "")) as [He|He]; [rewrite Hn by done|by rewrite Hs].
      subst w. simpl. f_equal. lia.
  - assert (Hnext : forall st, scan_words limits (p +:+ w +:+ String c rest) (S (String.length p + String.length w)) None rest st
              = try_fold (record_word limits) st (runs false rest)).
    { intros st'. replace (p +:+ w +:+ String c rest) with ((p +:+ w +:+ String c "") +:+ "" +:+ rest).
      2:{ simpl. by rewrite <- !string_app_assoc. }
      rewrite IH; [done|done| |done|done]. rewrite !string_length_app. simpl. lia. }
    cbn [runs word_run]. rewrite Hc.
    destruct (bool_decide_reflect (w = "")) as [He|He]; [rewrite Hn by done; apply Hnext|].
    rewrite Hs by done. replace (_ + _ - _)%nat with (String.length w) by lia.
    rewrite substring_app, string_app_nil_r. cbn [try_fold].
    destruct (record_word limits st w); [|done]. apply Hnext.
Qed.

(** ** Counting *)

Lemma occurrences_snoc w ws x :
  occurrences w (ws ++ [x]) = (occurrences w ws + if decide (x = w) then 1 else 0)%N.
Proof.
  unfold occurrences. rewrite filter_app, len_app, filter_cons, filter_nil. by destruct (decide (x = w)).
Qed.

Lemma occurrences_len w ws : (occurrences w ws <= len ws)%N.
Proof. unfold occurrences, len. pose proof (length_filter (fun x => x = w) ws). lia. Qed.

(** [f] counts the words of [ws]. *)
Definition counts (f : gmap string N) (ws : list string) : Prop :=
  forall w, f !! w = if (occurrences w ws =? 0)%N then None else Some (occurrences w ws).

Lemma counts_unique f f' ws : counts f ws -> counts f' ws -> f = f'.
Proof. intros Hf Hf'. apply map_eq. intros w. by rewrite Hf, Hf'. Qed.

Lemma counts_default f ws w : counts f ws -> default 0%N (f !! w) = occurrences w ws.
Proof. intros Hf. rewrite Hf. by destruct (N.eqb_spec (occurrences w ws) 0) as [->|]. Qed.

Lemma counts_snoc f ws x : counts f ws -> counts (<[x := (occurrences x ws + 1)%N]> f) (ws ++ [x]).
Proof.
  intros Hf w. rewrite occurrences_snoc. destruct (decide (x = w)) as [->|Hne].
  - rewrite lookup_insert_eq. by rewrite (proj2 (N.eqb_neq _ _)) by lia.
  - rewrite lookup_insert_ne by done. by rewrite N.add_0_r.
Qed.

(** The limits on the words of a text. *)
Definition within_limits (limits : TextConcordanceLimits) (ws : list string) : Prop :=
  (len ws <= max_ascii_word_count limits)%N /\ forall w, (occurrences w ws <= max_word_frequency limits)%N.

Lemma within_limits_snoc limits ws x :
  within_limits limits (ws ++ [x]) <->
  within_limits limits ws /\ (len ws + 1 <= max_ascii_word_count limits)%N /\
  (occurrences x ws + 1 <= max_word_frequency limits)%N.
Proof.
  unfold within_limits. rewrite len_app. change (len [x]) with 1%N. split.
  - intros [Hl Ho]. assert (Hx := Ho x). rewrite occurrences_snoc, decide_True in Hx by done.
    split_and!; [lia| |done|done]. intros w. specialize (Ho w). rewrite occurrences_snoc in Ho. lia.
  - intros ([_ Ho] & Hl & Hx). split; [done|]. intros w. rewrite occurrences_snoc.
    destruct (decide (x = w)) as [->|]; [done|]. specialize (Ho w). lia.
Qed.

Lemma record_word_spec limits f ws x :
  counts f ws -> (len ws < u64_max)%N ->
  record_word limits (len ws, f) x =
    if (max_ascii_word_count limits <? len ws + 1)%N then Err AsciiWordCountExceeded else
    if (max_word_frequency limits <? occurrences (lowercase x) ws + 1)%N then Err WordFrequencyExceeded else
    Ok ((len ws + 1)%N, <[lowercase x := (occurrences (lowercase x) ws + 1)%N]> f).
Proof.
  intros Hf Hl. unfold record_word. cbn [fst snd]. pose proof (occurrences_len (lowercase x) ws) as Ho.
  rewrite (proj2 (checked_add_Some (len ws) 1 (len ws + 1)%N)) by lia. simpl.
  destruct (_ <? _)%N; [done|]. simpl. rewrite (counts_default f ws) by done.
  rewrite (proj2 (checked_add_Some _ 1 (occurrences (lowercase x) ws + 1)%N)) by lia. simpl.
  by destruct (_ <? _)%N.
Qed.

Lemma tally_total limits ws :
  (len ws <= u64_max)%N -> within_limits limits (lowercase <$> ws) ->
  exists f, try_fold (record_word limits) (0%N, ∅) ws = Ok (len ws, f) /\ counts f (lowercase <$> ws).
Proof.
  induction ws as [|x ws IH] using rev_ind; intros Hmax Hw; [exists ∅; split; [done|by intros w]|].
  rewrite fmap_app in *. apply within_limits_snoc in Hw as (Hw & Hl & Ho).
  rewrite len_app in *. change (len [x]) with 1%N in *.
  assert (Hlen : len (lowercase <$> ws) = len ws) by (unfold len; by rewrite length_fmap). rewrite Hlen in Hl.
  destruct IH as (f & Hfold & Hf); [lia|done|].
  rewrite try_fold_snoc, Hfold. cbn [mbind result_bind]. rewrite <- Hlen, record_word_spec by (done || lia).
  rewrite Hlen, !(proj2 (N.ltb_ge _ _)) by done. eexists. split; [done|]. by apply counts_snoc.
Qed.

Lemma tally_limits limits ws n f :
  (len ws <= u64_max)%N -> try_fold (record_word limits) (0%N, ∅) ws = Ok (n, f) ->
  within_limits limits (lowercase <$> ws) /\ n = len ws /\ counts f (lowercase <$> ws).
Proof.
  revert n f. induction ws as [|x ws IH] using rev_ind; intros n f Hmax Hfold.
  { injection Hfold as <- <-. split_and!; [|done|by intros w]. split; [apply N.le_0_l|]. intros w. apply N.le_0_l. }
  rewrite try_fold_snoc in Hfold. rewrite len_app in *. change (len [x]) with 1%N in *.
  destruct (try_fold _ _ ws) as [[n0 f0]|] eqn:Hws; [|done].
  destruct (IH n0 f0) as (Hw & -> & Hf); [lia|done|]. cbn [mbind result_bind] in Hfold.
  assert (Hlen : len (lowercase <$> ws) = len ws) by (unfold len; by rewrite length_fmap).
  rewrite <- Hlen, record_word_spec in Hfold by (done || lia).
  destruct (N.ltb_spec (max_ascii_word_count limits) (len (lowercase <$> ws) + 1)); [done|].
  destruct (N.ltb_spec (max_word_frequency limits) (occurrences (lowercase x) (lowercase <$> ws) + 1)); [done|].
  injection Hfold as <- <-. rewrite fmap_app. split_and!; [by apply within_limits_snoc|lia|by apply counts_snoc].
Qed.

Lemma runs_len s : forall b, (len (runs b s) <= slen s)%N.
Proof.
  induction s as [|c s IH]; intros b; [apply N.le_0_l|]. rewrite slen_cons. cbn [runs].
  destruct (is_ascii_alphabetic c); [|specialize (IH false); lia].
  specialize (IH true). rewrite len_app. destruct b; [change (len []) with 0%N|change (len [?y]) with 1%N]; lia.
Qed.

(** The input shape: one undecorated text part of a plain user message. *)
Lemma extract_text_concordance_input_Ok message limit text :
  extract_text_concordance_input message limit = Ok text <->
  role message = User /\ message_metadata message = None /\ extensions message = None /\
  reference_task_ids message = None /\ parts message = [text_part text] /\ (slen text <= limit)%N.
Proof.
  unfold extract_text_concordance_input, text_part. split.
  - intros He. apply bind_Ok_inv in He as ([] & Hr%fail_if_Ok%negb_false_iff%bool_decide_eq_true & He).
    apply bind_Ok_inv in He as ([] & Hx%fail_if_Ok & He).
    destruct (message_metadata message), (extensions message), (reference_task_ids message); try done.
    destruct (parts message) as [|[[s|s|s|v] [f|] [mt|] [md|]] [|]]; try done.
    apply bind_Ok_inv in He as ([] & _ & He). apply bind_Ok_inv in He as ([] & Hl%fail_if_Ok%N.ltb_ge & <-%Ok_inj).
    done.
  - intros (-> & -> & -> & -> & -> & Hl). simpl. by rewrite (proj2 (N.ltb_ge _ _) Hl).
Qed.

Section theorems.
Context `{Sha256, PolicyCodec, MeshCodec, ConcordanceCodec}.

(** The artifact a text has by the reference definitions. *)
Definition reference_artifact (input : string) (f : gmap string N) : CanonicalArtifact := {|
  canonical_schema := TEXT_CONCORDANCE_WORKLOAD_V1; input_sha256 := hex_sha256 input;
  utf8_bytes := slen input; line_count := len (lines input); ascii_word_count := len (words input);
  word_frequencies := f |}.

Lemma scan_spec limits input st :
  (slen input <= u64_max)%N ->
  scan_words limits input 0 None input (0%N, ∅) = Ok st <->
  within_limits limits (words input) /\ st.1 = len (words input) /\ counts st.2 (words input).
Proof.
  intros Hmax. pose proof (scan_words_spec limits input "" "" 0 None (0%N, ∅)) as Hscan.
  change ("" +:+ "" +:+ input) with input in Hscan. rewrite Hscan by done. cbn [bool_decide].
  assert (Hlen : (len (runs false input) <= u64_max)%N) by (pose proof (runs_len input false); lia).
  assert (Hw : len (words input) = len (runs false input)) by (unfold words, len; by rewrite length_fmap).
  rewrite bool_decide_eq_true_2 by done. rewrite Hw. destruct st as [n f]. split.
  - by apply tally_limits.
  - intros (Hlim & Hn & Hf). simpl in *. subst n.
    destruct (tally_total limits (runs false input) Hlen Hlim) as (f' & -> & Hf').
    by rewrite (counts_unique f f' (words input)).
Qed.

(** C30: The artifact is the concordance of the text.  The computation succeeds
    exactly when the text is within the byte, line, word and frequency limits and
    its artifact can be encoded within its own; it then returns the encoding of the
    true byte count, line count, number of maximal alphabetic runs and number of
    occurrences of each lower-cased run, with the digests of exactly those bytes.
    No counter overflows on the way. *)
Theorem concordance_exact input limits out :
  (slen input <= u64_max)%N ->
  process_text_concordance input limits = Ok out <->
  (slen input <= max_input_bytes limits)%N /\ (len (lines input) <= max_line_count limits)%N /\
  within_limits limits (words input) /\
  exists f encoded, counts f (words input) /\ canonical_to_vec (reference_artifact input f) = Ok encoded /\
    artifact_bytes out = encoded +:+ String newline "" /\
    (slen (artifact_bytes out) <= max_artifact_bytes limits)%N /\
    out_request_digest out = text_concordance_request_digest input /\
    out_artifact_digest out = content_digest (artifact_bytes out) /\
    out_manifest out = concordance_manifest (artifact_bytes out) /\
    artifact_set_digest [out_manifest out] = Ok (out_artifact_set_digest out).
Proof.
  intros Hmax. unfold process_text_concordance. rewrite count_lines_spec by done. split.
  - intros Hp. apply bind_Ok_inv in Hp as ([] & Hb%fail_if_Ok%N.ltb_ge & Hp). cbn [mbind result_bind] in Hp.
    apply bind_Ok_inv in Hp as ([] & Hl%fail_if_Ok%N.ltb_ge & Hp).
    apply bind_Ok_inv in Hp as ([n f] & (Hlim & Hn & Hf)%scan_spec & Hp); [|done]. cbn [fst snd] in *. subst n.
    apply bind_Ok_inv in Hp as (encoded & He%map_err_Ok & Hp).
    apply bind_Ok_inv in Hp as ([] & Ha%fail_if_Ok%N.ltb_ge & Hp).
    apply bind_Ok_inv in Hp as (d & Hd%map_err_Ok & <-%Ok_inj).
    split_and!; [done|done|done|]. exists f, encoded. by split_and!.
  - intros (Hb & Hl & Hlim & f & encoded & Hf & He & Hbytes & Ha & Hr & Had & Hm & Hd).
    rewrite (proj2 (N.ltb_ge _ _) Hb). simpl. rewrite (proj2 (N.ltb_ge _ _) Hl). simpl.
    rewrite (proj2 (scan_spec limits input (len (words input), f) Hmax)) by done. simpl.
    unfold reference_artifact in He. rewrite He. simpl. rewrite <- Hbytes, (proj2 (N.ltb_ge _ _) Ha). simpl.
    rewrite <- Hm, Hd. simpl. rewrite <- Hr, <- Had. by destruct out.
Qed.

(** A request digest names its input: two inputs with equal digests are equal,
    unless an explicit SHA-256 collision is at hand. *)
Theorem concordance_request_binds input input' :
  (slen input <= u64_max)%N -> (slen input' <= u64_max)%N ->
  text_concordance_request_digest input = text_concordance_request_digest input' ->
  input = input' \/ sha256_collision.
Proof.
  intros Hi Hi' Heq.
  change (content_digest ("SMESH-A2A" +:+ nul +:+ "standalone-request" +:+ nul +:+ "v1" +:+ nul
    +:+ frame STANDALONE_TEXT_CONCORDANCE_PROFILE_V1 +:+ frame TEXT_CONCORDANCE_WORKLOAD_V1 +:+ frame input)
    = content_digest ("SMESH-A2A" +:+ nul +:+ "standalone-request" +:+ nul +:+ "v1" +:+ nul
    +:+ frame STANDALONE_TEXT_CONCORDANCE_PROFILE_V1 +:+ frame TEXT_CONCORDANCE_WORKLOAD_V1 +:+ frame input')) in Heq.
  apply content_digest_collision in Heq as [Heq|]; [left|by right].
  do 8 (apply app_length_inj in Heq as [_ Heq]; [|done]). by apply frame_inj_eq.
Qed.

Lemma validated_bytes input proposal bytes :
  validate_text_concordance_runtime_proposal input proposal = Ok bytes ->
  exists out, process_text_concordance input default_concordance_limits = Ok out /\ bytes = artifact_bytes out.
Proof.
  unfold validate_text_concordance_runtime_proposal.
  destruct (termination proposal), (result_events proposal) as [|[msg| | |] [|artifact [|completion [|]]]]; try done.
  intros Hv. apply bind_Ok_inv in Hv as ([] & _ & Hv). apply bind_Ok_inv in Hv as (bytes' & _ & Hv).
  apply bind_Ok_inv in Hv as ([] & _ & Hv). apply bind_Ok_inv in Hv as (out & Hout & Hv).
  apply bind_Ok_inv in Hv as ([] & Heq%fail_if_Ok%negb_false_iff%bool_decide_eq_true & <-%Ok_inj). eauto.
Qed.

Lemma proposal_validates input out :
  (forall p, payload_from_str (payload_to_string p) = Some p) ->
  (forall b, base64_decode (base64_encode b) = Some b) ->
  process_text_concordance input default_concordance_limits = Ok out ->
  validate_text_concordance_runtime_proposal input {|
    result_events := [Progress "SMESH runtime retained the query";
      binary_artifact_event TEXT_CONCORDANCE_ARTIFACT_NAME_V1 TEXT_CONCORDANCE_MEDIA_TYPE (artifact_bytes out);
      MeshCompleted "text-concordance/v1 candidate proposed"];
    termination := Success |} = Ok (artifact_bytes out).
Proof.
  intros Hpay H64 Hout. unfold validate_text_concordance_runtime_proposal, binary_artifact_event.
  cbn [termination result_events]. rewrite !bool_decide_eq_true_2 by done. cbn [negb fail_if mbind result_bind andb].
  unfold internal_artifact_payload. rewrite strip_prefix_app. cbn [mbind option_bind]. rewrite Hpay, H64.
  cbn [ok_or mbind result_bind negb fail_if]. rewrite Hout. cbn [mbind result_bind].
  by rewrite bool_decide_eq_true_2.
Qed.

(** The proposal of the processor is the one the validator accepts.  If the
    payload and base64 codecs read back what they wrote, an uninterrupted run of the
    processor after the runtime's progress event yields a proposal that validates,
    as exactly the artifact of the text; and whatever validates decodes to the
    artifact of the text. *)
Theorem concordance_proposal_roundtrip env input before after :
  (forall p, payload_from_str (payload_to_string p) = Some p) ->
  (forall b, base64_decode (base64_encode b) = Some b) ->
  before = [Progress "SMESH runtime retained the query"] ->
  process default_concordance_limits env input before = (after, Ok tt) ->
  exists out, process_text_concordance input default_concordance_limits = Ok out /\
    validate_text_concordance_runtime_proposal input {| result_events := after; termination := Success |}
      = Ok (artifact_bytes out) /\
    forall proposal bytes, validate_text_concordance_runtime_proposal input proposal = Ok bytes ->
      bytes = artifact_bytes out.
Proof.
  intros Hpay H64 -> Hp. unfold process, check_cancelled, emit in Hp. inv_act.
  match goal with Ho : map_err _ _ = Ok ?o |- _ => apply map_err_Ok in Ho; rename o into out, Ho into Hout end.
  repeat match goal with He : match env_emit _ _ _ with _ => _ end = _ |- _ =>
    destruct (env_emit _ _ _); [injection He as He; subst|discriminate He] end.
  exists out. split_and!; [done|by apply proposal_validates|].
  intros proposal bytes (out' & Hout' & ->)%validated_bytes. congruence.
Qed.
End theorems.

(** ** Samples *)

Section samples.
#[local] Existing Instance sample_sha256.
#[local] Existing Instance Policy.sample_codec.

#[local] Instance sample_payloads : MeshCodec := {|
  event_to_vec _ := Ok "";
  request_to_vec _ := Ok "";
  payload_from_str s := match s with
                        | String c s => Some (if bool_decide (c = newline) then Binary s else Published s)
                        | EmptyString => None
                        end;
  artifact_from_str _ := None;
  base64_decode s := Some s |}.

#[local] Instance sample_concordance : ConcordanceCodec := {|
  canonical_to_vec a := Ok (be64 (ascii_word_count a) +:+ be64 (line_count a));
  payload_to_string p := match p with
                         | Binary s => String newline s
                         | Published s => String Ascii.zero s
                         end;
  base64_encode s := s |}.

Definition sample_text : string := "To be, or not to be" +:+ String newline "that".

Definition sample_env : processor_env := {|
  env_cancelled _ := false; env_retained := true; env_emit _ _ := Ok tt |}.

Lemma sample_processes :
  is_ok (process_text_concordance sample_text default_concordance_limits) = true.
Proof. vm_compute. reflexivity. Qed.

Lemma concordance_exact_witness :
  len (words sample_text) = 7%N /\ occurrences "to" (words sample_text) = 2%N /\ len (lines sample_text) = 2%N /\
  exists out f encoded, process_text_concordance sample_text default_concordance_limits = Ok out /\
    canonical_to_vec (reference_artifact sample_text f) = Ok encoded.
Proof.
  split; [vm_compute; reflexivity|]. split; [vm_compute; reflexivity|]. split; [vm_compute; reflexivity|].
  destruct (proj1 (is_ok_true _) sample_processes) as [out Hout].
  assert (Hlen : (slen sample_text <= u64_max)%N) by (vm_compute; discriminate).
  destruct (proj1 (concordance_exact sample_text default_concordance_limits out Hlen) Hout)
    as (_ & _ & _ & f & encoded & _ & He & _).
  exists out, f, encoded. split; [exact Hout|exact He].
Defined.

Lemma concordance_request_binds_witness :
  text_concordance_request_digest sample_text = text_concordance_request_digest sample_text /\
  (sample_text = sample_text \/ sha256_collision).
Proof.
  split; [reflexivity|].
  apply (concordance_request_binds sample_text sample_text); [vm_compute; discriminate..|reflexivity].
Defined.

Lemma concordance_proposal_roundtrip_witness :
  exists out after, validate_text_concordance_runtime_proposal sample_text
    {| result_events := after; termination := Success |} = Ok (artifact_bytes out).
Proof.
  assert (Hp : exists after, process default_concordance_limits sample_env sample_text
                 [Progress "SMESH runtime retained the query"] = (after, Ok tt)).
  { pose (run := process default_concordance_limits sample_env sample_text
                   [Progress "SMESH runtime retained the query"]).
    assert (Hr : is_ok run.2 = true) by (vm_compute; reflexivity). fold run.
    destruct run as [after [[]|]]; [exists after; reflexivity|discriminate Hr]. }
  destruct Hp as [after Hp].
  destruct (concordance_proposal_roundtrip sample_env sample_text [Progress "SMESH runtime retained the query"] after) as (out & _ & Hv & _).
  - intros [s|s]; reflexivity.
  - reflexivity.
  - reflexivity.
  - exact Hp.
  - exists out, after. exact Hv.
Defined.
End samples.
