(* ===== verification/Semantic.v ===== *)
(** * Semantic evidence

    [semantic_evidence.rs]: candidate generations of the text-concordance
    workload, the issuers' records about them, enrollment of issuer keys, signing
    after an independent recomputation, and verification.  Ed25519, the URL-safe
    base64 codec and [serde_json] are parameters. *)

From S2P Require Import Prelude Text Trace Protocol Policy Executor Concordance.

(** ** Data *)

Definition ISSUER_EVIDENCE_SCHEMA_V1 : string := "issuer-evidence/v1".
Definition TEXT_CONCORDANCE_COMPLETION_POLICY_V1 : string := "smesh-completion/v1".
Definition TEXT_CONCORDANCE_COMPLETION_POLICY_REVISION_V1 : N := 1.
Definition MAX_AUTHORITY_TEXT_BYTES : N := 512.

Record CandidateGenerationV1 := {
  cand_tenant_scope : string;
  cand_task_id : string;
  cand_context_id : string;
  cand_request_digest : string;
  cand_artifact_set_digest : string;
  dispatch_id : string;
  attempt : N;
  fence : N;
  completion_policy : string;
  completion_policy_revision : N }.

Inductive IssuerRoleV1 := IssuerReview | IssuerTest | IssuerContradiction.
Inductive IssuerDecisionV1 := Approve | Clear.

Definition decision (r : IssuerRoleV1) : IssuerDecisionV1 :=
  match r with IssuerReview | IssuerTest => Approve | IssuerContradiction => Clear end.

(** The fields of a record that repeat its candidate's are the candidate. *)
Record IssuerEvidenceV1 := {
  evidence_schema : string;
  candidate_generation_id : string;
  evidence_candidate : CandidateGenerationV1;
  issuer_role : IssuerRoleV1;
  issuer_identity : string;
  evidence_decision : IssuerDecisionV1 }.

Record IssuerEnrollmentV1 := {
  enr_tenant_scope : string;
  enr_role : IssuerRoleV1;
  enr_identity : string;
  public_key : string;
  valid_from : N;
  expires_at : N;
  revoked_at : option N }.

Record SignedIssuerEvidenceV1 := { signed_evidence : IssuerEvidenceV1; signature : string }.

Record TextConcordanceCandidatePacketV1 := {
  packet_candidate : CandidateGenerationV1;
  packet_input : string;
  packet_artifact : string;
  observed_conflict_digests : list string }.

Inductive SemanticEvidenceError :=
  | SemInvalidText (field : string)
  | SemInvalidDigest (field : string)
  | InvalidPolicyRevision | InvalidSchema | RoleDecisionMismatch | BindingMismatch
  | EnrollmentMismatch | EnrollmentInactive | InvalidPublicKey | InvalidSignatureEncoding
  | InvalidSignature | CandidateArtifactMismatch | ConflictObserved | SemCanonicalEncoding.

#[global] Instance CandidateGenerationV1_eq_dec : EqDecision CandidateGenerationV1.
Proof. solve_decision. Defined.
#[global] Instance IssuerRoleV1_eq_dec : EqDecision IssuerRoleV1.
Proof. solve_decision. Defined.
#[global] Instance IssuerDecisionV1_eq_dec : EqDecision IssuerDecisionV1.
Proof. solve_decision. Defined.

(** ** Parameters *)

(** [ed25519_dalek]: keys and signatures are byte strings. *)
Class Ed25519 := {
  ed_public : string -> string;
  ed_sign : string -> string -> string;
  ed_valid_key : string -> bool;
  ed_verify_strict : string -> string -> string -> bool }.

Class SemanticCodec := {
  ser_candidate :: Serialize CandidateGenerationV1;
  ser_issuer_evidence :: Serialize IssuerEvidenceV1 }.

(** ** Validation *)

Definition sem_validate_text (field value : string) : result SemanticEvidenceError unit :=
  fail_if (bool_decide (value = "") || (MAX_AUTHORITY_TEXT_BYTES <? slen value)%N) (SemInvalidText field).

Definition sem_validate_digest (field value : string) : result SemanticEvidenceError unit :=
  match strip_prefix "sha256:" value with
  | None => Err (SemInvalidDigest field)
  | Some hex =>
      fail_if (negb (slen hex =? 64)%N || negb (str_all is_hex_lower hex)) (SemInvalidDigest field)
  end.

Definition validate_candidate (c : CandidateGenerationV1) : result SemanticEvidenceError unit :=
  sem_validate_text "tenant_scope" (cand_tenant_scope c);;
  sem_validate_text "task_id" (cand_task_id c);;
  sem_validate_text "context_id" (cand_context_id c);;
  sem_validate_digest "request_digest" (cand_request_digest c);;
  sem_validate_digest "artifact_set_digest" (cand_artifact_set_digest c);;
  sem_validate_text "dispatch_id" (dispatch_id c);;
  sem_validate_text "completion_policy" (completion_policy c);;
  fail_if (completion_policy_revision c =? 0)%N InvalidPolicyRevision.

Definition validate_evidence (e : IssuerEvidenceV1) : result SemanticEvidenceError unit :=
  fail_if (negb (bool_decide (evidence_schema e = ISSUER_EVIDENCE_SCHEMA_V1))) InvalidSchema;;
  sem_validate_digest "candidate_generation_id" (candidate_generation_id e);;
  validate_candidate (evidence_candidate e);;
  sem_validate_text "issuer_identity" (issuer_identity e);;
  fail_if (negb (bool_decide (evidence_decision e = decision (issuer_role e)))) RoleDecisionMismatch.

Definition validate_enrollment (e : IssuerEnrollmentV1) : result SemanticEvidenceError unit :=
  sem_validate_text "tenant_scope" (enr_tenant_scope e);;
  sem_validate_text "issuer_identity" (enr_identity e);;
  fail_if (expires_at e <=? valid_from e)%N EnrollmentInactive.

Definition inactive (e : IssuerEnrollmentV1) (now : N) : bool :=
  (now <? valid_from e)%N || (expires_at e <=? now)%N || is_some_and (revoked_at e) (fun t => t <=? now)%N.

Definition contains_pad (s : string) : bool := negb (str_all (fun c => negb (code c =? 61)%N) s).

Section semantic.
Context `{Sha256, PolicyCodec, MeshCodec, ConcordanceCodec, Ed25519, UrlBase64, SemanticCodec}.

Definition decode_canonical (value : string) : option string :=
  if contains_pad value || (1500000 <? slen value)%N then None else
  bytes ← url_decode value;
  if bool_decide (url_encode bytes = value) then Some bytes else None.

Definition decode_exact (n : N) (value : string) : option string :=
  if contains_pad value then None else
  bytes ← url_decode value;
  if negb (bool_decide (url_encode bytes = value)) then None else
  if (slen bytes =? n)%N then Some bytes else None.

Definition sem_canonical_digest {T} `{Serialize T} (domain : string) (value : T) :
    result SemanticEvidenceError string :=
  bytes ← map_err (fun _ => SemCanonicalEncoding) (to_vec value);
  Ok (sha256_tag (sha256 (digest_preimage domain bytes))).

(** [CandidateGenerationV1::id] *)
Definition candidate_id (c : CandidateGenerationV1) : result SemanticEvidenceError string :=
  validate_candidate c;; sem_canonical_digest "candidate-generation" c.

(** [IssuerEvidenceV1::digest] *)
Definition evidence_digest (e : IssuerEvidenceV1) : result SemanticEvidenceError string :=
  validate_evidence e;; sem_canonical_digest "evidence-record" e.

(** [IssuerEnrollmentV1::validate_at] *)
Definition validate_at (e : IssuerEnrollmentV1) (now : N) : result SemanticEvidenceError unit :=
  validate_enrollment e;;
  key ← ok_or (decode_exact 32 (public_key e)) InvalidPublicKey;
  fail_if (negb (ed_valid_key key)) InvalidPublicKey;;
  fail_if (inactive e now) EnrollmentInactive.

(** [IssuerEvidenceV1::for_candidate] *)
Definition for_candidate (c : CandidateGenerationV1) (role : IssuerRoleV1) (identity : string) :
    result SemanticEvidenceError IssuerEvidenceV1 :=
  sem_validate_text "issuer_identity" identity;;
  generation ← candidate_id c;
  Ok {| evidence_schema := ISSUER_EVIDENCE_SCHEMA_V1; candidate_generation_id := generation;
        evidence_candidate := c; issuer_role := role; issuer_identity := identity;
        evidence_decision := decision role |}.

(** [IssuerEvidenceV1::validate_candidate] *)
Definition evidence_validate_candidate (e : IssuerEvidenceV1) (c : CandidateGenerationV1) :
    result SemanticEvidenceError unit :=
  validate_evidence e;;
  expected ← candidate_id c;
  fail_if (negb (bool_decide (candidate_generation_id e = expected))
           || negb (bool_decide (evidence_candidate e = c))) BindingMismatch.

Definition validate_text_concordance_candidate (p : TextConcordanceCandidatePacketV1) :
    result SemanticEvidenceError string :=
  let c := packet_candidate p in
  fail_if (negb (bool_decide (completion_policy c = TEXT_CONCORDANCE_COMPLETION_POLICY_V1))
           || negb (completion_policy_revision c =? TEXT_CONCORDANCE_COMPLETION_POLICY_REVISION_V1)%N)
    BindingMismatch;;
  candidate_id c;;
  fail_if (64 <? len (observed_conflict_digests p))%N ConflictObserved;;
  try_each (sem_validate_digest "observed_conflict_digest") (observed_conflict_digests p);;
  artifact ← ok_or (decode_canonical (packet_artifact p)) CandidateArtifactMismatch;
  output ← map_err (fun _ => CandidateArtifactMismatch)
             (process_text_concordance (packet_input p) default_concordance_limits);
  fail_if (negb (bool_decide (artifact = artifact_bytes output))
           || negb (bool_decide (cand_request_digest c = out_request_digest output))
           || negb (bool_decide (cand_artifact_set_digest c = out_artifact_set_digest output)))
    CandidateArtifactMismatch;;
  Ok artifact.

Definition sign_text_concordance_evidence (p : TextConcordanceCandidatePacketV1) (role : IssuerRoleV1)
    (identity seed : string) : result SemanticEvidenceError SignedIssuerEvidenceV1 :=
  validate_text_concordance_candidate p;;
  fail_if (bool_decide (role = IssuerContradiction) && negb (bool_decide (observed_conflict_digests p = [])))
    ConflictObserved;;
  evidence ← for_candidate (packet_candidate p) role identity;
  digest ← evidence_digest evidence;
  Ok {| signed_evidence := evidence; signature := url_encode (ed_sign seed digest) |}.

(** [SignedIssuerEvidenceV1::verify] *)
Definition verify (s : SignedIssuerEvidenceV1) (c : CandidateGenerationV1) (e : IssuerEnrollmentV1) (now : N) :
    result SemanticEvidenceError unit :=
  let evidence := signed_evidence s in
  evidence_validate_candidate evidence c;;
  validate_enrollment e;;
  fail_if (negb (bool_decide (enr_tenant_scope e = cand_tenant_scope (evidence_candidate evidence)))
           || negb (bool_decide (enr_role e = issuer_role evidence))
           || negb (bool_decide (enr_identity e = issuer_identity evidence))) EnrollmentMismatch;;
  fail_if (inactive e now) EnrollmentInactive;;
  key ← ok_or (decode_exact 32 (public_key e)) InvalidPublicKey;
  fail_if (negb (ed_valid_key key)) InvalidPublicKey;;
  sig ← ok_or (decode_exact 64 (signature s)) InvalidSignatureEncoding;
  digest ← evidence_digest evidence;
  fail_if (negb (ed_verify_strict key digest sig)) InvalidSignature.

(** ** Verification is exact *)

(** What the parameters promise: the documented behaviour of Ed25519 and of the
    unpadded base64 alphabet. *)
Record signing_laws : Prop := {
  law_key_length seed : slen (ed_public seed) = 32%N;
  law_signature_length seed m : slen (ed_sign seed m) = 64%N;
  law_valid_key seed : ed_valid_key (ed_public seed) = true;
  law_verifies seed m : ed_verify_strict (ed_public seed) m (ed_sign seed m) = true;
  law_decode b : url_decode (url_encode b) = Some b;
  law_unpadded b : contains_pad (url_encode b) = false }.

Lemma tag_validates field t : String.length t = 32%nat -> sem_validate_digest field (sha256_tag t) = Ok tt.
Proof.
  intros Ht. unfold sem_validate_digest, sha256_tag. rewrite strip_prefix_app.
  unfold slen. rewrite length_hex, Ht, hex_lower. done.
Qed.

Lemma candidate_id_Ok c g : candidate_id c = Ok g ->
  validate_candidate c = Ok tt /\ sem_validate_digest "candidate_generation_id" g = Ok tt.
Proof.
  unfold candidate_id, sem_canonical_digest.
  intros ([] & Hv & (b & _ & <-%Ok_inj)%bind_Ok_inv)%bind_Ok_inv. split; [done|].
  apply tag_validates, sha256_length.
Qed.

(** The records an issuer may construct are exactly the ones that validate for
    the candidate. *)
Lemma evidence_validate_iff e c :
  evidence_validate_candidate e c = Ok tt <-> for_candidate c (issuer_role e) (issuer_identity e) = Ok e.
Proof.
  unfold evidence_validate_candidate, for_candidate, validate_evidence. split.
  - intros ([] & Hv & Hb)%bind_Ok_inv. apply bind_Ok_inv in Hb as (g & Hg & Hb%fail_if_Ok).
    apply orb_false_iff in Hb as [Hid%negb_false_iff%bool_decide_eq_true Hc%negb_false_iff%bool_decide_eq_true].
    apply bind_Ok_inv in Hv as ([] & Hs%fail_if_Ok%negb_false_iff%bool_decide_eq_true & Hv).
    apply bind_Ok_inv in Hv as ([] & _ & Hv). apply bind_Ok_inv in Hv as ([] & _ & Hv).
    apply bind_Ok_inv in Hv as ([] & -> & Hd%fail_if_Ok%negb_false_iff%bool_decide_eq_true).
    destruct e. simpl in *. subst. simpl. rewrite Hg. done.
  - intros ([] & Ht & (g & Hg & Heq%Ok_inj)%bind_Ok_inv)%bind_Ok_inv. rewrite <- Heq. simpl.
    apply candidate_id_Ok in Hg as Hv. destruct Hv as [Hv Hd]. rewrite Hd, Hv. simpl.
    rewrite Ht. simpl.
    rewrite !bool_decide_eq_true_2 by done. simpl. rewrite Hg. simpl. by rewrite !bool_decide_eq_true_2.
Qed.

Lemma bind_unit {E A} (r : result E unit) (k : unit -> result E A) a :
  (r ≫= k) = Ok a <-> r = Ok tt /\ k tt = Ok a.
Proof. destruct r as [[]|]; simpl; naive_solver. Qed.

Lemma verify_iff s c e now :
  verify s c e now = Ok tt <->
  for_candidate c (enr_role e) (enr_identity e) = Ok (signed_evidence s) /\
  enr_tenant_scope e = cand_tenant_scope c /\ validate_enrollment e = Ok tt /\ inactive e now = false /\
  exists key sig d, decode_exact 32 (public_key e) = Some key /\ ed_valid_key key = true /\
    decode_exact 64 (signature s) = Some sig /\ evidence_digest (signed_evidence s) = Ok d /\
    ed_verify_strict key d sig = true.
Proof.
  unfold verify. rewrite bind_unit, evidence_validate_iff, bind_unit, bind_unit, fail_if_Ok, bind_unit, fail_if_Ok.
  rewrite !orb_false_iff, !negb_false_iff, !bool_decide_eq_true. split.
  - intros (Hc & Hv & ((Ht & Hr) & Hi) & Ha & Hk). rewrite <- Hr, <- Hi in Hc.
    apply bind_Ok_inv in Hk as (key & Hkey%ok_or_Ok & Hk).
    apply bind_unit in Hk as [Hok%fail_if_Ok%negb_false_iff Hk].
    apply bind_Ok_inv in Hk as (sig & Hsig%ok_or_Ok & Hk). apply bind_Ok_inv in Hk as (d & Hd & Hk%fail_if_Ok%negb_false_iff).
    split; [done|]. split; [|by split_and!; eauto 10].
    unfold for_candidate in Hc. apply bind_unit in Hc as [_ (g & _ & Heq%Ok_inj)%bind_Ok_inv]. by rewrite <- Heq in Ht.
  - intros (Hc & Ht & Hv & Ha & key & sig & d & Hkey & Hok & Hsig & Hd & Hver).
    assert (Hev : evidence_candidate (signed_evidence s) = c /\ issuer_role (signed_evidence s) = enr_role e /\
                  issuer_identity (signed_evidence s) = enr_identity e).
    { unfold for_candidate in Hc. apply bind_unit in Hc as [_ (g & _ & Heq%Ok_inj)%bind_Ok_inv]. by rewrite <- Heq. }
    destruct Hev as (Hcand & Hrole & Hident). rewrite Hcand, Hrole, Hident.
    split_and!; [done|done|done|done|done|done|].
    rewrite Hkey. simpl. rewrite Hok. simpl. rewrite Hsig. simpl. rewrite Hd. simpl. by rewrite Hver.
Qed.

(** Verification accepts exactly the record an enrolled issuer may make about
    this candidate: the record is the one built from the candidate, role and
    identity of the enrollment, the tenant is the candidate's, the enrollment is
    well formed and active, its key is valid, and the signature over the record's
    digest verifies. *)
Theorem evidence_verification_exact s c e now :
  verify s c e now = Ok tt <->
  for_candidate c (enr_role e) (enr_identity e) = Ok (signed_evidence s) /\
  enr_tenant_scope e = cand_tenant_scope c /\ validate_at e now = Ok tt /\
  exists key sig d, decode_exact 32 (public_key e) = Some key /\
    decode_exact 64 (signature s) = Some sig /\ evidence_digest (signed_evidence s) = Ok d /\
    ed_verify_strict key d sig = true.
Proof.
  rewrite verify_iff. unfold validate_at. rewrite bind_unit. split.
  - intros (Hc & Ht & Hv & Ha & key & sig & d & Hkey & Hok & Hsig & Hd & Hver).
    split_and!; [done|done|done| |by exists key, sig, d]. rewrite Hkey. simpl. rewrite Hok. simpl. by rewrite Ha.
  - intros (Hc & Ht & (Hv & Hk) & key & sig & d & Hkey & Hsig & Hd & Hver). rewrite Hkey in Hk. simpl in Hk.
    apply bind_unit in Hk as [Hok%fail_if_Ok%negb_false_iff Ha%fail_if_Ok].
    split_and!; [done|done|done|done|]. by exists key, sig, d.
Qed.

Lemma sem_digest_collision {T} `{Serialize T} domain (a a' : T) d :
  faithful T -> (slen domain <= u64_max)%N ->
  sem_canonical_digest domain a = Ok d -> sem_canonical_digest domain a' = Ok d -> a = a' \/ sha256_collision.
Proof.
  intros Hf Hdom (b & Hb%map_err_Ok & <-%Ok_inj)%bind_Ok_inv (b' & Hb'%map_err_Ok & Heq%Ok_inj)%bind_Ok_inv.
  eapply (canonical_digest_collision domain a a'); [done|done| |];
    unfold canonical_digest; [rewrite Hb|rewrite Hb']; simpl; [reflexivity|by rewrite Heq].
Qed.

(** Evidence cannot be moved.  Two verified records with the same signed
    digest are the same record about the same candidate (tenant, task, context,
    request, artifacts, dispatch, attempt, fence and policy), in the same role and
    under the same identity, unless an explicit SHA-256 collision is at hand. *)
Theorem evidence_not_replayable s c e now s' c' e' now' :
  faithful IssuerEvidenceV1 ->
  verify s c e now = Ok tt -> verify s' c' e' now' = Ok tt ->
  evidence_digest (signed_evidence s) = evidence_digest (signed_evidence s') ->
  (signed_evidence s = signed_evidence s' /\ c = c' /\ enr_role e = enr_role e' /\
   enr_identity e = enr_identity e' /\ enr_tenant_scope e = enr_tenant_scope e') \/ sha256_collision.
Proof.
  intros Hf Hv%verify_iff Hv'%verify_iff Heq.
  destruct Hv as (Hc & Ht & _ & _ & key & sig & d & _ & _ & _ & Hd & _), Hv' as (Hc' & Ht' & _).
  rewrite Hd in Heq. unfold evidence_digest in *. apply bind_unit in Hd as [_ Hd].
  symmetry in Heq. apply bind_unit in Heq as [_ Heq].
  destruct (sem_digest_collision "evidence-record" _ _ d Hf ltac:(done) Hd Heq) as [Hs|]; [left|by right].
  rewrite Hs in Hc. unfold for_candidate in *.
  apply bind_unit in Hc as [_ (g & _ & Hc%Ok_inj)%bind_Ok_inv].
  apply bind_unit in Hc' as [_ (g' & _ & Hc'%Ok_inj)%bind_Ok_inv].
  rewrite <- Hc' in Hc. injection Hc as _ Hcc Hr Hi _. split_and!; congruence.
Qed.

Lemma decode_exact_encode n b :
  signing_laws -> slen b = n -> decode_exact n (url_encode b) = Some b.
Proof.
  intros Hl Hn. unfold decode_exact. rewrite (law_unpadded Hl), (law_decode Hl). simpl.
  rewrite bool_decide_eq_true_2 by done. simpl. by rewrite Hn, N.eqb_refl.
Qed.

Lemma validate_text_concordance_candidate_Ok p artifact :
  validate_text_concordance_candidate p = Ok artifact ->
  exists out, process_text_concordance (packet_input p) default_concordance_limits = Ok out /\
    decode_canonical (packet_artifact p) = Some artifact /\ artifact = artifact_bytes out /\
    cand_request_digest (packet_candidate p) = out_request_digest out /\
    cand_artifact_set_digest (packet_candidate p) = out_artifact_set_digest out.
Proof.
  unfold validate_text_concordance_candidate. intros Hv.
  apply bind_unit in Hv as [_ Hv]. apply bind_Ok_inv in Hv as (g & _ & Hv).
  apply bind_unit in Hv as [_ Hv]. apply bind_unit in Hv as [_ Hv].
  apply bind_Ok_inv in Hv as (a & Ha%ok_or_Ok & Hv). apply bind_Ok_inv in Hv as (out & Hout%map_err_Ok & Hv).
  apply bind_unit in Hv as [Hb%fail_if_Ok <-%Ok_inj].
  rewrite !orb_false_iff, !negb_false_iff, !bool_decide_eq_true in Hb. exists out. tauto.
Qed.

(** C32: Issued evidence is true and verifies.  An issuer signs only after
    recomputing the workload: the packet's artifact is the concordance of its
    input and its digests are the candidate's, and a contradiction issuer signs
    only if no conflict was observed.  The signed record then verifies for that
    candidate against any active enrollment of the issuer's key, role, identity
    and tenant, given the documented behaviour of Ed25519 and base64. *)
Theorem issued_evidence_verifies p role identity seed s e now :
  signing_laws ->
  sign_text_concordance_evidence p role identity seed = Ok s ->
  enr_tenant_scope e = cand_tenant_scope (packet_candidate p) -> enr_role e = role -> enr_identity e = identity ->
  public_key e = url_encode (ed_public seed) -> (valid_from e < expires_at e)%N -> inactive e now = false ->
  (exists out, process_text_concordance (packet_input p) default_concordance_limits = Ok out /\
     decode_canonical (packet_artifact p) = Some (artifact_bytes out) /\
     cand_request_digest (packet_candidate p) = out_request_digest out /\
     cand_artifact_set_digest (packet_candidate p) = out_artifact_set_digest out) /\
  (role = IssuerContradiction -> observed_conflict_digests p = []) /\
  verify s (packet_candidate p) e now = Ok tt.
Proof.
  intros Hl Hs Ht Hr Hi Hk Hval Ha. unfold sign_text_concordance_evidence in Hs.
  apply bind_Ok_inv in Hs as (artifact & Hart%validate_text_concordance_candidate_Ok & Hs).
  apply bind_unit in Hs as [Hconf%fail_if_Ok Hs]. apply bind_Ok_inv in Hs as (ev & Hev & Hs).
  apply bind_Ok_inv in Hs as (d & Hd & <-%Ok_inj). split_and!.
  - destruct Hart as (out & Hout & Hdec & -> & Hq & Hset). eauto.
  - intros ->. rewrite bool_decide_eq_true_2 in Hconf by done. simpl in Hconf.
    by apply negb_false_iff, bool_decide_eq_true in Hconf.
  - apply verify_iff. rewrite Hr, Hi. cbn [signed_evidence signature].
    apply bind_unit in Hev as Hparts. destruct Hparts as [Hident (g & Hg & _)%bind_Ok_inv].
    apply candidate_id_Ok in Hg as [Hcand _].
    split_and!; [done|done| |done|].
    + unfold validate_enrollment. rewrite Ht, Hi. unfold validate_candidate in Hcand.
      apply bind_unit in Hcand as [-> _]. simpl. rewrite Hident. simpl.
      by rewrite (proj2 (N.leb_gt _ _) Hval).
    + exists (ed_public seed), (ed_sign seed d), d. rewrite Hk, !decode_exact_encode by (done || apply Hl).
      split_and!; [done|apply Hl|done|done|apply Hl].
Qed.
End semantic.

(** ** Samples *)

Section samples.
#[local] Existing Instance sample_sha256.
#[local] Existing Instance Policy.sample_codec.
#[local] Existing Instance sample_payloads.
#[local] Existing Instance sample_concordance.

(** A toy signature: the message, cut and padded to the length of a signature. *)
#[local] Instance sample_ed25519 : Ed25519 := {|
  ed_public seed := pad 32 seed;
  ed_sign _ m := pad 64 m;
  ed_valid_key _ := true;
  ed_verify_strict _ m sig := bool_decide (sig = pad 64 m) |}.

(** Hexadecimal digits need no padding either. *)
#[local] Instance sample_url : UrlBase64 := {| url_encode := hex; url_decode := decode_hex |}.

Lemma sample_laws : signing_laws.
Proof.
  split; intros; unfold ed_public, ed_sign, ed_verify_strict, sample_ed25519, slen; rewrite ?length_pad; try done.
  - by apply bool_decide_eq_true_2.
  - apply decode_hex_hex.
  - unfold contains_pad. apply negb_false_iff, str_all_spec. intros c Hc.
    pose proof (hex_lower b) as Hh. rewrite str_all_spec in Hh. apply Hh in Hc. revert Hc.
    unfold is_hex_lower, is_ascii_digit, in_range. rewrite orb_true_iff, !andb_true_iff, !N.leb_le.
    intros Hc. apply negb_true_iff, N.eqb_neq. lia.
Qed.

Definition candidate_tuple (c : CandidateGenerationV1) :=
  (cand_tenant_scope c, cand_task_id c, cand_context_id c, cand_request_digest c, cand_artifact_set_digest c,
   dispatch_id c, attempt c, fence c, completion_policy c, completion_policy_revision c).

Definition evidence_tuple (e : IssuerEvidenceV1) :=
  (evidence_schema e, candidate_generation_id e, candidate_tuple (evidence_candidate e),
   match issuer_role e with IssuerReview => 0 | IssuerTest => 1 | IssuerContradiction => 2 end%N,
   issuer_identity e, match evidence_decision e with Approve => true | Clear => false end).

#[local] Instance sample_semantic : SemanticCodec := {|
  ser_candidate := encoded candidate_tuple;
  ser_issuer_evidence := encoded evidence_tuple |}.

Lemma sample_evidence_faithful : faithful IssuerEvidenceV1.
Proof.
  apply encoded_faithful. intros [s g [] r i d] [s' g' [] r' i' d']. unfold evidence_tuple, candidate_tuple.
  cbn. intros [= -> -> -> -> -> -> -> -> -> -> -> -> Hr -> Hd]. f_equal.
  - by destruct r, r'.
  - by destruct d, d'.
Qed.

Definition sample_output : option TextConcordanceOutput :=
  match process_text_concordance "a" default_concordance_limits with Ok out => Some out | Err _ => None end.

Definition sample_candidate : CandidateGenerationV1 := {|
  cand_tenant_scope := "t"; cand_task_id := "k"; cand_context_id := "c";
  cand_request_digest := text_concordance_request_digest "a";
  cand_artifact_set_digest := default "" (out_artifact_set_digest <$> sample_output);
  dispatch_id := "d"; attempt := 1; fence := 1; completion_policy := TEXT_CONCORDANCE_COMPLETION_POLICY_V1;
  completion_policy_revision := 1 |}.

Definition sample_packet : TextConcordanceCandidatePacketV1 := {|
  packet_candidate := sample_candidate; packet_input := "a";
  packet_artifact := hex (default "" (artifact_bytes <$> sample_output)); observed_conflict_digests := [] |}.

Definition sample_enrollment : IssuerEnrollmentV1 := {|
  enr_tenant_scope := "t"; enr_role := IssuerTest; enr_identity := "i"; public_key := hex (pad 32 "seed");
  valid_from := 1; expires_at := 9; revoked_at := None |}.

Lemma sample_signs : is_ok (sign_text_concordance_evidence sample_packet IssuerTest "i" "seed") = true.
Proof. vm_compute. reflexivity. Qed.

Lemma issued_evidence_verifies_witness :
  exists s, sign_text_concordance_evidence sample_packet IssuerTest "i" "seed" = Ok s /\
    verify s sample_candidate sample_enrollment 5 = Ok tt.
Proof.
  destruct (proj1 (is_ok_true _) sample_signs) as [s Hs]. exists s. split; [exact Hs|].
  exact (proj2 (proj2 (issued_evidence_verifies sample_packet IssuerTest "i" "seed" s sample_enrollment 5
    sample_laws Hs eq_refl eq_refl eq_refl eq_refl eq_refl eq_refl))).
Defined.

Lemma sample_verifies :
  is_ok (s ← sign_text_concordance_evidence sample_packet IssuerTest "i" "seed";
         verify s sample_candidate sample_enrollment 5) = true.
Proof. vm_compute. reflexivity. Qed.

Lemma evidence_not_replayable_witness :
  exists s, verify s sample_candidate sample_enrollment 5 = Ok tt /\
    ((signed_evidence s = signed_evidence s /\ sample_candidate = sample_candidate /\
      enr_role sample_enrollment = enr_role sample_enrollment /\
      enr_identity sample_enrollment = enr_identity sample_enrollment /\
      enr_tenant_scope sample_enrollment = enr_tenant_scope sample_enrollment) \/ sha256_collision).
Proof.
  destruct (proj1 (is_ok_true _) sample_verifies) as [[] Hv]. apply bind_Ok_inv in Hv as (s & _ & Hv).
  exists s. split; [exact Hv|].
  exact (evidence_not_replayable s sample_candidate sample_enrollment 5 s sample_candidate sample_enrollment 5
    sample_evidence_faithful Hv Hv eq_refl).
Defined.
End samples.
