(* ===== verification/Review.v ===== *)
(** * Review packets and ratification receipts

    [ratification.rs], the backend-neutral part: the frozen packet a human
    reviews, the commands (acknowledgement, decision) and the receipts that
    record them, their validation, the digests and seals that bind them, and the
    preparation of a review candidate from a delivered task.  A frozen packet is
    exactly one that verifies, and its seal determines it.  [serde_json], the
    hash primitives and the base64 engine are parameters. *)

From stdpp Require Import pretty.
From S2P Require Import Prelude Text Protocol Store Policy Guard.

(** ** Data *)

Definition PACKET_DOMAIN : string := "smesh-human-ratification-packet/v1" +:+ nul.
Definition RECEIPT_DOMAIN : string := "smesh-human-ratification-receipt/v1" +:+ nul.
Definition REVIEW_MAX_TEXT_BYTES : N := 4096.
Definition MAX_HASHES : N := 256.
Definition MAX_ARTIFACTS : N := 128.
Definition MAX_PUBLICATION_TASK_BYTES : N := 1024 * 1024.

Record ReviewArtifact := {
  ra_name : string;
  ra_media_type : string;
  ra_canonical_json : string;
  ra_digest : string }.

Record ReviewPacketInput := {
  in_task_id : string;
  in_tenant_id : string;
  in_generation : N;
  in_task_revision : N;
  in_authorization_policy_id : string;
  in_authorization_policy_revision : N;
  in_authorization_policy_digest : string;
  in_principal_scope : string;
  in_authentication_method : string;
  in_context_id : string;
  in_request_digest : string;
  in_idempotency_key_digest : string;
  in_ratification_key_generation : string;
  in_checkpoint : string;
  in_checkpoint_hash : string;
  in_completion_policy_id : string;
  in_completion_policy_version : N;
  in_completion_policy_hash : string;
  in_evidence_snapshot_hash : string;
  in_artifact_set_digest : string;
  in_evidence : list string;
  in_evidence_hashes : list string;
  in_artifacts : list ReviewArtifact;
  in_approved_task_digest : string;
  in_approved_result_digest : string;
  in_approved_transcript_digest : string;
  in_uncertainty_summary : string;
  in_created_at_millis : Z }.

(** A packet dereferences to its input. *)
Record ReviewPacket := {
  input :> ReviewPacketInput;
  packet_revision : N;
  packet_hash : string;
  packet_seal : string }.

Inductive HumanDecision := Approve | Reject | Amend.

Record RatificationCommand := {
  cmd_tenant_id : string;
  cmd_task_id : string;
  cmd_generation : N;
  cmd_account_id : string;
  cmd_authorization_policy_id : string;
  cmd_authorization_policy_revision : N;
  cmd_authorization_policy_digest : string;
  cmd_principal_scope : string;
  cmd_authentication_method : string;
  cmd_context_id : string;
  cmd_request_digest : string;
  cmd_ratification_key_generation : string;
  cmd_expected_revision : N;
  cmd_checkpoint_hash : string;
  cmd_packet_hash : string;
  cmd_artifact_manifest_digest : string;
  cmd_idempotency_key : string;
  cmd_decision : HumanDecision;
  cmd_rationale : string;
  cmd_decided_at_millis : Z }.

Record ReviewAcknowledgement := {
  ack_tenant_id : string;
  ack_task_id : string;
  ack_generation : N;
  ack_account_id : string;
  ack_authorization_policy_id : string;
  ack_authorization_policy_revision : N;
  ack_authorization_policy_digest : string;
  ack_principal_scope : string;
  ack_authentication_method : string;
  ack_context_id : string;
  ack_request_digest : string;
  ack_ratification_key_generation : string;
  ack_expected_revision : N;
  ack_checkpoint_hash : string;
  ack_packet_hash : string;
  ack_evidence_hashes : list string;
  ack_artifact_hashes : list string;
  ack_artifact_manifest_digest : string;
  ack_uncertainty_acknowledged : bool;
  ack_idempotency_key : string;
  ack_reviewed_at_millis : Z }.

Inductive RatificationState :=
  | AwaitingReview | Reviewed | Approved | StateRejected | Amended | StateCanceled | Superseded.

Inductive HumanRatificationAction := ReviewAcknowledged | Decision_ (d : HumanDecision).

Record AmendmentAuthorization := {
  am_resource_digest : string;
  am_decision_id : string;
  am_decided_at_millis : Z;
  am_visibility : string;
  am_task_owner_account_id : string }.

(** What the receipt's hash covers: every field of the receipt but the hash and
    the seal. *)
Record ReceiptStatement := {
  rs_amendment_authorization : option AmendmentAuthorization;
  rs_tenant_id : string;
  rs_task_id : string;
  rs_account_id : string;
  rs_revision : N;
  rs_generation : N;
  rs_task_revision : N;
  rs_authorization_policy_id : string;
  rs_authorization_policy_revision : N;
  rs_authorization_policy_digest : string;
  rs_principal_scope : string;
  rs_authentication_method : string;
  rs_context_id : string;
  rs_request_digest : string;
  rs_idempotency_key_digest : string;
  rs_ratification_key_generation : string;
  rs_action : HumanRatificationAction;
  rs_rationale : string;
  rs_occurred_at_millis : Z;
  rs_idempotency_key : string;
  rs_checkpoint_hash : string;
  rs_packet_hash : string;
  rs_completion_policy_id : string;
  rs_completion_policy_version : N;
  rs_completion_policy_hash : string;
  rs_evidence_snapshot_hash : string;
  rs_evidence_hashes : list string;
  rs_artifact_set_digest : string;
  rs_artifacts : list ReviewArtifact;
  rs_previous_receipt_hash : option string }.

Record HumanRatificationReceipt := {
  statement :> ReceiptStatement;
  receipt_hash : string;
  human_seal : string }.

Record PacketStatement := { ps_input : ReviewPacketInput; ps_revision : N }.

Inductive RatificationError :=
  | InvalidInput | NotFound | ReviewRequired | ExactReviewRequired | Conflict | PreconditionFailed
  | IdempotencyConflict | Integrity | CapacityExceeded | Unavailable.

Record AuthoritativeReviewCandidate := {
  cand_completion_policy_id : string;
  cand_completion_policy_version : N;
  cand_completion_policy_hash : string;
  cand_checkpoint : string;
  cand_evidence : list string;
  cand_uncertainty_summary : string }.

Record PreparedRatification := {
  packet_input : ReviewPacketInput;
  approved_task_json : string;
  approved_result_json : string;
  approved_transcript_json : string;
  awaiting_task : Task;
  awaiting_result : SendMessageResponse;
  awaiting_transcript : list StreamResponse }.

#[global] Instance ReviewArtifact_eq_dec : EqDecision ReviewArtifact.
Proof. solve_decision. Defined.
#[global] Instance ReviewPacketInput_eq_dec : EqDecision ReviewPacketInput.
Proof. solve_decision. Defined.
#[global] Instance ReviewPacket_eq_dec : EqDecision ReviewPacket.
Proof. solve_decision. Defined.
#[global] Instance HumanDecision_eq_dec : EqDecision HumanDecision.
Proof. solve_decision. Defined.
#[global] Instance HumanRatificationAction_eq_dec : EqDecision HumanRatificationAction.
Proof. solve_decision. Defined.
#[global] Instance AmendmentAuthorization_eq_dec : EqDecision AmendmentAuthorization.
Proof. solve_decision. Defined.
#[global] Instance ReceiptStatement_eq_dec : EqDecision ReceiptStatement.
Proof. solve_decision. Defined.
#[global] Instance HumanRatificationReceipt_eq_dec : EqDecision HumanRatificationReceipt.
Proof. solve_decision. Defined.

(** ** Parameters

    [serde_json] at the types of this file.  [value_to_vec] is [to_vec] (and
    [to_string]) of a JSON value. *)

Class RatificationCodec := {
  ser_packet_statement :: Serialize PacketStatement;
  ser_receipt_statement :: Serialize ReceiptStatement;
  ser_packet :: Serialize ReviewPacket;
  packet_from_slice : string -> option ReviewPacket;
  ser_human_receipt :: Serialize HumanRatificationReceipt;
  human_receipt_from_slice : string -> option HumanRatificationReceipt;
  ser_value :: Serialize json;
  published_from_str : string -> option Artifact;
  artifact_to_value : Artifact -> result string json;
  artifacts_to_value : list Artifact -> result string json;
  publication_from_str : string -> option Task;
  ser_task :: Serialize Task;
  ser_result :: Serialize SendMessageResponse;
  ser_transcript :: Serialize (list StreamResponse);
  ser_texts :: Serialize (list string) }.

(** ** Validators *)

Definition validate_id (value : string) : result RatificationError unit :=
  fail_if (negb ((1 <=? slen value)%N && (slen value <=? 128)%N && is_ascii value
    && str_all (fun c => is_ascii_alphanumeric c || byte_in "-_." c) value)) InvalidInput.

Definition has_nul (value : string) : bool := negb (str_all (fun c => negb (code c =? 0)%N) value).

Definition review_validate_text (value : string) : result RatificationError unit :=
  fail_if (negb (negb (bool_decide (value = "")) && (slen value <=? REVIEW_MAX_TEXT_BYTES)%N
    && negb (has_nul value))) InvalidInput.

Definition valid_digest (value : string) : bool :=
  (slen value =? 71)%N &&
  match strip_prefix "sha256:" value with
  | Some digits => str_all (fun c => is_ascii_hexdigit c && negb (is_ascii_uppercase c)) digits
  | None => false
  end.

Definition principal_and_authentication_are_valid (principal_scope authentication_method : string) : bool :=
  negb (bool_decide (principal_scope = "")) && (slen principal_scope <=? 256)%N
  && is_ascii principal_scope && negb (has_nul principal_scope)
  && negb (bool_decide (authentication_method = "")) && (slen authentication_method <=? 64)%N
  && is_ascii authentication_method && negb (has_nul authentication_method).

Definition state_revision_is_valid (state : string) (revision : Z) : bool :=
  if bool_decide (state = "awaiting_review") then (revision =? 0)%Z
  else if bool_decide (state = "reviewed") then (revision =? 1)%Z
  else if bool_decide (state = "approved") || bool_decide (state = "rejected")
          || bool_decide (state = "amended") then (revision =? 2)%Z
  else if bool_decide (state = "canceled") || bool_decide (state = "superseded")
  then (revision =? 0)%Z || (revision =? 1)%Z
  else false.

Definition review_candidate_new (value : AuthoritativeReviewCandidate) :
    result RatificationError AuthoritativeReviewCandidate :=
  validate_id (cand_completion_policy_id value);;
  review_validate_text (cand_uncertainty_summary value);;
  fail_if ((cand_completion_policy_version value =? 0)%N
    || negb (valid_digest (cand_completion_policy_hash value))
    || bool_decide (cand_checkpoint value = "")
    || (REVIEW_MAX_TEXT_BYTES <? slen (cand_checkpoint value))%N
    || bool_decide (cand_evidence value = [])
    || (MAX_HASHES <? len (cand_evidence value))%N
    || existsb (fun item => bool_decide (item = "") || (REVIEW_MAX_TEXT_BYTES <? slen item)%N)
         (cand_evidence value)) InvalidInput;;
  Ok value.

(** ** Commands against packets *)

Definition review_command_matches_packet (c : ReviewAcknowledgement) (p : ReviewPacket) : bool :=
  bool_decide (ack_tenant_id c = in_tenant_id p)
  && bool_decide (ack_task_id c = in_task_id p)
  && bool_decide (ack_generation c = in_generation p)
  && bool_decide (ack_authorization_policy_id c = in_authorization_policy_id p)
  && bool_decide (ack_authorization_policy_revision c = in_authorization_policy_revision p)
  && bool_decide (ack_authorization_policy_digest c = in_authorization_policy_digest p)
  && bool_decide (ack_context_id c = in_context_id p)
  && bool_decide (ack_request_digest c = in_request_digest p)
  && bool_decide (ack_ratification_key_generation c = in_ratification_key_generation p)
  && bool_decide (ack_checkpoint_hash c = in_checkpoint_hash p)
  && bool_decide (ack_packet_hash c = packet_hash p)
  && bool_decide (ack_artifact_manifest_digest c = in_artifact_set_digest p).

Definition decision_command_matches_packet (c : RatificationCommand) (p : ReviewPacket) : bool :=
  bool_decide (cmd_tenant_id c = in_tenant_id p)
  && bool_decide (cmd_task_id c = in_task_id p)
  && bool_decide (cmd_generation c = in_generation p)
  && bool_decide (cmd_authorization_policy_id c = in_authorization_policy_id p)
  && bool_decide (cmd_authorization_policy_revision c = in_authorization_policy_revision p)
  && bool_decide (cmd_authorization_policy_digest c = in_authorization_policy_digest p)
  && bool_decide (cmd_context_id c = in_context_id p)
  && bool_decide (cmd_request_digest c = in_request_digest p)
  && bool_decide (cmd_ratification_key_generation c = in_ratification_key_generation p)
  && bool_decide (cmd_checkpoint_hash c = in_checkpoint_hash p)
  && bool_decide (cmd_packet_hash c = packet_hash p)
  && bool_decide (cmd_artifact_manifest_digest c = in_artifact_set_digest p).

Definition receipt_matches_packet (r : ReceiptStatement) (p : ReviewPacket) : bool :=
  bool_decide (rs_tenant_id r = in_tenant_id p)
  && bool_decide (rs_task_id r = in_task_id p)
  && bool_decide (rs_generation r = in_generation p)
  && bool_decide (rs_task_revision r = in_task_revision p)
  && bool_decide (rs_authorization_policy_id r = in_authorization_policy_id p)
  && bool_decide (rs_authorization_policy_revision r = in_authorization_policy_revision p)
  && bool_decide (rs_authorization_policy_digest r = in_authorization_policy_digest p)
  && bool_decide (rs_context_id r = in_context_id p)
  && bool_decide (rs_request_digest r = in_request_digest p)
  && bool_decide (rs_ratification_key_generation r = in_ratification_key_generation p)
  && bool_decide (rs_checkpoint_hash r = in_checkpoint_hash p)
  && bool_decide (rs_packet_hash r = packet_hash p)
  && bool_decide (rs_completion_policy_id r = in_completion_policy_id p)
  && bool_decide (rs_completion_policy_version r = in_completion_policy_version p)
  && bool_decide (rs_completion_policy_hash r = in_completion_policy_hash p)
  && bool_decide (rs_evidence_snapshot_hash r = in_evidence_snapshot_hash p)
  && bool_decide (rs_evidence_hashes r = in_evidence_hashes p)
  && bool_decide (rs_artifact_set_digest r = in_artifact_set_digest p)
  && bool_decide (rs_artifacts r = in_artifacts p).

(** [serde_json::json!] of integers and string lists *)
Definition jnum (n : N) : json := JNumber (pretty n).
Definition jstrs (l : list string) : json := JArray (JString <$> l).
Definition decision_name (d : HumanDecision) : string :=
  match d with Approve => "approve" | Reject => "reject" | Amend => "amend" end.

Definition review_command_value (c : ReviewAcknowledgement) : json := JObject [
  ("accountId", JString (ack_account_id c));
  ("artifactHashes", jstrs (ack_artifact_hashes c));
  ("artifactManifestDigest", JString (ack_artifact_manifest_digest c));
  ("authenticationMethod", JString (ack_authentication_method c));
  ("authorizationPolicyDigest", JString (ack_authorization_policy_digest c));
  ("authorizationPolicyId", JString (ack_authorization_policy_id c));
  ("authorizationPolicyRevision", jnum (ack_authorization_policy_revision c));
  ("checkpointHash", JString (ack_checkpoint_hash c));
  ("contextId", JString (ack_context_id c));
  ("evidenceHashes", jstrs (ack_evidence_hashes c));
  ("expectedRevision", jnum (ack_expected_revision c));
  ("generation", jnum (ack_generation c));
  ("idempotencyKey", JString (ack_idempotency_key c));
  ("packetHash", JString (ack_packet_hash c));
  ("principalScope", JString (ack_principal_scope c));
  ("ratificationKeyGeneration", JString (ack_ratification_key_generation c));
  ("requestDigest", JString (ack_request_digest c));
  ("taskId", JString (ack_task_id c));
  ("tenantId", JString (ack_tenant_id c));
  ("uncertaintyAcknowledged", JBool (ack_uncertainty_acknowledged c))].

Definition decision_command_value (c : RatificationCommand) : json := JObject [
  ("accountId", JString (cmd_account_id c));
  ("artifactManifestDigest", JString (cmd_artifact_manifest_digest c));
  ("authenticationMethod", JString (cmd_authentication_method c));
  ("authorizationPolicyDigest", JString (cmd_authorization_policy_digest c));
  ("authorizationPolicyId", JString (cmd_authorization_policy_id c));
  ("authorizationPolicyRevision", jnum (cmd_authorization_policy_revision c));
  ("checkpointHash", JString (cmd_checkpoint_hash c));
  ("contextId", JString (cmd_context_id c));
  ("decision", JString (decision_name (cmd_decision c)));
  ("expectedRevision", jnum (cmd_expected_revision c));
  ("generation", jnum (cmd_generation c));
  ("idempotencyKey", JString (cmd_idempotency_key c));
  ("packetHash", JString (cmd_packet_hash c));
  ("principalScope", JString (cmd_principal_scope c));
  ("ratificationKeyGeneration", JString (cmd_ratification_key_generation c));
  ("rationale", JString (cmd_rationale c));
  ("requestDigest", JString (cmd_request_digest c));
  ("taskId", JString (cmd_task_id c));
  ("tenantId", JString (cmd_tenant_id c))].

Section review.
Context `{Sha256, HmacSha256, UrlBase64, RatificationCodec}.

(** ** Digests of commands *)

Definition semantic_digest (value : json) : result RatificationError string :=
  bytes ← map_err (fun _ => InvalidInput) (to_vec value);
  Ok (content_digest bytes).

Definition review_command_semantic_digest (c : ReviewAcknowledgement) : result RatificationError string :=
  semantic_digest (review_command_value c).

Definition decision_command_semantic_digest (c : RatificationCommand) : result RatificationError string :=
  semantic_digest (decision_command_value c).

(** The command a receipt records. *)
Definition receipt_review (r : ReceiptStatement) : ReviewAcknowledgement := {|
  ack_tenant_id := rs_tenant_id r;
  ack_task_id := rs_task_id r;
  ack_generation := rs_generation r;
  ack_account_id := rs_account_id r;
  ack_authorization_policy_id := rs_authorization_policy_id r;
  ack_authorization_policy_revision := rs_authorization_policy_revision r;
  ack_authorization_policy_digest := rs_authorization_policy_digest r;
  ack_principal_scope := rs_principal_scope r;
  ack_authentication_method := rs_authentication_method r;
  ack_context_id := rs_context_id r;
  ack_request_digest := rs_request_digest r;
  ack_ratification_key_generation := rs_ratification_key_generation r;
  ack_expected_revision := saturating_sub (rs_revision r) 1;
  ack_checkpoint_hash := rs_checkpoint_hash r;
  ack_packet_hash := rs_packet_hash r;
  ack_evidence_hashes := rs_evidence_hashes r;
  ack_artifact_hashes := ra_digest <$> rs_artifacts r;
  ack_artifact_manifest_digest := rs_artifact_set_digest r;
  ack_uncertainty_acknowledged := true;
  ack_idempotency_key := rs_idempotency_key r;
  ack_reviewed_at_millis := rs_occurred_at_millis r |}.

Definition receipt_decision (r : ReceiptStatement) (decision : HumanDecision) : RatificationCommand := {|
  cmd_tenant_id := rs_tenant_id r;
  cmd_task_id := rs_task_id r;
  cmd_generation := rs_generation r;
  cmd_account_id := rs_account_id r;
  cmd_authorization_policy_id := rs_authorization_policy_id r;
  cmd_authorization_policy_revision := rs_authorization_policy_revision r;
  cmd_authorization_policy_digest := rs_authorization_policy_digest r;
  cmd_principal_scope := rs_principal_scope r;
  cmd_authentication_method := rs_authentication_method r;
  cmd_context_id := rs_context_id r;
  cmd_request_digest := rs_request_digest r;
  cmd_ratification_key_generation := rs_ratification_key_generation r;
  cmd_expected_revision := saturating_sub (rs_revision r) 1;
  cmd_checkpoint_hash := rs_checkpoint_hash r;
  cmd_packet_hash := rs_packet_hash r;
  cmd_artifact_manifest_digest := rs_artifact_set_digest r;
  cmd_idempotency_key := rs_idempotency_key r;
  cmd_decision := decision;
  cmd_rationale := rs_rationale r;
  cmd_decided_at_millis := rs_occurred_at_millis r |}.

Definition receipt_command_semantic_digest (r : ReceiptStatement) : result RatificationError string :=
  match rs_action r with
  | ReviewAcknowledged => review_command_semantic_digest (receipt_review r)
  | Decision_ decision => decision_command_semantic_digest (receipt_decision r decision)
  end.

(** ** Hashes and seals *)

Definition ratification_mac (key domain payload : string) : string :=
  url_encode (hmac key (domain +:+ payload)).

(** [mac.verify_slice] compares the whole tag. *)
Definition verify_mac (key domain payload encoded : string) : bool :=
  match url_decode encoded with
  | Some tag => bool_decide (hmac key (domain +:+ payload) = tag)
  | None => false
  end.

Definition packet_statement_hash (i : ReviewPacketInput) (revision : N) : result RatificationError string :=
  bytes ← map_err (fun _ => InvalidInput) (to_vec {| ps_input := i; ps_revision := revision |});
  Ok (content_digest bytes).

Definition receipt_statement_hash (r : ReceiptStatement) : result RatificationError string :=
  bytes ← map_err (fun _ => Integrity) (to_vec r);
  Ok (content_digest bytes).

Definition verify_human_receipt (key : string) (r : HumanRatificationReceipt) : bool :=
  match receipt_statement_hash r with
  | Ok hash => bool_decide (receipt_hash r = hash) && verify_mac key RECEIPT_DOMAIN hash (human_seal r)
  | Err _ => false
  end.

(** ** Packets *)

(** The text of the value of an artifact, [serde_json::to_string(&to_value(a)?)]. *)
Definition artifact_json (a : Artifact) : result string string :=
  value ← artifact_to_value a; to_vec value.

Definition artifacts_json (l : list Artifact) : result string string :=
  value ← artifacts_to_value l; to_vec value.

Definition check_review_artifact (a : ReviewArtifact) : result RatificationError Artifact :=
  published ← ok_or (published_from_str (ra_canonical_json a)) InvalidInput;
  canonical ← map_err (fun _ => InvalidInput) (artifact_json published);
  fail_if (negb (bool_decide (canonical = ra_canonical_json a))
    || negb (bool_decide (content_digest canonical = ra_digest a))) InvalidInput;;
  Ok published.

Definition bad_evidence (e : string * string) : bool :=
  bool_decide (e.1 = "") || (REVIEW_MAX_TEXT_BYTES <? slen e.1)%N
  || negb (bool_decide (content_digest e.1 = e.2)).

Definition validate_packet (i : ReviewPacketInput) : result RatificationError unit :=
  validate_id (in_task_id i);;
  validate_id (in_tenant_id i);;
  validate_id (in_completion_policy_id i);;
  validate_id (in_authorization_policy_id i);;
  validate_id (in_authentication_method i);;
  validate_id (in_context_id i);;
  review_validate_text (in_principal_scope i);;
  published ← try_map check_review_artifact (in_artifacts i);
  artifact_manifest ← map_err (fun _ => InvalidInput) (artifacts_json published);
  fail_if ((in_generation i =? 0)%N
    || (in_task_revision i =? 0)%N
    || (in_completion_policy_version i =? 0)%N
    || (in_authorization_policy_revision i =? 0)%N
    || bool_decide (in_evidence_hashes i = [])
    || (MAX_HASHES <? len (in_evidence_hashes i))%N
    || bool_decide (in_artifacts i = [])
    || (MAX_ARTIFACTS <? len (in_artifacts i))%N
    || bool_decide (in_checkpoint i = "")
    || (REVIEW_MAX_TEXT_BYTES <? slen (in_checkpoint i))%N
    || negb (bool_decide (content_digest (in_checkpoint i) = in_checkpoint_hash i))
    || negb (valid_digest (in_checkpoint_hash i))
    || negb (valid_digest (in_completion_policy_hash i))
    || negb (valid_digest (in_authorization_policy_digest i))
    || negb (valid_digest (in_request_digest i))
    || negb (valid_digest (in_idempotency_key_digest i))
    || negb (valid_digest (in_ratification_key_generation i))
    || negb (valid_digest (in_evidence_snapshot_hash i))
    || negb (valid_digest (in_approved_task_digest i))
    || negb (valid_digest (in_approved_result_digest i))
    || negb (valid_digest (in_approved_transcript_digest i))
    || negb (bool_decide (in_artifact_set_digest i = content_digest artifact_manifest))
    || existsb (fun value => negb (valid_digest value)) (in_evidence_hashes i)
    || negb (length (in_evidence i) =? length (in_evidence_hashes i))%nat
    || existsb bad_evidence (zip (in_evidence i) (in_evidence_hashes i))) InvalidInput;;
  review_validate_text (in_uncertainty_summary i);;
  try_each (fun a =>
    review_validate_text (ra_name a);;
    review_validate_text (ra_media_type a);;
    fail_if (bool_decide (ra_canonical_json a = "") || (1024 * 1024 <? slen (ra_canonical_json a))%N
      || negb (valid_digest (ra_digest a))) InvalidInput) (in_artifacts i).

Definition freeze (i : ReviewPacketInput) (key : string) : result RatificationError ReviewPacket :=
  validate_packet i;;
  hash ← packet_statement_hash i 0;
  Ok {| input := i; packet_revision := 0; packet_hash := hash;
        packet_seal := ratification_mac key PACKET_DOMAIN hash |}.

Definition verify_packet (p : ReviewPacket) (key : string) : result RatificationError unit :=
  validate_packet p;;
  expected_hash ← packet_statement_hash p (packet_revision p);
  fail_if (negb (bool_decide (expected_hash = packet_hash p))
    || negb (bool_decide (ratification_mac key PACKET_DOMAIN (packet_hash p) = packet_seal p))) Integrity.

(** ** Publication *)

Definition decode_publication_task (text : string) : result A2AError Task :=
  fail_if (MAX_PUBLICATION_TASK_BYTES <? slen text)%N
    (internal "ratification publication candidate exceeds storage limit");;
  ok_or (publication_from_str text) (internal "ratification candidate decoding failed").

(** The media types of the artifact's parts, read off its JSON value. *)
Definition media_types (value : json) : list string :=
  match json_get "parts" value with
  | Some (JArray parts) => omap (fun part => json_get "mediaType" part ≫= as_str) parts
  | _ => []
  end.

Definition review_artifact (a : Artifact) : result A2AError ReviewArtifact :=
  value ← map_err (fun _ => internal "ratification artifact encoding failed") (artifact_to_value a);
  canonical ← map_err (fun _ => internal "ratification artifact encoding failed") (to_vec value);
  fail_if (negb (utf8_valid canonical)) (internal "ratification artifact encoding failed");;
  Ok {| ra_name := default (Protocol.artifact_id a) (Protocol.artifact_name a);
        ra_media_type := match media_types value with [only] => only | _ => "multipart/mixed" end;
        ra_canonical_json := canonical;
        ra_digest := content_digest canonical |}.

Definition publication_artifact_manifest (text : string) : result A2AError (list ReviewArtifact * string) :=
  task ← decode_publication_task text;
  let published := default [] (artifacts task) in
  manifest ← map_err (fun _ => internal "ratification manifest encoding failed") (artifacts_json published);
  review ← try_map review_artifact published;
  Ok (review, content_digest manifest).

Definition publication_manifest_matches (p : ReviewPacket) (text : string) : bool :=
  match publication_artifact_manifest text with
  | Ok (review, digest) =>
      bool_decide (review = in_artifacts p) && bool_decide (digest = in_artifact_set_digest p)
  | Err _ => false
  end.

(** [String::from_utf8] *)
Definition from_utf8 (why : string) (bytes : string) : result A2AError string :=
  fail_if (negb (utf8_valid bytes)) (invalid_params why);; Ok bytes.

(** The packet input before the store fills in what it alone knows: generation,
    revision, policy, principal, context, request and key. *)
Definition candidate_input (tenant task : string) (c : AuthoritativeReviewCandidate)
    (evidence : list string) (snapshot : string) (checkpoint : string)
    (review : list ReviewArtifact) (manifest_digest : string)
    (task_json result_json transcript_json : string) (now : Z) : ReviewPacketInput := {|
  in_task_id := task;
  in_tenant_id := tenant;
  in_generation := 0;
  in_task_revision := 0;
  in_authorization_policy_id := "";
  in_authorization_policy_revision := 0;
  in_authorization_policy_digest := "";
  in_principal_scope := "";
  in_authentication_method := "";
  in_context_id := "";
  in_request_digest := "";
  in_idempotency_key_digest := "";
  in_ratification_key_generation := "";
  in_checkpoint := checkpoint;
  in_checkpoint_hash := content_digest checkpoint;
  in_completion_policy_id := cand_completion_policy_id c;
  in_completion_policy_version := cand_completion_policy_version c;
  in_completion_policy_hash := cand_completion_policy_hash c;
  in_evidence_snapshot_hash := content_digest snapshot;
  in_artifact_set_digest := manifest_digest;
  in_evidence := evidence;
  in_evidence_hashes := content_digest <$> evidence;
  in_artifacts := review;
  in_approved_task_digest := content_digest task_json;
  in_approved_result_digest := content_digest result_json;
  in_approved_transcript_digest := content_digest transcript_json;
  in_uncertainty_summary := cand_uncertainty_summary c;
  in_created_at_millis := now |}.

(** The task shown while a human decides; [message_id] is the fresh identifier
    of its status message. *)
Definition awaiting (message_id : string) (task : Task) : Task := {|
  id := id task;
  context_id := context_id task;
  status := {|
    state := InputRequired;
    status_message := Some {|
      message_id := message_id; message_context_id := None; message_task_id := None; role := Agent;
      parts := [{| content := Part_Text "Human ratification required"; filename := None;
                   part_media_type := None; part_metadata := None |}];
      message_metadata := None; extensions := None; reference_task_ids := None |};
    timestamp := timestamp (status task) |};
  artifacts := None;
  history := history task;
  metadata := metadata task |}.

(** [tenant] and [task_id] are those of the outbox lease. *)
Definition prepare_authoritative_review_candidate (tenant task_id message_id : string)
    (approved_task : Task) (approved_result : SendMessageResponse)
    (approved_transcript : list StreamResponse) (c : AuthoritativeReviewCandidate) (now : Z) :
    result A2AError PreparedRatification :=
  evidence ← try_map (from_utf8 "ratification evidence must be UTF-8") (cand_evidence c);
  task_json ← map_err (fun _ => internal "ratification candidate encoding failed") (to_vec approved_task);
  '(review, manifest_digest) ← publication_artifact_manifest task_json;
  fail_if (bool_decide (review = [])) (invalid_params "ratification candidate has no artifacts");;
  checkpoint ← from_utf8 "ratification checkpoint must be UTF-8" (cand_checkpoint c);
  result_json ← map_err (fun _ => internal "ratification result encoding failed") (to_vec approved_result);
  transcript_json ←
    map_err (fun _ => internal "ratification transcript encoding failed") (to_vec approved_transcript);
  snapshot ← map_err (fun _ => internal "ratification evidence encoding failed") (to_vec evidence);
  let waiting := awaiting message_id approved_task in
  Ok {| packet_input := candidate_input tenant task_id c evidence snapshot checkpoint review
          manifest_digest task_json result_json transcript_json now;
        approved_task_json := task_json;
        approved_result_json := result_json;
        approved_transcript_json := transcript_json;
        awaiting_task := waiting;
        awaiting_result := Sent_Task waiting;
        awaiting_transcript :=
          [default (Stream_Task waiting) (head approved_transcript);
           StatusUpdate {| update_task_id := id waiting; update_context_id := context_id waiting;
                           update_status := status waiting; update_metadata := None |}] |}.

(** ** Facts *)

Lemma ratification_mac_collision key domain p p' : url_laws ->
  ratification_mac key domain p = ratification_mac key domain p' -> p = p' \/ hmac_collision key.
Proof.
  intros laws Heq. unfold ratification_mac in Heq. apply (f_equal url_decode) in Heq.
  rewrite !(url_roundtrip laws) in Heq by apply hmac_length. injection Heq as Heq.
  destruct (decide (domain +:+ p = domain +:+ p')) as [Hp|Hp]; [left|right; by eexists _, _].
  by apply app_length_inj in Hp as [_ ->].
Qed.

Lemma verify_packet_Ok p key : verify_packet p key = Ok tt <->
  validate_packet p = Ok tt /\ packet_statement_hash p (packet_revision p) = Ok (packet_hash p) /\
  ratification_mac key PACKET_DOMAIN (packet_hash p) = packet_seal p.
Proof.
  unfold verify_packet. split.
  - intros Hok. inv_ok. by subst.
  - intros (-> & Hh & Hm). simpl. rewrite Hh. simpl. by rewrite !bool_decide_eq_true_2.
Qed.

Lemma packet_statement_collision i n i' n' hash :
  faithful PacketStatement -> packet_statement_hash i n = Ok hash -> packet_statement_hash i' n' = Ok hash ->
  (i = i' /\ n = n') \/ sha256_collision.
Proof.
  intros [Hinj _] (b & Hb%map_err_Ok & <-%Ok_inj)%bind_Ok_inv (b' & Hb'%map_err_Ok & Hd%Ok_inj)%bind_Ok_inv.
  apply content_digest_collision in Hd as [->|]; [left|by right].
  by pose proof (Hinj _ _ _ Hb Hb') as [= -> ->].
Qed.

(** Freezing an input gives a packet exactly when that packet is the input at
    revision 0 and verifies under the same key: freezing never makes a packet the
    ledger would refuse to read back, and there is no other packet for the input. *)
Theorem packet_frozen_exactly i key p :
  freeze i key = Ok p <-> input p = i /\ packet_revision p = 0%N /\ verify_packet p key = Ok tt.
Proof.
  rewrite verify_packet_Ok. unfold freeze. split.
  - intros Hok. inv_ok. by subst.
  - destruct p as [pi rev hash seal]. simpl. intros (-> & -> & -> & -> & <-). done.
Qed.

(** Two packets that verify under one key and carry the same seal are the same
    packet, or exhibit a collision of the keyed hash or of the digest: a reviewer
    who acknowledges a seal has acknowledged every field of the packet. *)
Theorem packet_seal_binds key p q :
  url_laws -> faithful PacketStatement ->
  verify_packet p key = Ok tt -> verify_packet q key = Ok tt ->
  packet_seal p = packet_seal q -> p = q \/ sha256_collision \/ hmac_collision key.
Proof.
  intros laws Hser (_ & Hp & Hsp)%verify_packet_Ok (_ & Hq & Hsq)%verify_packet_Ok Hseal.
  rewrite <- Hsp, <- Hsq in Hseal.
  destruct (ratification_mac_collision _ _ _ _ laws Hseal) as [Heq|]; [|by auto].
  destruct (packet_statement_collision _ _ _ _ _ Hser Hp ltac:(by rewrite Heq)) as [[Hi Hr]|]; [|by auto].
  left. destruct p, q. simpl in *. by subst.
Qed.
End review.
