(* ===== verification/Publication.v ===== *)
(** * Transcripts and publication

    What a reviewer is shown and what a client sees meanwhile: the artifacts in a
    packet are those the approved task publishes.  The durable stores accept a public
    transcript only when replaying it gives the final task
    ([validate_terminal_public_transcript] of [sqlite_store.rs], repeated in
    [postgres_store.rs]); while a human decides, the transcript shows no artifact. *)

From S2P Require Import Prelude Text Protocol Store Policy Guard Review.

(** ** Transcripts *)

Definition MAX_STREAM_FRAMES : N := 1024.

Definition is_dispatch_closed (s : TaskState) : bool :=
  is_terminal s || bool_decide (s = InputRequired) || bool_decide (s = AuthRequired).

Definition final_result_matches_task (response : SendMessageResponse) (task : Task) : bool :=
  match response with
  | Sent_Task t => bool_decide (t = task)
  | Sent_Message m =>
      bool_decide (message_task_id m = Some (id task))
      && bool_decide (status_message (status task) = Some m)
  end.

Definition is_task_frame (frame : StreamResponse) : bool :=
  match frame with Stream_Task _ => true | _ => false end.

Definition with_status (task : Task) (s : TaskStatus) : Task := {|
  id := id task; context_id := context_id task; status := s; artifacts := artifacts task;
  history := history task; metadata := metadata task |}.

Definition push_artifact (task : Task) (a : Artifact) : Task := {|
  id := id task; context_id := context_id task; status := status task;
  artifacts := Some (default [] (artifacts task) ++ [a]); history := history task; metadata := metadata task |}.

(** The loop over the frames after the first: the task as replayed, the number of
    closing frames, and the frames still to come. *)
Fixpoint replay_frames (final_task reconstructed : Task) (terminal_count : N) (frames : list StreamResponse) :
    result A2AError (Task * N) :=
  match frames with
  | [] => Ok (reconstructed, terminal_count)
  | Stream_Task _ :: _ | Stream_Message _ :: _ => Err invalid_agent_response
  | StatusUpdate u :: rest =>
      fail_if (negb (bool_decide (update_task_id u = id final_task))
        || negb (bool_decide (update_context_id u = context_id final_task))) invalid_agent_response;;
      if is_dispatch_closed (state (update_status u)) then
        fail_if (negb (bool_decide (rest = []))) invalid_agent_response;;
        replay_frames final_task (with_status reconstructed (update_status u)) (terminal_count + 1) rest
      else replay_frames final_task (with_status reconstructed (update_status u)) terminal_count rest
  | ArtifactUpdate u :: rest =>
      fail_if (negb (bool_decide (au_task_id u = id final_task))
        || negb (bool_decide (au_context_id u = context_id final_task))) invalid_agent_response;;
      replay_frames final_task (push_artifact reconstructed (au_artifact u)) terminal_count rest
  end.

Definition validate_terminal_public_transcript (frames : list StreamResponse) (final_task : Task) :
    result A2AError unit :=
  fail_if (bool_decide (frames = []) || (MAX_STREAM_FRAMES <? len frames)%N) invalid_agent_response;;
  match head frames with
  | Some (Stream_Task initial) =>
      fail_if (is_terminal (state (status initial))
        || negb (length (filter (fun f => is_task_frame f = true) frames) =? 1)%nat) invalid_agent_response;;
      '(reconstructed, terminal_count) ← replay_frames final_task initial 0 (tail frames);
      fail_if (negb (terminal_count =? 1)%N || negb (bool_decide (reconstructed = final_task)))
        invalid_agent_response
  | _ => Err invalid_agent_response
  end.

(** *** What an accepted transcript is *)

(** A client that replays a frame. *)
Definition apply_frame (task : Task) (frame : StreamResponse) : Task :=
  match frame with
  | StatusUpdate u => with_status task (update_status u)
  | ArtifactUpdate u => push_artifact task (au_artifact u)
  | _ => task
  end.

Definition addressed (task : Task) (frame : StreamResponse) : Prop :=
  match frame with
  | StatusUpdate u => update_task_id u = id task /\ update_context_id u = context_id task
  | ArtifactUpdate u => au_task_id u = id task /\ au_context_id u = context_id task
  | _ => False
  end.

Definition closes (frame : StreamResponse) : bool :=
  match frame with StatusUpdate u => is_dispatch_closed (state (update_status u)) | _ => false end.

Definition open_update (task : Task) (frame : StreamResponse) : Prop :=
  addressed task frame /\ closes frame = false.

Lemma replay_frames_open final task n frames rest :
  Forall (open_update final) frames ->
  replay_frames final task n (frames ++ rest)
  = replay_frames final (fold_left apply_frame frames task) n rest.
Proof.
  intros Hall. revert task. induction Hall as [|f fs [Ha Hc] Hall IH]; intros task; [done|].
  destruct f as [| |u|u]; try done; destruct Ha as [Ht Hx]; simpl in *;
    rewrite (bool_decide_eq_true_2 _ Ht), (bool_decide_eq_true_2 _ Hx); simpl; [rewrite Hc|]; apply IH.
Qed.

(** The updates of a task of which only the last one closes it. *)
Definition closing (task : Task) (frames : list StreamResponse) : Prop :=
  exists middle last, frames = middle ++ [StatusUpdate last] /\ Forall (open_update task) middle /\
    addressed task (StatusUpdate last) /\ closes (StatusUpdate last) = true.

Lemma closing_cons task f frames : open_update task f -> closing task frames -> closing task (f :: frames).
Proof. intros Hf (middle & last & -> & Hall & Hl). exists (f :: middle), last. by auto. Qed.

Lemma replay_frames_inv final task n frames task' n' :
  replay_frames final task n frames = Ok (task', n') ->
  task' = fold_left apply_frame frames task /\
  ((n' = n /\ Forall (open_update final) frames) \/ ((n' = n + 1)%N /\ closing final frames)).
Proof.
  revert task. induction frames as [|f rest IH]; intros task Hok; [by injection Hok as <- <-; auto|].
  destruct f as [| |u|u]; try done; simpl in Hok; inv_ok.
  - destruct (is_dispatch_closed (state (update_status u))) eqn:Hc.
    + inv_ok. subst rest. simpl in Hok. injection Hok as <- <-. split; [done|]. right. split; [done|]. by exists [], u.
    + apply IH in Hok as [-> Hrest]. split; [done|].
      assert (open_update final (StatusUpdate u)) by done.
      destruct Hrest as [[-> ?]|[-> ?]]; [left|right]; split; auto using closing_cons.
  - apply IH in Hok as [-> Hrest]. split; [done|].
    assert (open_update final (ArtifactUpdate u)) by done.
    destruct Hrest as [[-> ?]|[-> ?]]; [left|right]; split; auto using closing_cons.
Qed.

Lemma closing_accepted final task n frames : closing final frames ->
  replay_frames final task n frames = Ok (fold_left apply_frame frames task, (n + 1)%N).
Proof.
  intros (middle & last & -> & Hall & [Ht Hx] & Hc).
  rewrite replay_frames_open, fold_left_app by done. simpl in *.
  by rewrite (bool_decide_eq_true_2 _ Ht), (bool_decide_eq_true_2 _ Hx), Hc.
Qed.

Lemma closing_no_task task frames : closing task frames ->
  filter (fun f => is_task_frame f = true) frames = [].
Proof.
  intros (middle & last & -> & Hall & _). rewrite filter_app, filter_cons_False by done.
  rewrite app_nil_r. induction Hall as [|f fs [Ha _] Hall IH]; [done|].
  by rewrite filter_cons_False by (by destruct f).
Qed.

(** C21: A public transcript is accepted exactly when it is at most 1024 frames: a
    first frame with the task, not yet terminal; then updates addressed to the
    task, of which the last one, and only that, closes it; and replaying them
    over the first frame gives the task that is stored. *)
Theorem transcript_exact frames final :
  validate_terminal_public_transcript frames final = Ok tt <->
  (len frames <= MAX_STREAM_FRAMES)%N /\
  exists initial updates, frames = Stream_Task initial :: updates /\
    is_terminal (state (status initial)) = false /\ closing final updates /\
    fold_left apply_frame updates initial = final.
Proof.
  unfold validate_terminal_public_transcript. split.
  - intros Hok. inv_ok. destruct frames as [|[initial| | |] updates]; try done. simpl in Hok. inv_ok.
    match goal with H : replay_frames _ _ _ _ = _ |- _ => apply replay_frames_inv in H as [-> Hr] end.
    split; [done|]. exists initial, updates.
    destruct Hr as [[-> ?]|[-> ?]]; [done|]. auto.
  - intros [Hlen (initial & updates & -> & Hopen & Hc & Hf)].
    apply N.ltb_ge in Hlen. rewrite Hlen, filter_cons_True, (closing_no_task _ _ Hc) by done.
    simpl. rewrite Hopen. simpl. rewrite (closing_accepted _ _ _ _ Hc). simpl.
    by rewrite bool_decide_eq_true_2.
Qed.

(** ** Publication *)

Section publication.
Context `{Sha256, HmacSha256, UrlBase64, RatificationCodec}.

(** What [serde_json] promises of tasks and artifacts: a task is read back, and the
    text of an artifact determines it. *)
Record publication_laws : Prop := {
  task_roundtrip : forall t text, to_vec t = Ok text -> publication_from_str text = Some t;
  artifact_text_inj : forall a a' text, artifact_json a = Ok text -> artifact_json a' = Ok text -> a = a' }.

Lemma review_artifact_text a r : review_artifact a = Ok r -> artifact_json a = Ok (ra_canonical_json r).
Proof. unfold review_artifact, artifact_json. intros Hok. inv_ok. subst. simpl. by rewrite Hok0. Qed.

Lemma review_artifacts_inj l l' review : publication_laws ->
  try_map review_artifact l = Ok review -> try_map review_artifact l' = Ok review -> l = l'.
Proof.
  intros laws Hl%try_map_Ok. revert l'.
  induction Hl as [|a r l rs Ha Hl IH]; intros l' Hl'%try_map_Ok; inversion Hl' as [|a' ? l'' ? Ha' Hl'']; subst;
    [done|]. f_equal; [|by apply IH, try_map_Ok].
  by eapply (artifact_text_inj laws); apply review_artifact_text.
Qed.

Lemma publication_manifest_inv text review d :
  publication_artifact_manifest text = Ok (review, d) ->
  exists task, decode_publication_task text = Ok task /\
    try_map review_artifact (default [] (artifacts task)) = Ok review.
Proof. unfold publication_artifact_manifest. intros Hok. inv_ok. eauto. Qed.

Lemma publication_matches_inv (p : ReviewPacket) text :
  publication_manifest_matches p text = true ->
  publication_artifact_manifest text = Ok (in_artifacts p, in_artifact_set_digest p).
Proof.
  unfold publication_manifest_matches. destruct (publication_artifact_manifest text) as [[]|]; [|done].
  intros [->%bool_decide_eq_true ->%bool_decide_eq_true]%andb_true_iff. done.
Qed.

Lemma prepared_manifest tenant task_id message_id approved result transcript c now out :
  prepare_authoritative_review_candidate tenant task_id message_id approved result transcript c now = Ok out ->
  to_vec approved = Ok (approved_task_json out) /\
  publication_artifact_manifest (approved_task_json out)
  = Ok (in_artifacts (packet_input out), in_artifact_set_digest (packet_input out)).
Proof. unfold prepare_authoritative_review_candidate. intros Hok. inv_ok. by subst. Qed.


(** C23: While a human decides: the delivery is accepted exactly when the first public
    frame is the approved task without artifacts and not yet terminal; then the
    client sees two frames, no artifact among them, and the task asks for input. *)
Theorem awaiting_discloses_nothing tenant task_id message_id approved result transcript c now out :
  prepare_authoritative_review_candidate tenant task_id message_id approved result transcript c now = Ok out ->
  validate_terminal_public_transcript (awaiting_transcript out) (awaiting_task out) = Ok tt <->
  exists initial update,
    awaiting_transcript out = [Stream_Task initial; StatusUpdate update] /\
    id initial = id approved /\ context_id initial = context_id approved /\
    history initial = history approved /\ metadata initial = metadata approved /\
    artifacts initial = None /\ is_terminal (state (status initial)) = false /\
    update_status update = status (awaiting_task out) /\ state (update_status update) = InputRequired.
Proof.
  unfold prepare_authoritative_review_candidate. intros Hok. inv_ok. subst. simpl.
  rewrite transcript_exact. split.
  - intros [_ (initial & updates & [= Hinit <-] & Hopen & _ & Hf)]. rewrite Hinit.
    destruct initial. simpl in *. injection Hf as -> -> -> -> ->. eauto 20.
  - intros (initial & update & [= Hinit <-] & Hid & Hctx & Hhist & Hmeta & Hart & Hopen & _).
    split; [done|]. eexists initial, _. rewrite Hinit. split; [done|]. split; [done|]. split.
    + eexists [], _. done.
    + destruct initial. simpl in *. by subst.
Qed.
End publication.
