(* ===== verification/Ratification.v ===== *)
(** * The ratification ledger

    [ratification.rs], [RatificationLedger]: the SQLite tables of packets, roots,
    events and heads, the sealed summary of their contents, the authentication of
    every record, and the operations on them.  A table is the list of its rows in
    insertion order; a query selects by key or sorts as its [ORDER BY] says; an
    insert checks the constraints of [LEDGER_SCHEMA].  A transaction that is not
    committed leaves no trace, so a failing operation has no new state.  Failures
    of SQLite itself (input/output, a poisoned lock) are not modelled. *)

From stdpp Require Import pretty.
From S2P Require Import Prelude Text Protocol Policy Guard Review.

Definition LEDGER_KEY_DOMAIN : string := "smesh-human-ratification-ledger-key/v1" +:+ nul.
Definition LEDGER_KEY_SENTINEL : string := "standalone-compatibility-ledger".
Definition LEDGER_STATE_DOMAIN : string := "smesh-human-ratification-ledger-state/v2" +:+ nul.
Definition LEDGER_APPLICATION_ID : Z := 1397572947.
Definition LEDGER_SCHEMA_VERSION : Z := 2.
Definition LEDGER_RETAINED_AUTHORITY_LIMIT : N := 64 * 1024 * 1024.

(** ** Tables *)

(** SQLite integers are [i64]; a [u64] is bound only when it fits, and read only
    when the stored integer is not negative. *)
Definition i64_max : N := 9223372036854775807.
Definition to_sql (n : N) : option Z := if (n <=? i64_max)%N then Some (Z.of_N n) else None.
Definition from_sql (z : Z) : option N := if (0 <=? z)%Z then Some (Z.to_N z) else None.

Abbreviation row_key := (string * (string * Z))%type.

Record PacketRow := {
  pr_key : row_key; pr_json : string; pr_hash : string; pr_seal : string }.
Record RootRow := { rr_key : row_key; rr_hash : string }.
Record EventRow := {
  er_key : row_key; er_account : string; er_revision : Z; er_kind : string; er_json : string;
  er_hash : string; er_seal : string; er_idempotency : string }.
Record HeadRow := { hr_key : row_key; hr_revision : Z; hr_hash : string }.

(** The one row of [ratification_metadata]: its key is checked to be 1. *)
Record MetadataRow := {
  md_schema_version : Z; md_key_check : string;
  md_packet_count : Z; md_root_count : Z; md_event_count : Z; md_head_count : Z;
  md_retained_bytes : Z; md_state_hash : string; md_state_seal : string }.

Record Tables := {
  metadata_row : option MetadataRow;
  packets : list PacketRow; roots : list RootRow; events : list EventRow; heads : list HeadRow }.

#[global] Instance PacketRow_eq_dec : EqDecision PacketRow.
Proof. solve_decision. Defined.

Definition with_metadata (t : Tables) (m : MetadataRow) : Tables := {|
  metadata_row := Some m; packets := packets t; roots := roots t; events := events t; heads := heads t |}.

(** [WHERE tenant_id=?1 AND task_id=?2 AND generation=?3] *)
Definition row_at {A} (key_of : A -> row_key) (k : row_key) (l : list A) : option A :=
  list_find (fun r => key_of r = k) l ≫= fun r => Some r.2.

Definition rows_at {A} (key_of : A -> row_key) (k : row_key) (l : list A) : list A :=
  filter (fun r => key_of r = k) l.

Definition sql_key (tenant task : string) (generation : N) : result RatificationError row_key :=
  g ← ok_or (to_sql generation) Integrity; Ok (tenant, (task, g)).

(** [SELECT max(generation) ... WHERE tenant_id=?1 AND task_id=?2] *)
Definition max_generation (tenant task : string) (l : list PacketRow) : option Z :=
  foldr (fun r best =>
    if bool_decide ((pr_key r).1 = tenant) && bool_decide ((pr_key r).2.1 = task)
    then Some (match best with Some b => Z.max (pr_key r).2.2 b | None => (pr_key r).2.2 end)
    else best) None l.

(** ** Constraints *)

(** [PRIMARY KEY(tenant_id,task_id,generation)], [CHECK(generation>0)] *)
Definition insert_packet (r : PacketRow) (l : list PacketRow) : option (list PacketRow) :=
  if is_some (row_at pr_key (pr_key r) l) || (((pr_key r).2.2 <=? 0)%Z) then None else Some (l ++ [r]).

(** ... and the foreign key to [ratification_packets] *)
Definition insert_root (r : RootRow) (ps : list PacketRow) (l : list RootRow) : option (list RootRow) :=
  if is_some (row_at rr_key (rr_key r) l) || negb (is_some (row_at pr_key (rr_key r) ps))
     || ((rr_key r).2.2 <=? 0)%Z
  then None else Some (l ++ [r]).

Definition event_clash (r e : EventRow) : bool :=
  (bool_decide (er_key e = er_key r) && (er_revision e =? er_revision r)%Z)
  || (bool_decide ((er_key e).1 = (er_key r).1) && bool_decide (er_account e = er_account r)
      && bool_decide (er_idempotency e = er_idempotency r)).

(** [PRIMARY KEY(...,revision)], [UNIQUE(tenant_id,account_id,idempotency_key)],
    the checks and the foreign key *)
Definition insert_event (r : EventRow) (ps : list PacketRow) (l : list EventRow) : option (list EventRow) :=
  if existsb (event_clash r) l || negb (is_some (row_at pr_key (er_key r) ps))
     || ((er_key r).2.2 <=? 0)%Z || ((er_revision r <=? 0)%Z)
     || negb (bool_decide (er_kind r = "review") || bool_decide (er_kind r = "decision"))
  then None else Some (l ++ [r]).

(** The foreign key of a head names the event it stands for. *)
Definition head_has_event (h : HeadRow) (l : list EventRow) : bool :=
  existsb (fun e => bool_decide (er_key e = hr_key h) && (er_revision e =? hr_revision h)%Z
    && bool_decide (er_hash e = hr_hash h)) l.

(** [INSERT ... ON CONFLICT DO UPDATE ... WHERE heads.revision+1 = excluded.revision]:
    the number of rows changed and the table. *)
Definition upsert_head (h : HeadRow) (es : list EventRow) (l : list HeadRow) : option (N * list HeadRow) :=
  match row_at hr_key (hr_key h) l with
  | None =>
      if negb (head_has_event h es) || ((hr_key h).2.2 <=? 0)%Z || ((hr_revision h <=? 0)%Z)
      then None else Some (1%N, l ++ [h])
  | Some old =>
      if (hr_revision old + 1 =? hr_revision h)%Z then
        if negb (head_has_event h es) then None
        else Some (1%N, (fun x => if bool_decide (hr_key x = hr_key h) then h else x) <$> l)
      else Some (0%N, l)
  end.

(** [pragma_foreign_key_check] finds nothing. *)
Definition foreign_keys_hold (t : Tables) : bool :=
  forallb (fun r => is_some (row_at pr_key (rr_key r) (packets t))) (roots t)
  && forallb (fun r => is_some (row_at pr_key (er_key r) (packets t))) (events t)
  && forallb (fun h => head_has_event h (events t)) (heads t).

(** ** The sealed summary *)

Record LedgerState := {
  packet_count : N; root_count : N; event_count : N; head_count : N;
  retained_bytes : N; state_hash : string }.

#[global] Instance LedgerState_eq_dec : EqDecision LedgerState.
Proof. solve_decision. Defined.

Definition u64_len (value : string) : result RatificationError N :=
  fail_if (u64_max <? slen value)%N Integrity;; Ok (slen value).

Definition plus (total value : N) : result RatificationError N := ok_or (checked_add total value) Integrity.

Definition add_retained (total : N) (value : string) : result RatificationError N :=
  n ← u64_len value; plus total n.

Definition canonical_bytes (target value : string) : result RatificationError string :=
  u64_len value;; Ok (target +:+ frame value).

(** [value.to_be_bytes()] of an [i64] *)
Definition be_i64 (v : Z) : string := be64 (Z.to_N (v mod 2 ^ 64)).
Definition canonical_integer (target : string) (v : Z) : string := target +:+ be_i64 v.

(** The two accumulators of the scan. *)
Record Scan := { sc_canonical : string; sc_retained : N }.

Definition put_tag (s : Scan) (tag : string) : result RatificationError Scan :=
  c ← canonical_bytes (sc_canonical s) tag;
  Ok {| sc_canonical := c; sc_retained := sc_retained s |}.

Definition put_text (s : Scan) (value : string) : result RatificationError Scan :=
  c ← canonical_bytes (sc_canonical s) value;
  n ← add_retained (sc_retained s) value;
  Ok {| sc_canonical := c; sc_retained := n |}.

Definition put_integer (s : Scan) (v : Z) : Scan :=
  {| sc_canonical := canonical_integer (sc_canonical s) v; sc_retained := sc_retained s |}.

Definition put_cost (s : Scan) (n : N) : result RatificationError Scan :=
  total ← plus (sc_retained s) n;
  Ok {| sc_canonical := sc_canonical s; sc_retained := total |}.

Definition scan_packet (s : N * Scan) (r : PacketRow) : result RatificationError (N * Scan) :=
  n ← plus s.1 1;
  c ← put_tag s.2 "packet";
  c ← try_fold put_text c [(pr_key r).1; (pr_key r).2.1];
  c ← put_cost (put_integer c (pr_key r).2.2) 8;
  c ← put_text c (pr_json r);
  c ← try_fold put_text c [pr_hash r; pr_seal r];
  Ok (n, c).

Definition scan_root (s : N * Scan) (r : RootRow) : result RatificationError (N * Scan) :=
  n ← plus s.1 1;
  c ← put_tag s.2 "root";
  c ← try_fold put_text c [(rr_key r).1; (rr_key r).2.1];
  c ← put_cost (put_integer c (rr_key r).2.2) 8;
  c ← put_text c (rr_hash r);
  Ok (n, c).

Definition scan_event (s : N * Scan) (r : EventRow) : result RatificationError (N * Scan) :=
  n ← plus s.1 1;
  c ← put_tag s.2 "event";
  c ← try_fold put_text c [(er_key r).1; (er_key r).2.1; er_account r; er_kind r; er_hash r; er_seal r;
                           er_idempotency r];
  c ← put_cost (put_integer (put_integer c (er_key r).2.2) (er_revision r)) 16;
  c ← put_text c (er_json r);
  Ok (n, c).

Definition scan_head (s : N * Scan) (r : HeadRow) : result RatificationError (N * Scan) :=
  n ← plus s.1 1;
  c ← put_tag s.2 "head";
  c ← try_fold put_text c [(hr_key r).1; (hr_key r).2.1; hr_hash r];
  c ← put_cost (put_integer (put_integer c (hr_key r).2.2) (hr_revision r)) 16;
  Ok (n, c).

Definition event_order (r : EventRow) : row_key * Z := (er_key r, er_revision r).

Definition scan_metadata (m : MetadataRow) : result RatificationError Scan :=
  c ← put_tag {| sc_canonical := ""; sc_retained := 7 * 8 |} "metadata";
  let c := put_integer (put_integer c 1) (md_schema_version m) in
  c ← put_text c (md_key_check m);
  n ← add_retained (sc_retained c) (md_state_hash m);
  n ← add_retained n (md_state_seal m);
  Ok {| sc_canonical := sc_canonical c; sc_retained := n |}.

Section ledger.
Context `{Sha256, HmacSha256, UrlBase64, RatificationCodec}.

Definition compute_ledger_state (t : Tables) : result RatificationError LedgerState :=
  m ← ok_or (metadata_row t) Integrity;
  fail_if (negb (md_schema_version m =? LEDGER_SCHEMA_VERSION)%Z) Integrity;;
  c ← scan_metadata m;
  '(np, c) ← try_fold scan_packet (0%N, c) (sort_by_key pr_key (packets t));
  '(nr, c) ← try_fold scan_root (0%N, c) (sort_by_key rr_key (roots t));
  '(ne, c) ← try_fold scan_event (0%N, c) (sort_by_key event_order (events t));
  '(nh, c) ← try_fold scan_head (0%N, c) (sort_by_key hr_key (heads t));
  let canonical := foldl (fun target v => target +:+ be64 v) (sc_canonical c)
    [np; nr; ne; nh; sc_retained c] in
  Ok {| packet_count := np; root_count := nr; event_count := ne; head_count := nh;
        retained_bytes := sc_retained c; state_hash := content_digest canonical |}.

Definition seal_payload (s : LedgerState) : string :=
  pretty (packet_count s) +:+ ":" +:+ pretty (root_count s) +:+ ":" +:+ pretty (event_count s) +:+ ":"
  +:+ pretty (head_count s) +:+ ":" +:+ pretty (retained_bytes s) +:+ ":" +:+ state_hash s.

Definition ledger_state_seal (key : string) (s : LedgerState) : string :=
  ratification_mac key LEDGER_STATE_DOMAIN (seal_payload s).

Definition ensure_retained_capacity (retained limit : N) : result RatificationError unit :=
  fail_if (limit <? retained)%N CapacityExceeded.

Definition write_ledger_state_with_limit (key : string) (limit : N) (t : Tables) :
    result RatificationError Tables :=
  s ← compute_ledger_state t;
  ensure_retained_capacity (retained_bytes s) limit;;
  np ← ok_or (to_sql (packet_count s)) Unavailable;
  nr ← ok_or (to_sql (root_count s)) Unavailable;
  ne ← ok_or (to_sql (event_count s)) Unavailable;
  nh ← ok_or (to_sql (head_count s)) Unavailable;
  nb ← ok_or (to_sql (retained_bytes s)) Unavailable;
  m ← ok_or (metadata_row t) Integrity;
  Ok (with_metadata t {|
    md_schema_version := md_schema_version m; md_key_check := md_key_check m;
    md_packet_count := np; md_root_count := nr; md_event_count := ne; md_head_count := nh;
    md_retained_bytes := nb; md_state_hash := state_hash s; md_state_seal := ledger_state_seal key s |}).

Definition write_ledger_state (key : string) (t : Tables) : result RatificationError Tables :=
  write_ledger_state_with_limit key LEDGER_RETAINED_AUTHORITY_LIMIT t.

Definition stored_state (m : MetadataRow) : result RatificationError LedgerState :=
  np ← ok_or (from_sql (md_packet_count m)) Integrity;
  nr ← ok_or (from_sql (md_root_count m)) Integrity;
  ne ← ok_or (from_sql (md_event_count m)) Integrity;
  nh ← ok_or (from_sql (md_head_count m)) Integrity;
  nb ← ok_or (from_sql (md_retained_bytes m)) Integrity;
  Ok {| packet_count := np; root_count := nr; event_count := ne; head_count := nh;
        retained_bytes := nb; state_hash := md_state_hash m |}.

Definition validate_ledger_state (key : string) (t : Tables) : result RatificationError unit :=
  fail_if (negb (foreign_keys_hold t)) Integrity;;
  m ← ok_or (metadata_row t) Integrity;
  stored ← stored_state m;
  s ← compute_ledger_state t;
  fail_if ((LEDGER_RETAINED_AUTHORITY_LIMIT <? retained_bytes s)%N
    || negb (packet_count stored =? packet_count s)%N
    || negb (root_count stored =? root_count s)%N
    || negb (event_count stored =? event_count s)%N
    || negb (head_count stored =? head_count s)%N
    || negb (retained_bytes stored =? retained_bytes s)%N
    || negb (bool_decide (state_hash stored = state_hash s))
    || negb (bool_decide (md_state_seal m = ledger_state_seal key s))) Integrity.

(** ** Authentication *)

Definition authenticate_packet (key : string) (t : Tables) (tenant task : string) (generation : N) :
    result RatificationError ReviewPacket :=
  k ← sql_key tenant task generation;
  row ← ok_or (row_at pr_key k (packets t)) Integrity;
  packet ← ok_or (packet_from_slice (pr_json row)) Integrity;
  hash ← map_err (fun _ => Integrity) (packet_statement_hash (input packet) (packet_revision packet));
  let seal := ratification_mac key PACKET_DOMAIN hash in
  fail_if (negb (bool_decide (in_tenant_id (input packet) = tenant))
    || negb (bool_decide (in_task_id packet = task))
    || negb (bool_decide (in_generation packet = generation))
    || negb (bool_decide (packet_hash packet = hash))
    || negb (bool_decide (pr_hash row = hash))
    || negb (bool_decide (packet_seal packet = pr_seal row))
    || negb (bool_decide (pr_seal row = seal))) Integrity;;
  let root := rr_hash <$> row_at rr_key k (roots t) in
  fail_if (negb (bool_decide (root = Some hash))) Integrity;;
  Ok packet.

Definition event_kind (action : HumanRatificationAction) : string :=
  match action with ReviewAcknowledged => "review" | Decision_ _ => "decision" end.

(** One row of the history: [seen] are the receipts before it, and the hash of
    the last of them. *)
Definition authenticate_event (key tenant task : string) (generation : N) (packet : ReviewPacket)
    (seen : list HumanRatificationReceipt * option string) (row : EventRow) :
    result RatificationError (list HumanRatificationReceipt * option string) :=
  revision ← ok_or (from_sql (er_revision row)) Integrity;
  receipt ← ok_or (human_receipt_from_slice (er_json row)) Integrity;
  statement_hash ← map_err (fun _ => Integrity) (receipt_statement_hash (statement receipt));
  let expected_seal := ratification_mac key RECEIPT_DOMAIN statement_hash in
  fail_if (negb (bool_decide (rs_tenant_id (statement receipt) = tenant))
    || negb (bool_decide (rs_task_id receipt = task))
    || negb (bool_decide (rs_generation receipt = generation))
    || negb (receipt_matches_packet receipt packet)
    || negb (bool_decide (rs_account_id receipt = er_account row))
    || negb (bool_decide (rs_revision receipt = revision))
    || negb (bool_decide (rs_revision receipt = len seen.1 + 1)%N)
    || negb (bool_decide (er_kind row = event_kind (rs_action receipt)))
    || negb (bool_decide (receipt_hash receipt = er_hash row))
    || negb (bool_decide (receipt_hash receipt = statement_hash))
    || negb (bool_decide (human_seal receipt = er_seal row))
    || negb (bool_decide (er_seal row = expected_seal))
    || negb (bool_decide (rs_idempotency_key receipt = er_idempotency row))
    || negb (bool_decide (rs_idempotency_key_digest receipt = content_digest (er_idempotency row)))
    || negb (bool_decide (rs_previous_receipt_hash receipt = seen.2))) Integrity;;
  Ok (seen.1 ++ [receipt], Some (receipt_hash receipt)).

Definition head_agrees (receipts : list HumanRatificationReceipt) (head : option (N * string)) : bool :=
  match last receipts, head with
  | None, None => true
  | Some r, Some (revision, hash) =>
      (revision =? rs_revision r)%N && bool_decide (hash = receipt_hash r)
  | _, _ => false
  end.

Definition read_head (row : option HeadRow) : result RatificationError (option (N * string)) :=
  match row with
  | None => Ok None
  | Some h => revision ← ok_or (from_sql (hr_revision h)) Integrity; Ok (Some (revision, hr_hash h))
  end.

Definition authenticate_history (key : string) (t : Tables) (tenant task : string) (generation : N)
    (packet : ReviewPacket) : result RatificationError (list HumanRatificationReceipt) :=
  k ← sql_key tenant task generation;
  let rows := sort_by_key er_revision (rows_at er_key k (events t)) in
  '(receipts, _) ← try_fold (authenticate_event key tenant task generation packet) ([], None) rows;
  head ← read_head (row_at hr_key k (heads t));
  fail_if (negb (head_agrees receipts head)) Integrity;;
  Ok receipts.

(** The history of a generation that may be followed by another. *)
Definition amended (h : list HumanRatificationReceipt) : bool :=
  (length h =? 2)%nat
  && match last h with
     | Some r => bool_decide (rs_action r = Decision_ Amend)
     | None => false
     end.

Abbreviation prior_key := (string * string * N * list HumanRatificationReceipt)%type.

Definition authenticate_key (key : string) (t : Tables) (prior : option prior_key) (k : string * string * N) :
    result RatificationError (option prior_key) :=
  let '(tenant, task, generation) := k in
  match prior with
  | Some (prior_tenant, prior_task, prior_generation, history) =>
      if bool_decide (prior_tenant = tenant) && bool_decide (prior_task = task)
      then fail_if (negb (generation =? saturating_add prior_generation 1)%N || negb (amended history)) Integrity
      else fail_if (negb (generation =? 1)%N) Integrity
  | None => fail_if (negb (generation =? 1)%N) Integrity
  end;;
  packet ← authenticate_packet key t tenant task generation;
  history ← authenticate_history key t tenant task generation packet;
  Ok (Some (tenant, task, generation, history)).

Definition read_key (r : PacketRow) : result RatificationError (string * string * N) :=
  g ← ok_or (from_sql (pr_key r).2.2) Integrity;
  Ok ((pr_key r).1, (pr_key r).2.1, g).

Definition authenticate_all (key : string) (t : Tables) : result RatificationError unit :=
  validate_ledger_state key t;;
  keys ← try_map read_key (sort_by_key pr_key (packets t));
  try_fold (authenticate_key key t) None keys;;
  Ok tt.

(** ** Operations

    [t] are the tables the connection holds, [key] the ledger's key. *)

Definition latest_generation (t : Tables) (tenant task : string) : result RatificationError (option N) :=
  match max_generation tenant task (packets t) with
  | None => Ok None
  | Some g => n ← ok_or (from_sql g) Integrity; Ok (Some n)
  end.

Definition freeze_packet (key : string) (t : Tables) (i : ReviewPacketInput) :
    result RatificationError (Tables * ReviewPacket) :=
  packet ← freeze i key;
  packet_json ← map_err (fun _ => InvalidInput) (to_vec packet);
  authenticate_all key t;;
  let tenant := in_tenant_id (input packet) in
  let task := in_task_id packet in
  k ← sql_key tenant task (in_generation packet);
  if is_some (row_at pr_key k (packets t)) then
    existing ← authenticate_packet key t tenant task (in_generation packet);
    if bool_decide (existing = packet) then Ok (t, existing) else Err Conflict
  else
    latest ← latest_generation t tenant task;
    let expected_generation := match latest with Some v => saturating_add v 1 | None => 1%N end in
    fail_if (negb (in_generation packet =? expected_generation)%N) Conflict;;
    match latest with
    | Some previous =>
        previous_packet ← authenticate_packet key t tenant task previous;
        previous_history ← authenticate_history key t tenant task previous previous_packet;
        fail_if (negb (amended previous_history)) Conflict
    | None => Ok tt
    end;;
    ps ← ok_or (insert_packet {| pr_key := k; pr_json := packet_json; pr_hash := packet_hash packet;
                                 pr_seal := packet_seal packet |} (packets t)) Conflict;
    rs ← ok_or (insert_root {| rr_key := k; rr_hash := packet_hash packet |} ps (roots t)) Unavailable;
    t' ← write_ledger_state key {| metadata_row := metadata_row t; packets := ps; roots := rs;
                                    events := events t; heads := heads t |};
    Ok (t', packet).

Definition packet_of (key : string) (t : Tables) (tenant task : string) :
    result RatificationError (option ReviewPacket) :=
  validate_id tenant;;
  validate_id task;;
  authenticate_all key t;;
  latest ← latest_generation t tenant task;
  match latest with
  | Some g => packet ← authenticate_packet key t tenant task g; Ok (Some packet)
  | None => Ok None
  end.

Definition packet_at_generation (key : string) (t : Tables) (tenant task : string) (generation : N) :
    result RatificationError (option ReviewPacket) :=
  validate_id tenant;;
  validate_id task;;
  fail_if (generation =? 0)%N InvalidInput;;
  authenticate_all key t;;
  k ← sql_key tenant task generation;
  if is_some (row_at pr_key k (packets t)) then
    packet ← authenticate_packet key t tenant task generation; Ok (Some packet)
  else Ok None.

Definition history_of (key : string) (t : Tables) (tenant task : string) :
    result RatificationError (list HumanRatificationReceipt) :=
  validate_id tenant;;
  validate_id task;;
  authenticate_all key t;;
  latest ← latest_generation t tenant task;
  match latest with
  | None => Ok []
  | Some g =>
      packet ← authenticate_packet key t tenant task g;
      authenticate_history key t tenant task g packet
  end.

Definition history_at_generation (key : string) (t : Tables) (tenant task : string) (generation : N) :
    result RatificationError (list HumanRatificationReceipt) :=
  found ← packet_at_generation key t tenant task generation;
  match found with
  | None => Ok []
  | Some packet => authenticate_history key t tenant task generation packet
  end.

(** The receipt of a command on [packet] after [previous]. *)
Definition new_statement (packet : ReviewPacket) (account principal method key : string)
    (current_revision : N) (action : HumanRatificationAction) (rationale : string) (at_millis : Z)
    (previous : option string) : ReceiptStatement := {|
  rs_amendment_authorization := None;
  rs_tenant_id := in_tenant_id packet;
  rs_task_id := in_task_id packet;
  rs_account_id := account;
  rs_revision := saturating_add current_revision 1;
  rs_generation := in_generation packet;
  rs_task_revision := in_task_revision packet;
  rs_authorization_policy_id := in_authorization_policy_id packet;
  rs_authorization_policy_revision := in_authorization_policy_revision packet;
  rs_authorization_policy_digest := in_authorization_policy_digest packet;
  rs_principal_scope := principal;
  rs_authentication_method := method;
  rs_context_id := in_context_id packet;
  rs_request_digest := in_request_digest packet;
  rs_idempotency_key_digest := content_digest key;
  rs_ratification_key_generation := in_ratification_key_generation packet;
  rs_action := action;
  rs_rationale := rationale;
  rs_occurred_at_millis := at_millis;
  rs_idempotency_key := key;
  rs_checkpoint_hash := in_checkpoint_hash packet;
  rs_packet_hash := packet_hash packet;
  rs_completion_policy_id := in_completion_policy_id packet;
  rs_completion_policy_version := in_completion_policy_version packet;
  rs_completion_policy_hash := in_completion_policy_hash packet;
  rs_evidence_snapshot_hash := in_evidence_snapshot_hash packet;
  rs_evidence_hashes := in_evidence_hashes packet;
  rs_artifact_set_digest := in_artifact_set_digest packet;
  rs_artifacts := in_artifacts packet;
  rs_previous_receipt_hash := previous |}.

Definition seal_receipt (key : string) (s : ReceiptStatement) : result RatificationError HumanRatificationReceipt :=
  hash ← receipt_statement_hash s;
  Ok {| statement := s; receipt_hash := hash; human_seal := ratification_mac key RECEIPT_DOMAIN hash |}.

(** [WHERE tenant_id=?1 AND account_id=?2 AND idempotency_key=?3] *)
Definition event_by_idempotency (tenant account idempotency : string) (l : list EventRow) : option EventRow :=
  list_find (fun r => (er_key r).1 = tenant /\ er_account r = account /\ er_idempotency r = idempotency) l
    ≫= fun r => Some r.2.

Definition replay (key : string) (t : Tables) (tenant account idempotency command_digest : string)
    (row : EventRow) : result RatificationError HumanRatificationReceipt :=
  let owner_task := (er_key row).2.1 in
  owner_generation ← ok_or (from_sql (er_key row).2.2) Integrity;
  row_revision ← ok_or (from_sql (er_revision row)) Integrity;
  owner_packet ← authenticate_packet key t tenant owner_task owner_generation;
  owner_history ← authenticate_history key t tenant owner_task owner_generation owner_packet;
  receipt ← ok_or (human_receipt_from_slice (er_json row)) Integrity;
  fail_if (negb (bool_decide (rs_tenant_id (statement receipt) = tenant))
    || negb (bool_decide (rs_task_id receipt = owner_task))
    || negb (bool_decide (rs_generation receipt = owner_generation))
    || negb (bool_decide (rs_account_id receipt = er_account row))
    || negb (bool_decide (rs_account_id receipt = account))
    || negb (bool_decide (rs_revision receipt = row_revision))
    || negb (bool_decide (er_kind row = event_kind (rs_action receipt)))
    || negb (bool_decide (receipt_hash receipt = er_hash row))
    || negb (bool_decide (human_seal receipt = er_seal row))
    || negb (bool_decide (rs_idempotency_key receipt = er_idempotency row))
    || negb (bool_decide (rs_idempotency_key receipt = idempotency))
    || negb (bool_decide (receipt ∈ owner_history))) Integrity;;
  recorded ← receipt_command_semantic_digest (statement receipt);
  if bool_decide (recorded = command_digest) then Ok receipt else Err IdempotencyConflict.

Definition append_receipt (key : string) (t : Tables) (packet : ReviewPacket)
    (account principal method : string) (expected_revision : N) (idempotency command_digest : string)
    (action : HumanRatificationAction) (rationale : string) (at_millis : Z) :
    result RatificationError (Tables * HumanRatificationReceipt) :=
  validate_id account;;
  validate_id idempotency;;
  review_validate_text rationale;;
  authenticate_all key t;;
  let tenant := in_tenant_id packet in
  let task := in_task_id packet in
  authenticated_packet ← authenticate_packet key t tenant task (in_generation packet);
  fail_if (negb (bool_decide (authenticated_packet = packet))) Integrity;;
  history ← authenticate_history key t tenant task (in_generation packet) packet;
  match event_by_idempotency tenant account idempotency (events t) with
  | Some row => receipt ← replay key t tenant account idempotency command_digest row; Ok (t, receipt)
  | None =>
      let current_revision := len history in
      fail_if (negb (current_revision =? expected_revision)%N
        || (bool_decide (action = ReviewAcknowledged) && negb (current_revision =? 0)%N)) PreconditionFailed;;
      receipt ← seal_receipt key (new_statement packet account principal method idempotency
        current_revision action rationale at_millis (receipt_hash <$> last history));
      bytes ← map_err (fun _ => InvalidInput) (to_vec receipt);
      g ← ok_or (to_sql (rs_generation (statement receipt))) Conflict;
      revision ← ok_or (to_sql (rs_revision receipt)) Conflict;
      let k := (rs_tenant_id (statement receipt), (rs_task_id receipt, g)) in
      es ← ok_or (insert_event {|
             er_key := k; er_account := rs_account_id receipt; er_revision := revision;
             er_kind := event_kind (rs_action receipt); er_json := bytes; er_hash := receipt_hash receipt;
             er_seal := human_seal receipt; er_idempotency := rs_idempotency_key receipt |}
           (packets t) (events t)) Conflict;
      '(updated, hs) ← ok_or (upsert_head {| hr_key := k; hr_revision := revision;
                                             hr_hash := receipt_hash receipt |} es (heads t)) Conflict;
      fail_if (negb (updated =? 1)%N) Integrity;;
      t' ← write_ledger_state key {| metadata_row := metadata_row t; packets := packets t; roots := roots t;
                                      events := es; heads := hs |};
      Ok (t', receipt)
  end.

Definition acknowledge_review (key : string) (t : Tables) (a : ReviewAcknowledgement) :
    result RatificationError (Tables * HumanRatificationReceipt) :=
  validate_id (ack_account_id a);;
  validate_id (ack_idempotency_key a);;
  fail_if (negb (principal_and_authentication_are_valid (ack_principal_scope a) (ack_authentication_method a)))
    InvalidInput;;
  found ← packet_of key t (ack_tenant_id a) (ack_task_id a);
  packet ← ok_or found NotFound;
  fail_if (negb (bool_decide (ack_evidence_hashes a = in_evidence_hashes (input packet)))
    || negb (bool_decide (ack_artifact_hashes a = ra_digest <$> in_artifacts packet))
    || negb (bool_decide (ack_artifact_manifest_digest a = in_artifact_set_digest packet))
    || negb (ack_uncertainty_acknowledged a)) ExactReviewRequired;;
  fail_if (negb (review_command_matches_packet a packet)) PreconditionFailed;;
  command_digest ← review_command_semantic_digest a;
  append_receipt key t packet (ack_account_id a) (ack_principal_scope a) (ack_authentication_method a)
    (ack_expected_revision a) (ack_idempotency_key a) command_digest ReviewAcknowledged
    "exact evidence, artifacts, and uncertainty reviewed" (ack_reviewed_at_millis a).

Definition decide_ratification (key : string) (t : Tables) (c : RatificationCommand) :
    result RatificationError (Tables * HumanRatificationReceipt) :=
  validate_id (cmd_tenant_id c);;
  validate_id (cmd_task_id c);;
  validate_id (cmd_account_id c);;
  validate_id (cmd_idempotency_key c);;
  review_validate_text (cmd_rationale c);;
  fail_if (negb (principal_and_authentication_are_valid (cmd_principal_scope c) (cmd_authentication_method c)))
    InvalidInput;;
  found ← packet_of key t (cmd_tenant_id c) (cmd_task_id c);
  packet ← ok_or found NotFound;
  fail_if (negb (decision_command_matches_packet c packet)) PreconditionFailed;;
  command_digest ← decision_command_semantic_digest c;
  history ← history_of key t (cmd_tenant_id c) (cmd_task_id c);
  let record := append_receipt key t packet (cmd_account_id c) (cmd_principal_scope c)
    (cmd_authentication_method c) (cmd_expected_revision c) (cmd_idempotency_key c) command_digest
    (Decision_ (cmd_decision c)) (cmd_rationale c) (cmd_decided_at_millis c) in
  match last history with
  | None => Err ReviewRequired
  | Some receipt =>
      match rs_action (statement receipt) with
      | ReviewAcknowledged =>
          if bool_decide (rs_account_id receipt = cmd_account_id c) then record else Err ReviewRequired
      | Decision_ _ =>
          if bool_decide (rs_idempotency_key receipt = cmd_idempotency_key c) then record
          else Err PreconditionFailed
      end
  end.

(** ** Opening

    A database file: its header integers, the schema objects it lists and its
    tables.  [manifest] is what SQLite lists after [LEDGER_SCHEMA]. *)

Record Database := {
  application_id : Z; user_version : Z; objects : list (string * string * string * string); tables : Tables }.

Definition empty_tables : Tables :=
  {| metadata_row := None; packets := []; roots := []; events := []; heads := [] |}.

Fixpoint zeros (n : nat) : string :=
  match n with O => "" | S n => "0" +:+ zeros n end.

Definition key_check (key : string) : string := ratification_mac key LEDGER_KEY_DOMAIN LEDGER_KEY_SENTINEL.

Definition initialize_ledger_schema (manifest : list (string * string * string * string)) (key : string) :
    result RatificationError Database :=
  t ← write_ledger_state key (with_metadata empty_tables {|
    md_schema_version := LEDGER_SCHEMA_VERSION; md_key_check := key_check key;
    md_packet_count := 0; md_root_count := 0; md_event_count := 0; md_head_count := 0;
    md_retained_bytes := 0; md_state_hash := "sha256:" +:+ zeros 64; md_state_seal := zeros 43 |});
  Ok {| application_id := LEDGER_APPLICATION_ID; user_version := LEDGER_SCHEMA_VERSION;
        objects := manifest; tables := t |}.

Definition validate_ledger_schema (manifest : list (string * string * string * string)) (d : Database) :
    result RatificationError unit :=
  fail_if (negb (application_id d =? LEDGER_APPLICATION_ID)%Z
    || negb (user_version d =? LEDGER_SCHEMA_VERSION)%Z) Integrity;;
  fail_if (negb (bool_decide (objects d = manifest))) Integrity.

Definition open (manifest : list (string * string * string * string)) (d : Database) (key : string) :
    result RatificationError Database :=
  d ← (if bool_decide (objects d = []) then
         fail_if (negb (application_id d =? 0)%Z || negb (user_version d =? 0)%Z) Integrity;;
         initialize_ledger_schema manifest key
       else Ok d);
  validate_ledger_schema manifest d;;
  m ← ok_or (metadata_row (tables d)) Integrity;
  fail_if (negb (md_schema_version m =? LEDGER_SCHEMA_VERSION)%Z) Integrity;;
  fail_if (negb (bool_decide (md_key_check m = key_check key))) Integrity;;
  authenticate_all key (tables d);;
  Ok d.
End ledger.
