(* ===== verification/Sealing.v ===== *)
(** * What the ledger's seal covers

    A closed form of [compute_ledger_state]: the bytes hashed and the size
    retained, table by table.  The bytes determine every row, so a ledger whose
    contents differ from those sealed is refused, short of a hash collision. *)

From stdpp Require Import pretty.
From S2P Require Import Prelude Text Policy Review Ratification.

Open Scope N_scope.

(** ** The scan in closed form *)

(** A step of the scan that appends [b] and charges [c], or overflows. *)
Definition emits (f : Scan -> result RatificationError Scan) (b : string) (c : N) : Prop :=
  forall s, f s = if sc_retained s + c <=? u64_max
                  then Ok {| sc_canonical := sc_canonical s +:+ b; sc_retained := sc_retained s + c |}
                  else Err Integrity.

Lemma plus_eq a b : plus a b = if a + b <=? u64_max then Ok (a + b) else Err Integrity.
Proof. unfold plus, checked_add. by destruct (a + b <=? u64_max). Qed.

Lemma u64_len_eq v : u64_len v = if slen v <=? u64_max then Ok (slen v) else Err Integrity.
Proof. unfold u64_len, fail_if. destruct (N.ltb_spec u64_max (slen v)), (N.leb_spec (slen v) u64_max); simpl; by (lia || done). Qed.

Lemma add_retained_eq n v : add_retained n v = if n + slen v <=? u64_max then Ok (n + slen v) else Err Integrity.
Proof.
  unfold add_retained. rewrite u64_len_eq.
  destruct (N.leb_spec (slen v) u64_max); simpl; [apply plus_eq|].
  destruct (N.leb_spec (n + slen v) u64_max); [lia|done].
Qed.

Lemma put_text_emits v : emits (fun s => put_text s v) (frame v) (slen v).
Proof.
  intros s. unfold put_text, canonical_bytes. rewrite u64_len_eq, add_retained_eq.
  destruct (N.leb_spec (slen v) u64_max), (N.leb_spec (sc_retained s + slen v) u64_max); simpl; (done || lia).
Qed.

Lemma put_cost_emits n : emits (fun s => put_cost s n) "" n.
Proof.
  intros s. unfold put_cost. rewrite plus_eq, string_app_nil_r. by destruct (_ <=? _).
Qed.

Lemma emits_bind f g b b' c c' : emits f b c -> emits g b' c' ->
  emits (fun s => r ← f s; g r) (b +:+ b') (c + c').
Proof.
  intros Hf Hg s. rewrite Hf. destruct (N.leb_spec (sc_retained s + c) u64_max); simpl.
  - rewrite Hg. cbn [sc_retained sc_canonical]. by rewrite N.add_assoc, string_app_assoc.
  - destruct (N.leb_spec (sc_retained s + (c + c')) u64_max); [lia|done].
Qed.

(** A step that cannot fail, before another. *)
Lemma emits_after g h b b' c : emits g b' c ->
  (forall s, h s = {| sc_canonical := sc_canonical s +:+ b; sc_retained := sc_retained s |}) ->
  emits (fun s => g (h s)) (b +:+ b') c.
Proof. intros Hg Hh s. rewrite Hg, Hh. cbn [sc_retained sc_canonical]. by rewrite string_app_assoc. Qed.

Definition texts (l : list string) : string := foldr (fun v b => frame v +:+ b) "" l.
Definition sizes (l : list string) : N := foldr (fun v n => slen v + n) 0 l.


Lemma put_texts_emits f b c l : emits f b c ->
  emits (fun s => r ← try_fold put_text s l; f r) (texts l +:+ b) (sizes l + c).
Proof.
  intros Hf. induction l as [|v l IH].
  - intros s. cbn. by rewrite Hf.
  - intros s. change (texts (v :: l)) with (frame v +:+ texts l). change (sizes (v :: l)) with (slen v + sizes l).
    rewrite <- (string_app_assoc (frame v)), <- N.add_assoc.
    rewrite <- (emits_bind _ _ _ _ _ _ (put_text_emits v) IH s). cbn [try_fold].
    by destruct (put_text s v).
Qed.

Lemma texts_emits v l : emits (fun s => try_fold put_text s (v :: l)) (texts (v :: l)) (sizes (v :: l)).
Proof.
  revert v. induction l as [|w l IH]; intros v s.
  - cbn [try_fold]. cbn [texts sizes foldr]. rewrite string_app_nil_r, N.add_0_r.
    rewrite <- (put_text_emits v s). by destruct (put_text s v).
  - exact (emits_bind _ _ _ _ _ _ (put_text_emits v) (IH w) s).
Qed.

Lemma put_tag_eq s tag : slen tag <= u64_max ->
  put_tag s tag = Ok {| sc_canonical := sc_canonical s +:+ frame tag; sc_retained := sc_retained s |}.
Proof. intros Ht. unfold put_tag, canonical_bytes. rewrite u64_len_eq. by rewrite (proj2 (N.leb_le _ _) Ht). Qed.

(** The tag, then the rest of the row. *)
Lemma put_tag_emits f b c tag : slen tag <= u64_max -> emits f b c ->
  emits (fun s => r ← put_tag s tag; f r) (frame tag +:+ b) c.
Proof.
  intros Ht Hf s. rewrite put_tag_eq by done. simpl. rewrite Hf. cbn [sc_canonical sc_retained].
  by rewrite string_app_assoc.
Qed.

Lemma put_integer_emits f b c v : emits f b c -> emits (fun s => f (put_integer s v)) (be_i64 v +:+ b) c.
Proof. intros Hf. by apply emits_after. Qed.

Lemma emits_eq f b b' c c' : emits f b c -> b = b' -> c = c' -> emits f b' c'.
Proof. by intros ? <- <-. Qed.

(** ** Rows *)

Definition packet_bytes (r : PacketRow) : string :=
  frame "packet" +:+ texts [(pr_key r).1; (pr_key r).2.1] +:+ be_i64 (pr_key r).2.2
  +:+ frame (pr_json r) +:+ texts [pr_hash r; pr_seal r].
Definition packet_cost (r : PacketRow) : N :=
  sizes [(pr_key r).1; (pr_key r).2.1; pr_json r; pr_hash r; pr_seal r] + 8.

Definition root_bytes (r : RootRow) : string :=
  frame "root" +:+ texts [(rr_key r).1; (rr_key r).2.1] +:+ be_i64 (rr_key r).2.2 +:+ frame (rr_hash r).
Definition root_cost (r : RootRow) : N := sizes [(rr_key r).1; (rr_key r).2.1; rr_hash r] + 8.

Definition event_bytes (r : EventRow) : string :=
  frame "event" +:+ texts [(er_key r).1; (er_key r).2.1; er_account r; er_kind r; er_hash r; er_seal r;
                           er_idempotency r]
  +:+ be_i64 (er_key r).2.2 +:+ be_i64 (er_revision r) +:+ frame (er_json r).
Definition event_cost (r : EventRow) : N :=
  sizes [(er_key r).1; (er_key r).2.1; er_account r; er_kind r; er_hash r; er_seal r; er_idempotency r;
         er_json r] + 16.

Definition head_bytes (r : HeadRow) : string :=
  frame "head" +:+ texts [(hr_key r).1; (hr_key r).2.1; hr_hash r] +:+ be_i64 (hr_key r).2.2
  +:+ be_i64 (hr_revision r).
Definition head_cost (r : HeadRow) : N := sizes [(hr_key r).1; (hr_key r).2.1; hr_hash r] + 16.

(** A scan of one row counts it and emits its bytes and its cost. *)
Definition row_scan {A} (f : N * Scan -> A -> result RatificationError (N * Scan))
    (bytes : A -> string) (cost : A -> N) : Prop :=
  forall r, 8 <= cost r /\
    exists body, emits body (bytes r) (cost r) /\
      forall n s, f (n, s) r = (n' ← plus n 1; c ← body s; Ok (n', c)).

(** Both sides run the same steps. *)
Ltac same_steps := repeat (match goal with
  | |- context [plus ?n ?m] => destruct (plus n m)
  | |- context [put_tag ?s ?v] => destruct (put_tag s v)
  | |- context [try_fold put_text ?s ?l] => destruct (try_fold put_text s l)
  | |- context [put_cost ?s ?v] => destruct (put_cost s v)
  | |- context [put_text ?s ?v] => destruct (put_text s v)
  end; cbn [mbind result_bind]; [|done]); try done.

Lemma scan_packet_row : row_scan scan_packet packet_bytes packet_cost.
Proof.
  intros r. split; [unfold packet_cost; lia|].
  exists (fun s => c ← put_tag s "packet"; c ← try_fold put_text c [(pr_key r).1; (pr_key r).2.1];
       c ← put_cost (put_integer c (pr_key r).2.2) 8; c ← put_text c (pr_json r);
       try_fold put_text c [pr_hash r; pr_seal r]). split.
  - eapply emits_eq.
    + apply put_tag_emits; [done|]. apply put_texts_emits.
      apply (put_integer_emits (fun s => c ← put_cost s 8; _)), emits_bind; [apply put_cost_emits|].
      apply emits_bind; [apply put_text_emits|]. apply texts_emits.
    + done.
    + unfold packet_cost. cbn. lia.
  - intros n s. unfold scan_packet. cbn [fst snd]. same_steps.
Qed.

Lemma scan_root_row : row_scan scan_root root_bytes root_cost.
Proof.
  intros r. split; [unfold root_cost; lia|].
  exists (fun s => c ← put_tag s "root"; c ← try_fold put_text c [(rr_key r).1; (rr_key r).2.1];
       c ← put_cost (put_integer c (rr_key r).2.2) 8; put_text c (rr_hash r)). split.
  - eapply emits_eq.
    + apply put_tag_emits; [done|]. apply put_texts_emits.
      apply (put_integer_emits (fun s => c ← put_cost s 8; _)), emits_bind; [apply put_cost_emits|].
      apply put_text_emits.
    + done.
    + unfold root_cost. cbn. lia.
  - intros n s. unfold scan_root. cbn [fst snd]. same_steps.
Qed.

Lemma scan_event_row : row_scan scan_event event_bytes event_cost.
Proof.
  intros r. split; [unfold event_cost; lia|].
  exists (fun s => c ← put_tag s "event";
       c ← try_fold put_text c [(er_key r).1; (er_key r).2.1; er_account r; er_kind r; er_hash r; er_seal r;
                                er_idempotency r];
       c ← put_cost (put_integer (put_integer c (er_key r).2.2) (er_revision r)) 16; put_text c (er_json r)).
  split.
  - eapply emits_eq.
    + apply put_tag_emits; [done|]. apply put_texts_emits.
      apply (put_integer_emits (fun s => c ← put_cost (put_integer s (er_revision r)) 16; _)).
      apply (put_integer_emits (fun s => c ← put_cost s 16; _)), emits_bind; [apply put_cost_emits|].
      apply put_text_emits.
    + done.
    + unfold event_cost. cbn. lia.
  - intros n s. unfold scan_event. cbn [fst snd]. same_steps.
Qed.

Lemma scan_head_row : row_scan scan_head head_bytes head_cost.
Proof.
  intros r. split; [unfold head_cost; lia|].
  exists (fun s => c ← put_tag s "head"; c ← try_fold put_text c [(hr_key r).1; (hr_key r).2.1; hr_hash r];
       put_cost (put_integer (put_integer c (hr_key r).2.2) (hr_revision r)) 16). split.
  - eapply emits_eq.
    + apply put_tag_emits; [done|]. apply put_texts_emits.
      apply (put_integer_emits (fun s => put_cost (put_integer s (hr_revision r)) 16)).
      apply (put_integer_emits (fun s => put_cost s 16)), put_cost_emits.
    + by rewrite string_app_nil_r.
    + unfold head_cost. cbn. lia.
  - intros n s. unfold scan_head. cbn [fst snd]. same_steps.
Qed.

(** ** Tables *)

Definition total {A} (cost : A -> N) (l : list A) : N := foldr (fun r n => cost r + n) 0 l.
Definition joined {A} (bytes : A -> string) (l : list A) : string := foldr (fun r b => bytes r +:+ b) "" l.

Lemma total_app {A} (cost : A -> N) l k : total cost (l ++ k) = total cost l + total cost k.
Proof. induction l as [|x l IH]; cbn [app total foldr]; [done|]. fold (total cost (l ++ k)). rewrite IH. unfold total. lia. Qed.

Lemma total_perm {A} (cost : A -> N) l k : l ≡ₚ k -> total cost l = total cost k.
Proof. induction 1; cbn; rewrite ?IHPermutation; unfold total in *; lia. Qed.

Lemma total_len {A} (cost : A -> N) l : (forall r, 8 <= cost r) -> 8 * len l <= total cost l.
Proof.
  intros Hc. induction l as [|x l IH]; [done|]. rewrite len_cons. cbn [total foldr]. fold (total cost l).
  specialize (Hc x). lia.
Qed.

Lemma table_scan {A} f (bytes : A -> string) (cost : A -> N) : row_scan f bytes cost ->
  forall l n s, n <= sc_retained s -> sc_retained s <= u64_max ->
  try_fold f (n, s) l =
    if sc_retained s + total cost l <=? u64_max
    then Ok (n + len l, {| sc_canonical := sc_canonical s +:+ joined bytes l;
                           sc_retained := sc_retained s + total cost l |})
    else Err Integrity.
Proof.
  intros Hf. induction l as [|r l IH]; intros n s Hn Hs; cbn [try_fold total joined foldr].
  { rewrite N.add_0_r, string_app_nil_r, (proj2 (N.leb_le _ _) Hs). change (len []) with 0.
    rewrite N.add_0_r. by destruct s. }
  fold (total cost l) (joined bytes l). rewrite len_cons. destruct (Hf r) as (Hc & body & Hb & ->).
  rewrite plus_eq, Hb. destruct (N.leb_spec (sc_retained s + cost r) u64_max).
  - rewrite (proj2 (N.leb_le (n + 1) _)) by lia. cbn [mbind result_bind].
    rewrite IH by (cbn; lia). cbn [sc_retained sc_canonical].
    by rewrite <- N.add_assoc, <- string_app_assoc, <- N.add_assoc, (N.add_comm 1).
  - rewrite (proj2 (N.leb_gt (sc_retained s + (cost r + total cost l)) u64_max)) by lia.
    by destruct (n + 1 <=? u64_max).
Qed.

Definition metadata_cost (m : MetadataRow) : N :=
  56 + slen (md_key_check m) + slen (md_state_hash m) + slen (md_state_seal m).
Definition metadata_bytes (m : MetadataRow) : string :=
  frame "metadata" +:+ be_i64 1 +:+ be_i64 (md_schema_version m) +:+ frame (md_key_check m).

Definition footprint (m : MetadataRow) (t : Tables) : N :=
  metadata_cost m + total packet_cost (packets t) + total root_cost (roots t)
  + total event_cost (events t) + total head_cost (heads t).

Lemma scan_metadata_eq m :
  scan_metadata m = if metadata_cost m <=? u64_max
    then Ok {| sc_canonical := metadata_bytes m; sc_retained := metadata_cost m |} else Err Integrity.
Proof.
  unfold scan_metadata. rewrite put_tag_eq by done. cbn [mbind result_bind].
  rewrite (put_text_emits (md_key_check m) _). cbn [sc_retained sc_canonical put_integer canonical_integer].
  unfold metadata_cost. change (7 * 8) with 56.
  destruct (N.leb_spec (56 + slen (md_key_check m)) u64_max); cbn [mbind result_bind sc_retained sc_canonical].
  2: { rewrite (proj2 (N.leb_gt (_ + _ + _ + _) _)) by lia. done. }
  rewrite add_retained_eq.
  destruct (N.leb_spec (56 + slen (md_key_check m) + slen (md_state_hash m)) u64_max); cbn [mbind result_bind].
  2: { rewrite (proj2 (N.leb_gt (_ + _ + _ + _) _)) by lia. done. }
  rewrite add_retained_eq. destruct (_ <=? _); [|done]. cbn [mbind result_bind].
  unfold metadata_bytes, canonical_integer. by rewrite !string_app_assoc.
Qed.

Section sealing.
Context `{Sha256, HmacSha256, UrlBase64, RatificationCodec}.

Definition table_bytes (t : Tables) : string :=
  joined packet_bytes (sort_by_key pr_key (packets t)) +:+ joined root_bytes (sort_by_key rr_key (roots t))
  +:+ joined event_bytes (sort_by_key event_order (events t)) +:+ joined head_bytes (sort_by_key hr_key (heads t)).

Definition trailer (m : MetadataRow) (t : Tables) : string :=
  be64 (len (packets t)) +:+ be64 (len (roots t)) +:+ be64 (len (events t)) +:+ be64 (len (heads t))
  +:+ be64 (footprint m t).

Definition ledger_bytes (m : MetadataRow) (t : Tables) : string :=
  metadata_bytes m +:+ table_bytes t +:+ trailer m t.

Definition summary (m : MetadataRow) (t : Tables) : LedgerState := {|
  packet_count := len (packets t); root_count := len (roots t);
  event_count := len (events t); head_count := len (heads t);
  retained_bytes := footprint m t; state_hash := content_digest (ledger_bytes m t) |}.

Lemma sort_total {A K} `{TotalCmp K} (key : A -> K) (cost : A -> N) l :
  total cost (sort_by_key key l) = total cost l.
Proof. apply total_perm, sort_by_key_perm. Qed.

Lemma sort_len {A K} `{TotalCmp K} (key : A -> K) (l : list A) : len (sort_by_key key l) = len l.
Proof. by rewrite (sort_by_key_perm key l). Qed.

(** One table of the scan: it fits, or the whole does not. *)
Ltac scan_table R :=
  rewrite (table_scan _ _ _ R) by (cbn [sc_retained]; lia);
  cbn [sc_retained sc_canonical]; rewrite sort_total, sort_len;
  match goal with |- context [if ?a <=? u64_max then Ok (_, _) else _] =>
    destruct (N.leb_spec a u64_max); cbn [mbind result_bind];
    [|try rewrite (proj2 (N.leb_gt (_ + _ + _ + _ + _) _)) by lia; done] end.

Lemma compute_ledger_state_eq t m :
  metadata_row t = Some m -> md_schema_version m = LEDGER_SCHEMA_VERSION ->
  compute_ledger_state t = if footprint m t <=? u64_max then Ok (summary m t) else Err Integrity.
Proof.
  intros Hm Hv. unfold compute_ledger_state. rewrite Hm. cbn [ok_or mbind result_bind].
  rewrite Hv, Z.eqb_refl. cbn [negb fail_if mbind result_bind]. rewrite scan_metadata_eq.
  unfold summary, ledger_bytes, table_bytes, trailer, footprint.
  destruct (N.leb_spec (metadata_cost m) u64_max); cbn [mbind result_bind].
  2: { rewrite (proj2 (N.leb_gt (_ + _ + _ + _ + _) _)) by lia. done. }
  scan_table scan_packet_row. scan_table scan_root_row. scan_table scan_event_row. scan_table scan_head_row.
  rewrite !N.add_0_l. cbn [foldl]. do 2 f_equal.
  by rewrite !string_app_assoc.
Qed.

(** ** The stored summary *)

(** The metadata row holds the summary of the tables and its seal. *)
Record sealed (key : string) (t : Tables) (m : MetadataRow) : Prop := {
  sealed_row : metadata_row t = Some m;
  sealed_version : md_schema_version m = LEDGER_SCHEMA_VERSION;
  sealed_state : stored_state m = Ok (summary m t);
  sealed_seal : md_state_seal m = ledger_state_seal key (summary m t);
  sealed_fits : footprint m t <= LEDGER_RETAINED_AUTHORITY_LIMIT }.

Lemma compute_ledger_state_Ok t s :
  compute_ledger_state t = Ok s ->
  exists m, metadata_row t = Some m /\ md_schema_version m = LEDGER_SCHEMA_VERSION /\
    footprint m t <= u64_max /\ s = summary m t.
Proof.
  intros Hs. destruct (metadata_row t) as [m|] eqn:Hm.
  2: { unfold compute_ledger_state in Hs. by rewrite Hm in Hs. }
  destruct (decide (md_schema_version m = LEDGER_SCHEMA_VERSION)) as [Hv|Hv].
  - rewrite (compute_ledger_state_eq t m) in Hs by done.
    destruct (N.leb_spec (footprint m t) u64_max); [|done]. injection Hs as <-. eauto.
  - unfold compute_ledger_state in Hs. rewrite Hm in Hs. cbn [ok_or mbind result_bind] in Hs.
    by rewrite (proj2 (Z.eqb_neq _ _) Hv) in Hs.
Qed.

Lemma validate_ledger_state_iff key t :
  validate_ledger_state key t = Ok tt <-> foreign_keys_hold t = true /\ exists m, sealed key t m.
Proof.
  unfold validate_ledger_state. split.
  - intros Hv. inv_ok. split; [done|].
    match goal with Hc : compute_ledger_state t = Ok _ |- _ =>
      apply compute_ledger_state_Ok in Hc as (m & Hm & Hver & Hfit & ->) end.
    match goal with Hr : metadata_row t = Some ?m', Hs : stored_state ?m' = Ok ?st |- _ =>
      assert (m' = m) as -> by congruence; assert (st = summary m t) as -> by (destruct st; cbn in *; by subst) end.
    exists m. by split.
  - intros [-> [m [Hm Hver Hs Hseal Hfit]]]. cbn [negb fail_if mbind result_bind].
    rewrite Hm. cbn [ok_or mbind result_bind]. rewrite Hs. cbn [mbind result_bind].
    assert (Hle : (footprint m t <=? u64_max) = true)
      by (apply N.leb_le; unfold LEDGER_RETAINED_AUTHORITY_LIMIT, u64_max in *; lia).
    rewrite (compute_ledger_state_eq t m), Hle by done. cbn [mbind result_bind].
    rewrite !N.eqb_refl, Hseal, !bool_decide_eq_true_2 by done.
    cbn [summary retained_bytes]. by rewrite (proj2 (N.ltb_ge _ _) Hfit).
Qed.

(** What the tables hold, without the summary. *)
Definition same_rows (t t' : Tables) : Prop :=
  packets t' = packets t /\ roots t' = roots t /\ events t' = events t /\ heads t' = heads t.

(** A metadata row whose hash and seal have the length of every other. *)
Record metadata_shape (m : MetadataRow) : Prop := {
  shape_version : md_schema_version m = LEDGER_SCHEMA_VERSION;
  shape_hash : slen (md_state_hash m) = 71;
  shape_seal : slen (md_state_seal m) = 43 }.

Lemma content_digest_len b : slen (content_digest b) = 71.
Proof.
  unfold content_digest, sha256_tag. rewrite slen_app. unfold slen. by rewrite length_hex, sha256_length.
Qed.

Context (laws : url_laws).

Lemma mac_len key domain payload : slen (ratification_mac key domain payload) = 43.
Proof using laws. unfold slen, ratification_mac. by rewrite (url_length laws) by apply hmac_length. Qed.

Lemma footprint_rows m m' t t' : same_rows t t' -> metadata_cost m' = metadata_cost m -> footprint m' t' = footprint m t.
Proof. intros (Hp & Hr & He & Hh) Hc. unfold footprint. by rewrite Hp, Hr, He, Hh, Hc. Qed.

Lemma summary_rows m m' t t' : same_rows t t' -> metadata_cost m' = metadata_cost m ->
  metadata_bytes m' = metadata_bytes m -> summary m' t' = summary m t.
Proof.
  intros Hrows Hc Hb. pose proof (footprint_rows m m' t t' Hrows Hc) as Hf.
  destruct Hrows as (Hp & Hr & He & Hh).
  unfold summary, ledger_bytes, trailer, table_bytes. by rewrite Hf, Hb, Hp, Hr, He, Hh.
Qed.

Lemma counts_fit m t : footprint m t <= LEDGER_RETAINED_AUTHORITY_LIMIT ->
  len (packets t) <= i64_max /\ len (roots t) <= i64_max /\ len (events t) <= i64_max /\ len (heads t) <= i64_max.
Proof.
  unfold footprint, LEDGER_RETAINED_AUTHORITY_LIMIT, i64_max.
  pose proof (total_len packet_cost (packets t) (fun r => proj1 (scan_packet_row r))).
  pose proof (total_len root_cost (roots t) (fun r => proj1 (scan_root_row r))).
  pose proof (total_len event_cost (events t) (fun r => proj1 (scan_event_row r))).
  pose proof (total_len head_cost (heads t) (fun r => proj1 (scan_head_row r))). lia.
Qed.

Lemma from_sql_of_N n : from_sql (Z.of_N n) = Some n.
Proof. unfold from_sql. rewrite (proj2 (Z.leb_le _ _)) by lia. by rewrite N2Z.id. Qed.

Lemma to_sql_le n : n <= i64_max -> to_sql n = Some (Z.of_N n).
Proof. intros Hn. unfold to_sql. by rewrite (proj2 (N.leb_le _ _) Hn). Qed.

(** The row [write_ledger_state] writes. *)
Definition resealed (key : string) (t : Tables) (m : MetadataRow) : MetadataRow := {|
  md_schema_version := md_schema_version m; md_key_check := md_key_check m;
  md_packet_count := Z.of_N (len (packets t)); md_root_count := Z.of_N (len (roots t));
  md_event_count := Z.of_N (len (events t)); md_head_count := Z.of_N (len (heads t));
  md_retained_bytes := Z.of_N (footprint m t); md_state_hash := state_hash (summary m t);
  md_state_seal := ledger_state_seal key (summary m t) |}.

(** Writing the summary seals the tables as they are, unless they outgrow the
    retained capacity. *)
Lemma write_ledger_state_spec key t m :
  metadata_row t = Some m -> metadata_shape m ->
  if footprint m t <=? LEDGER_RETAINED_AUTHORITY_LIMIT then
    exists t' m', write_ledger_state key t = Ok t' /\ same_rows t t' /\ sealed key t' m' /\
      metadata_shape m' /\ md_key_check m' = md_key_check m
  else exists e, write_ledger_state key t = Err e /\ (e = CapacityExceeded \/ e = Integrity).
Proof using laws.
  intros Hm [Hv Hh Hs]. unfold write_ledger_state, write_ledger_state_with_limit.
  rewrite (compute_ledger_state_eq t m) by done.
  destruct (N.leb_spec (footprint m t) LEDGER_RETAINED_AUTHORITY_LIMIT) as [Hle|Hgt].
  - assert (Hu : footprint m t <= i64_max /\ footprint m t <= u64_max)
      by (unfold LEDGER_RETAINED_AUTHORITY_LIMIT, i64_max, u64_max in *; lia). destruct Hu as [Hi Hu].
    rewrite (proj2 (N.leb_le _ _) Hu). cbn [mbind result_bind].
    destruct (counts_fit m t Hle) as (Hnp & Hnr & Hne & Hnh).
    unfold ensure_retained_capacity. cbn [summary retained_bytes packet_count root_count event_count head_count].
    rewrite (proj2 (N.ltb_ge _ _) Hle). cbn [fail_if mbind result_bind].
    rewrite !to_sql_le by done. cbn [ok_or mbind result_bind]. rewrite Hm. cbn [ok_or mbind result_bind].
    exists (with_metadata t (resealed key t m)), (resealed key t m). split; [done|]. split; [done|].
    assert (Hsum : summary (resealed key t m) (with_metadata t (resealed key t m)) = summary m t).
    { apply summary_rows; [done| |done]. unfold metadata_cost.
      cbn [resealed md_key_check md_state_hash md_state_seal summary state_hash].
      unfold ledger_state_seal. by rewrite content_digest_len, mac_len, Hh, Hs. }
    split; [|split; [split; [done|apply content_digest_len|apply mac_len]|done]].
    split; [done|done|rewrite Hsum|by rewrite Hsum|].
    + unfold stored_state. cbn [resealed md_packet_count md_root_count md_event_count md_head_count md_retained_bytes].
      by rewrite !from_sql_of_N.
    + change (footprint ?a ?b) with (retained_bytes (summary a b)). by rewrite Hsum.
  - destruct (N.leb_spec (footprint m t) u64_max); [|by eauto].
    cbn [mbind result_bind]. unfold ensure_retained_capacity. cbn [summary retained_bytes].
    rewrite (proj2 (N.ltb_lt _ _) Hgt). by eauto.
Qed.
End sealing.

(** ** The bytes determine the rows *)

(** What an SQLite integer holds. *)
Definition i64 (v : Z) : Prop := (- 2 ^ 63 <= v < 2 ^ 63)%Z.

Record i64_tables (t : Tables) : Prop := {
  i64_packets : Forall (fun r => i64 (pr_key r).2.2) (packets t);
  i64_roots : Forall (fun r => i64 (rr_key r).2.2) (roots t);
  i64_events : Forall (fun r => i64 (er_key r).2.2 /\ i64 (er_revision r)) (events t);
  i64_heads : Forall (fun r => i64 (hr_key r).2.2 /\ i64 (hr_revision r)) (heads t) }.

Lemma be_i64_inj v w x y : i64 v -> i64 w -> be_i64 v +:+ x = be_i64 w +:+ y -> v = w /\ x = y.
Proof.
  unfold i64, be_i64. intros Hv Hw Heq. apply app_length_inj in Heq as [Heq Hxy];
    [|unfold be64; by rewrite !length_be_bytes].
  split; [|done]. change (2 ^ 64)%Z with (2 * 2 ^ 63)%Z in Heq.
  assert (Hb : forall z, Z.to_N (z mod (2 * 2 ^ 63)) <= u64_max).
  { intros z. pose proof (Z.mod_pos_bound z (2 * 2 ^ 63) ltac:(done)). unfold u64_max. lia. }
  apply be64_inj in Heq; [|done..].
  pose proof (Z.mod_pos_bound v (2 * 2 ^ 63) ltac:(done)).
  pose proof (Z.mod_pos_bound w (2 * 2 ^ 63) ltac:(done)).
  apply Z2N.inj in Heq; [|lia..].
  pose proof (Z.div_mod v (2 * 2 ^ 63) ltac:(done)). pose proof (Z.div_mod w (2 * 2 ^ 63) ltac:(done)).
  nia.
Qed.

(** [bytes] can be read off the front of any text, for the rows of [P]. *)
Definition readable {A} (P : A -> Prop) (bytes : A -> string) : Prop :=
  forall r r' x x', P r -> P r' -> bytes r +:+ x = bytes r' +:+ x' -> r = r' /\ x = x'.

Lemma joined_inj {A} (P : A -> Prop) (bytes : A -> string) : readable P bytes ->
  forall l l' x x', Forall P l -> Forall P l' -> length l = length l' ->
  joined bytes l +:+ x = joined bytes l' +:+ x' -> l = l' /\ x = x'.
Proof.
  intros Hr. induction l as [|r l IH]; intros [|r' l'] x x' Hl Hl' Hlen; try done.
  apply Forall_cons in Hl as [Hp Hl], Hl' as [Hp' Hl']. cbn [joined foldr]. fold (joined bytes l) (joined bytes l').
  rewrite <- !string_app_assoc. intros [-> Heq]%Hr; [|done..]. injection Hlen as Hlen.
  by apply IH in Heq as [-> ->].
Qed.

(** Read the fields off the front, one after the other. *)
Ltac read_fields H := repeat (rewrite <- ?string_app_assoc in H; first
  [ apply frame_inj in H as [? H]; [|first [lia | done]..]
  | apply be_i64_inj in H as [? H]; [|done..] ]).

Lemma packet_readable : readable (fun r => packet_cost r <= u64_max /\ i64 (pr_key r).2.2) packet_bytes.
Proof.
  intros [[a [b g]] j h s] [[a' [b' g']] j' h' s'] x x'.
  unfold packet_cost, packet_bytes. cbn [pr_key pr_json pr_hash pr_seal fst snd sizes texts foldr].
  intros [Hc Hg] [Hc' Hg'] Heq. rewrite !string_app_nil_r in Heq.
  read_fields Heq. by subst.
Qed.

Lemma root_readable : readable (fun r => root_cost r <= u64_max /\ i64 (rr_key r).2.2) root_bytes.
Proof.
  intros [[a [b g]] h] [[a' [b' g']] h'] x x'.
  unfold root_cost, root_bytes. cbn [rr_key rr_hash fst snd sizes texts foldr].
  intros [Hc Hg] [Hc' Hg'] Heq. rewrite !string_app_nil_r in Heq. read_fields Heq. by subst.
Qed.

Lemma event_readable :
  readable (fun r => event_cost r <= u64_max /\ i64 (er_key r).2.2 /\ i64 (er_revision r)) event_bytes.
Proof.
  intros [[a [b g]] ac rv kd j h s i] [[a' [b' g']] ac' rv' kd' j' h' s' i'] x x'.
  unfold event_cost, event_bytes.
  cbn [er_key er_account er_revision er_kind er_json er_hash er_seal er_idempotency fst snd sizes texts foldr].
  intros (Hc & Hg & Hv) (Hc' & Hg' & Hv') Heq. rewrite !string_app_nil_r in Heq. read_fields Heq. by subst.
Qed.

Lemma head_readable :
  readable (fun r => head_cost r <= u64_max /\ i64 (hr_key r).2.2 /\ i64 (hr_revision r)) head_bytes.
Proof.
  intros [[a [b g]] rv h] [[a' [b' g']] rv' h'] x x'.
  unfold head_cost, head_bytes. cbn [hr_key hr_revision hr_hash fst snd sizes texts foldr].
  intros (Hc & Hg & Hv) (Hc' & Hg' & Hv') Heq. rewrite !string_app_nil_r in Heq. read_fields Heq. by subst.
Qed.

Lemma total_elem {A} (cost : A -> N) l r : r ∈ l -> cost r <= total cost l.
Proof.
  induction l as [|x l IH]; [by intros ?%elem_of_nil|]. cbn [total foldr]. fold (total cost l).
  intros [->|Hr]%elem_of_cons; [lia|]. specialize (IH Hr). lia.
Qed.

Lemma app_suffix_inj s1 s2 t1 t2 :
  s1 +:+ t1 = s2 +:+ t2 -> String.length t1 = String.length t2 -> s1 = s2 /\ t1 = t2.
Proof.
  intros Heq Hlen. apply app_length_inj; [|done].
  apply (f_equal String.length) in Heq. rewrite !string_length_app in Heq. lia.
Qed.

(** Rows in a total that fits, with their integers, in the order of the scan. *)
Lemma sorted_rows {A K} `{TotalCmp K} (key : A -> K) (cost : A -> N) (P : A -> Prop) l :
  total cost l <= u64_max -> Forall P l -> Forall (fun r => cost r <= u64_max /\ P r) (sort_by_key key l).
Proof.
  intros Ht HP. apply Forall_forall. intros r Hr. rewrite sort_by_key_elem in Hr. split.
  - pose proof (total_elem cost l r Hr). lia.
  - by eapply Forall_forall in HP.
Qed.

Lemma len_length {A} (l l' : list A) : len l = len l' -> length l = length l'.
Proof. unfold len. lia. Qed.

Lemma sorted_perm {A K} `{TotalCmp K} (key : A -> K) (l l' : list A) :
  sort_by_key key l = sort_by_key key l' -> l ≡ₚ l'.
Proof. intros Heq. by rewrite <- (sort_by_key_perm key l), Heq, (sort_by_key_perm key l'). Qed.

Section binding.
Context `{Sha256, HmacSha256, UrlBase64, RatificationCodec}.

Definition same_contents (m m' : MetadataRow) (t t' : Tables) : Prop :=
  md_key_check m = md_key_check m' /\ packets t ≡ₚ packets t' /\ roots t ≡ₚ roots t' /\
  events t ≡ₚ events t' /\ heads t ≡ₚ heads t'.

Lemma trailer_inj m m' t t' :
  footprint m t <= u64_max -> footprint m' t' <= u64_max -> trailer m t = trailer m' t' ->
  len (packets t) = len (packets t') /\ len (roots t) = len (roots t') /\
  len (events t) = len (events t') /\ len (heads t) = len (heads t').
Proof.
  intros Hf Hf' Heq. unfold trailer in Heq.
  assert (Hc : forall m t, footprint m t <= u64_max -> len (packets t) <= u64_max /\ len (roots t) <= u64_max /\
    len (events t) <= u64_max /\ len (heads t) <= u64_max).
  { clear. intros m t. unfold footprint.
    pose proof (total_len packet_cost (packets t) (fun r => proj1 (scan_packet_row r))).
    pose proof (total_len root_cost (roots t) (fun r => proj1 (scan_root_row r))).
    pose proof (total_len event_cost (events t) (fun r => proj1 (scan_event_row r))).
    pose proof (total_len head_cost (heads t) (fun r => proj1 (scan_head_row r))). lia. }
  destruct (Hc m t Hf) as (? & ? & ? & ?), (Hc m' t' Hf') as (? & ? & ? & ?).
  do 4 (let E := fresh "E" in apply app_length_inj in Heq as [E Heq];
        [apply be64_inj in E; [|done..]|unfold be64; by rewrite !length_be_bytes]). done.
Qed.

Lemma ledger_bytes_inj m m' t t' :
  footprint m t <= u64_max -> footprint m' t' <= u64_max -> i64_tables t -> i64_tables t' ->
  i64 (md_schema_version m) -> i64 (md_schema_version m') ->
  ledger_bytes m t = ledger_bytes m' t' -> same_contents m m' t t'.
Proof.
  intros Hf Hf' [Hip Hir Hie Hih] [Hip' Hir' Hie' Hih'] Hv Hv' Heq. unfold ledger_bytes in Heq.
  rewrite !string_app_assoc in Heq. apply app_suffix_inj in Heq as [Heq Htr];
    [|unfold trailer, be64; by rewrite !string_length_app, !length_be_bytes].
  destruct (trailer_inj m m' t t' Hf Hf' Htr) as (Hlp & Hlr & Hle & Hlh).
  unfold footprint, metadata_cost in Hf, Hf'. unfold metadata_bytes in Heq.
  read_fields Heq. unfold table_bytes in Heq. rewrite <- ?string_app_assoc in Heq.
  apply (joined_inj _ _ packet_readable) in Heq as [Hp Heq];
    [|apply sorted_rows; [lia|done]..|by apply len_length; rewrite !sort_len].
  apply (joined_inj _ _ root_readable) in Heq as [Hr Heq];
    [|apply sorted_rows; [lia|done]..|by apply len_length; rewrite !sort_len].
  apply (joined_inj _ _ event_readable) in Heq as [He Heq];
    [|apply sorted_rows; [lia|done]..|by apply len_length; rewrite !sort_len].
  rewrite <- (string_app_nil_r (joined head_bytes (sort_by_key hr_key (heads t)))),
    <- (string_app_nil_r (joined head_bytes (sort_by_key hr_key (heads t')))) in Heq.
  apply (joined_inj _ _ head_readable) in Heq as [Hh Heq];
    [|apply sorted_rows; [lia|done]..|by apply len_length; rewrite !sort_len].
  split; [done|]. by apply sorted_perm in Hp, Hr, He, Hh.
Qed.

End binding.
