(* ===== verification/Chronicle.v ===== *)
(** * What the ratification ledger promises

    The ledger's contract: a chronicle of frozen packets and of receipts, in the
    order they were recorded, and what each operation does to it.  The tables of
    [Ratification] represent a chronicle, and every operation on them behaves as
    the operation on the chronicle, errors included, up to the retained capacity.
    On the chronicle the lifecycle of a packet is an invariant. *)

From S2P Require Import Prelude Text Policy Review Ratification Sealing.

(** ** The contract *)

Record Chronicle := { frozen : list ReviewPacket; receipts : list HumanRatificationReceipt }.

Definition empty_chronicle : Chronicle := {| frozen := []; receipts := [] |}.

Definition pkey (p : ReviewPacket) : row_key := (in_tenant_id p, (in_task_id p, Z.of_N (in_generation p))).
Definition rkey (r : HumanRatificationReceipt) : row_key :=
  (rs_tenant_id r, (rs_task_id r, Z.of_N (rs_generation r))).
Definition idem_key (r : HumanRatificationReceipt) : string * string * string :=
  (rs_tenant_id r, rs_account_id r, rs_idempotency_key r).

(** The generations of a task, oldest first, and the receipts of one of them. *)
Definition generations (C : Chronicle) (tenant task : string) : list ReviewPacket :=
  filter (fun p : ReviewPacket => in_tenant_id p = tenant /\ in_task_id p = task) (frozen C).
Definition history (C : Chronicle) (p : ReviewPacket) : list HumanRatificationReceipt :=
  rows_at rkey (pkey p) (receipts C).

Section contract.
Context `{Sha256, HmacSha256, UrlBase64, RatificationCodec}.
Context (key : string).

Definition spec_freeze (C : Chronicle) (i : ReviewPacketInput) : result RatificationError (Chronicle * ReviewPacket) :=
  p ← freeze i key;
  map_err (fun _ => InvalidInput) (to_vec p);;
  fail_if (i64_max <? in_generation (input p))%N Integrity;;
  let gens := generations C (in_tenant_id (input p)) (in_task_id p) in
  match gens !! N.to_nat (in_generation p - 1) with
  | Some q => if bool_decide (q = p) then Ok (C, q) else Err Conflict
  | None =>
      fail_if (negb (in_generation p =? len gens + 1)%N) Conflict;;
      fail_if (is_some_and (last gens) (fun q => negb (amended (history C q)))) Conflict;;
      Ok ({| frozen := frozen C ++ [p]; receipts := receipts C |}, p)
  end.

Definition spec_append (C : Chronicle) (p : ReviewPacket) (account principal method : string)
    (expected_revision : N) (idempotency command_digest : string) (action : HumanRatificationAction)
    (rationale : string) (at_millis : Z) : result RatificationError (Chronicle * HumanRatificationReceipt) :=
  validate_id account;;
  validate_id idempotency;;
  review_validate_text rationale;;
  match list_find (fun r => idem_key r = (in_tenant_id p, account, idempotency)) (receipts C) with
  | Some (_, r) =>
      recorded ← receipt_command_semantic_digest (statement r);
      if bool_decide (recorded = command_digest) then Ok (C, r) else Err IdempotencyConflict
  | None =>
      let h := history C p in
      fail_if (negb (len h =? expected_revision)%N
        || (bool_decide (action = ReviewAcknowledged) && negb (len h =? 0)%N)) PreconditionFailed;;
      r ← seal_receipt key (new_statement p account principal method idempotency (len h) action rationale
                              at_millis (receipt_hash <$> last h));
      map_err (fun _ => InvalidInput) (to_vec r);;
      fail_if (i64_max <? rs_revision (statement r))%N Conflict;;
      Ok ({| frozen := frozen C; receipts := receipts C ++ [r] |}, r)
  end.

Definition spec_acknowledge (C : Chronicle) (a : ReviewAcknowledgement) :
    result RatificationError (Chronicle * HumanRatificationReceipt) :=
  validate_id (ack_account_id a);;
  validate_id (ack_idempotency_key a);;
  fail_if (negb (principal_and_authentication_are_valid (ack_principal_scope a) (ack_authentication_method a)))
    InvalidInput;;
  validate_id (ack_tenant_id a);;
  validate_id (ack_task_id a);;
  p ← ok_or (last (generations C (ack_tenant_id a) (ack_task_id a))) NotFound;
  fail_if (negb (bool_decide (ack_evidence_hashes a = in_evidence_hashes (input p)))
    || negb (bool_decide (ack_artifact_hashes a = ra_digest <$> in_artifacts p))
    || negb (bool_decide (ack_artifact_manifest_digest a = in_artifact_set_digest p))
    || negb (ack_uncertainty_acknowledged a)) ExactReviewRequired;;
  fail_if (negb (review_command_matches_packet a p)) PreconditionFailed;;
  command_digest ← review_command_semantic_digest a;
  spec_append C p (ack_account_id a) (ack_principal_scope a) (ack_authentication_method a)
    (ack_expected_revision a) (ack_idempotency_key a) command_digest ReviewAcknowledged
    "exact evidence, artifacts, and uncertainty reviewed" (ack_reviewed_at_millis a).

Definition spec_decide (C : Chronicle) (c : RatificationCommand) :
    result RatificationError (Chronicle * HumanRatificationReceipt) :=
  validate_id (cmd_tenant_id c);;
  validate_id (cmd_task_id c);;
  validate_id (cmd_account_id c);;
  validate_id (cmd_idempotency_key c);;
  review_validate_text (cmd_rationale c);;
  fail_if (negb (principal_and_authentication_are_valid (cmd_principal_scope c) (cmd_authentication_method c)))
    InvalidInput;;
  p ← ok_or (last (generations C (cmd_tenant_id c) (cmd_task_id c))) NotFound;
  fail_if (negb (decision_command_matches_packet c p)) PreconditionFailed;;
  command_digest ← decision_command_semantic_digest c;
  let record := spec_append C p (cmd_account_id c) (cmd_principal_scope c)
    (cmd_authentication_method c) (cmd_expected_revision c) (cmd_idempotency_key c) command_digest
    (Decision_ (cmd_decision c)) (cmd_rationale c) (cmd_decided_at_millis c) in
  match last (history C p) with
  | None => Err ReviewRequired
  | Some r =>
      match rs_action (statement r) with
      | ReviewAcknowledged =>
          if bool_decide (rs_account_id r = cmd_account_id c) then record else Err ReviewRequired
      | Decision_ _ =>
          if bool_decide (rs_idempotency_key r = cmd_idempotency_key c) then record
          else Err PreconditionFailed
      end
  end.
End contract.

(** ** Rows *)

Section row_lemmas.
Context {A : Type} (key_of : A -> row_key).

Lemma row_at_Some k l r : row_at key_of k l = Some r -> r ∈ l /\ key_of r = k.
Proof.
  unfold row_at. intros ([i x] & Hf & [= <-])%bind_Some. apply list_find_Some in Hf as (Hi & Hk & _).
  split; [by eapply list_elem_of_lookup_2|done].
Qed.

Lemma row_at_None k l : row_at key_of k l = None <-> forall r, r ∈ l -> key_of r <> k.
Proof.
  unfold row_at. rewrite bind_None, list_find_None, Forall_forall.
  split; [|by left]. by intros [|([] & _ & ?)].
Qed.

Lemma row_at_elem l r : NoDup (key_of <$> l) -> r ∈ l -> row_at key_of (key_of r) l = Some r.
Proof.
  intros Hnd Hr. destruct (row_at key_of (key_of r) l) as [x|] eqn:Hx.
  - apply row_at_Some in Hx as [Hx Hk]. f_equal. by eapply NoDup_fmap_inj_on.
  - rewrite row_at_None in Hx. by destruct (Hx r Hr).
Qed.

Lemma row_at_snoc k l r :
  row_at key_of k (l ++ [r]) =
    match row_at key_of k l with Some x => Some x | None => if decide (key_of r = k) then Some r else None end.
Proof.
  induction l as [|x l IH]; unfold row_at in *; simpl.
  - by destruct (decide (key_of r = k)).
  - destruct (decide (key_of x = k)); [done|].
    destruct (list_find _ (l ++ [r])) as [[]|], (list_find _ l) as [[]|]; simpl in *; done.
Qed.

Lemma rows_at_snoc k l r :
  rows_at key_of k (l ++ [r]) = rows_at key_of k l ++ (if decide (key_of r = k) then [r] else []).
Proof. unfold rows_at. rewrite filter_app, filter_cons, filter_nil. by destruct (decide _). Qed.

(** A selection from the abstract list finds the related row. *)
Lemma row_at_Forall2 {B} (R : B -> A -> Prop) (bkey : B -> row_key) k l rows :
  (forall x r, R x r -> key_of r = bkey x) -> Forall2 R l rows ->
  match row_at bkey k l with
  | Some x => exists r, row_at key_of k rows = Some r /\ R x r
  | None => row_at key_of k rows = None
  end.
Proof.
  intros HR. induction 1 as [|x r l rows Hx _ IH]; [done|]. unfold row_at in *. simpl.
  rewrite (HR x r Hx). destruct (decide (bkey x = k)); [by exists r|].
  destruct (list_find _ l) as [[]|], (list_find _ rows) as [[]|]; simpl in *; naive_solver.
Qed.
End row_lemmas.

(** ** Invariants *)

Section chronicle.
Context `{Sha256, HmacSha256, UrlBase64, RatificationCodec}.
Context (key : string).

(** [r] is the receipt recorded on [p] after [seen]. *)
Record receipt_ok (p : ReviewPacket) (seen : list HumanRatificationReceipt) (r : HumanRatificationReceipt) : Prop := {
  receipt_packet : receipt_matches_packet r p = true;
  receipt_revision : rs_revision r = (len seen + 1)%N;
  receipt_fits : (rs_revision r <= i64_max)%N;
  receipt_hashed : receipt_statement_hash r = Ok (receipt_hash r);
  receipt_sealed : human_seal r = ratification_mac key RECEIPT_DOMAIN (receipt_hash r);
  receipt_idempotency : rs_idempotency_key_digest r = content_digest (rs_idempotency_key r);
  receipt_previous : rs_previous_receipt_hash r = receipt_hash <$> last seen }.

Definition chain (p : ReviewPacket) (h : list HumanRatificationReceipt) : Prop :=
  forall seen r rest, h = seen ++ r :: rest -> receipt_ok p seen r.

Lemma chain_nil p : chain p [].
Proof. by intros [|] r rest. Qed.

Lemma chain_snoc p h r : chain p (h ++ [r]) <-> chain p h /\ receipt_ok p h r.
Proof.
  split.
  - intros Hc. split; [|by eapply Hc].
    intros seen x rest ->. apply (Hc seen x (rest ++ [r])). by rewrite <- app_assoc.
  - intros [Hh Hr] seen x rest Heq. destruct rest as [|y rest _] using rev_ind.
    + apply app_inj_tail in Heq as [-> ->]. done.
    + rewrite app_comm_cons, app_assoc in Heq. apply app_inj_tail in Heq as [-> ->]. by apply (Hh seen x rest).
Qed.

(** The course of a ratification: a review, a decision by the same account, and
    then only decisions of other accounts under the key of the first. *)
Definition lifecycle (h : list HumanRatificationReceipt) : Prop :=
  match h with
  | [] => True
  | r :: ds =>
      rs_action r = ReviewAcknowledged /\
      match ds with
      | [] => True
      | d :: rest =>
          (exists x, rs_action d = Decision_ x) /\ rs_account_id d = rs_account_id r /\
          Forall (fun e : HumanRatificationReceipt => (exists x, rs_action e = Decision_ x) /\
            rs_idempotency_key e = rs_idempotency_key d /\ rs_account_id e <> rs_account_id d) rest
      end
  end.

Record chronicle_ok (C : Chronicle) : Prop := {
  ok_generation : forall tenant task i (p : ReviewPacket),
    generations C tenant task !! i = Some p -> in_generation p = (N.of_nat i + 1)%N;
  ok_amended : forall tenant task i p,
    generations C tenant task !! i = Some p -> (S i < length (generations C tenant task))%nat ->
    amended (history C p) = true;
  ok_keys : NoDup (pkey <$> frozen C);
  ok_frozen : forall p : ReviewPacket, p ∈ frozen C -> freeze p key = Ok p /\ (in_generation p <= i64_max)%N;
  ok_chain : forall p, p ∈ frozen C -> chain p (history C p);
  ok_owner : forall r, r ∈ receipts C -> exists p, p ∈ frozen C /\ pkey p = rkey r;
  ok_unique : NoDup (idem_key <$> receipts C);
  ok_lifecycle : forall p, p ∈ frozen C -> lifecycle (history C p) }.

(** ** Representation *)

(** JSON written by the ledger is read back. *)
Record json_laws : Prop := {
  packet_json : forall p b, to_vec p = Ok b -> packet_from_slice b = Some p;
  receipt_json : forall r b, to_vec r = Ok b -> human_receipt_from_slice b = Some r }.

Record packet_row (p : ReviewPacket) (row : PacketRow) : Prop := {
  prow_key : pr_key row = pkey p;
  prow_json : to_vec p = Ok (pr_json row);
  prow_hash : pr_hash row = packet_hash p;
  prow_seal : pr_seal row = packet_seal p }.

Definition root_of (p : ReviewPacket) : RootRow := {| rr_key := pkey p; rr_hash := packet_hash p |}.

Record event_row (r : HumanRatificationReceipt) (row : EventRow) : Prop := {
  erow_key : er_key row = rkey r;
  erow_account : er_account row = rs_account_id r;
  erow_revision : er_revision row = Z.of_N (rs_revision r);
  erow_kind : er_kind row = event_kind (rs_action r);
  erow_json : to_vec r = Ok (er_json row);
  erow_hash : er_hash row = receipt_hash r;
  erow_seal : er_seal row = human_seal r;
  erow_idempotency : er_idempotency row = rs_idempotency_key r }.

Definition head_of (r : HumanRatificationReceipt) : HeadRow :=
  {| hr_key := rkey r; hr_revision := Z.of_N (rs_revision r); hr_hash := receipt_hash r |}.

(** The rows of the tables are those of the chronicle. *)
Record rows_of (C : Chronicle) (t : Tables) : Prop := {
  rows_packets : Forall2 packet_row (frozen C) (packets t);
  rows_roots : roots t = root_of <$> frozen C;
  rows_events : Forall2 event_row (receipts C) (events t);
  rows_heads : forall k, row_at hr_key k (heads t) = head_of <$> last (rows_at rkey k (receipts C));
  rows_heads_nodup : NoDup (hr_key <$> heads t) }.

Record represents (C : Chronicle) (t : Tables) : Prop := {
  rep_rows : rows_of C t;
  rep_sealed : exists m, sealed key t m /\ metadata_shape m /\ md_key_check m = key_check key }.

Context (json : json_laws).

Lemma freeze_Ok i p : freeze i key = Ok p ->
  input p = i /\ packet_revision p = 0%N /\ validate_packet i = Ok tt /\
  packet_statement_hash i 0 = Ok (packet_hash p) /\
  packet_seal p = ratification_mac key PACKET_DOMAIN (packet_hash p).
Proof. unfold freeze. intros Hf. inv_ok. done. Qed.

Lemma pkey_sql (p : ReviewPacket) : (in_generation p <= i64_max)%N ->
  sql_key (in_tenant_id p) (in_task_id p) (in_generation p) = Ok (pkey p).
Proof. intros Hg. unfold sql_key. by rewrite to_sql_le. Qed.

Lemma packet_rows_at C t k : rows_of C t ->
  match row_at pkey k (frozen C) with
  | Some p => exists row, row_at pr_key k (packets t) = Some row /\ packet_row p row
  | None => row_at pr_key k (packets t) = None
  end.
Proof. intros Hrep. eapply row_at_Forall2; [|apply rows_packets, Hrep]. by intros p row []. Qed.

Lemma root_rows_at C t k : rows_of C t -> rr_hash <$> row_at rr_key k (roots t) = packet_hash <$> row_at pkey k (frozen C).
Proof.
  intros Hrep. rewrite (rows_roots _ _ Hrep). unfold row_at. rewrite list_find_fmap.
  change (list_find ((fun r => rr_key r = k) ∘ root_of) (frozen C)) with (list_find (fun p => pkey p = k) (frozen C)).
  by destruct (list_find _ (frozen C)) as [[]|].
Qed.

(** A packet of the chronicle authenticates as itself. *)
Lemma authenticate_packet_ok C t (p : ReviewPacket) : rows_of C t -> chronicle_ok C -> p ∈ frozen C ->
  authenticate_packet key t (in_tenant_id p) (in_task_id p) (in_generation p) = Ok p.
Proof using json.
  intros Hrep Hok Hp. destruct (ok_frozen _ Hok p Hp) as [Hf Hg].
  pose proof (row_at_elem pkey (frozen C) p (ok_keys _ Hok) Hp) as Hat.
  pose proof (packet_rows_at C t (pkey p) Hrep) as Hrow. rewrite Hat in Hrow.
  destruct Hrow as (row & Hrow & [Hk Hj Hh Hs]). apply freeze_Ok in Hf as (_ & Hrev & _ & Hhash & Hseal).
  unfold authenticate_packet. rewrite pkey_sql by done. cbn [mbind result_bind]. rewrite Hrow.
  cbn [ok_or mbind result_bind]. rewrite (packet_json json p _ Hj). cbn [ok_or mbind result_bind].
  rewrite Hrev, Hhash. cbn [map_err mbind result_bind].
  by rewrite Hh, Hs, Hseal, (root_rows_at C t _ Hrep), Hat, !bool_decide_eq_true_2.
Qed.

(** *** Histories *)

Lemma receipt_matches_key r p : receipt_matches_packet r p = true ->
  rs_tenant_id r = in_tenant_id p /\ rs_task_id r = in_task_id p /\ rs_generation r = in_generation p.
Proof. unfold receipt_matches_packet. rewrite !andb_true_iff. intros Hm. destruct_and! Hm. by inv_ok. Qed.

Lemma authenticate_event_ok p seen r row :
  receipt_ok p seen r -> event_row r row ->
  authenticate_event key (in_tenant_id p) (in_task_id p) (in_generation p) p (seen, receipt_hash <$> last seen) row
    = Ok (seen ++ [r], Some (receipt_hash r)).
Proof using json.
  intros [Hm Hrev Hfit Hhash Hseal Hidem Hprev] [Hk Hac Hrv Hkind Hj Hh Hs Hi].
  destruct (receipt_matches_key r p Hm) as (Ht & Htask & Hg).
  unfold authenticate_event. rewrite Hrv, from_sql_of_N. cbn [ok_or mbind result_bind].
  rewrite (receipt_json json r _ Hj). cbn [ok_or mbind result_bind]. rewrite Hhash.
  cbn [map_err mbind result_bind fst snd].
  by rewrite Hm, Ht, Htask, Hg, Hac, Hkind, Hh, Hs, Hi, Hidem, Hprev, Hseal, !bool_decide_eq_true_2.
Qed.

Lemma authenticate_events_ok p h rows :
  chain p h -> Forall2 event_row h rows ->
  try_fold (authenticate_event key (in_tenant_id p) (in_task_id p) (in_generation p) p) ([], None) rows
    = Ok (h, receipt_hash <$> last h).
Proof using json.
  revert rows. induction h as [|r h IH] using rev_ind; intros rows Hc Hrows.
  - by apply Forall2_nil_inv_l in Hrows as ->.
  - apply chain_snoc in Hc as [Hc Hr]. apply Forall2_app_inv_l in Hrows as (rows1 & rows2 & Hrows & Hlast & ->).
    inversion Hlast as [|? row ? ? Hrow Hnil]; subst. apply Forall2_nil_inv_l in Hnil as ->.
    rewrite try_fold_snoc, IH by done. cbn [mbind result_bind].
    by rewrite (authenticate_event_ok p h r row), last_snoc.
Qed.

(** Revisions grow along a history, so the rows are already in order. *)
Lemma chain_sorted p h rows : chain p h -> Forall2 event_row h rows ->
  Forall (fun row => (er_revision row <= Z.of_nat (length h))%Z) rows /\
  StronglySorted (key_leb er_revision) rows.
Proof.
  revert rows. induction h as [|r h IH] using rev_ind; intros rows Hc Hrows.
  - apply Forall2_nil_inv_l in Hrows as ->. split; constructor.
  - apply chain_snoc in Hc as [Hc Hr]. apply Forall2_app_inv_l in Hrows as (rows1 & rows2 & Hrows & Hlast & ->).
    inversion Hlast as [|? row ? ? Hrow Hnil]; subst. apply Forall2_nil_inv_l in Hnil as ->.
    destruct (IH rows1 Hc Hrows) as [Hb Hsort].
    assert (Hrev : er_revision row = (Z.of_nat (length h) + 1)%Z).
    { rewrite (erow_revision _ _ Hrow), (receipt_revision _ _ _ Hr). unfold len. lia. }
    rewrite length_app. cbn [length]. split.
    + apply Forall_app. split; [|constructor; [lia|constructor]]. eapply Forall_impl; [exact Hb|]. cbn. lia.
    + apply StronglySorted_app_2; [|done|repeat constructor].
      intros x y Hx ->%list_elem_of_singleton. rewrite Forall_forall in Hb. specialize (Hb x Hx).
      unfold key_leb. cbn. rewrite Hrev. destruct (Z.compare_spec (er_revision x) (Z.of_nat (length h) + 1)); by (done || lia).
Qed.

Lemma history_rows C t p : rows_of C t -> Forall2 event_row (history C p) (rows_at er_key (pkey p) (events t)).
Proof.
  intros Hrep. apply Forall2_filter; [|apply rows_events, Hrep]. intros r row []. by split; congruence.
Qed.

Lemma history_elem C p r : r ∈ history C p <-> rkey r = pkey p /\ r ∈ receipts C.
Proof. unfold history, rows_at. by rewrite list_elem_of_filter. Qed.

(** The rows of a packet authenticate as its history. *)
Lemma authenticate_history_ok C t (p : ReviewPacket) : rows_of C t -> chronicle_ok C -> p ∈ frozen C ->
  authenticate_history key t (in_tenant_id p) (in_task_id p) (in_generation p) p = Ok (history C p).
Proof using json.
  intros Hrep Hok Hp. destruct (ok_frozen _ Hok p Hp) as [_ Hg].
  pose proof (ok_chain _ Hok p Hp) as Hc. pose proof (history_rows C t p Hrep) as Hrows.
  destruct (chain_sorted p _ _ Hc Hrows) as [_ Hsort].
  unfold authenticate_history. rewrite pkey_sql by done. cbn [mbind result_bind].
  unfold sort_by_key. rewrite sort_by_id by done. rewrite (authenticate_events_ok p _ _ Hc Hrows).
  cbn [mbind result_bind]. rewrite (rows_heads _ _ Hrep). fold (history C p).
  destruct (last (history C p)) as [r|] eqn:Hlast; cbn [fmap option_fmap option_map read_head mbind result_bind].
  - cbn [head_of hr_revision hr_hash]. rewrite from_sql_of_N. cbn [ok_or mbind result_bind].
    unfold head_agrees. by rewrite Hlast, N.eqb_refl, bool_decide_eq_true_2.
  - unfold head_agrees. by rewrite Hlast.
Qed.

(** *** Generations *)

Lemma generations_elem C tenant task (p : ReviewPacket) :
  p ∈ generations C tenant task <-> (in_tenant_id p = tenant /\ in_task_id p = task) /\ p ∈ frozen C.
Proof. unfold generations. by rewrite list_elem_of_filter. Qed.

Lemma own_generation C (p : ReviewPacket) : chronicle_ok C -> p ∈ frozen C ->
  exists i, generations C (in_tenant_id p) (in_task_id p) !! i = Some p /\ in_generation p = (N.of_nat i + 1)%N.
Proof.
  intros Hok Hp. assert (Hin : p ∈ generations C (in_tenant_id p) (in_task_id p)) by by apply generations_elem.
  apply list_elem_of_lookup in Hin as [i Hi]. exists i. split; [done|]. by eapply ok_generation.
Qed.

(** The packet with a given key is the one at its place among the generations. *)
Lemma packet_at C tenant task g : chronicle_ok C -> (1 <= g)%N ->
  row_at pkey (tenant, (task, Z.of_N g)) (frozen C) = generations C tenant task !! N.to_nat (g - 1).
Proof.
  intros Hok Hg. destruct (generations C tenant task !! N.to_nat (g - 1)) as [p|] eqn:Hp.
  - pose proof (ok_generation _ Hok _ _ _ _ Hp) as Hgen.
    apply list_elem_of_lookup_2, generations_elem in Hp as [[<- <-] Hp].
    replace g with (in_generation p) by lia. apply (row_at_elem pkey (frozen C) p); [by apply ok_keys|done].
  - apply row_at_None. intros p Hin [= <- <- Hz%N2Z.inj]. subst g.
    destruct (own_generation C p Hok Hin) as (i & Hi & Hgen).
    replace (N.to_nat (in_generation p - 1)) with i in Hp by lia. congruence.
Qed.

Definition of_task (tenant task : string) (r : PacketRow) : Prop :=
  (pr_key r).1 = tenant /\ (pr_key r).2.1 = task.

Lemma max_generation_cons tenant task x l :
  max_generation tenant task (x :: l) =
    if decide (of_task tenant task x)
    then Some (match max_generation tenant task l with Some b => Z.max (pr_key x).2.2 b | None => (pr_key x).2.2 end)
    else max_generation tenant task l.
Proof.
  cbn [max_generation foldr]. fold (max_generation tenant task l). unfold of_task.
  by destruct (decide _) as [[-> ->]|Hn]; repeat case_bool_decide; naive_solver.
Qed.

(** [max(generation)]: the greatest generation of the task, if it has one. *)
Lemma max_generation_spec tenant task l :
  match max_generation tenant task l with
  | Some g => (exists r, r ∈ l /\ pr_key r = (tenant, (task, g))) /\
      forall r, r ∈ l -> of_task tenant task r -> ((pr_key r).2.2 <= g)%Z
  | None => forall r, r ∈ l -> ~ of_task tenant task r
  end.
Proof.
  induction l as [|x l IH]; [by intros r ?%elem_of_nil|]. rewrite max_generation_cons.
  destruct (decide (of_task tenant task x)) as [[Ht Hk]|Hx].
  - assert (Hkey : pr_key x = (tenant, (task, (pr_key x).2.2))) by (destruct x as [[? [? ?]] ? ? ?]; cbn in *; by subst).
    destruct (max_generation tenant task l) as [b|].
    + destruct IH as [(r & Hr & Hb) Hmax]. split.
      * destruct (Z.max_spec (pr_key x).2.2 b) as [[_ ->]|[_ ->]]; [exists r|exists x]; set_solver.
      * intros y [->|Hy]%elem_of_cons Hof; [lia|]. specialize (Hmax y Hy Hof). lia.
    + split; [exists x; set_solver|]. intros y [->|Hy]%elem_of_cons Hof; [lia|]. by destruct (IH y Hy).
  - destruct (max_generation tenant task l) as [b|].
    + destruct IH as [(r & Hr & Hb) Hmax]. split; [exists r; set_solver|].
      intros y [->|Hy]%elem_of_cons Hof; [done|by apply Hmax].
    + by intros y [->|Hy]%elem_of_cons Hof; [done|apply (IH y)].
Qed.

Lemma packet_row_elem C t row : rows_of C t -> row ∈ packets t -> exists p, p ∈ frozen C /\ packet_row p row.
Proof.
  intros Hrep [i Hi]%list_elem_of_lookup.
  destruct (Forall2_lookup_r _ _ _ _ _ (rows_packets _ _ Hrep) Hi) as (p & Hp & Hrow).
  exists p. split; [by eapply list_elem_of_lookup_2|done].
Qed.

Lemma row_packet_elem C t p : rows_of C t -> p ∈ frozen C -> exists row, row ∈ packets t /\ packet_row p row.
Proof.
  intros Hrep [i Hi]%list_elem_of_lookup.
  destruct (Forall2_lookup_l _ _ _ _ _ (rows_packets _ _ Hrep) Hi) as (row & Hr & Hrow).
  exists row. split; [by eapply list_elem_of_lookup_2|done].
Qed.

Lemma latest_generation_ok C t tenant task : rows_of C t -> chronicle_ok C ->
  latest_generation t tenant task =
    Ok ((fun p : ReviewPacket => in_generation p) <$> last (generations C tenant task)).
Proof.
  intros Hrep Hok. unfold latest_generation. pose proof (max_generation_spec tenant task (packets t)) as Hmax.
  destruct (max_generation tenant task (packets t)) as [g|].
  - destruct Hmax as [(row & Hrow & Hk) Hmax]. destruct (packet_row_elem C t row Hrep Hrow) as (p & Hp & Hpr).
    rewrite (prow_key _ _ Hpr) in Hk. injection Hk as <- <- <-. rewrite from_sql_of_N. cbn [ok_or mbind result_bind].
    destruct (own_generation C p Hok Hp) as (i & Hi & Hgen).
    destruct (last (generations C (in_tenant_id p) (in_task_id p))) as [q|] eqn:Hlast.
    2: { apply last_None in Hlast. by rewrite Hlast in Hi. }
    rewrite last_lookup in Hlast. pose proof (ok_generation _ Hok _ _ _ _ Hlast) as Hq.
    pose proof (lookup_lt_Some _ _ _ Hi) as Hlt.
    assert (Hin := list_elem_of_lookup_2 _ _ _ Hlast). apply generations_elem in Hin as [[Ht Hk] Hin].
    destruct (row_packet_elem C t q Hrep Hin) as (row' & Hrow' & Hqr).
    assert (Hle : (Z.of_N (in_generation q) <= Z.of_N (in_generation p))%Z).
    { specialize (Hmax row' Hrow'). rewrite (prow_key _ _ Hqr) in Hmax. apply Hmax. by split; rewrite (prow_key _ _ Hqr). }
    cbn. do 2 f_equal. lia.
  - destruct (last (generations C tenant task)) as [q|] eqn:Hlast; [|done]. exfalso.
    rewrite last_lookup in Hlast. apply list_elem_of_lookup_2, generations_elem in Hlast as [Hof Hin].
    destruct (row_packet_elem C t q Hrep Hin) as (row & Hrow & Hqr).
    apply (Hmax row Hrow). unfold of_task. by rewrite (prow_key _ _ Hqr).
Qed.

(** *** The whole ledger *)

(** Keys are compared by tenant, task and generation. *)
Lemma key_leb_task (x y : ReviewPacket) : key_leb pkey x y = true ->
  in_tenant_id x = in_tenant_id y -> in_task_id x = in_task_id y -> (in_generation x <= in_generation y)%N.
Proof.
  unfold key_leb, pkey. cbn [cmp prod_cmp fst snd]. intros Hle Ht Hk. rewrite Ht, Hk, !cmp_refl in Hle. cbn in Hle.
  destruct (Z.compare_spec (Z.of_N (in_generation x)) (Z.of_N (in_generation y))); by (done || lia).
Qed.

Lemma key_leb_between (x y z : ReviewPacket) : key_leb pkey x y = true -> key_leb pkey y z = true ->
  in_tenant_id x = in_tenant_id z -> in_task_id x = in_task_id z ->
  in_tenant_id y = in_tenant_id z /\ in_task_id y = in_task_id z.
Proof.
  unfold key_leb, pkey. cbn [cmp prod_cmp fst snd]. intros Hxy Hyz Ht Hk. rewrite Ht, Hk in Hxy.
  apply not_gt_then in Hxy, Hyz.
  assert (Hten : in_tenant_id y = in_tenant_id z).
  { destruct Hxy as [Hxy|[Hxy%cmp_eq _]]; [|done]. destruct Hyz as [Hyz|[Hyz%cmp_eq _]]; [|done].
    pose proof (cmp_lt_trans _ _ _ Hxy Hyz) as Hlt. by rewrite cmp_refl in Hlt. }
  split; [done|]. rewrite Hten, cmp_refl in Hxy, Hyz.
  destruct Hxy as [?|[_ Hxy]], Hyz as [?|[_ Hyz]]; [done..|]. apply not_gt_then in Hxy, Hyz.
  destruct Hxy as [Hxy|[Hxy%cmp_eq _]]; [|done]. destruct Hyz as [Hyz|[Hyz%cmp_eq _]]; [|done].
  pose proof (cmp_lt_trans _ _ _ Hxy Hyz) as Hlt. by rewrite cmp_refl in Hlt.
Qed.

Lemma same_place C (x y : ReviewPacket) : chronicle_ok C -> x ∈ frozen C -> y ∈ frozen C ->
  in_tenant_id x = in_tenant_id y -> in_task_id x = in_task_id y -> in_generation x = in_generation y -> x = y.
Proof.
  intros Hok Hx Hy Ht Hk Hg. eapply (NoDup_fmap_inj_on pkey); [by apply ok_keys|done..|].
  unfold pkey. congruence.
Qed.

Lemma scan_split C pre p suf : chronicle_ok C -> sort_by_key pkey (frozen C) = pre ++ p :: suf ->
  (forall x, x ∈ frozen C <-> x ∈ pre ++ p :: suf) /\ p ∉ pre /\
  (forall x, x ∈ pre -> key_leb pkey x p = true) /\ (forall x, x ∈ suf -> key_leb pkey p x = true) /\
  (forall x q, x ∈ pre -> last pre = Some q -> x = q \/ key_leb pkey x q = true).
Proof.
  intros Hok Hsort. assert (Hnd : NoDup (pre ++ p :: suf)).
  { rewrite <- Hsort, (sort_by_key_perm pkey (frozen C)). eapply NoDup_fmap_1. by apply ok_keys. }
  pose proof (sort_by_key_sorted pkey (frozen C)) as Hs. rewrite Hsort in Hs.
  apply StronglySorted_app in Hs as (Hle & Hspre & Hssuf). apply NoDup_app in Hnd as (_ & Hdis & _).
  split_and!.
  - intros x. by rewrite <- Hsort, sort_by_key_elem.
  - intros Hp. apply (Hdis p Hp). by left.
  - intros x Hx. apply Is_true_true, Hle; [done|by left].
  - intros x Hx. apply StronglySorted_cons in Hssuf as [Hall _]. rewrite Forall_forall in Hall. by apply Is_true_true, Hall.
  - intros x q Hx (pre' & ->)%last_Some. apply elem_of_app in Hx as [Hx| ->%list_elem_of_singleton]; [right|by left].
    apply StronglySorted_app in Hspre as (Hq & _). apply Is_true_true, Hq; [done|by left].
Qed.

(** In the order of the scan every packet follows its previous generation. *)
Lemma adjacent_generations C pre (p : ReviewPacket) suf : chronicle_ok C ->
  sort_by_key pkey (frozen C) = pre ++ p :: suf ->
  match last pre with
  | Some q =>
      if decide (in_tenant_id q = in_tenant_id p /\ in_task_id q = in_task_id p)
      then in_generation p = (in_generation q + 1)%N /\ amended (history C q) = true
      else in_generation p = 1%N
  | None => in_generation p = 1%N
  end.
Proof.
  intros Hok Hsort. destruct (scan_split C pre p suf Hok Hsort) as (Hin & Hp & Hpre & Hsuf & Hlast).
  assert (Hfp : p ∈ frozen C) by (apply Hin; set_solver).
  assert (Hlt : forall q : ReviewPacket, q ∈ pre -> in_tenant_id q = in_tenant_id p -> in_task_id q = in_task_id p ->
    (in_generation q < in_generation p)%N).
  { intros q Hq Ht Hk. pose proof (key_leb_task q p (Hpre q Hq) Ht Hk).
    enough (in_generation q <> in_generation p) by lia. intros Hg.
    assert (q = p) as -> by (eapply same_place; try done; apply Hin; set_solver). done. }
  destruct (own_generation C p Hok Hfp) as ([|i] & Hi & Hgen).
  - destruct (last pre) as [q|] eqn:Hq; [|lia]. destruct (decide _) as [[Ht Hk]|]; [|lia]. exfalso.
    assert (Hqp : q ∈ pre) by (apply last_Some_elem_of in Hq; done).
    destruct (own_generation C q Hok) as (j & _ & Hj); [apply Hin; set_solver|].
    specialize (Hlt q Hqp Ht Hk). lia.
  - destruct (lookup_lt_is_Some_2 (generations C (in_tenant_id p) (in_task_id p)) i) as [q0 Hq0];
      [apply lookup_lt_Some in Hi; lia|].
    pose proof (ok_generation _ Hok _ _ _ _ Hq0) as Hg0.
    pose proof (ok_amended _ Hok _ _ _ _ Hq0 (lookup_lt_Some _ _ _ Hi)) as Ham.
    apply list_elem_of_lookup_2, generations_elem in Hq0 as [[Ht0 Hk0] Hq0].
    assert (Hq0p : q0 ∈ pre).
    { pose proof (proj1 (Hin q0) Hq0) as Hel. apply elem_of_app in Hel as [?|[->|Hs]%elem_of_cons]; [done|lia|].
      pose proof (key_leb_task p q0 (Hsuf q0 Hs)) as Hle. rewrite Ht0, Hk0 in Hle. specialize (Hle eq_refl eq_refl). lia. }
    destruct (last pre) as [q|] eqn:Hq; [|apply last_None in Hq; subst pre; by apply elem_of_nil in Hq0p].
    assert (Hqp : q ∈ pre) by (apply last_Some_elem_of in Hq; done).
    assert (q0 = q) as ->.
    { destruct (Hlast q0 q Hq0p eq_refl) as [|Hle]; [done|].
      destruct (key_leb_between q0 q p Hle (Hpre q Hqp)) as [Ht Hk]; [done..|].
      pose proof (key_leb_task q0 q Hle ltac:(congruence) ltac:(congruence)). specialize (Hlt q Hqp Ht Hk).
      eapply same_place; try done; [apply Hin; set_solver|congruence..|lia]. }
    rewrite decide_True by done. split; [lia|done].
Qed.

Definition place (p : ReviewPacket) : string * string * N := (in_tenant_id p, in_task_id p, in_generation p).
Definition prior_of (C : Chronicle) (p : ReviewPacket) : string * string * N * list HumanRatificationReceipt :=
  (in_tenant_id p, in_task_id p, in_generation p, history C p).

Lemma authenticate_keys_ok C t suf : rows_of C t -> chronicle_ok C ->
  forall pre, sort_by_key pkey (frozen C) = pre ++ suf ->
  try_fold (authenticate_key key t) (prior_of C <$> last pre) (place <$> suf) =
    Ok (prior_of C <$> last (pre ++ suf)).
Proof using json.
  intros Hrep Hok. induction suf as [|p suf IH]; intros pre Hsort; [by rewrite app_nil_r|].
  assert (Hp : p ∈ frozen C) by (apply (scan_split C pre p suf Hok Hsort); set_solver).
  cbn [fmap list_fmap try_fold]. assert (Hstep : authenticate_key key t (prior_of C <$> last pre) (place p) = Ok (Some (prior_of C p))).
  { pose proof (adjacent_generations C pre p suf Hok Hsort) as Hadj. unfold authenticate_key, place.
    assert (Hrest : (packet ← authenticate_packet key t (in_tenant_id p) (in_task_id p) (in_generation p);
      h ← authenticate_history key t (in_tenant_id p) (in_task_id p) (in_generation p) packet;
      Ok (Some (in_tenant_id p, in_task_id p, in_generation p, h))) = Ok (Some (prior_of C p))).
    { rewrite (authenticate_packet_ok C t p) by done. cbn [mbind result_bind].
      by rewrite (authenticate_history_ok C t p). }
    destruct (last pre) as [q|]; cbn [fmap option_fmap option_map prior_of];
      [|by rewrite (proj2 (N.eqb_eq _ _) Hadj)].
    destruct (decide _) as [[Ht Hk]|Hn].
    - rewrite !bool_decide_eq_true_2 by done. destruct Hadj as [Hg ->].
      assert (Hb : (in_generation p <= i64_max)%N) by by apply (ok_frozen _ Hok p Hp).
      rewrite (proj2 (N.eqb_eq (in_generation p) _)); [done|].
      unfold saturating_add, i64_max, u64_max in *. lia.
    - assert (bool_decide (in_tenant_id q = in_tenant_id p) && bool_decide (in_task_id q = in_task_id p) = false) as ->
        by (repeat case_bool_decide; naive_solver).
      by rewrite (proj2 (N.eqb_eq _ _) Hadj). }
  rewrite Hstep. cbn [mbind result_bind].
  specialize (IH (pre ++ [p])). rewrite last_snoc, <- app_assoc in IH. by apply IH.
Qed.

Lemma read_keys_ok C t : rows_of C t ->
  try_map read_key (sort_by_key pr_key (packets t)) = Ok (place <$> sort_by_key pkey (frozen C)).
Proof.
  intros Hrep. apply try_map_Ok, Forall2_fmap_r.
  assert (Hs : Forall2 packet_row (sort_by_key pkey (frozen C)) (sort_by_key pr_key (packets t))).
  { apply Forall2_sort; [|apply rows_packets, Hrep]. by intros p row []. }
  apply Forall2_flip. eapply Forall2_impl; [exact Hs|]. intros p row [Hk _ _ _].
  unfold flip, read_key. rewrite Hk. cbn [pkey fst snd]. by rewrite from_sql_of_N.
Qed.

Lemma event_row_of C t r : rows_of C t -> r ∈ receipts C -> exists row, row ∈ events t /\ event_row r row.
Proof.
  intros Hrep [i Hi]%list_elem_of_lookup.
  destruct (Forall2_lookup_l _ _ _ _ _ (rows_events _ _ Hrep) Hi) as (row & Hr & Hrow).
  exists row. split; [by eapply list_elem_of_lookup_2|done].
Qed.

Lemma event_row_from C t row : rows_of C t -> row ∈ events t -> exists r, r ∈ receipts C /\ event_row r row.
Proof.
  intros Hrep [i Hi]%list_elem_of_lookup.
  destruct (Forall2_lookup_r _ _ _ _ _ (rows_events _ _ Hrep) Hi) as (r & Hr & Hrow).
  exists r. split; [by eapply list_elem_of_lookup_2|done].
Qed.

Lemma packet_row_exists C t p : rows_of C t -> chronicle_ok C -> p ∈ frozen C ->
  is_some (row_at pr_key (pkey p) (packets t)) = true.
Proof.
  intros Hrep Hok Hp. pose proof (packet_rows_at C t (pkey p) Hrep) as Hrow.
  rewrite (row_at_elem pkey _ p (ok_keys _ Hok) Hp) in Hrow. by destruct Hrow as (row & -> & _).
Qed.

Lemma foreign_keys_ok C t : rows_of C t -> chronicle_ok C -> foreign_keys_hold t = true.
Proof.
  intros Hrep Hok. unfold foreign_keys_hold. rewrite !andb_true_iff, !forallb_forall. split_and!.
  - intros r Hr%list_elem_of_In. rewrite (rows_roots _ _ Hrep) in Hr. apply list_elem_of_fmap in Hr as (p & -> & Hp).
    by apply packet_row_exists with C.
  - intros e He%list_elem_of_In. destruct (event_row_from C t e Hrep He) as (r & Hr & Her).
    destruct (ok_owner _ Hok r Hr) as (p & Hp & Hk). rewrite (erow_key _ _ Her), <- Hk.
    by apply packet_row_exists with C.
  - intros h Hh%list_elem_of_In. pose proof (row_at_elem hr_key _ h (rows_heads_nodup _ _ Hrep) Hh) as Hat.
    rewrite (rows_heads _ _ Hrep) in Hat. apply fmap_Some in Hat as (r & Hr & ->).
    apply last_Some_elem_of in Hr. unfold rows_at in Hr. apply list_elem_of_filter in Hr as [_ Hr].
    destruct (event_row_of C t r Hrep Hr) as (row & Hrow & [Hk _ Hrv _ _ Hhash _ _]).
    unfold head_has_event. apply existsb_exists. exists row. split; [by apply list_elem_of_In|].
    cbn [head_of hr_key hr_revision hr_hash]. by rewrite Hk, Hrv, Hhash, Z.eqb_refl, !bool_decide_eq_true_2.
Qed.

(** A ledger that represents a chronicle passes its whole integrity check. *)
Lemma authenticate_all_ok C t : represents C t -> chronicle_ok C -> authenticate_all key t = Ok tt.
Proof using json.
  intros [Hrep (m & Hs & _)] Hok. unfold authenticate_all.
  rewrite (proj2 (validate_ledger_state_iff key t)) by (split; [by eapply foreign_keys_ok|by exists m]).
  cbn [mbind result_bind]. rewrite (read_keys_ok C t) by done. cbn [mbind result_bind].
  by rewrite (authenticate_keys_ok C t _ Hrep Hok []).
Qed.

(** ** Refinement *)

(** The tables have outgrown the retained capacity. *)
Definition overfull (t : Tables) : Prop :=
  exists m, metadata_row t = Some m /\ (LEDGER_RETAINED_AUTHORITY_LIMIT < footprint m t)%N.

(** The operation on the tables [t] of the chronicle [C] does what the contract
    says, with the result it says, and leaves the tables alone when the contract
    leaves the chronicle alone; it may also find that the changed chronicle does
    not fit the retained capacity. *)
Definition refines {A} (C : Chronicle) (t : Tables) (got : result RatificationError (Tables * A))
    (want : result RatificationError (Chronicle * A)) : Prop :=
  match got with
  | Ok (t', a) =>
      exists C', want = Ok (C', a) /\ represents C' t' /\ chronicle_ok C' /\ (C' = C -> t' = t)
  | Err e => want = Err e \/
      exists C' a t', want = Ok (C', a) /\ C' <> C /\ rows_of C' t' /\ overfull t' /\
        (e = CapacityExceeded \/ e = Integrity)
  end.

Lemma rows_of_same C t t' : same_rows t t' -> rows_of C t -> rows_of C t'.
Proof. intros (Hp & Hr & He & Hh) []. split; by rewrite ?Hp, ?Hr, ?He, ?Hh. Qed.

Context (url : url_laws).

Lemma grown C C' : (length (frozen C) + length (receipts C) < length (frozen C') + length (receipts C'))%nat -> C' <> C.
Proof. intros Hlen ->. lia. Qed.

(** Committing rows: the summary is sealed, or the capacity is exceeded. *)
Lemma commit_refines {A} (a : A) C C' t t1 :
  represents C t -> metadata_row t1 = metadata_row t -> rows_of C' t1 -> chronicle_ok C' -> C' <> C ->
  refines C t (t' ← write_ledger_state key t1; Ok (t', a)) (Ok (C', a)).
Proof using url.
  intros [_ (m & Hs & Hshape & Hcheck)] Hmeta Hrows Hok Hne.
  assert (Hm : metadata_row t1 = Some m) by (rewrite Hmeta; by destruct Hs).
  pose proof (write_ledger_state_spec url key t1 m Hm Hshape) as Hw.
  destruct (N.leb_spec (footprint m t1) LEDGER_RETAINED_AUTHORITY_LIMIT) as [_|Hbig].
  - destruct Hw as (t' & m' & -> & Hsame & Hs' & Hshape' & Hcheck'). cbn.
    exists C'. split_and!; [done| |done|done]. split; [by eapply rows_of_same|]. exists m'. by rewrite Hcheck'.
  - destruct Hw as (e & -> & He). cbn. right. exists C', a, t1. split_and!; try done. by exists m.
Qed.

(** *** Freezing *)

Lemma generations_snoc C p tenant task :
  generations {| frozen := frozen C ++ [p]; receipts := receipts C |} tenant task =
    generations C tenant task ++
      (if decide (in_tenant_id p = tenant /\ in_task_id p = task) then [p] else []).
Proof. unfold generations. cbn [frozen]. rewrite filter_app, filter_cons, filter_nil. by destruct (decide _). Qed.

Lemma no_history C p : chronicle_ok C -> row_at pkey (pkey p) (frozen C) = None -> history C p = [].
Proof.
  intros Hok Hnone. rewrite row_at_None in Hnone. destruct (history C p) as [|r h] eqn:Hh; [done|]. exfalso.
  assert (Hr : r ∈ history C p) by (rewrite Hh; by left). apply history_elem in Hr as [Hk Hr].
  destruct (ok_owner _ Hok r Hr) as (q & Hq & Hqk). apply (Hnone q Hq). congruence.
Qed.

Lemma freeze_preserves C (p : ReviewPacket) : chronicle_ok C -> freeze p key = Ok p ->
  (in_generation p <= i64_max)%N ->
  in_generation p = (len (generations C (in_tenant_id p) (in_task_id p)) + 1)%N ->
  is_some_and (last (generations C (in_tenant_id p) (in_task_id p))) (fun q => negb (amended (history C q))) = false ->
  row_at pkey (pkey p) (frozen C) = None ->
  chronicle_ok {| frozen := frozen C ++ [p]; receipts := receipts C |}.
Proof.
  intros Hok Hf Hfit Hg Ham Hnew. assert (Hnil := no_history C p Hok Hnew).
  split; cbn [frozen receipts]; unfold history in *; cbn [receipts].
  - intros tenant task i q. rewrite generations_snoc.
    intros [Hi|[Hlen Hi]]%lookup_app_Some; [by eapply ok_generation|].
    destruct (decide _) as [[<- <-]|]; [|done]. apply list_lookup_singleton_Some in Hi as [Hi <-].
    rewrite Hg. unfold len. lia.
  - intros tenant task i q. rewrite generations_snoc, length_app. intros Hi Hlt.
    destruct (decide _) as [[<- <-]|]; cbn [length] in Hlt;
      [|rewrite app_nil_r in Hi; apply (ok_amended _ Hok _ _ _ _ Hi); lia].
    apply lookup_app_Some in Hi as [Hi|[Hge _]]; [|lia].
    destruct (decide (S i < length (generations C (in_tenant_id p) (in_task_id p)))%nat) as [Hin|Hout];
      [by apply (ok_amended _ Hok _ _ _ _ Hi)|].
    rewrite last_lookup in Ham. replace (pred _) with i in Ham by (apply lookup_lt_Some in Hi; lia).
    rewrite Hi in Ham. by apply negb_false_iff in Ham.
  - rewrite fmap_app. apply NoDup_app. split_and!; [by apply ok_keys| |apply NoDup_singleton].
    intros k (q & -> & Hq)%list_elem_of_fmap Hk%list_elem_of_singleton. by eapply row_at_None.
  - intros q [Hq| ->%list_elem_of_singleton]%elem_of_app; [by apply (ok_frozen _ Hok)|done].
  - intros q [Hq| ->%list_elem_of_singleton]%elem_of_app; [by apply (ok_chain _ Hok)|].
    rewrite Hnil. apply chain_nil.
  - intros r Hr. destruct (ok_owner _ Hok r Hr) as (q & Hq & Hk). exists q. split; [set_solver|done].
  - apply (ok_unique _ Hok).
  - intros q [Hq| ->%list_elem_of_singleton]%elem_of_app; [by apply (ok_lifecycle _ Hok)|]. by rewrite Hnil.
Qed.

Lemma validate_packet_generation i : validate_packet i = Ok tt -> (1 <= in_generation i)%N.
Proof.
  unfold validate_packet. intros Hv. repeat (apply bind_Ok_inv in Hv as (? & ? & Hv)).
  match goal with Hf : fail_if _ InvalidInput = Ok _ |- _ => apply fail_if_Ok in Hf end.
  repeat match goal with Hf : _ || _ = false |- _ => apply orb_false_iff in Hf as [Hf _] end.
  match goal with Hf : (in_generation i =? 0)%N = false |- _ => apply N.eqb_neq in Hf; lia end.
Qed.

Lemma last_generation C tenant task q : chronicle_ok C -> last (generations C tenant task) = Some q ->
  q ∈ frozen C /\ in_tenant_id q = tenant /\ in_task_id q = task /\
  in_generation q = len (generations C tenant task).
Proof.
  intros Hok Hl. rewrite last_lookup in Hl. pose proof (ok_generation _ Hok _ _ _ _ Hl) as Hg.
  assert (Hlt := lookup_lt_Some _ _ _ Hl). apply list_elem_of_lookup_2, generations_elem in Hl as [[Ht Hk] Hq].
  split_and!; try done. rewrite Hg. unfold len. lia.
Qed.

Lemma insert_packet_rows C t p row : rows_of C t -> packet_row p row -> row_at pkey (pkey p) (frozen C) = None ->
  (1 <= in_generation p)%N ->
  insert_packet row (packets t) = Some (packets t ++ [row]) /\
  insert_root (root_of p) (packets t ++ [row]) (roots t) = Some (roots t ++ [root_of p]) /\
  rows_of {| frozen := frozen C ++ [p]; receipts := receipts C |}
    {| metadata_row := metadata_row t; packets := packets t ++ [row]; roots := roots t ++ [root_of p];
       events := events t; heads := heads t |}.
Proof.
  intros Hrep Hrow Hnew Hg. pose proof (packet_rows_at C t (pkey p) Hrep) as Hat. rewrite Hnew in Hat.
  pose proof (root_rows_at C t (pkey p) Hrep) as Hroot. rewrite Hnew in Hroot. apply fmap_None in Hroot.
  split_and!.
  - unfold insert_packet. rewrite (prow_key _ _ Hrow), Hat. cbn [is_some is_some_and orb pkey snd].
    by rewrite (proj2 (Z.leb_gt _ _)) by lia.
  - unfold insert_root. cbn [root_of rr_key]. rewrite Hroot, row_at_snoc, Hat, decide_True by apply Hrow.
    cbn [is_some is_some_and orb negb pkey snd]. by rewrite (proj2 (Z.leb_gt _ _)) by lia.
  - destruct Hrep as [Hp Hr He Hh Hnd]. split; cbn; try done.
    + apply Forall2_app; [done|]. constructor; [done|constructor].
    + by rewrite Hr, fmap_app.
Qed.

Lemma next_generation C tenant task : chronicle_ok C ->
  match (fun p : ReviewPacket => in_generation p) <$> last (generations C tenant task) with
  | Some v => saturating_add v 1 | None => 1%N end = (len (generations C tenant task) + 1)%N.
Proof.
  intros Hok. destruct (last (generations C tenant task)) as [q|] eqn:Hl; cbn.
  - destruct (last_generation C tenant task q Hok Hl) as (Hq & _ & _ & <-).
    pose proof (proj2 (ok_frozen _ Hok q Hq)). unfold saturating_add, i64_max, u64_max in *. lia.
  - apply last_None in Hl. by rewrite Hl.
Qed.

(** The check of the previous generation. *)
Lemma previous_amended C t tenant task : rows_of C t -> chronicle_ok C ->
  match (fun p : ReviewPacket => in_generation p) <$> last (generations C tenant task) with
  | Some previous =>
      packet ← authenticate_packet key t tenant task previous;
      h ← authenticate_history key t tenant task previous packet;
      fail_if (negb (amended h)) Conflict
  | None => Ok tt
  end = fail_if (is_some_and (last (generations C tenant task)) (fun q => negb (amended (history C q)))) Conflict.
Proof using json.
  intros Hrows Hok. destruct (last (generations C tenant task)) as [q|] eqn:Hl; [|done].
  destruct (last_generation C tenant task q Hok Hl) as (Hq & <- & <- & _). cbn [fmap option_fmap option_map].
  rewrite (authenticate_packet_ok C t q) by done. cbn [mbind result_bind].
  by rewrite (authenticate_history_ok C t q).
Qed.

Lemma freeze_refines C t i : represents C t -> chronicle_ok C ->
  refines C t (freeze_packet key t i) (spec_freeze key C i).
Proof using json url.
  intros Hrep Hok. assert (Hrows := rep_rows _ _ Hrep). unfold freeze_packet, spec_freeze.
  destruct (freeze i key) as [p|e] eqn:Hf; [|by left]. cbn [mbind result_bind].
  destruct (to_vec p) as [b|e] eqn:Hb; [|by left]. cbn [map_err mbind result_bind].
  rewrite (authenticate_all_ok C t) by done. cbn [mbind result_bind].
  apply freeze_Ok in Hf as Hfacts. destruct Hfacts as (Hi & _ & Hv & _ & _). subst i.
  apply validate_packet_generation in Hv.
  destruct (N.leb_spec (in_generation p) i64_max) as [Hfit|Hbig].
  2: { unfold sql_key, to_sql. rewrite (proj2 (N.leb_gt _ _)) by done. rewrite (proj2 (N.ltb_lt _ _)) by done. by left. }
  rewrite pkey_sql, (proj2 (N.ltb_ge _ _)) by done. cbn [fail_if mbind result_bind].
  pose proof (packet_rows_at C t (pkey p) Hrows) as Hat.
  assert (Hpk : row_at pkey (pkey p) (frozen C) = _) by exact (packet_at C _ _ _ Hok Hv).
  destruct (generations C (in_tenant_id p) (in_task_id p) !! N.to_nat (in_generation p - 1)) as [q|] eqn:Hq.
  - rewrite Hpk in Hat. destruct Hat as (row & -> & _). cbn [is_some is_some_and].
    apply row_at_Some in Hpk as [Hin [= Ht Hk Hg%N2Z.inj]].
    pose proof (authenticate_packet_ok C t q Hrows Hok Hin) as Hauth. rewrite Ht, Hk, Hg in Hauth.
    rewrite Hauth. cbn [mbind result_bind]. case_bool_decide; [|by left]. by exists C.
  - rewrite Hpk in Hat. rewrite Hat. cbn [is_some is_some_and]. rewrite (latest_generation_ok C t) by done.
    cbn [mbind result_bind]. rewrite next_generation, (previous_amended C t) by done.
    destruct (N.eqb_spec (in_generation p) (len (generations C (in_tenant_id p) (in_task_id p)) + 1)) as [Hg|]; [|by left].
    cbn [negb fail_if mbind result_bind].
    destruct (is_some_and _ _) eqn:Ham; [by left|]. cbn [fail_if mbind result_bind].
    set (row := {| pr_key := pkey p; pr_json := b; pr_hash := packet_hash p; pr_seal := packet_seal p |}).
    destruct (insert_packet_rows C t p row Hrows) as (-> & Hroot & Hnew); [by split|done..|].
    cbn [ok_or mbind result_bind]. change {| rr_key := _; rr_hash := _ |} with (root_of p). rewrite Hroot.
    cbn [ok_or mbind result_bind]. eapply commit_refines; [done|done|apply Hnew|by apply freeze_preserves|].
    apply grown. cbn [frozen receipts]. rewrite length_app. cbn [length]. lia.
Qed.

(** *** Receipts *)

Lemma event_found C t tenant account idempotency : rows_of C t ->
  match list_find (fun r => idem_key r = (tenant, account, idempotency)) (receipts C) with
  | Some (_, r) => exists row, event_by_idempotency tenant account idempotency (events t) = Some row /\ event_row r row
  | None => event_by_idempotency tenant account idempotency (events t) = None
  end.
Proof.
  intros Hrep. pose proof (rows_events _ _ Hrep) as He. unfold event_by_idempotency.
  induction He as [|r row rs rows Hr _ IH]; [done|]. cbn [list_find].
  destruct Hr as [Hk Hac Hrv Hkind Hj Hh Hs Hi] eqn:Hrow.
  destruct (decide (idem_key r = (tenant, account, idempotency))) as [Heq|Hne].
  - rewrite decide_True by (unfold idem_key in Heq; rewrite Hk, Hac, Hi; cbn; naive_solver). by exists row.
  - rewrite decide_False by (rewrite Hk, Hac, Hi; unfold idem_key in Hne; cbn; naive_solver).
    destruct (list_find _ rs) as [[]|], (list_find _ rows) as [[]|]; cbn in *; naive_solver.
Qed.

Lemma replay_ok C t r row command_digest : rows_of C t -> chronicle_ok C -> r ∈ receipts C -> event_row r row ->
  replay key t (rs_tenant_id r) (rs_account_id r) (rs_idempotency_key r) command_digest row =
    (recorded ← receipt_command_semantic_digest r;
     if bool_decide (recorded = command_digest) then Ok r else Err IdempotencyConflict).
Proof using json.
  intros Hrows Hok Hr [Hk Hac Hrv Hkind Hj Hh Hs Hi]. destruct (ok_owner _ Hok r Hr) as (p & Hp & Hpk).
  unfold replay. rewrite Hk, Hrv. cbn [rkey fst snd]. rewrite !from_sql_of_N. cbn [ok_or mbind result_bind].
  assert (Hin : r ∈ history C p) by by apply history_elem.
  unfold pkey, rkey in Hpk. injection Hpk as Ht Htask Hg%N2Z.inj.
  pose proof (authenticate_packet_ok C t p Hrows Hok Hp) as Hap. rewrite Ht, Htask, Hg in Hap. rewrite Hap.
  cbn [mbind result_bind].
  pose proof (authenticate_history_ok C t p Hrows Hok Hp) as Hah. rewrite Ht, Htask, Hg in Hah. rewrite Hah.
  cbn [mbind result_bind]. rewrite (receipt_json json r _ Hj). cbn [ok_or mbind result_bind].
  rewrite Hac, Hkind, Hh, Hs, Hi, (bool_decide_eq_true_2 (r ∈ history C p)) by done.
  by rewrite !(bool_decide_eq_true_2 (_ = _)) by done.
Qed.

Lemma history_snoc C (p q : ReviewPacket) r : rkey r = pkey p ->
  history {| frozen := frozen C; receipts := receipts C ++ [r] |} q =
    history C q ++ (if decide (pkey p = pkey q) then [r] else []).
Proof. intros Hk. unfold history. cbn [receipts]. by rewrite rows_at_snoc, Hk. Qed.

Lemma append_preserves C (p : ReviewPacket) r : chronicle_ok C ->
  last (generations C (in_tenant_id p) (in_task_id p)) = Some p ->
  receipt_ok p (history C p) r -> lifecycle (history C p ++ [r]) ->
  Forall (fun x => idem_key x <> idem_key r) (receipts C) ->
  chronicle_ok {| frozen := frozen C; receipts := receipts C ++ [r] |}.
Proof.
  intros Hok Hlast Hr Hlife Hfresh.
  destruct (last_generation C _ _ p Hok Hlast) as (Hp & _ & _ & Hplen).
  assert (Hk : rkey r = pkey p).
  { destruct (receipt_matches_key _ _ (receipt_packet _ _ _ Hr)) as (Ht & Htask & Hg).
    unfold rkey, pkey. congruence. }
  assert (Hother : forall q, q ∈ frozen C -> history {| frozen := frozen C; receipts := receipts C ++ [r] |} q =
    history C q ++ (if decide (p = q) then [r] else [])).
  { intros q Hq. rewrite (history_snoc C p q r Hk). destruct (decide (p = q)) as [->|Hne]; [by rewrite decide_True|].
    rewrite decide_False; [done|]. intros Heq. apply Hne. by eapply (NoDup_fmap_inj_on pkey); [apply ok_keys|..]. }
  split; cbn [frozen receipts].
  - apply (ok_generation _ Hok).
  - intros tenant task i q Hi Hlt. change (generations _ tenant task) with (generations C tenant task) in *.
    pose proof (ok_generation _ Hok _ _ _ _ Hi) as Hg. pose proof (ok_amended _ Hok _ _ _ _ Hi Hlt) as Ham.
    apply list_elem_of_lookup_2, generations_elem in Hi as [[Ht Htask] Hq]. rewrite Hother by done.
    destruct (decide (p = q)) as [<-|]; [|by rewrite app_nil_r]. subst tenant task. unfold len in Hplen. lia.
  - apply (ok_keys _ Hok).
  - apply (ok_frozen _ Hok).
  - intros q Hq. rewrite Hother by done. pose proof (ok_chain _ Hok q Hq).
    destruct (decide (p = q)) as [<-|]; [by apply chain_snoc|by rewrite app_nil_r].
  - intros x [Hx| ->%list_elem_of_singleton]%elem_of_app; [by apply (ok_owner _ Hok)|]. by exists p.
  - rewrite fmap_app. apply NoDup_app. split_and!; [apply (ok_unique _ Hok)| |apply NoDup_singleton].
    intros k (x & -> & Hx)%list_elem_of_fmap Heq%list_elem_of_singleton. rewrite Forall_forall in Hfresh. by apply (Hfresh x Hx).
  - intros q Hq. rewrite Hother by done. pose proof (ok_lifecycle _ Hok q Hq).
    destruct (decide (p = q)) as [<-|]; [done|by rewrite app_nil_r].
Qed.

Lemma chain_revision p h (r : HumanRatificationReceipt) : chain p h -> r ∈ h -> (rs_revision r <= len h)%N.
Proof.
  intros Hc (seen & rest & ->)%list_elem_of_split. rewrite (receipt_revision _ _ _ (Hc seen r rest eq_refl)).
  rewrite len_app, len_cons. lia.
Qed.

Lemma chain_last p h (r : HumanRatificationReceipt) : chain p h -> last h = Some r -> rs_revision r = len h.
Proof.
  intros Hc (h' & ->)%last_Some. rewrite (receipt_revision _ _ _ (Hc h' r [] eq_refl)).
  rewrite len_app. by change (len [r]) with 1%N.
Qed.

Lemma insert_event_ok C t (p : ReviewPacket) r row : rows_of C t -> chronicle_ok C -> p ∈ frozen C ->
  receipt_ok p (history C p) r -> event_row r row -> Forall (fun x => idem_key x <> idem_key r) (receipts C) ->
  rkey r = pkey p -> insert_event row (packets t) (events t) = Some (events t ++ [row]).
Proof.
  intros Hrows Hok Hp Hr Hrow Hfresh Hk. unfold insert_event.
  assert (Hclash : existsb (event_clash row) (events t) = false).
  { apply not_true_iff_false. intros (e & He%list_elem_of_In & Hc)%existsb_exists.
    destruct (event_row_from C t e Hrows He) as (x & Hx & Hxe). unfold event_clash in Hc.
    apply orb_true_iff in Hc as [Hc|Hc]; inv_ok.
    - assert (Hxh : x ∈ history C p).
      { apply history_elem. split; [|done]. rewrite <- (erow_key _ _ Hxe), <- Hk, <- (erow_key _ _ Hrow). done. }
      apply (chain_revision p _ _ (ok_chain _ Hok p Hp)) in Hxh.
      pose proof (receipt_revision _ _ _ Hr). pose proof (erow_revision _ _ Hxe). pose proof (erow_revision _ _ Hrow). lia.
    - rewrite Forall_forall in Hfresh. apply (Hfresh x Hx). destruct Hxe as [Hk1 Ha1 _ _ _ _ _ Hi1], Hrow as [Hk2 Ha2 _ _ _ _ _ Hi2].
      unfold idem_key. rewrite Hk1, Hk2 in *. cbn [rkey fst] in *. congruence. }
  rewrite Hclash, (erow_key _ _ Hrow), Hk, (packet_row_exists C t p) by done. cbn [orb negb].
  destruct (own_generation C p Hok Hp) as (i & _ & Hg).
  rewrite (erow_revision _ _ Hrow), (receipt_revision _ _ _ Hr), (erow_kind _ _ Hrow). cbn [pkey snd].
  rewrite !(proj2 (Z.leb_gt _ _)) by lia. cbn [orb]. by destruct (rs_action r).
Qed.

(** Replacing the row with one key, or adding it. *)
Lemma heads_replaced (l : list HeadRow) h k :
  row_at hr_key k ((fun x => if bool_decide (hr_key x = hr_key h) then h else x) <$> l) =
    (if decide (hr_key h = k) then (fun _ => h) <$> row_at hr_key k l else row_at hr_key k l) /\
  hr_key <$> ((fun x => if bool_decide (hr_key x = hr_key h) then h else x) <$> l) = hr_key <$> l.
Proof.
  unfold row_at. induction l as [|x l [IH IHk]]; [by destruct (decide _)|]. rewrite !fmap_cons. split.
  - cbn [list_find]. case_bool_decide as Hx.
    + rewrite Hx. destruct (decide (hr_key h = k)) as [Hk|Hk]; [done|].
      destruct (list_find _ (_ <$> l)) as [[]|], (list_find _ l) as [[]|]; cbn in *; done.
    + destruct (decide (hr_key x = k)) as [Hxk|Hxk].
      * rewrite decide_False by congruence. done.
      * destruct (decide (hr_key h = k)), (list_find _ (_ <$> l)) as [[]|], (list_find _ l) as [[]|]; cbn in *; done.
  - f_equal; [by case_bool_decide|exact IHk].
Qed.

Lemma upsert_head_ok C t (p : ReviewPacket) r row : rows_of C t -> chronicle_ok C -> p ∈ frozen C ->
  receipt_ok p (history C p) r -> event_row r row -> rkey r = pkey p ->
  exists hs, upsert_head (head_of r) (events t ++ [row]) (heads t) = Some (1%N, hs) /\
    NoDup (hr_key <$> hs) /\
    forall k, row_at hr_key k hs = head_of <$> last (rows_at rkey k (receipts C ++ [r])).
Proof.
  intros Hrows Hok Hp Hr Hrow Hk.
  assert (Hhas : head_has_event (head_of r) (events t ++ [row]) = true).
  { unfold head_has_event. apply existsb_exists. exists row. split; [apply in_or_app; right; by left|].
    destruct Hrow as [-> _ -> _ _ -> _ _]. cbn. by rewrite Z.eqb_refl, !bool_decide_eq_true_2. }
  destruct (own_generation C p Hok Hp) as (i & _ & Hg). pose proof (receipt_revision _ _ _ Hr) as Hrev.
  unfold upsert_head. rewrite Hhas. change (hr_key (head_of r)) with (rkey r).
  rewrite (rows_heads _ _ Hrows), Hk. fold (history C p).
  destruct (last (history C p)) as [x|] eqn:Hlast; cbn [fmap option_fmap option_map negb].
  - pose proof (chain_last p _ x (ok_chain _ Hok p Hp) Hlast) as Hx. cbn [head_of hr_revision].
    rewrite (proj2 (Z.eqb_eq _ _)) by (rewrite Hx, Hrev; lia). eexists. split; [done|].
    destruct (heads_replaced (heads t) (head_of r) (rkey r)) as [_ Hkeys].
    change (hr_key (head_of r)) with (rkey r) in Hkeys. rewrite Hk in Hkeys. split.
    + rewrite Hkeys. by eapply rows_heads_nodup.
    + intros k. destruct (heads_replaced (heads t) (head_of r) k) as [Hat _].
      change (hr_key (head_of r)) with (rkey r) in Hat. rewrite Hk in Hat. etransitivity; [exact Hat|].
      rewrite rows_at_snoc, Hk, (rows_heads _ _ Hrows). destruct (decide (pkey p = k)) as [<-|]; [|by rewrite app_nil_r].
      fold (history C p). by rewrite Hlast, last_snoc.
  - cbn [orb pkey snd head_of hr_revision]. rewrite !(proj2 (Z.leb_gt _ _)) by lia. cbn [orb]. eexists. split; [done|].
    apply last_None in Hlast. split.
    + rewrite fmap_app. apply NoDup_app. split_and!; [by eapply rows_heads_nodup| |apply NoDup_singleton].
      intros k (h & -> & Hh)%list_elem_of_fmap Heq%list_elem_of_singleton.
      pose proof (row_at_elem hr_key _ h (rows_heads_nodup _ _ Hrows) Hh) as Hat.
      rewrite Heq, (rows_heads _ _ Hrows) in Hat. change (hr_key (head_of r)) with (rkey r) in Hat.
      rewrite Hk in Hat. fold (history C p) in Hat. by rewrite Hlast in Hat.
    + intros k. rewrite row_at_snoc, rows_at_snoc, (rows_heads _ _ Hrows). change (hr_key (head_of r)) with (rkey r).
      rewrite Hk. destruct (decide (pkey p = k)) as [<-|].
      * fold (history C p). by rewrite Hlast.
      * rewrite app_nil_r. by destruct (last _).
Qed.

Lemma saturating_small n : (saturating_add n 1 <= i64_max)%N -> saturating_add n 1 = (n + 1)%N.
Proof. unfold saturating_add, i64_max, u64_max. lia. Qed.

Lemma seal_receipt_ok p h account principal method idempotency action rationale at_millis r :
  seal_receipt key (new_statement p account principal method idempotency (len h) action rationale at_millis
                      (receipt_hash <$> last h)) = Ok r ->
  (rs_revision r <= i64_max)%N ->
  receipt_ok p h r /\ rkey r = pkey p /\ rs_action r = action /\
  idem_key r = (in_tenant_id p, account, idempotency).
Proof.
  unfold seal_receipt. intros (hash & Hhash & <-%Ok_inj)%bind_Ok_inv Hrev.
  split; [|by split_and!].
  assert (Hlen : saturating_add (len h) 1 = (len h + 1)%N).
  { apply saturating_small. exact Hrev. }
  split; cbn [statement receipt_hash human_seal]; [|exact Hlen|exact Hrev|exact Hhash|reflexivity..].
  unfold receipt_matches_packet.
  cbn [new_statement rs_tenant_id rs_task_id rs_generation rs_task_revision rs_authorization_policy_id
    rs_authorization_policy_revision rs_authorization_policy_digest rs_context_id rs_request_digest
    rs_ratification_key_generation rs_checkpoint_hash rs_packet_hash rs_completion_policy_id
    rs_completion_policy_version rs_completion_policy_hash rs_evidence_snapshot_hash rs_evidence_hashes
    rs_artifact_set_digest rs_artifacts].
  by rewrite !bool_decide_eq_true_2.
Qed.

(** What the receipt to be recorded continues. *)
Definition continues (C : Chronicle) (p : ReviewPacket) (account idempotency : string)
    (action : HumanRatificationAction) : Prop :=
  forall r : HumanRatificationReceipt,
  rs_action r = action -> idem_key r = (in_tenant_id p, account, idempotency) ->
  Forall (fun x => idem_key x <> idem_key r) (receipts C) ->
  (action = ReviewAcknowledged -> history C p = []) -> lifecycle (history C p ++ [r]).

Definition event_of (r : HumanRatificationReceipt) (bytes : string) : EventRow := {|
  er_key := rkey r; er_account := rs_account_id r; er_revision := Z.of_N (rs_revision r);
  er_kind := event_kind (rs_action r); er_json := bytes; er_hash := receipt_hash r;
  er_seal := human_seal r; er_idempotency := rs_idempotency_key r |}.

(** Writing the event, the head and the summary of a new receipt. *)
Lemma record_refines C t (p : ReviewPacket) r bytes : represents C t -> chronicle_ok C ->
  last (generations C (in_tenant_id p) (in_task_id p)) = Some p ->
  receipt_ok p (history C p) r -> rkey r = pkey p -> to_vec r = Ok bytes ->
  Forall (fun x => idem_key x <> idem_key r) (receipts C) -> lifecycle (history C p ++ [r]) ->
  refines C t
    (es ← ok_or (insert_event (event_of r bytes) (packets t) (events t)) Conflict;
     '(updated, hs) ← ok_or (upsert_head (head_of r) es (heads t)) Conflict;
     fail_if (negb (updated =? 1)%N) Integrity;;
     t' ← write_ledger_state key {| metadata_row := metadata_row t; packets := packets t; roots := roots t;
                                     events := es; heads := hs |};
     Ok (t', r))
    (Ok ({| frozen := frozen C; receipts := receipts C ++ [r] |}, r)).
Proof using url.
  intros Hrep Hok Hlast Hr Hk Hb Hfresh Hlife. assert (Hrows := rep_rows _ _ Hrep).
  destruct (last_generation C _ _ p Hok Hlast) as (Hp & _ & _ & _).
  assert (Hrow : event_row r (event_of r bytes)) by by split.
  rewrite (insert_event_ok C t p r) by done. cbn [ok_or mbind result_bind].
  destruct (upsert_head_ok C t p r (event_of r bytes)) as (hs & -> & Hnd & Hheads); [done..|].
  cbn [ok_or mbind result_bind]. change (fail_if (negb (1 =? 1)%N) Integrity) with (Ok (E:=RatificationError) tt).
  cbn [mbind result_bind]. eapply commit_refines; [exact Hrep|done| |by eapply append_preserves|].
  2: { apply grown. cbn [frozen receipts]. rewrite length_app. cbn [length]. lia. }
  destruct Hrows as [Hps Hrs Hes _ _]. split; cbn [frozen receipts packets roots events heads]; try done.
  apply Forall2_app; [done|]. constructor; [done|constructor].
Qed.

Lemma append_refines C t (p : ReviewPacket) account principal method expected idempotency digest action rationale at_millis :
  represents C t -> chronicle_ok C -> last (generations C (in_tenant_id p) (in_task_id p)) = Some p ->
  continues C p account idempotency action ->
  refines C t (append_receipt key t p account principal method expected idempotency digest action rationale at_millis)
    (spec_append key C p account principal method expected idempotency digest action rationale at_millis).
Proof using json url.
  intros Hrep Hok Hlast Hcont. assert (Hrows := rep_rows _ _ Hrep).
  destruct (last_generation C _ _ p Hok Hlast) as (Hp & _ & _ & _).
  unfold append_receipt, spec_append.
  destruct (validate_id account); [|by left]. destruct (validate_id idempotency); [|by left].
  destruct (review_validate_text rationale); [|by left]. cbn [mbind result_bind].
  rewrite (authenticate_all_ok C t), (authenticate_packet_ok C t p) by done. cbn [mbind result_bind].
  rewrite (bool_decide_eq_true_2 (p = p)), (authenticate_history_ok C t p) by done. cbn [negb fail_if mbind result_bind].
  pose proof (event_found C t (in_tenant_id p) account idempotency Hrows) as Hfound.
  destruct (list_find _ (receipts C)) as [[j r]|] eqn:Hfind.
  { destruct Hfound as (row & -> & Hrow). apply list_find_Some in Hfind as (Hj & Hkey & _).
    injection Hkey as Ht Ha Hi. pose proof (replay_ok C t r row digest Hrows Hok (list_elem_of_lookup_2 _ _ _ Hj) Hrow) as Hre.
    rewrite Ht, Ha, Hi in Hre. rewrite Hre. destruct (receipt_command_semantic_digest r); [|by left]. cbn [mbind result_bind].
    case_bool_decide; [|by left]. by exists C. }
  rewrite Hfound. apply list_find_None in Hfind.
  destruct (negb _ || _) eqn:Hpre; [by left|]. cbn [fail_if mbind result_bind].
  destruct (seal_receipt key _) as [r|] eqn:Hseal; [|by left]. cbn [mbind result_bind].
  destruct (to_vec r) as [b|] eqn:Hb; [|by left]. cbn [map_err mbind result_bind].
  assert (Hgen : rs_generation r = in_generation p /\ (in_generation p <= i64_max)%N).
  { split; [|by apply (ok_frozen _ Hok)]. unfold seal_receipt in Hseal. by apply bind_Ok_inv in Hseal as (? & _ & [= <-]). }
  destruct Hgen as [Hg Hfit]. rewrite Hg, (to_sql_le (in_generation p)) by done. cbn [ok_or mbind result_bind].
  destruct (N.leb_spec (rs_revision r) i64_max) as [Hrev|Hbig].
  2: { unfold to_sql. rewrite (proj2 (N.leb_gt _ _)), (proj2 (N.ltb_lt _ _)) by done. by left. }
  rewrite to_sql_le, (proj2 (N.ltb_ge _ _)) by done. cbn [ok_or mbind result_bind fail_if].
  destruct (seal_receipt_ok _ _ _ _ _ _ _ _ _ _ Hseal Hrev) as (Hr & Hk & Hact & Hidem).
  rewrite <- Hg. apply (record_refines C t p r b); try done.
  - by rewrite Hidem.
  - apply Hcont; [done|done|by rewrite Hidem|]. intros ->. apply orb_false_iff in Hpre as [_ Hpre].
    rewrite bool_decide_eq_true_2 in Hpre by done. apply negb_false_iff, N.eqb_eq in Hpre.
    by destruct (history C p); [|rewrite len_cons in Hpre; lia].
Qed.

(** *** Queries and commands *)

Lemma packet_of_ok C t tenant task : represents C t -> chronicle_ok C ->
  packet_of key t tenant task = (validate_id tenant;; validate_id task;; Ok (last (generations C tenant task))).
Proof using json.
  intros Hrep Hok. unfold packet_of. destruct (validate_id tenant); [|done]. destruct (validate_id task); [|done].
  cbn [mbind result_bind]. rewrite (authenticate_all_ok C t), (latest_generation_ok C t) by (done || apply Hrep).
  cbn [mbind result_bind]. destruct (last (generations C tenant task)) as [q|] eqn:Hl; [|done].
  destruct (last_generation C tenant task q Hok Hl) as (Hq & <- & <- & _). cbn [fmap option_fmap option_map].
  by rewrite (authenticate_packet_ok C t q) by (done || apply Hrep).
Qed.

Lemma history_of_ok C t tenant task : represents C t -> chronicle_ok C ->
  history_of key t tenant task =
    (validate_id tenant;; validate_id task;; Ok (from_option (history C) [] (last (generations C tenant task)))).
Proof using json.
  intros Hrep Hok. unfold history_of. destruct (validate_id tenant); [|done]. destruct (validate_id task); [|done].
  cbn [mbind result_bind]. rewrite (authenticate_all_ok C t), (latest_generation_ok C t) by (done || apply Hrep).
  cbn [mbind result_bind]. destruct (last (generations C tenant task)) as [q|] eqn:Hl; [|done].
  destruct (last_generation C tenant task q Hok Hl) as (Hq & <- & <- & _). cbn [fmap option_fmap option_map from_option].
  rewrite (authenticate_packet_ok C t q) by (done || apply Hrep). cbn [mbind result_bind].
  apply (authenticate_history_ok C t q); [apply Hrep|done..].
Qed.

Lemma continues_review C p account idempotency : continues C p account idempotency ReviewAcknowledged.
Proof. intros r Hact _ _ Hnil. by rewrite Hnil. Qed.

Lemma acknowledge_refines C t a : represents C t -> chronicle_ok C ->
  refines C t (acknowledge_review key t a) (spec_acknowledge key C a).
Proof using json url.
  intros Hrep Hok. unfold acknowledge_review, spec_acknowledge.
  destruct (validate_id (ack_account_id a)); [|by left]. destruct (validate_id (ack_idempotency_key a)); [|by left].
  cbn [mbind result_bind]. destruct (fail_if _ InvalidInput); [|by left]. cbn [mbind result_bind].
  rewrite (packet_of_ok C t) by done.
  destruct (validate_id (ack_tenant_id a)); [|by left]. destruct (validate_id (ack_task_id a)); [|by left].
  cbn [mbind result_bind]. destruct (last (generations C _ _)) as [p|] eqn:Hl; [|by left]. cbn [ok_or mbind result_bind].
  destruct (fail_if _ ExactReviewRequired); [|by left]. cbn [mbind result_bind].
  destruct (fail_if _ PreconditionFailed); [|by left]. cbn [mbind result_bind].
  destruct (review_command_semantic_digest a); [|by left]. cbn [mbind result_bind].
  destruct (last_generation C _ _ p Hok Hl) as (_ & Ht & Hk & _).
  apply append_refines; [done..|by rewrite Ht, Hk|apply continues_review].
Qed.

(** A decision continues a review of the same account, or decisions under its key. *)
Lemma continues_decision C (p : ReviewPacket) account idempotency d (r : HumanRatificationReceipt) :
  chronicle_ok C -> p ∈ frozen C -> last (history C p) = Some r ->
  match rs_action r with
  | ReviewAcknowledged => rs_account_id r = account
  | Decision_ _ => rs_idempotency_key r = idempotency
  end -> continues C p account idempotency (Decision_ d).
Proof.
  intros Hok Hp Hl Hmatch x Hact Hidem Hfresh _. pose proof (ok_lifecycle _ Hok p Hp) as Hlife.
  assert (Hin : forall y, y ∈ history C p -> idem_key y <> idem_key x /\ rs_tenant_id y = in_tenant_id p).
  { intros y [Hk Hy]%history_elem. split; [by eapply Forall_forall in Hfresh|]. by injection Hk. }
  injection Hidem as Hten Hacc Hid. destruct (history C p) as [|rv ds]; [done|].
  destruct Hlife as [Hrv Hds]. cbn [app lifecycle]. split; [done|].
  destruct ds as [|dd rest]; cbn [app].
  - injection Hl as <-. rewrite Hrv in Hmatch. split_and!; [by exists d|congruence|constructor].
  - destruct Hds as (Hdd & Hda & Hrest). split_and!; [done..|]. apply Forall_app. split; [done|].
    assert (Hr : rs_idempotency_key dd = idempotency).
    { destruct rest as [|z rest _] using rev_ind.
      - injection Hl as <-. destruct Hdd as [y Hy]. by rewrite Hy in Hmatch.
      - rewrite !app_comm_cons, last_snoc in Hl. injection Hl as ->. apply Forall_app in Hrest as [_ Hz].
        apply Forall_singleton in Hz as ([y Hy] & <- & _). by rewrite Hy in Hmatch. }
    constructor; [|constructor]. split_and!; [by exists d|congruence|].
    destruct (Hin dd ltac:(set_solver)) as [Hne Ht]. intros Heq. apply Hne. unfold idem_key. congruence.
Qed.

Lemma decide_refines C t c : represents C t -> chronicle_ok C ->
  refines C t (decide_ratification key t c) (spec_decide key C c).
Proof using json url.
  intros Hrep Hok. unfold decide_ratification, spec_decide.
  destruct (validate_id (cmd_tenant_id c)) eqn:Hv1; [|by left]. destruct (validate_id (cmd_task_id c)) eqn:Hv2; [|by left].
  destruct (validate_id (cmd_account_id c)); [|by left]. destruct (validate_id (cmd_idempotency_key c)); [|by left].
  destruct (review_validate_text (cmd_rationale c)); [|by left]. cbn [mbind result_bind].
  destruct (fail_if _ InvalidInput); [|by left]. cbn [mbind result_bind].
  rewrite (packet_of_ok C t), (history_of_ok C t), Hv1, Hv2 by done. cbn [mbind result_bind].
  destruct (last (generations C _ _)) as [p|] eqn:Hl; [|by left]. cbn [ok_or mbind result_bind from_option].
  destruct (fail_if _ PreconditionFailed); [|by left]. cbn [mbind result_bind].
  destruct (decision_command_semantic_digest c); [|by left]. cbn [mbind result_bind].
  destruct (last_generation C _ _ p Hok Hl) as (Hp & Ht & Hk & _).
  destruct (last (history C p)) as [r|] eqn:Hr; [|by left].
  destruct (rs_action r) as [|d] eqn:Hact; case_bool_decide as Hm; try by left.
  all: apply append_refines; [done..|by rewrite Ht, Hk|].
  all: by eapply continues_decision; [..|rewrite Hact].
Qed.
End chronicle.

(** ** The contract is kept *)

Section refinement.
Context `{Sha256, HmacSha256, UrlBase64, RatificationCodec}.

(** C4: On tables that represent a chronicle, freezing, acknowledging and
    deciding do what the contract says, errors included, and the tables represent
    the chronicle the contract leads to; an operation the contract allows fails
    only when its outcome would exceed the retained capacity. *)
Theorem ledger_refines key C t :
  json_laws -> url_laws -> represents key C t -> chronicle_ok key C ->
  (forall i, refines key C t (freeze_packet key t i) (spec_freeze key C i)) /\
  (forall a, refines key C t (acknowledge_review key t a) (spec_acknowledge key C a)) /\
  (forall c, refines key C t (decide_ratification key t c) (spec_decide key C c)).
Proof.
  intros json url Hrep Hok. split_and!.
  - intros i. by apply freeze_refines.
  - intros a. by apply acknowledge_refines.
  - intros c. by apply decide_refines.
Qed.
End refinement.
