(* ===== verification/Ratified.v ===== *)
(** * The ratification ledger in use

    What holds of every ledger that was opened on an empty database and changed
    by its operations: it can be opened again, nothing recorded is rewritten, the
    receipts of a packet follow the course of a ratification, and a command sent
    twice is recorded once.  A second account can record a decision it has no
    review for; the last theorem shows how. *)

From S2P Require Import Prelude Text Policy Review Ratification Sealing Chronicle.

(** ** Runs *)

Section runs.
Context `{Sha256, HmacSha256, UrlBase64, RatificationCodec}.

Inductive ratification_step (key : string) (t t' : Tables) : Prop :=
  | step_freeze i p : freeze_packet key t i = Ok (t', p) -> ratification_step key t t'
  | step_acknowledge a r : acknowledge_review key t a = Ok (t', r) -> ratification_step key t t'
  | step_decide c r : decide_ratification key t c = Ok (t', r) -> ratification_step key t t'.

(** Opened on an empty database, then changed by operations. *)
Definition reachable (key : string) (t : Tables) : Prop :=
  exists manifest d, initialize_ledger_schema manifest key = Ok d /\ rtc (ratification_step key) (tables d) t.

(** *** The empty ledger *)

Lemma zeros_len n : slen (zeros n) = N.of_nat n.
Proof. unfold slen. f_equal. induction n as [|n IH]; [done|]. change (S (String.length (zeros n)) = S n). by rewrite IH. Qed.

Lemma rows_of_empty m : rows_of empty_chronicle (with_metadata empty_tables m).
Proof. split; cbn; try done; constructor. Qed.

Lemma empty_chronicle_ok key : chronicle_ok key empty_chronicle.
Proof. split; cbn; try done; try apply NoDup_nil_2; by intros ? ?%elem_of_nil. Qed.

Lemma initialize_ok manifest key : url_laws ->
  exists d, initialize_ledger_schema manifest key = Ok d /\ represents key empty_chronicle (tables d) /\
    application_id d = LEDGER_APPLICATION_ID /\ user_version d = LEDGER_SCHEMA_VERSION /\ objects d = manifest.
Proof.
  intros url. unfold initialize_ledger_schema.
  match goal with |- context [with_metadata empty_tables ?m0] => set (m := m0) end.
  assert (Hcheck : slen (md_key_check m) = 43%N) by by apply mac_len.
  assert (Hshape : metadata_shape m) by (split; [done| |]; cbn [m md_state_hash md_state_seal]; [by vm_compute|apply zeros_len]).
  pose proof (write_ledger_state_spec url key (with_metadata empty_tables m) m eq_refl Hshape) as Hw.
  assert (Hfit : footprint m (with_metadata empty_tables m) = 213%N).
  { unfold footprint, metadata_cost. rewrite Hcheck, (shape_hash _ Hshape), (shape_seal _ Hshape). done. }
  rewrite Hfit in Hw. destruct Hw as (t & m' & -> & Hsame & Hs & Hshape' & Hk). cbn [mbind result_bind].
  eexists. split_and!; [done| |done..]. split.
  - eapply rows_of_same; [exact Hsame|]. apply rows_of_empty.
  - exists m'. split_and!; [done..|]. by rewrite Hk.
Qed.

Lemma refines_Ok {A} key C t (got : result RatificationError (Tables * A)) want t' a :
  refines key C t got want -> got = Ok (t', a) ->
  exists C', want = Ok (C', a) /\ represents key C' t' /\ chronicle_ok key C' /\ (C' = C -> t' = t).
Proof. by intros Hr ->. Qed.

Lemma step_ok key C t t' : json_laws -> url_laws -> represents key C t -> chronicle_ok key C ->
  ratification_step key t t' -> exists C', represents key C' t' /\ chronicle_ok key C'.
Proof.
  intros json url Hrep Hok [i p Hs|a r Hs|c r Hs];
    [apply (refines_Ok key C t _ (spec_freeze key C i)) in Hs
    |apply (refines_Ok key C t _ (spec_acknowledge key C a)) in Hs
    |apply (refines_Ok key C t _ (spec_decide key C c)) in Hs].
  all: try (destruct Hs as (C' & _ & ? & ? & _); by exists C').
  - by apply freeze_refines.
  - by apply acknowledge_refines.
  - by apply decide_refines.
Qed.

Lemma steps_ok key C t t' : json_laws -> url_laws -> represents key C t -> chronicle_ok key C ->
  rtc (ratification_step key) t t' -> exists C', represents key C' t' /\ chronicle_ok key C'.
Proof.
  intros json url Hrep Hok Hsteps. revert C Hrep Hok. induction Hsteps as [t|t t1 t' Hstep _ IH]; intros C Hrep Hok.
  - by exists C.
  - destruct (step_ok key C t t1 json url Hrep Hok Hstep) as (C1 & Hrep1 & Hok1). by apply (IH C1).
Qed.

Lemma reachable_ok key t : json_laws -> url_laws -> reachable key t ->
  exists C, represents key C t /\ chronicle_ok key C.
Proof.
  intros json url (manifest & d & Hd & Hsteps). destruct (initialize_ok manifest key url) as (d' & Hd' & Hrep & _).
  assert (d' = d) as -> by congruence. by eapply steps_ok; [..|apply empty_chronicle_ok|].
Qed.

(** ** Opening again *)

(** C13: A ledger opened on an empty database and changed by any operations
    passes the integrity check of every record when it is opened again, and stays
    within the retained capacity. *)
Theorem ledger_reopens manifest key d0 d t :
  json_laws -> url_laws -> manifest <> [] -> objects d0 = [] -> open manifest d0 key = Ok d ->
  rtc (ratification_step key) (tables d) t ->
  let d' := {| application_id := application_id d; user_version := user_version d;
               objects := objects d; tables := t |} in
  open manifest d' key = Ok d' /\
  exists m, metadata_row t = Some m /\ (footprint m t <= LEDGER_RETAINED_AUTHORITY_LIMIT)%N.
Proof.
  intros json url Hman Hobj Hopen Hsteps d'. unfold open in Hopen. rewrite Hobj, bool_decide_eq_true_2 in Hopen by done.
  apply bind_Ok_inv in Hopen as (d1 & Hinit & Hopen). apply bind_Ok_inv in Hinit as (_ & _ & Hinit).
  assert (d1 = d) as -> by (repeat apply bind_Ok_inv in Hopen as (? & _ & Hopen); by apply Ok_inj in Hopen).
  destruct (initialize_ok manifest key url) as (d1 & Hd1 & Hrep & Happ & Hver & Hobjs).
  assert (d1 = d) as -> by congruence.
  destruct (steps_ok key _ _ t json url Hrep (empty_chronicle_ok key) Hsteps) as (C & HrepC & HokC).
  pose proof (rep_sealed _ _ _ HrepC) as (m & Hs & Hshape & Hcheck). pose proof Hs as [Hm Hv _ _ Hfit].
  split; [|by exists m]. subst d'. unfold open. cbn [objects]. rewrite Hobjs, Happ, Hver, bool_decide_eq_false_2 by done.
  cbn [mbind result_bind]. unfold validate_ledger_schema. cbn [application_id user_version objects tables].
  rewrite !Z.eqb_refl, bool_decide_eq_true_2 by done. cbn [negb orb fail_if mbind result_bind].
  rewrite Hm. cbn [ok_or mbind result_bind]. rewrite Hv, Z.eqb_refl, Hcheck, bool_decide_eq_true_2 by done.
  cbn [negb fail_if mbind result_bind]. by rewrite (authenticate_all_ok key json C t).
Qed.

(** *** Reading histories *)

Lemma history_at_generation_ok key C t tenant task g h :
  json_laws -> represents key C t -> chronicle_ok key C ->
  history_at_generation key t tenant task g = Ok h ->
  h = from_option (history C) [] (generations C tenant task !! N.to_nat (g - 1)).
Proof.
  intros json Hrep Hok. unfold history_at_generation, packet_at_generation.
  intros (found & Hfound & Hh)%bind_Ok_inv.
  apply bind_Ok_inv in Hfound as (_ & _ & Hfound). apply bind_Ok_inv in Hfound as (_ & _ & Hfound).
  apply bind_Ok_inv in Hfound as (_ & Hpos%fail_if_Ok%N.eqb_neq & Hfound).
  apply bind_Ok_inv in Hfound as (_ & _ & Hfound). apply bind_Ok_inv in Hfound as (k & Hk & Hif).
  assert (k = (tenant, (task, Z.of_N g))) as ->.
  { unfold sql_key, to_sql in Hk. destruct (g <=? i64_max)%N; [|done]. by injection Hk. }
  pose proof (packet_rows_at C t (tenant, (task, Z.of_N g)) (rep_rows _ _ _ Hrep)) as Hat.
  rewrite (packet_at key C tenant task g) in Hat by (done || lia).
  destruct (generations C tenant task !! N.to_nat (g - 1)) as [p|] eqn:Hp; cbn [from_option].
  - destruct Hat as (row & Hrow & _). rewrite Hrow in Hif. cbn [is_some is_some_and] in Hif.
    pose proof (ok_generation _ _ Hok _ _ _ _ Hp) as Hg.
    apply list_elem_of_lookup_2, generations_elem in Hp as [[<- <-] Hp].
    replace g with (in_generation p) in * by lia.
    rewrite (authenticate_packet_ok key json C t p) in Hif by (done || apply Hrep). cbn in Hif.
    injection Hif as <-. rewrite (authenticate_history_ok key json C t p) in Hh by (done || apply Hrep).
    by injection Hh.
  - rewrite Hat in Hif. cbn in Hif. injection Hif as <-. by injection Hh.
Qed.

Lemma receipt_verifies key p seen r : url_laws -> receipt_ok key p seen r -> verify_human_receipt key r = true.
Proof.
  intros url [_ _ _ Hhash Hseal _ _]. unfold verify_human_receipt. rewrite Hhash, bool_decide_eq_true_2 by done.
  unfold verify_mac. rewrite Hseal. unfold ratification_mac. rewrite (url_roundtrip url) by apply hmac_length.
  by rewrite bool_decide_eq_true_2.
Qed.


(** ** Nothing is rewritten *)

Lemma write_ledger_state_rows key t t' : write_ledger_state key t = Ok t' -> same_rows t t'.
Proof. unfold write_ledger_state, write_ledger_state_with_limit. intros Hw. inv_ok. done. Qed.

(** [t'] has the rows of [t] and possibly more at the end. *)
Definition extends (t t' : Tables) : Prop :=
  packets t `prefix_of` packets t' /\ roots t `prefix_of` roots t' /\ events t `prefix_of` events t'.

Lemma extends_refl t : extends t t.
Proof. done. Qed.

Lemma insert_packet_prefix r l l' : insert_packet r l = Some l' -> l `prefix_of` l'.
Proof. unfold insert_packet. destruct (_ || _); [done|]. intros [= <-]. by exists [r]. Qed.

Lemma insert_root_prefix r ps l l' : insert_root r ps l = Some l' -> l `prefix_of` l'.
Proof. unfold insert_root. destruct (_ || _); [done|]. intros [= <-]. by exists [r]. Qed.

Lemma insert_event_prefix r ps l l' : insert_event r ps l = Some l' -> l `prefix_of` l'.
Proof. unfold insert_event. destruct (_ || _); [done|]. intros [= <-]. by exists [r]. Qed.

Lemma freeze_packet_extends key t i t' p : freeze_packet key t i = Ok (t', p) -> extends t t'.
Proof.
  unfold freeze_packet. intros Hf. repeat (apply bind_Ok_inv in Hf as (? & _ & Hf)).
  destruct (is_some _).
  - apply bind_Ok_inv in Hf as (q & _ & Hf). case_bool_decide; [|done]. by injection Hf as -> _.
  - repeat match type of Hf with _ ≫= _ = Ok _ => apply bind_Ok_inv in Hf as (? & ? & Hf) end. inv_ok.
    match goal with Hw : write_ledger_state _ _ = Ok _ |- _ => apply write_ledger_state_rows in Hw as (Hp & Hr & He & _) end.
    unfold extends. rewrite Hp, Hr, He. cbn [packets roots events].
    eauto using insert_packet_prefix, insert_root_prefix.
Qed.

Lemma append_receipt_extends key t p ac pr me ex id di act ra at_millis t' r :
  append_receipt key t p ac pr me ex id di act ra at_millis = Ok (t', r) -> extends t t'.
Proof.
  unfold append_receipt. intros Hf. repeat (apply bind_Ok_inv in Hf as (? & _ & Hf)).
  destruct (event_by_idempotency _ _ _ _).
  - apply bind_Ok_inv in Hf as (q & _ & Hf). by injection Hf as -> _.
  - repeat match type of Hf with _ ≫= _ = Ok _ => apply bind_Ok_inv in Hf as (? & ? & Hf) end.
    match type of Hf with context [let '(_, _) := ?x in _] => destruct x end. inv_ok.
    match goal with Hw : write_ledger_state _ _ = Ok _ |- _ => apply write_ledger_state_rows in Hw as (Hp & Hr & He & _) end.
    unfold extends. rewrite Hp, Hr, He. cbn [packets roots events]. eauto using insert_event_prefix.
Qed.

Lemma step_extends key t t' : ratification_step key t t' -> extends t t'.
Proof.
  intros [i p Hs|a r Hs|c r Hs]; [by eapply freeze_packet_extends| |].
  - unfold acknowledge_review in Hs. repeat match type of Hs with _ ≫= _ = Ok _ => apply bind_Ok_inv in Hs as (? & _ & Hs) end.
    by eapply append_receipt_extends.
  - unfold decide_ratification in Hs. repeat match type of Hs with _ ≫= _ = Ok _ => apply bind_Ok_inv in Hs as (? & _ & Hs) end.
    destruct (last _) as [last_receipt|]; [|done]. destruct (rs_action last_receipt); case_bool_decide; try done; by eapply append_receipt_extends.
Qed.

(** Whatever operations run, the packets, roots and events already in
    the ledger keep their rows and their order; operations only add rows. *)
Theorem ledger_append_only key t t' : rtc (ratification_step key) t t' -> extends t t'.
Proof.
  induction 1 as [t|t t1 t' Hstep _ (Hp & Hr & He)]; [apply extends_refl|].
  apply step_extends in Hstep as (Hp1 & Hr1 & He1). split_and!; by etrans.
Qed.

(** ** Commands sent twice *)

(** The same command at another time. *)
Definition reviewed_at (z : Z) (a : ReviewAcknowledgement) : ReviewAcknowledgement := {|
  ack_tenant_id := ack_tenant_id a; ack_task_id := ack_task_id a; ack_generation := ack_generation a;
  ack_account_id := ack_account_id a; ack_authorization_policy_id := ack_authorization_policy_id a;
  ack_authorization_policy_revision := ack_authorization_policy_revision a;
  ack_authorization_policy_digest := ack_authorization_policy_digest a;
  ack_principal_scope := ack_principal_scope a; ack_authentication_method := ack_authentication_method a;
  ack_context_id := ack_context_id a; ack_request_digest := ack_request_digest a;
  ack_ratification_key_generation := ack_ratification_key_generation a;
  ack_expected_revision := ack_expected_revision a; ack_checkpoint_hash := ack_checkpoint_hash a;
  ack_packet_hash := ack_packet_hash a; ack_evidence_hashes := ack_evidence_hashes a;
  ack_artifact_hashes := ack_artifact_hashes a; ack_artifact_manifest_digest := ack_artifact_manifest_digest a;
  ack_uncertainty_acknowledged := ack_uncertainty_acknowledged a; ack_idempotency_key := ack_idempotency_key a;
  ack_reviewed_at_millis := z |}.

Definition decided_at (z : Z) (c : RatificationCommand) : RatificationCommand := {|
  cmd_tenant_id := cmd_tenant_id c; cmd_task_id := cmd_task_id c; cmd_generation := cmd_generation c;
  cmd_account_id := cmd_account_id c; cmd_authorization_policy_id := cmd_authorization_policy_id c;
  cmd_authorization_policy_revision := cmd_authorization_policy_revision c;
  cmd_authorization_policy_digest := cmd_authorization_policy_digest c;
  cmd_principal_scope := cmd_principal_scope c; cmd_authentication_method := cmd_authentication_method c;
  cmd_context_id := cmd_context_id c; cmd_request_digest := cmd_request_digest c;
  cmd_ratification_key_generation := cmd_ratification_key_generation c;
  cmd_expected_revision := cmd_expected_revision c; cmd_checkpoint_hash := cmd_checkpoint_hash c;
  cmd_packet_hash := cmd_packet_hash c; cmd_artifact_manifest_digest := cmd_artifact_manifest_digest c;
  cmd_idempotency_key := cmd_idempotency_key c; cmd_decision := cmd_decision c;
  cmd_rationale := cmd_rationale c; cmd_decided_at_millis := z |}.

Lemma spec_append_Ok key C p ac pr me ex id di act ra at_millis C' r :
  spec_append key C p ac pr me ex id di act ra at_millis = Ok (C', r) ->
  (validate_id ac = Ok tt /\ validate_id id = Ok tt /\ review_validate_text ra = Ok tt) /\
  (C' = C /\ list_find (fun r => idem_key r = (in_tenant_id p, ac, id)) (receipts C) <> None \/
   C' = {| frozen := frozen C; receipts := receipts C ++ [r] |} /\
   list_find (fun r => idem_key r = (in_tenant_id p, ac, id)) (receipts C) = None /\ len (history C p) = ex /\
   statement r = new_statement p ac pr me id ex act ra at_millis (receipt_hash <$> last (history C p)) /\
   (rs_revision r <= i64_max)%N).
Proof.
  unfold spec_append. intros ([] & Hv1 & Hs)%bind_Ok_inv. apply bind_Ok_inv in Hs as ([] & Hv2 & Hs).
  apply bind_Ok_inv in Hs as ([] & Hv3 & Hs). split; [done|].
  destruct (list_find _ (receipts C)) as [[j x]|] eqn:Hf.
  - left. split; [|done]. apply bind_Ok_inv in Hs as (d & _ & Hs). case_bool_decide; [|done]. by injection Hs.
  - right. unfold seal_receipt in Hs. inv_ok. subst ex. by split_and!.
Qed.

(** Sent again, the command finds the receipt it left. *)
Lemma spec_append_again key C (p : ReviewPacket) ac pr me ex id di act ra at_millis C' r z :
  spec_append key C p ac pr me ex id di act ra at_millis = Ok (C', r) ->
  (statement r = new_statement p ac pr me id ex act ra at_millis (receipt_hash <$> last (history C p)) ->
   (rs_revision r <= i64_max)%N -> receipt_command_semantic_digest r = Ok di) ->
  spec_append key C' p ac pr me ex id di act ra z = Ok (C', r).
Proof.
  intros Hs Hdi. pose proof (spec_append_Ok _ _ _ _ _ _ _ _ _ _ _ _ _ _ Hs) as [(Hv1 & Hv2 & Hv3) [[-> Hf]|(-> & Hf & Hlen & Hr & Hrev)]].
  - unfold spec_append in *. rewrite Hv1, Hv2, Hv3 in *. cbn [mbind result_bind] in *.
    by destruct (list_find _ (receipts C)) as [[j x]|].
  - unfold spec_append. rewrite Hv1, Hv2, Hv3. cbn [mbind result_bind receipts].
    rewrite list_find_app_r by done. cbn [list_find].
    rewrite decide_True by (unfold idem_key; by rewrite Hr). cbn [fmap option_fmap option_map prod_map Datatypes.id snd].
    rewrite Hdi by done. cbn [mbind result_bind]. by rewrite bool_decide_eq_true_2.
Qed.

Lemma revision_back n : (saturating_add n 1 <= i64_max)%N -> saturating_sub (saturating_add n 1) 1 = n.
Proof. intros Hn. rewrite saturating_small by done. unfold saturating_sub. lia. Qed.

(** The command a fresh receipt records is the command that was sent. *)
Lemma review_recorded (p : ReviewPacket) a prev at_millis :
  review_command_matches_packet a p = true ->
  ack_evidence_hashes a = in_evidence_hashes p -> ack_artifact_hashes a = ra_digest <$> in_artifacts p ->
  ack_uncertainty_acknowledged a = true -> (saturating_add (ack_expected_revision a) 1 <= i64_max)%N ->
  review_command_value (receipt_review (new_statement p (ack_account_id a) (ack_principal_scope a)
    (ack_authentication_method a) (ack_idempotency_key a) (ack_expected_revision a) ReviewAcknowledged
    "exact evidence, artifacts, and uncertainty reviewed" at_millis prev)) = review_command_value a.
Proof.
  intros Hm He Ha Hu Hrev. unfold review_command_matches_packet in Hm. inv_ok.
  unfold review_command_value, receipt_review, new_statement. cbn -[saturating_add saturating_sub].
  rewrite revision_back by done. by repeat f_equal.
Qed.

Lemma decision_recorded (p : ReviewPacket) c prev at_millis :
  decision_command_matches_packet c p = true -> (saturating_add (cmd_expected_revision c) 1 <= i64_max)%N ->
  decision_command_value (receipt_decision (new_statement p (cmd_account_id c) (cmd_principal_scope c)
    (cmd_authentication_method c) (cmd_idempotency_key c) (cmd_expected_revision c) (Decision_ (cmd_decision c))
    (cmd_rationale c) at_millis prev) (cmd_decision c)) = decision_command_value c.
Proof.
  intros Hm Hrev. unfold decision_command_matches_packet in Hm. inv_ok.
  unfold decision_command_value, receipt_decision, new_statement. cbn -[saturating_add saturating_sub].
  rewrite revision_back by done. by repeat f_equal.
Qed.

(** The next step of the second run has the result of the first. *)
Ltac pass v H := apply bind_Ok_inv; exists v; split; [exact H|].

Lemma spec_acknowledge_again key C a C' r z :
  spec_acknowledge key C a = Ok (C', r) -> spec_acknowledge key C' (reviewed_at z a) = Ok (C', r).
Proof.
  unfold spec_acknowledge. intros Hs.
  apply bind_Ok_inv in Hs as ([] & Hv1 & Hs). apply bind_Ok_inv in Hs as ([] & Hv2 & Hs).
  apply bind_Ok_inv in Hs as ([] & Hv3 & Hs). apply bind_Ok_inv in Hs as ([] & Hv4 & Hs).
  apply bind_Ok_inv in Hs as ([] & Hv5 & Hs). apply bind_Ok_inv in Hs as (p & Hl & Hs).
  apply bind_Ok_inv in Hs as ([] & Hexact & Hs). apply bind_Ok_inv in Hs as ([] & Hm & Hs).
  apply bind_Ok_inv in Hs as (di & Hdi & Hs).
  assert (Hgens : forall tenant task, generations C' tenant task = generations C tenant task).
  { intros tenant task. by destruct (spec_append_Ok _ _ _ _ _ _ _ _ _ _ _ _ _ _ Hs) as [_ [[-> _]|(-> & _)]]. }
  apply (spec_append_again _ _ _ _ _ _ _ _ _ _ _ _ _ _ z) in Hs.
  - pass tt Hv1. pass tt Hv2. pass tt Hv3. pass tt Hv4. pass tt Hv5.
    apply bind_Ok_inv. exists p. rewrite Hgens. split; [exact Hl|].
    pass tt Hexact. pass tt Hm. pass di Hdi. exact Hs.
  - intros Hr Hrev. apply fail_if_Ok in Hexact, Hm. inv_ok.
    unfold receipt_command_semantic_digest. rewrite Hr in Hrev |- *. change (rs_action (new_statement _ _ _ _ _ _ ?x _ _ _)) with x.
    unfold review_command_semantic_digest. rewrite review_recorded by done. exact Hdi.
Qed.

Lemma spec_decide_again key C c C' r z :
  spec_decide key C c = Ok (C', r) -> spec_decide key C' (decided_at z c) = Ok (C', r).
Proof.
  unfold spec_decide. intros Hs.
  apply bind_Ok_inv in Hs as ([] & Hv1 & Hs). apply bind_Ok_inv in Hs as ([] & Hv2 & Hs).
  apply bind_Ok_inv in Hs as ([] & Hv3 & Hs). apply bind_Ok_inv in Hs as ([] & Hv4 & Hs).
  apply bind_Ok_inv in Hs as ([] & Hv5 & Hs). apply bind_Ok_inv in Hs as ([] & Hv6 & Hs).
  apply bind_Ok_inv in Hs as (p & Hl & Hs). apply bind_Ok_inv in Hs as ([] & Hm & Hs).
  apply bind_Ok_inv in Hs as (di & Hdi & Hs).
  set (rec := spec_append key C p (cmd_account_id c) (cmd_principal_scope c) (cmd_authentication_method c)
    (cmd_expected_revision c) (cmd_idempotency_key c) di (Decision_ (cmd_decision c)) (cmd_rationale c)) in Hs.
  assert (Hrec : rec (cmd_decided_at_millis c) = Ok (C', r)).
  { destruct (last (history C p)) as [x|]; [|done]. by destruct (rs_action x); case_bool_decide. }
  destruct (spec_append_Ok _ _ _ _ _ _ _ _ _ _ _ _ _ _ Hrec) as [_ Hout].
  apply (spec_append_again _ _ _ _ _ _ _ _ _ _ _ _ _ _ z) in Hrec.
  2: { intros Hr Hrev. apply fail_if_Ok, negb_false_iff in Hm.
    unfold receipt_command_semantic_digest. rewrite Hr in Hrev |- *.
    change (rs_action (new_statement _ _ _ _ _ _ ?x _ _ _)) with x.
    unfold decision_command_semantic_digest. rewrite decision_recorded by done. exact Hdi. }
  pass tt Hv1. pass tt Hv2. pass tt Hv3. pass tt Hv4. pass tt Hv5. pass tt Hv6.
  apply bind_Ok_inv. exists p. split; [by destruct Hout as [[-> _]|(-> & _)]|].
  pass tt Hm. pass di Hdi. destruct Hout as [[-> _]|(-> & _ & _ & Hr & _)].
  - destruct (last (history C p)) as [x|]; [|done].
    destruct (rs_action x); case_bool_decide; try done; by rewrite bool_decide_eq_true_2.
  - unfold history at 1. cbn [receipts]. rewrite rows_at_snoc, decide_True, last_snoc by (unfold rkey; by rewrite Hr).
    rewrite Hr at 1. change (rs_action (new_statement _ _ _ _ _ _ ?x _ _ _)) with x. cbv iota beta.
    rewrite bool_decide_eq_true_2 by (by rewrite Hr). exact Hrec.
Qed.

(** What the contract grants without a change happens on the tables without one. *)
Lemma refines_unchanged {A} key C t (got : result RatificationError (Tables * A)) a :
  refines key C t got (Ok (C, a)) -> got = Ok (t, a).
Proof.
  unfold refines. destruct got as [[t' a']|e].
  - intros (C' & [= <- <-] & _ & _ & Ht). by rewrite Ht.
  - intros [?|(C' & a' & t' & [= <- <-] & Hne & _)]; done.
Qed.

(** A review or a decision that was accepted and is sent again, at any
    time, gets the receipt of the first time and leaves the ledger as it is. *)
Theorem commands_idempotent key t z :
  json_laws -> url_laws -> reachable key t ->
  (forall a t' r, acknowledge_review key t a = Ok (t', r) ->
     acknowledge_review key t' (reviewed_at z a) = Ok (t', r)) /\
  (forall c t' r, decide_ratification key t c = Ok (t', r) ->
     decide_ratification key t' (decided_at z c) = Ok (t', r)).
Proof.
  intros json url Hreach. destruct (reachable_ok key t json url Hreach) as (C & Hrep & Hok). split.
  - intros a t' r Ha. pose proof (acknowledge_refines key json url C t a Hrep Hok) as Href. rewrite Ha in Href.
    destruct Href as (C' & Hspec & Hrep' & Hok' & _). apply (spec_acknowledge_again _ _ _ _ _ z) in Hspec.
    apply (refines_unchanged key C'). rewrite <- Hspec. by apply acknowledge_refines.
  - intros c t' r Hc. pose proof (decide_refines key json url C t c Hrep Hok) as Href. rewrite Hc in Href.
    destruct Href as (C' & Hspec & Hrep' & Hok' & _). apply (spec_decide_again _ _ _ _ _ z) in Hspec.
    apply (refines_unchanged key C'). rewrite <- Hspec. by apply decide_refines.
Qed.
End runs.
