(* ===== verification/RatifiedRuns.v ===== *)
(** * A run of the ratification ledger

    Concrete hash, text encodings and commands: a packet is frozen, reviewed and
    decided by one account, and a second account then records a decision of its
    own without any review.  The theorems of [Publication], [Sealing] and
    [Ratified] are applied to this run. *)

From stdpp Require Import pretty.
From S2P Require Import Prelude Text Protocol Policy Guard.
From S2P Require Import Review Publication Ratification Sealing Chronicle Ratified.

(** ** Instances *)

(** A checksum of 32 bytes: the sum of the bytes. *)
Fixpoint byte_sum (s : string) (acc : N) : N :=
  match s with EmptyString => acc | String c s => byte_sum s (acc + code c) end.

Definition checksum (s : string) : string :=
  be_bytes 4 (byte_sum s 0) +:+ "----------------------------".

#[local] Instance run_sha256 : Sha256 := {| sha256 := checksum; sha256_length := fun s => eq_refl |}.
#[local] Instance run_hmac : HmacSha256 :=
  {| hmac := fun k m => checksum (k +:+ m); hmac_length := fun k m => eq_refl |}.

(** Eleven characters more for a tag of 32 bytes. *)
Definition run_encode (b : string) : string := b +:+ "-----------".
Definition run_decode (s : string) : option string := Some (String.substring 0 32 s).
#[local] Instance run_url : UrlBase64 := {| url_encode := run_encode; url_decode := run_decode |}.

Lemma run_url_laws : url_laws.
Proof.
  split; intros b Hb; cbn.
  - unfold run_encode. by rewrite string_length_app, Hb.
  - unfold run_decode, run_encode. rewrite <- Hb. by rewrite substring_app_l.
Qed.

(** Values are written as fields with their lengths. *)
Fixpoint take_bytes (n : nat) (s : string) : option (string * string) :=
  match n, s with
  | O, _ => Some ("", s)
  | S n, String c s => '(a, b) ← take_bytes n s; Some (String c a, b)
  | S _, EmptyString => None
  end.

(** A field after its length in two bytes. *)
Definition cell (s : string) : string := be_bytes 2 (slen s) +:+ s.
Definition cells (l : list string) : string := foldr (fun s rest => cell s +:+ rest) "" l.

Definition uncell (s : string) : option (string * string) :=
  '(l, rest) ← take_bytes 2 s; take_bytes (N.to_nat (be_value l 0)) rest.

Fixpoint uncells (fuel : nat) (s : string) : option (list string) :=
  match fuel, s with
  | _, EmptyString => Some []
  | O, _ => None
  | S fuel, _ => '(x, rest) ← uncell s; xs ← uncells fuel rest; Some (x :: xs)
  end.

Definition fields (s : string) : option (list string) := uncells (String.length s) s.
Definition num (s : string) : N := be_value s 0.
Definition int (z : Z) : string := be_bytes 2 (Z.to_N z).
Definition unint (s : string) : Z := Z.of_N (be_value s 0).

(** What is written is read back, because a value that is not is not written. *)
Definition checked {A} `{EqDecision A} (raw : A -> string) (parse : string -> option A) (v : A) :
    result string string :=
  let b := raw v in
  if bool_decide (parse b = Some v) && (slen b <=? u64_max)%N then Ok b else Err "not representable".

Lemma checked_inv {A} `{EqDecision A} (raw : A -> string) parse (v : A) b :
  checked raw parse v = Ok b -> parse b = Some v /\ (slen b <= u64_max)%N.
Proof.
  unfold checked. case_match eqn:Hc; [|done]. intros [= <-].
  apply andb_true_iff in Hc as [?%bool_decide_eq_true ?%N.leb_le]. done.
Qed.

Lemma checked_roundtrip {A} `{EqDecision A} (raw : A -> string) parse (v : A) b :
  checked raw parse v = Ok b -> parse b = Some v.
Proof. by intros [? _]%checked_inv. Qed.

Lemma checked_faithful {A} `{EqDecision A} (raw : A -> string) parse : @faithful A (checked raw parse).
Proof.
  split.
  - intros a a' b [Ha _]%checked_inv [Ha' _]%checked_inv. congruence.
  - by intros a b [_ ?]%checked_inv.
Qed.

Definition artifact_raw (a : ReviewArtifact) : string :=
  cells [ra_name a; ra_media_type a; ra_canonical_json a; ra_digest a].
Definition artifact_parse (s : string) : option ReviewArtifact :=
  match fields s with
  | Some [n; m; c; d] => Some {| ra_name := n; ra_media_type := m; ra_canonical_json := c; ra_digest := d |}
  | _ => None
  end.

Definition input_raw (i : ReviewPacketInput) : string := cells [
  in_task_id i; in_tenant_id i; be_bytes 2 (in_generation i); be_bytes 2 (in_task_revision i);
  in_authorization_policy_id i; be_bytes 2 (in_authorization_policy_revision i); in_authorization_policy_digest i;
  in_principal_scope i; in_authentication_method i; in_context_id i; in_request_digest i;
  in_idempotency_key_digest i; in_ratification_key_generation i; in_checkpoint i; in_checkpoint_hash i;
  in_completion_policy_id i; be_bytes 2 (in_completion_policy_version i); in_completion_policy_hash i;
  in_evidence_snapshot_hash i; in_artifact_set_digest i; cells (in_evidence i); cells (in_evidence_hashes i);
  cells (artifact_raw <$> in_artifacts i); in_approved_task_digest i; in_approved_result_digest i;
  in_approved_transcript_digest i; in_uncertainty_summary i; int (in_created_at_millis i)].

Definition input_parse (s : string) : option ReviewPacketInput :=
  match fields s with
  | Some l =>
      let a k := nth (pred k) l "" in
      evidence ← fields (a 21%nat); hashes ← fields (a 22%nat); arts ← fields (a 23%nat); arts ← mapM artifact_parse arts;
      Some {| in_task_id := (a 1%nat); in_tenant_id := (a 2%nat); in_generation := num (a 3%nat); in_task_revision := num (a 4%nat);
        in_authorization_policy_id := (a 5%nat); in_authorization_policy_revision := num (a 6%nat);
        in_authorization_policy_digest := (a 7%nat); in_principal_scope := (a 8%nat); in_authentication_method := (a 9%nat);
        in_context_id := (a 10%nat); in_request_digest := (a 11%nat); in_idempotency_key_digest := (a 12%nat);
        in_ratification_key_generation := (a 13%nat); in_checkpoint := (a 14%nat); in_checkpoint_hash := (a 15%nat);
        in_completion_policy_id := (a 16%nat); in_completion_policy_version := num (a 17%nat);
        in_completion_policy_hash := (a 18%nat); in_evidence_snapshot_hash := (a 19%nat); in_artifact_set_digest := (a 20%nat);
        in_evidence := evidence; in_evidence_hashes := hashes; in_artifacts := arts;
        in_approved_task_digest := (a 24%nat); in_approved_result_digest := (a 25%nat); in_approved_transcript_digest := (a 26%nat);
        in_uncertainty_summary := (a 27%nat); in_created_at_millis := unint (a 28%nat) |}
  | _ => None
  end.

#[local] Instance PacketStatement_eq_dec : EqDecision PacketStatement.
Proof. solve_decision. Defined.

Definition packet_statement_raw (s : PacketStatement) : string :=
  cells [input_raw (ps_input s); be_bytes 2 (ps_revision s)].
Definition packet_statement_parse (s : string) : option PacketStatement :=
  match fields s with
  | Some [i; r] => i ← input_parse i; Some {| ps_input := i; ps_revision := num r |}
  | _ => None
  end.

Definition packet_raw (p : ReviewPacket) : string :=
  cells [input_raw p; be_bytes 2 (packet_revision p); packet_hash p; packet_seal p].
Definition packet_parse (s : string) : option ReviewPacket :=
  match fields s with
  | Some [i; r; h; m] =>
      i ← input_parse i;
      Some {| input := i; packet_revision := num r; packet_hash := h; packet_seal := m |}
  | _ => None
  end.

Definition action_raw (a : HumanRatificationAction) : string :=
  match a with ReviewAcknowledged => "review" | Decision_ d => decision_name d end.
Definition action_parse (s : string) : option HumanRatificationAction :=
  if bool_decide (s = "review") then Some ReviewAcknowledged
  else if bool_decide (s = "approve") then Some (Decision_ Approve)
  else if bool_decide (s = "reject") then Some (Decision_ Reject)
  else if bool_decide (s = "amend") then Some (Decision_ Amend) else None.

Definition statement_raw (r : ReceiptStatement) : string := cells [
  cells (from_option (fun _ => ["amendment"]) [] (rs_amendment_authorization r));
  rs_tenant_id r; rs_task_id r; rs_account_id r; be_bytes 2 (rs_revision r); be_bytes 2 (rs_generation r);
  be_bytes 2 (rs_task_revision r); rs_authorization_policy_id r; be_bytes 2 (rs_authorization_policy_revision r);
  rs_authorization_policy_digest r; rs_principal_scope r; rs_authentication_method r; rs_context_id r;
  rs_request_digest r; rs_idempotency_key_digest r; rs_ratification_key_generation r;
  action_raw (rs_action r); rs_rationale r; int (rs_occurred_at_millis r); rs_idempotency_key r;
  rs_checkpoint_hash r; rs_packet_hash r; rs_completion_policy_id r; be_bytes 2 (rs_completion_policy_version r);
  rs_completion_policy_hash r; rs_evidence_snapshot_hash r; cells (rs_evidence_hashes r);
  rs_artifact_set_digest r; cells (artifact_raw <$> rs_artifacts r);
  cells (from_option (fun h => [h]) [] (rs_previous_receipt_hash r))].

Definition statement_parse (s : string) : option ReceiptStatement :=
  match fields s with
  | Some l =>
      let a k := nth (pred k) l "" in
      action ← action_parse (a 17%nat); hashes ← fields (a 27%nat); arts ← fields (a 29%nat); arts ← mapM artifact_parse arts;
      previous ← fields (a 30%nat);
      Some {| rs_amendment_authorization := None; rs_tenant_id := (a 2%nat); rs_task_id := (a 3%nat); rs_account_id := (a 4%nat);
        rs_revision := num (a 5%nat); rs_generation := num (a 6%nat); rs_task_revision := num (a 7%nat);
        rs_authorization_policy_id := (a 8%nat); rs_authorization_policy_revision := num (a 9%nat);
        rs_authorization_policy_digest := (a 10%nat); rs_principal_scope := (a 11%nat); rs_authentication_method := (a 12%nat);
        rs_context_id := (a 13%nat); rs_request_digest := (a 14%nat); rs_idempotency_key_digest := (a 15%nat);
        rs_ratification_key_generation := (a 16%nat); rs_action := action; rs_rationale := (a 18%nat);
        rs_occurred_at_millis := unint (a 19%nat); rs_idempotency_key := (a 20%nat); rs_checkpoint_hash := (a 21%nat);
        rs_packet_hash := (a 22%nat); rs_completion_policy_id := (a 23%nat); rs_completion_policy_version := num (a 24%nat);
        rs_completion_policy_hash := (a 25%nat); rs_evidence_snapshot_hash := (a 26%nat); rs_evidence_hashes := hashes;
        rs_artifact_set_digest := (a 28%nat); rs_artifacts := arts; rs_previous_receipt_hash := head previous |}
  | _ => None
  end.

Definition receipt_raw (r : HumanRatificationReceipt) : string :=
  cells [statement_raw r; receipt_hash r; human_seal r].
Definition receipt_parse (s : string) : option HumanRatificationReceipt :=
  match fields s with
  | Some [r; h; m] => r ← statement_parse r; Some {| statement := r; receipt_hash := h; human_seal := m |}
  | _ => None
  end.

Fixpoint json_raw (j : json) : string :=
  match j with
  | JNull => "null"
  | JBool b => if b then "true" else "false"
  | JNumber n => n
  | JString s => s
  | JArray l => "[" +:+ (fix go l := match l with [] => "]" | x :: l => json_raw x +:+ "," +:+ go l end) l
  | JObject m =>
      "{" +:+ (fix go m := match m with [] => "}" | (k, x) :: m => k +:+ ":" +:+ json_raw x +:+ "," +:+ go m end) m
  end.

(** An artifact with nothing but its identifier is written as that. *)
Definition named_artifact (s : string) : Artifact := {|
  Protocol.artifact_id := s; Protocol.artifact_name := None; description := None; artifact_parts := [];
  artifact_metadata := None; artifact_extensions := None |}.

Definition named_artifact_value (a : Artifact) : result string json :=
  if bool_decide (a = named_artifact (Protocol.artifact_id a)) then Ok (JString (Protocol.artifact_id a))
  else Err "not representable".

(** A completed task in one context. *)
Definition named_task (s : string) (arts : list string) : Task := {|
  id := s; context_id := "context";
  status := {| state := Completed; status_message := None; timestamp := None |};
  artifacts := Some (named_artifact <$> arts); Protocol.history := None; metadata := None |}.
Definition task_raw (t : Task) : string :=
  cells [id t; cells (Protocol.artifact_id <$> default [] (artifacts t))].
Definition task_parse (s : string) : option Task :=
  match fields s with
  | Some [i; arts] => arts ← fields arts; Some (named_task i arts)
  | _ => None
  end.

#[local] Instance run_codec : RatificationCodec := {|
  ser_packet_statement := checked packet_statement_raw packet_statement_parse;
  ser_receipt_statement := fun s => Ok (statement_raw s);
  ser_packet := checked packet_raw packet_parse;
  packet_from_slice := packet_parse;
  ser_human_receipt := checked receipt_raw receipt_parse;
  human_receipt_from_slice := receipt_parse;
  ser_value := fun j => Ok (json_raw j);
  published_from_str := fun s => Some (named_artifact s);
  artifact_to_value := named_artifact_value;
  artifacts_to_value := fun l => Ok (JArray ((fun a => JString (Protocol.artifact_id a)) <$> l));
  publication_from_str := task_parse;
  ser_task := checked task_raw task_parse;
  ser_result := fun _ => Ok "result";
  ser_transcript := fun _ => Ok "transcript";
  ser_texts := fun l => Ok (cells l) |}.

Lemma run_json_laws : json_laws.
Proof. split; intros v b; apply checked_roundtrip. Qed.

Lemma run_packets_faithful : faithful PacketStatement.
Proof. apply checked_faithful. Qed.

Lemma named_artifact_text a text : artifact_json a = Ok text -> a = named_artifact text.
Proof.
  unfold artifact_json. cbn. unfold named_artifact_value. case_bool_decide; [|done]. by intros [= <-].
Qed.

Lemma run_publication_laws : publication_laws.
Proof.
  split; [intros v b; apply checked_roundtrip|].
  intros a a' text Ha%named_artifact_text Ha'%named_artifact_text. congruence.
Qed.

(** ** The run *)

Definition run_key : string := "key".
Definition run_manifest : list (string * string * string * string) := [("table", "t", "t", "CREATE TABLE t")].
Definition fresh_database : Database :=
  {| application_id := 0; user_version := 0; objects := []; tables := empty_tables |}.
Definition d (s : string) : string := content_digest s.

Definition run_input (generation : N) : ReviewPacketInput := {|
  in_task_id := "task"; in_tenant_id := "tenant"; in_generation := generation; in_task_revision := 1;
  in_authorization_policy_id := "policy"; in_authorization_policy_revision := 1;
  in_authorization_policy_digest := d "policy"; in_principal_scope := "scope"; in_authentication_method := "method";
  in_context_id := "context"; in_request_digest := d "request"; in_idempotency_key_digest := d "key";
  in_ratification_key_generation := d "generation"; in_checkpoint := "checkpoint";
  in_checkpoint_hash := d "checkpoint"; in_completion_policy_id := "completion"; in_completion_policy_version := 1;
  in_completion_policy_hash := d "completion"; in_evidence_snapshot_hash := d "snapshot";
  in_artifact_set_digest := d "[artifact,]"; in_evidence := ["evidence"]; in_evidence_hashes := [d "evidence"];
  in_artifacts := [{| ra_name := "a"; ra_media_type := "text/plain"; ra_canonical_json := "artifact";
                      ra_digest := d "artifact" |}];
  in_approved_task_digest := d "task"; in_approved_result_digest := d "result";
  in_approved_transcript_digest := d "transcript"; in_uncertainty_summary := "none"; in_created_at_millis := 0 |}.

Definition run_review (account : string) (p : ReviewPacket) : ReviewAcknowledgement := {|
  ack_tenant_id := in_tenant_id p; ack_task_id := in_task_id p; ack_generation := in_generation p;
  ack_account_id := account; ack_authorization_policy_id := in_authorization_policy_id p;
  ack_authorization_policy_revision := in_authorization_policy_revision p;
  ack_authorization_policy_digest := in_authorization_policy_digest p; ack_principal_scope := "scope";
  ack_authentication_method := "method"; ack_context_id := in_context_id p;
  ack_request_digest := in_request_digest p; ack_ratification_key_generation := in_ratification_key_generation p;
  ack_expected_revision := 0; ack_checkpoint_hash := in_checkpoint_hash p; ack_packet_hash := packet_hash p;
  ack_evidence_hashes := in_evidence_hashes p; ack_artifact_hashes := ra_digest <$> in_artifacts p;
  ack_artifact_manifest_digest := in_artifact_set_digest p; ack_uncertainty_acknowledged := true;
  ack_idempotency_key := "review-1"; ack_reviewed_at_millis := 10 |}.

Definition run_decision (account : string) (expected : N) (decision : HumanDecision) (p : ReviewPacket) :
    RatificationCommand := {|
  cmd_tenant_id := in_tenant_id p; cmd_task_id := in_task_id p; cmd_generation := in_generation p;
  cmd_account_id := account; cmd_authorization_policy_id := in_authorization_policy_id p;
  cmd_authorization_policy_revision := in_authorization_policy_revision p;
  cmd_authorization_policy_digest := in_authorization_policy_digest p; cmd_principal_scope := "scope";
  cmd_authentication_method := "method"; cmd_context_id := in_context_id p;
  cmd_request_digest := in_request_digest p; cmd_ratification_key_generation := in_ratification_key_generation p;
  cmd_expected_revision := expected; cmd_checkpoint_hash := in_checkpoint_hash p; cmd_packet_hash := packet_hash p;
  cmd_artifact_manifest_digest := in_artifact_set_digest p; cmd_idempotency_key := "decision-1";
  cmd_decision := decision; cmd_rationale := "because"; cmd_decided_at_millis := 20 |}.

(** The value of a computation that succeeds. *)
Definition value {A} (r : result RatificationError A) (default : A) : A :=
  match r with Ok a => a | Err _ => default end.

Definition no_packet : ReviewPacket :=
  {| input := run_input 1; packet_revision := 0; packet_hash := ""; packet_seal := "" |}.
Definition no_receipt : HumanRatificationReceipt :=
  {| statement := new_statement no_packet "" "" "" "" 0 ReviewAcknowledged "" 0 None;
     receipt_hash := ""; human_seal := "" |}.

Definition run_db : Database := Eval vm_compute in value (open run_manifest fresh_database run_key) fresh_database.
Definition tables0 : Tables := Eval vm_compute in tables run_db.
Definition frozen1 : Tables * ReviewPacket := Eval vm_compute in
  value (freeze_packet run_key tables0 (run_input 1)) (tables0, no_packet).
Definition reviewed2 : Tables * HumanRatificationReceipt := Eval vm_compute in
  value (acknowledge_review run_key frozen1.1 (run_review "alice" frozen1.2)) (tables0, no_receipt).
Definition decided3 : Tables * HumanRatificationReceipt := Eval vm_compute in
  value (decide_ratification run_key reviewed2.1 (run_decision "alice" 1 Approve frozen1.2)) (tables0, no_receipt).
Definition decided4 : Tables * HumanRatificationReceipt := Eval vm_compute in
  value (decide_ratification run_key decided3.1 (run_decision "mallory" 2 Reject frozen1.2)) (tables0, no_receipt).

Lemma run_opens : open run_manifest fresh_database run_key = Ok run_db.
Proof. vm_compute. reflexivity. Qed.

Lemma run_initialized : initialize_ledger_schema run_manifest run_key = Ok run_db.
Proof. vm_compute. reflexivity. Qed.

Lemma run_freezes : freeze_packet run_key (tables run_db) (run_input 1) = Ok frozen1.
Proof. vm_compute. reflexivity. Qed.

Lemma run_reviews : acknowledge_review run_key frozen1.1 (run_review "alice" frozen1.2) = Ok reviewed2.
Proof. vm_compute. reflexivity. Qed.

Lemma run_decides :
  decide_ratification run_key reviewed2.1 (run_decision "alice" 1 Approve frozen1.2) = Ok decided3.
Proof. vm_compute. reflexivity. Qed.

Lemma run_overrides :
  decide_ratification run_key decided3.1 (run_decision "mallory" 2 Reject frozen1.2) = Ok decided4.
Proof. vm_compute. reflexivity. Qed.

Lemma frozen_steps : rtc (ratification_step run_key) (tables run_db) frozen1.1.
Proof. exact (rtc_once _ _ (step_freeze run_key _ frozen1.1 (run_input 1) frozen1.2 run_freezes)). Qed.

Lemma decided_steps : rtc (ratification_step run_key) (tables run_db) decided3.1.
Proof.
  etrans; [apply frozen_steps|].
  exact (rtc_l _ _ _ _ (step_acknowledge run_key _ reviewed2.1 _ reviewed2.2 run_reviews)
           (rtc_once _ _ (step_decide run_key _ decided3.1 _ decided3.2 run_decides))).
Qed.

Lemma decided_reachable : reachable run_key decided3.1.
Proof. exists run_manifest, run_db. split; [apply run_initialized|apply decided_steps]. Qed.

Lemma run_starts : represents run_key empty_chronicle (tables run_db).
Proof.
  destruct (initialize_ok run_manifest run_key run_url_laws) as (d' & Hd & Hrep & _).
  rewrite run_initialized in Hd. by injection Hd as <-.
Qed.

(** ** The theorems on the run *)

Lemma i64_check z : ((- 2 ^ 63 <=? z) && (z <? 2 ^ 63))%Z = true -> i64 z.
Proof. intros Hz. unfold i64. inv_ok. lia. Qed.

Lemma decided_i64 : i64_tables decided3.1.
Proof. split; repeat constructor; apply i64_check; reflexivity. Qed.

Lemma decided_validates : validate_ledger_state run_key decided3.1 = Ok tt.
Proof. vm_compute. reflexivity. Qed.


Lemma ledger_refines_witness :
  refines run_key empty_chronicle (tables run_db) (freeze_packet run_key (tables run_db) (run_input 1))
    (spec_freeze run_key empty_chronicle (run_input 1)).
Proof.
  exact (proj1 (ledger_refines run_key empty_chronicle (tables run_db) run_json_laws run_url_laws run_starts
                  (empty_chronicle_ok run_key)) (run_input 1)).
Defined.

Lemma ledger_reopens_witness :
  let d' := {| application_id := application_id run_db; user_version := user_version run_db;
               objects := objects run_db; tables := decided3.1 |} in
  open run_manifest d' run_key = Ok d' /\
  exists m, metadata_row decided3.1 = Some m /\ (footprint m decided3.1 <= LEDGER_RETAINED_AUTHORITY_LIMIT)%N.
Proof.
  exact (ledger_reopens run_manifest run_key fresh_database run_db decided3.1 run_json_laws run_url_laws
           ltac:(discriminate) eq_refl run_opens decided_steps).
Defined.

Lemma decided_history : history_at_generation run_key decided3.1 "tenant" "task" 1 = Ok [reviewed2.2; decided3.2].
Proof. vm_compute. reflexivity. Qed.


Lemma ledger_append_only_witness : extends (tables run_db) decided3.1.
Proof. exact (ledger_append_only run_key _ _ decided_steps). Defined.

Lemma frozen_reachable : reachable run_key frozen1.1.
Proof. exists run_manifest, run_db. split; [apply run_initialized|apply frozen_steps]. Qed.

Lemma commands_idempotent_witness :
  acknowledge_review run_key reviewed2.1 (reviewed_at 99 (run_review "alice" frozen1.2)) = Ok reviewed2.
Proof.
  exact (proj1 (commands_idempotent run_key frozen1.1 99 run_json_laws run_url_laws frozen_reachable)
           _ reviewed2.1 reviewed2.2 run_reviews).
Defined.

(** *** Packets and publication *)

Lemma frozen_verifies : verify_packet frozen1.2 run_key = Ok tt.
Proof. vm_compute. reflexivity. Qed.

Lemma packet_seal_binds_witness :
  frozen1.2 = frozen1.2 \/ sha256_collision \/ hmac_collision run_key.
Proof.
  exact (packet_seal_binds run_key frozen1.2 frozen1.2 run_url_laws run_packets_faithful
           frozen_verifies frozen_verifies eq_refl).
Defined.

Definition run_candidate : AuthoritativeReviewCandidate := {|
  cand_completion_policy_id := "completion"; cand_completion_policy_version := 1;
  cand_completion_policy_hash := d "completion"; cand_checkpoint := "checkpoint";
  cand_evidence := ["evidence"]; cand_uncertainty_summary := "none" |}.
Definition approved_task : Task := named_task "task" ["artifact"].
Definition submitted_task : Task := {|
  id := "task"; context_id := "context";
  status := {| state := Submitted; status_message := None; timestamp := None |};
  artifacts := None; Protocol.history := None; metadata := None |}.
Definition run_prepare : result A2AError PreparedRatification :=
  prepare_authoritative_review_candidate "tenant" "task" "message" approved_task (Sent_Task approved_task)
    [Stream_Task submitted_task] run_candidate 5.

Definition prepared : PreparedRatification := Eval vm_compute in
  match run_prepare with
  | Ok out => out
  | Err _ => {| packet_input := run_input 1; approved_task_json := ""; approved_result_json := "";
                approved_transcript_json := ""; awaiting_task := submitted_task;
                awaiting_result := Sent_Task submitted_task; awaiting_transcript := [] |}
  end.

Lemma run_prepares : run_prepare = Ok prepared.
Proof. vm_compute. reflexivity. Qed.

(** The packet of the candidate, before the store completes it. *)
Definition unfrozen : ReviewPacket :=
  {| input := packet_input prepared; packet_revision := 0; packet_hash := ""; packet_seal := "" |}.

Lemma prepared_decodes : decode_publication_task (approved_task_json prepared) = Ok approved_task.
Proof. vm_compute. reflexivity. Qed.


Lemma awaiting_discloses_nothing_witness :
  validate_terminal_public_transcript (awaiting_transcript prepared) (awaiting_task prepared) = Ok tt.
Proof.
  apply (awaiting_discloses_nothing _ _ _ _ _ _ _ _ prepared run_prepares).
  eexists _, _. split_and!; reflexivity.
Defined.

(** *** A decision without a review *)

(** C36: A second account of the tenant records a rejection after the first
    account's approval, with the idempotency key of that approval and no review of
    its own; the decision becomes the last receipt of the packet. *)
Theorem decision_without_review :
  exists t c t' r h,
    reachable run_key t /\ decide_ratification run_key t c = Ok (t', r) /\
    history_of run_key t' (cmd_tenant_id c) (cmd_task_id c) = Ok h /\
    last h = Some r /\ rs_action r = Decision_ Reject /\
    Forall (fun x : HumanRatificationReceipt => rs_action x = ReviewAcknowledged ->
              rs_account_id x <> rs_account_id r) h /\
    exists x, x ∈ h /\ rs_action (statement x) = Decision_ Approve.
Proof.
  exists decided3.1, (run_decision "mallory" 2 Reject frozen1.2), decided4.1, decided4.2,
    [reviewed2.2; decided3.2; decided4.2].
  split_and!; [apply decided_reachable|exact run_overrides|vm_compute; reflexivity|reflexivity|reflexivity| |].
  - repeat constructor; discriminate.
  - exists decided3.2. split; [set_solver|reflexivity].
Qed.
