(* ===== verification/Interleaved.v ===== *)
(** * Commands that interleave

    [acknowledge_review] and [decide] of [ratification.rs] take the ledger's lock
    several times: once to read the packet, [decide] once more to read the history,
    and once in [append_receipt].  Here a command is a thread that moves from one
    of these critical sections to the next while other threads move in between. *)

From S2P Require Import Prelude Text Protocol Policy Guard.
From S2P Require Import Review Ratification Sealing Chronicle Ratified RatifiedRuns.

(** The arguments of [append_receipt]. *)
Record Append := {
  ap_packet : ReviewPacket; ap_account : string; ap_principal : string; ap_method : string;
  ap_expected : N; ap_idempotency : string; ap_digest : string; ap_action : HumanRatificationAction;
  ap_rationale : string; ap_at : Z }.

(** Where a command stands: before its first lock, before the lock of [history],
    before the lock of [append_receipt]. *)
Inductive thread :=
  | Reviewing (a : ReviewAcknowledgement)
  | Deciding (c : RatificationCommand)
  | Judging (c : RatificationCommand) (packet : ReviewPacket) (digest : string)
  | Appending (x : Append).

Definition review_append (a : ReviewAcknowledgement) (packet : ReviewPacket) (digest : string) : Append := {|
  ap_packet := packet; ap_account := ack_account_id a; ap_principal := ack_principal_scope a;
  ap_method := ack_authentication_method a; ap_expected := ack_expected_revision a;
  ap_idempotency := ack_idempotency_key a; ap_digest := digest; ap_action := ReviewAcknowledged;
  ap_rationale := "exact evidence, artifacts, and uncertainty reviewed"; ap_at := ack_reviewed_at_millis a |}.

Definition decision_append (c : RatificationCommand) (packet : ReviewPacket) (digest : string) : Append := {|
  ap_packet := packet; ap_account := cmd_account_id c; ap_principal := cmd_principal_scope c;
  ap_method := cmd_authentication_method c; ap_expected := cmd_expected_revision c;
  ap_idempotency := cmd_idempotency_key c; ap_digest := digest; ap_action := Decision_ (cmd_decision c);
  ap_rationale := cmd_rationale c; ap_at := cmd_decided_at_millis c |}.

Section threads.
Context `{Sha256, HmacSha256, UrlBase64, RatificationCodec}.
Context (key : string).

(** [acknowledge_review] up to the append *)
Definition review_section (t : Tables) (a : ReviewAcknowledgement) : result RatificationError Append :=
  validate_id (ack_account_id a);;
  validate_id (ack_idempotency_key a);;
  fail_if (negb (principal_and_authentication_are_valid (ack_principal_scope a) (ack_authentication_method a)))
    InvalidInput;;
  found ← packet_of key t (ack_tenant_id a) (ack_task_id a);
  packet ← ok_or found NotFound;
  fail_if (negb (bool_decide (ack_evidence_hashes a = in_evidence_hashes (input packet)))
    || negb (bool_decide (ack_artifact_hashes a = ra_digest <$> in_artifacts packet))
    || negb (bool_decide (ack_artifact_manifest_digest a = in_artifact_set_digest packet))
    || negb (ack_uncertainty_acknowledged a)) ExactReviewRequired;;
  fail_if (negb (review_command_matches_packet a packet)) PreconditionFailed;;
  digest ← review_command_semantic_digest a;
  Ok (review_append a packet digest).

(** [decide] up to the read of the history *)
Definition packet_section (t : Tables) (c : RatificationCommand) :
    result RatificationError (ReviewPacket * string) :=
  validate_id (cmd_tenant_id c);;
  validate_id (cmd_task_id c);;
  validate_id (cmd_account_id c);;
  validate_id (cmd_idempotency_key c);;
  review_validate_text (cmd_rationale c);;
  fail_if (negb (principal_and_authentication_are_valid (cmd_principal_scope c) (cmd_authentication_method c)))
    InvalidInput;;
  found ← packet_of key t (cmd_tenant_id c) (cmd_task_id c);
  packet ← ok_or found NotFound;
  fail_if (negb (decision_command_matches_packet c packet)) PreconditionFailed;;
  digest ← decision_command_semantic_digest c;
  Ok (packet, digest).

(** [decide] from there to the append *)
Definition history_section (t : Tables) (c : RatificationCommand) (packet : ReviewPacket) (digest : string) :
    result RatificationError Append :=
  history ← history_of key t (cmd_tenant_id c) (cmd_task_id c);
  match last history with
  | None => Err ReviewRequired
  | Some receipt =>
      match rs_action (statement receipt) with
      | ReviewAcknowledged =>
          fail_if (negb (bool_decide (rs_account_id receipt = cmd_account_id c))) ReviewRequired
      | Decision_ _ =>
          fail_if (negb (bool_decide (rs_idempotency_key receipt = cmd_idempotency_key c))) PreconditionFailed
      end;;
      Ok (decision_append c packet digest)
  end.

Definition append_section (t : Tables) (x : Append) : result RatificationError (Tables * HumanRatificationReceipt) :=
  append_receipt key t (ap_packet x) (ap_account x) (ap_principal x) (ap_method x) (ap_expected x)
    (ap_idempotency x) (ap_digest x) (ap_action x) (ap_rationale x) (ap_at x).

(** One critical section: the tables after it, and the thread or the receipt it
    returns. *)
Definition move (t : Tables) (th : thread) :
    result RatificationError (Tables * (thread + HumanRatificationReceipt)) :=
  match th with
  | Reviewing a => x ← review_section t a; Ok (t, inl (Appending x))
  | Deciding c => '(packet, digest) ← packet_section t c; Ok (t, inl (Judging c packet digest))
  | Judging c packet digest => x ← history_section t c packet digest; Ok (t, inl (Appending x))
  | Appending x => '(t', r) ← append_section t x; Ok (t', inr r)
  end.

(** A command whose sections follow each other directly. *)
Fixpoint run_alone (sections : nat) (t : Tables) (th : thread) :
    result RatificationError (Tables * HumanRatificationReceipt) :=
  match sections with
  | O => Err Unavailable
  | S n =>
      '(t', next) ← move t th;
      match next with inl th' => run_alone n t' th' | inr r => Ok (t', r) end
  end.

(** The threads under way, in any order; a thread that fails is gone. *)
Inductive interleaving : Tables * list thread -> Tables * list thread -> Prop :=
  | il_freeze t t' ths i p : freeze_packet key t i = Ok (t', p) -> interleaving (t, ths) (t', ths)
  | il_review t ths a : interleaving (t, ths) (t, ths ++ [Reviewing a])
  | il_decide t ths c : interleaving (t, ths) (t, ths ++ [Deciding c])
  | il_move t t' before th th' after : move t th = Ok (t', inl th') ->
      interleaving (t, before ++ th :: after) (t', before ++ th' :: after)
  | il_return t t' before th r after : move t th = Ok (t', inr r) ->
      interleaving (t, before ++ th :: after) (t', before ++ after)
  | il_fail t before th e after : move t th = Err e ->
      interleaving (t, before ++ th :: after) (t, before ++ after).

(** What follows a bind that both sides share. *)
Lemma bind_same {A B C} (c : result RatificationError A) (k : A -> result RatificationError B) k2
    (k' : A -> result RatificationError C) :
  (forall a, k a ≫= k2 = k' a) -> (c ≫= k) ≫= k2 = c ≫= k'.
Proof. intros Hk. destruct c; [apply Hk|done]. Qed.

Lemma run_appending n t x : run_alone (S n) t (Appending x) = append_section t x.
Proof. cbn [run_alone move]. by destruct (append_section t x) as [[]|]. Qed.

Lemma run_reviewing n t a :
  run_alone (S (S n)) t (Reviewing a) = (review_section t a ≫= append_section t).
Proof. cbn [run_alone move]. destruct (review_section t a) as [x|]; [|done]. apply (run_appending n). Qed.

Lemma run_judging n t c packet digest :
  run_alone (S (S n)) t (Judging c packet digest) = (history_section t c packet digest ≫= append_section t).
Proof.
  cbn [run_alone move]. destruct (history_section t c packet digest) as [x|]; [|done]. apply (run_appending n).
Qed.

Lemma run_deciding n t c :
  run_alone (S (S (S n))) t (Deciding c)
  = ('(packet, digest) ← packet_section t c; x ← history_section t c packet digest; append_section t x).
Proof.
  change (run_alone (S (S (S n))) t (Deciding c)) with
    ('(t', next) ← move t (Deciding c);
     match next with inl th' => run_alone (S (S n)) t' th' | inr r => Ok (t', r) end).
  cbn [move]. destruct (packet_section t c) as [[packet digest]|]; [|done]. apply (run_judging n).
Qed.

Lemma reviewing_alone t a : run_alone 2 t (Reviewing a) = acknowledge_review key t a.
Proof.
  rewrite run_reviewing. unfold review_section, acknowledge_review.
  repeat (apply bind_same; intros ?). done.
Qed.

Lemma deciding_alone t c : run_alone 3 t (Deciding c) = decide_ratification key t c.
Proof.
  rewrite run_deciding. unfold packet_section, decide_ratification.
  repeat (apply bind_same; intros ?).
  match goal with |- context [last ?h] => destruct (last h) as [r|]; [|done] end.
  by destruct (rs_action r); case_bool_decide.
Qed.

Lemma alone_interleaves n t t' before th after r : run_alone n t th = Ok (t', r) ->
  rtc interleaving (t, before ++ th :: after) (t', before ++ after).
Proof.
  revert t th. induction n as [|n IH]; intros t th Hrun; [done|]. cbn [run_alone] in Hrun.
  apply bind_Ok_inv in Hrun as ([t1 [th'|r']] & Hm & Hrun).
  - eapply rtc_l; [by apply il_move|by apply IH].
  - injection Hrun as <- <-. apply rtc_once. by eapply il_return.
Qed.


(** *** What every interleaving keeps *)

Lemma move_extends t th t' next : move t th = Ok (t', next) -> extends t t'.
Proof.
  destruct th; cbn [move]; intros Hm; apply bind_Ok_inv in Hm as (y & Hy & Hm).
  1,3: by injection Hm as <- _; apply extends_refl.
  - destruct y. injection Hm as <- _. apply extends_refl.
  - destruct y. injection Hm as <- _. by eapply append_receipt_extends.
Qed.

Lemma interleaving_extends s s' : interleaving s s' -> extends s.1 s'.1.
Proof.
  destruct 1; simpl; try apply extends_refl; [|by eapply move_extends..].
  by eapply freeze_packet_extends.
Qed.

(** C24: Whatever commands run and however their critical sections
    interleave, the packets, roots and events already in the ledger keep their
    rows and their order. *)
Theorem interleaved_append_only s s' : rtc interleaving s s' -> extends s.1 s'.1.
Proof.
  induction 1 as [s|s s1 s' Hstep _ (Hp & Hr & He)]; [apply extends_refl|].
  apply interleaving_extends in Hstep as (Hp1 & Hr1 & He1). split_and!; by etrans.
Qed.

(** *** Tables that do not authenticate *)

Lemma append_reads t p ac pr me ex id di act ra z y :
  append_receipt key t p ac pr me ex id di act ra z = Ok y -> is_ok (authenticate_all key t) = true.
Proof.
  unfold append_receipt. intros Hf. do 3 apply bind_Ok_inv in Hf as (? & _ & Hf).
  apply bind_Ok_inv in Hf as (? & -> & _). done.
Qed.

Lemma commands_read t :
  (forall i y, freeze_packet key t i = Ok y -> is_ok (authenticate_all key t) = true) /\
  (forall th t' r, move t th = Ok (t', inr r) -> is_ok (authenticate_all key t) = true) /\
  (forall tenant task y, packet_of key t tenant task = Ok y -> is_ok (authenticate_all key t) = true) /\
  (forall tenant task y, history_of key t tenant task = Ok y -> is_ok (authenticate_all key t) = true).
Proof.
  split_and!.
  - intros i y Hf. unfold freeze_packet in Hf. do 2 apply bind_Ok_inv in Hf as (? & _ & Hf).
    by apply bind_Ok_inv in Hf as (? & -> & _).
  - intros th t' r Hm. destruct th; cbn [move] in Hm; apply bind_Ok_inv in Hm as (y & Hy & Hm); [done|by destruct y|done|].
    by eapply append_reads.
  - intros tenant task y Hf. unfold packet_of in Hf. do 2 apply bind_Ok_inv in Hf as (? & _ & Hf).
    by apply bind_Ok_inv in Hf as (? & -> & _).
  - intros tenant task y Hf. unfold history_of in Hf. do 2 apply bind_Ok_inv in Hf as (? & _ & Hf).
    by apply bind_Ok_inv in Hf as (? & -> & _).
Qed.
End threads.

(** ** A race

    One account reviews generation 1 and sends two decisions at once, an approval
    that expects revision 2 and an amendment.  The approval has read the history
    when the amendment is recorded and generation 2 is frozen; it is then appended
    to generation 1, whose history no longer is one that may be followed by another
    generation, and the ledger is not readable any more. *)

Definition racing : RatificationCommand :=
  let c := run_decision "alice" 2 Approve frozen1.2 in {|
  cmd_tenant_id := cmd_tenant_id c; cmd_task_id := cmd_task_id c; cmd_generation := cmd_generation c;
  cmd_account_id := cmd_account_id c; cmd_authorization_policy_id := cmd_authorization_policy_id c;
  cmd_authorization_policy_revision := cmd_authorization_policy_revision c;
  cmd_authorization_policy_digest := cmd_authorization_policy_digest c;
  cmd_principal_scope := cmd_principal_scope c; cmd_authentication_method := cmd_authentication_method c;
  cmd_context_id := cmd_context_id c; cmd_request_digest := cmd_request_digest c;
  cmd_ratification_key_generation := cmd_ratification_key_generation c;
  cmd_expected_revision := cmd_expected_revision c; cmd_checkpoint_hash := cmd_checkpoint_hash c;
  cmd_packet_hash := cmd_packet_hash c; cmd_artifact_manifest_digest := cmd_artifact_manifest_digest c;
  cmd_idempotency_key := "decision-2"; cmd_decision := cmd_decision c; cmd_rationale := cmd_rationale c;
  cmd_decided_at_millis := cmd_decided_at_millis c |}.

#[local] Existing Instances run_sha256 run_hmac run_url run_codec.

Definition racing_append : Append := Eval vm_compute in
  match packet_section run_key reviewed2.1 racing with
  | Ok (p, digest) => decision_append racing p digest
  | Err _ => decision_append racing no_packet ""
  end.
Definition amended3 : Tables * HumanRatificationReceipt := Eval vm_compute in
  value (decide_ratification run_key reviewed2.1 (run_decision "alice" 1 Amend frozen1.2)) (tables0, no_receipt).
Definition refrozen4 : Tables * ReviewPacket := Eval vm_compute in
  value (freeze_packet run_key amended3.1 (run_input 2)) (tables0, no_packet).
Definition raced5 : Tables * HumanRatificationReceipt := Eval vm_compute in
  value (append_section run_key refrozen4.1 racing_append) (tables0, no_receipt).

Lemma racing_packet :
  packet_section run_key reviewed2.1 racing = Ok (ap_packet racing_append, ap_digest racing_append).
Proof. vm_compute. reflexivity. Qed.

Lemma racing_history :
  history_section run_key reviewed2.1 racing (ap_packet racing_append) (ap_digest racing_append) = Ok racing_append.
Proof. vm_compute. reflexivity. Qed.

Lemma racing_appends : append_section run_key refrozen4.1 racing_append = Ok raced5.
Proof. vm_compute. reflexivity. Qed.

Lemma run_refreezes : freeze_packet run_key amended3.1 (run_input 2) = Ok refrozen4.
Proof. vm_compute. reflexivity. Qed.

Lemma run_amends :
  decide_ratification run_key reviewed2.1 (run_decision "alice" 1 Amend frozen1.2) = Ok amended3.
Proof. vm_compute. reflexivity. Qed.

Lemma raced_unreadable : authenticate_all run_key raced5.1 = Err Integrity.
Proof. vm_compute. reflexivity. Qed.

Lemma raced_interleaves : rtc (interleaving run_key) (tables run_db, []) (raced5.1, []).
Proof.
  eapply rtc_l; [exact (il_freeze run_key _ frozen1.1 [] _ frozen1.2 run_freezes)|].
  eapply rtc_l; [apply (il_review run_key _ [] (run_review "alice" frozen1.2))|].
  etrans; [apply (alone_interleaves run_key 2 frozen1.1 reviewed2.1 [] _ [] reviewed2.2);
           rewrite reviewing_alone; exact run_reviews|].
  eapply rtc_l; [apply (il_decide run_key _ [] racing)|]. cbn [app].
  eapply rtc_l; [apply (il_move run_key _ reviewed2.1 [] _
                   (Judging racing (ap_packet racing_append) (ap_digest racing_append)) []);
                 cbn [move]; by rewrite racing_packet|].
  eapply rtc_l; [apply (il_move run_key _ reviewed2.1 [] _ (Appending racing_append) []);
                 cbn [move]; by rewrite racing_history|].
  eapply rtc_l; [apply (il_decide run_key _ _ (run_decision "alice" 1 Amend frozen1.2))|].
  etrans; [apply (alone_interleaves run_key 3 reviewed2.1 amended3.1 [Appending racing_append] _ [] amended3.2);
           rewrite deciding_alone; exact run_amends|].
  eapply rtc_l; [exact (il_freeze run_key _ refrozen4.1 _ _ refrozen4.2 run_refreezes)|].
  apply rtc_once, (il_return run_key _ raced5.1 [] _ raced5.2 []).
  cbn [move]. by rewrite racing_appends.
Qed.

Lemma raced_not_read : is_ok (authenticate_all run_key raced5.1) = true -> False.
Proof. rewrite raced_unreadable. discriminate. Qed.

Lemma raced_closed :
  open run_manifest {| application_id := application_id run_db; user_version := user_version run_db;
                       objects := objects run_db; tables := raced5.1 |} run_key = Err Integrity.
Proof. vm_compute. reflexivity. Qed.

Lemma not_Ok {E A} (c : result E A) : (forall a, c = Ok a -> False) -> is_ok c = false.
Proof. intros Hc. destruct c as [a|]; [by destruct (Hc a)|done]. Qed.

(** C35: Two decisions of one account that race, one of them for a revision the
    other is about to make, lead an opened ledger to tables that no longer
    authenticate: no packet is frozen, no command recorded and nothing read from
    then on, and the file does not open again. *)
Theorem race_corrupts_ledger :
  exists d t, open run_manifest fresh_database run_key = Ok d /\
    rtc (interleaving run_key) (tables d, []) (t, []) /\
    authenticate_all run_key t = Err Integrity /\
    (forall i, is_ok (freeze_packet run_key t i) = false) /\
    (forall th t' r, move run_key t th <> Ok (t', inr r)) /\
    (forall tenant task, is_ok (packet_of run_key t tenant task) = false) /\
    (forall tenant task, is_ok (history_of run_key t tenant task) = false) /\
    open run_manifest {| application_id := application_id d; user_version := user_version d;
                         objects := objects d; tables := t |} run_key = Err Integrity.
Proof.
  exists run_db, raced5.1. split; [exact run_opens|]. split; [exact raced_interleaves|].
  split; [exact raced_unreadable|].
  destruct (commands_read run_key raced5.1) as (Hf & Hm & Hp & Hh).
  split; [intros i; apply not_Ok; intros y Hy; exact (raced_not_read (Hf i y Hy))|].
  split; [intros th t' r Heq; exact (raced_not_read (Hm th t' r Heq))|].
  split; [intros tenant task; apply not_Ok; intros y Hy; exact (raced_not_read (Hp _ _ y Hy))|].
  split; [intros tenant task; apply not_Ok; intros y Hy; exact (raced_not_read (Hh _ _ y Hy))|].
  exact raced_closed.
Qed.

Lemma interleaved_append_only_witness : extends (tables run_db) raced5.1.
Proof. exact (interleaved_append_only run_key (tables run_db, []) (raced5.1, []) raced_interleaves). Defined.
