(* ===== verification/Scanner.v ===== *)
(** * The semantic scanner

    [trace_privacy.rs], the detectors of sensitive text: credentials, tokens, JWTs,
    e-mail addresses, social security numbers and clinical markers in one string,
    and the closed set of redaction marks.  The functions of [str] they use come
    first. *)

From S2P Require Import Prelude Text.

(** ** [str] *)

(** The characters of a string, each with its bytes. *)
Fixpoint char_pieces (s : string) : list (N * string) :=
  match s with
  | EmptyString => []
  | String a r =>
      let x := code a in
      if (x <? 128)%N then (x, String a "") :: char_pieces r
      else if (x <? 224)%N then
        match r with
        | String b r2 => (((x - 192) * 64 + (code b - 128))%N, String a (String b "")) :: char_pieces r2
        | _ => []
        end
      else if (x <? 240)%N then
        match r with
        | String b (String c r3) =>
            (((x - 224) * 4096 + (code b - 128) * 64 + (code c - 128))%N,
             String a (String b (String c ""))) :: char_pieces r3
        | _ => []
        end
      else
        match r with
        | String b (String c (String d r4)) =>
            (((x - 240) * 262144 + (code b - 128) * 4096 + (code c - 128) * 64 + (code d - 128))%N,
             String a (String b (String c (String d "")))) :: char_pieces r4
        | _ => []
        end
  end.

Definition of_pieces (l : list (N * string)) : string := foldr (fun c rest => c.2 +:+ rest) "" l.

(** [s.split(p)] *)
Fixpoint split_pieces (p : N -> bool) (l : list (N * string)) : list string :=
  match l with
  | [] => [""]
  | (c, b) :: l =>
      if p c then "" :: split_pieces p l
      else match split_pieces p l with
           | first :: rest => (b +:+ first) :: rest
           | [] => [b]
           end
  end.
Definition split (p : N -> bool) (s : string) : list string := split_pieces p (char_pieces s).

Fixpoint skip_while (p : N -> bool) (l : list (N * string)) : list (N * string) :=
  match l with
  | (c, b) :: rest => if p c then skip_while p rest else l
  | [] => []
  end.
(** [s.trim_start_matches(p)], [s.trim_matches(p)], [s.trim()] *)
Definition trim_start_matches (p : N -> bool) (s : string) : string := of_pieces (skip_while p (char_pieces s)).
Definition trim_matches (p : N -> bool) (s : string) : string :=
  of_pieces (rev (skip_while p (rev (skip_while p (char_pieces s))))).
Definition trim : string -> string := trim_matches is_whitespace.

Definition ascii_char (p : ascii -> bool) (c : N) : bool := (c <? 128)%N && p (Ascii.ascii_of_N c).

(** [s.find(needle)], as the rest of [s] after the first occurrence *)
Fixpoint find_after (needle s : string) : option string :=
  match strip_prefix needle s with
  | Some rest => Some rest
  | None => match s with String _ s => find_after needle s | EmptyString => None end
  end.
Definition contains (needle s : string) : bool := is_some (find_after needle s).
Definition starts_with (prefix s : string) : bool := is_some (strip_prefix prefix s).

Fixpoint split_once (c : ascii) (s : string) : option (string * string) :=
  match s with
  | EmptyString => None
  | String a s =>
      if bool_decide (a = c) then Some ("", s)
      else '(l, r) ← split_once c s; Some (String a l, r)
  end.

(** Splits at the last [c]. *)
Fixpoint rsplit_once (c : ascii) (s : string) : option (string * string) :=
  match s with
  | EmptyString => None
  | String a s =>
      match rsplit_once c s with
      | Some (l, r) => Some (String a l, r)
      | None => if bool_decide (a = c) then Some ("", s) else None
      end
  end.

Fixpoint take_bytes_while (p : ascii -> bool) (s : string) : string :=
  match s with
  | String c s => if p c then String c (take_bytes_while p s) else ""
  | EmptyString => ""
  end.

(** What follows the first of [prefixes] the token starts with *)
Fixpoint after_prefix (prefixes : list string) (token : string) : option string :=
  match prefixes with
  | [] => None
  | p :: ps => match strip_prefix p token with Some rest => Some rest | None => after_prefix ps token end
  end.

(** ** Detectors *)

Definition github_token (token : string) : bool :=
  is_some_and (after_prefix ["ghp_"; "gho_"; "ghu_"; "ghs_"; "ghr_"; "github_pat_"] token)
    (fun rest => (20 <=? slen rest)%N && str_all (fun c => is_ascii_alphanumeric c || byte_in "_" c) rest).

Definition api_secret_token (token : string) : bool :=
  match after_prefix ["sk-proj-"; "sk-svcacct-"] token with
  | None =>
      is_some_and (strip_prefix "sk-" token)
        (fun rest => (23 <=? slen token)%N && str_all is_ascii_alphanumeric rest)
  | Some rest =>
      (20 <=? slen rest)%N && str_all (fun c => is_ascii_alphanumeric c || byte_in "-_" c) rest
  end.

Definition contains_secret_token (text : string) : bool :=
  existsb (fun token =>
    ((slen token =? 20)%N && (starts_with "AKIA" token || starts_with "ASIA" token)
     && str_all (fun c => is_ascii_uppercase c || is_ascii_digit c) token)
    || github_token token || api_secret_token token)
    (split (fun c => negb (ascii_char (fun c => is_ascii_alphanumeric c || byte_in "_-" c) c)) text).

(** [needle] at the start of [s] in any case, and the rest of [s] *)
Fixpoint strip_prefix_any_case (needle s : string) : option string :=
  match needle, s with
  | EmptyString, _ => Some s
  | String a needle, String b s =>
      if bool_decide (a = to_ascii_lowercase b) then strip_prefix_any_case needle s else None
  | String _ _, EmptyString => None
  end.

(** What follows the word [bearer]: a separator and a token that is no English word. *)
Definition bearer_token (remainder : string) : bool :=
  let separator c := is_whitespace c || ascii_char (byte_in ":=") c in
  match head (chars remainder) with
  | None => false
  | Some c =>
      separator c &&
      (let token := take_bytes_while (fun c => is_ascii_alphanumeric c || byte_in "-._~+/=" c)
                      (trim_start_matches separator remainder) in
       negb (bool_decide (token = ""))
       && negb (bool_decide (lowercase token = "of") || bool_decide (lowercase token = "the")))
  end.

(** The matches of [bearer] do not overlap, so every position is tried;
    [boundary] says that the byte before is not alphanumeric. *)
Fixpoint bearer_from (boundary : bool) (s : string) : bool :=
  (boundary && is_some_and (strip_prefix_any_case "bearer" s) bearer_token)
  || match s with
     | String c s => bearer_from (negb (is_ascii_alphanumeric c)) s
     | EmptyString => false
     end.
Definition contains_bearer_credential (text : string) : bool := bearer_from true text.

Definition is_token_byte (c : ascii) : bool := is_ascii_alphanumeric c || byte_in "-_" c.

Definition looks_like_jwt (value : string) : bool :=
  let token := trim_matches (fun c => negb (ascii_char (fun c => is_token_byte c || byte_in "." c) c)) value in
  let parts := split (fun c => (c =? 46)%N) token in
  (length parts =? 3)%nat && is_some_and (head parts) (starts_with "eyJ")
  && forallb (fun part => (3 <=? slen part)%N && str_all is_token_byte part) parts.

Definition contains_jwt (text : string) : bool :=
  existsb looks_like_jwt (split (fun c => negb (ascii_char (fun c => is_token_byte c || byte_in "." c) c)) text).

Definition looks_like_email (text : string) : bool :=
  existsb (fun word =>
    is_some_and (rsplit_once (Ascii.ascii_of_N 64) word) (fun '(local, domain) =>
      negb (bool_decide (local = ""))
      && is_some_and (split_once (Ascii.ascii_of_N 46) domain) (fun '(name, suffix) =>
           negb (bool_decide (name = "")) && (2 <=? slen suffix)%N)))
    (split (fun c => is_whitespace c || ascii_char (byte_in "<>(),;") c) text).

(** The window of eleven bytes at the start of [s]: digits but for the dashes at
    positions 3 and 6. *)
Definition ssn_here (s : string) : bool :=
  match s with
  | String a (String b (String c (String d (String e (String f (String g (String h (String i (String j (String k _)))))))))) =>
      byte_in "-" d && byte_in "-" g && forallb is_ascii_digit [a; b; c; e; f; h; i; j; k]
  | _ => false
  end.
Fixpoint contains_ssn (s : string) : bool :=
  ssn_here s || match s with String _ s => contains_ssn s | EmptyString => false end.

Definition clinical_markers : list string :=
  ["patient:"; "patient id:"; "patient name:"; "mrn:"; "mrn "; "insurance:"; "insurance policy:"].

Definition sensitive_text (text : string) : bool :=
  let lower := lowercase text in
  (contains "-----begin " lower && contains "private key-----" lower)
  || contains "-----begin openssh private key-----" lower
  || contains_bearer_credential text
  || contains_jwt text || contains_secret_token text || looks_like_email text || contains_ssn text
  || existsb (fun marker => is_some_and (find_after marker lower) (fun rest => (2 <=? slen (trim rest))%N))
       clinical_markers.

Definition sensitive_key_name (key : string) : bool :=
  existsb (fun marker => contains marker key)
    ["password"; "passwd"; "secret"; "apikey"; "accesstoken"; "refreshtoken"; "sessiontoken"; "authorization";
     "privatekey"; "cookie"; "token"; "credential"; "passphrase"].

(** The alphanumeric characters of a key, in lower case *)
Fixpoint semantic_key (key : string) : string :=
  match key with
  | EmptyString => ""
  | String c key =>
      if is_ascii_alphanumeric c then String (to_ascii_lowercase c) (semantic_key key) else semantic_key key
  end.

Definition is_redaction_placeholder (text : string) : bool :=
  bool_decide (text ∈ ["[REDACTED:INTERNAL]"; "[REDACTED:CONFIDENTIAL]"; "[REDACTED:PII]"; "[REDACTED:PHI]"]).

Section handles.
Context `{UrlBase64}.

Definition is_stable_handle (text : string) : bool :=
  is_some_and (strip_prefix "hmac-sha256:" text ≫= url_decode) (fun digest => (slen digest =? 32)%N).

Definition is_redacted_field_name (text : string) : bool :=
  is_some_and (strip_prefix "redacted-field-" text) is_stable_handle.
End handles.
