(* ===== verification/Redaction.v ===== *)
(** * Privacy policies and redaction

    [trace_privacy.rs]: redaction rules and the policies they form, RFC 6901
    pointers, the check that every value of a record is classified, and the
    transformation of a record by a rule.  A record is mutated in place in the
    code; here an operation gives the new value, and on an error the record is
    dropped as a whole. *)

From stdpp Require Import pretty.
From S2P Require Import Prelude Text Protocol Scanner.

Definition PRIVACY_MAX_TOTAL_BYTES : N := 16 * 1024 * 1024.
Definition PRIVACY_MAX_LINE_BYTES : N := 64 * 1024.
Definition PRIVACY_MAX_RECORDS : N := 100000.
Definition MAX_DEPTH : N := 64.

(** ** Rules and policies *)

Inductive DataClass := ClassPublic | ClassInternal | ClassConfidential | Pii | Phi | ClassSecret.
Inductive RedactionAction := Keep | Placeholder | StableHandle | DropValue.

Record RedactionRule := {
  pointer : string;
  class : DataClass;
  redaction : RedactionAction;
  stable_identifier : bool;
  fictional_provenance : option string }.

Record PrivacyPolicy := {
  pp_policy_id : string;
  pp_policy_revision : N;
  pp_key_generation : string;
  rules : list RedactionRule }.

Inductive PrivacyError :=
  | MalformedPolicy | DuplicateRule | OverlappingRule | InvalidPointer | UnsupportedClassAction
  | UnmatchedRule | UnclassifiedValue | MalformedInput | LimitExceeded | SensitiveContent
  | InvalidStableIdentifier | VerificationFailed.

#[global] Instance DataClass_eq_dec : EqDecision DataClass.
Proof. solve_decision. Defined.
#[global] Instance RedactionAction_eq_dec : EqDecision RedactionAction.
Proof. solve_decision. Defined.
#[global] Instance RedactionRule_eq_dec : EqDecision RedactionRule.
Proof. solve_decision. Defined.
#[global] Instance PrivacyPolicy_eq_dec : EqDecision PrivacyPolicy.
Proof. solve_decision. Defined.

Definition valid_public_label (value : string) : bool :=
  negb (bool_decide (value = "")) && (slen value <=? 256)%N
  && str_all (fun c => is_ascii_alphanumeric c || byte_in "-_.:/" c) value.

Definition validate_rule_pair (r : RedactionRule) : result PrivacyError unit :=
  let unprovenanced := negb (is_some (fictional_provenance r)) in
  let allowed :=
    match class r, redaction r with
    | ClassPublic, Keep => is_some_and (fictional_provenance r) (fun v => negb (bool_decide (v = "")))
    | (ClassInternal | ClassConfidential | Pii | Phi), Placeholder => negb (stable_identifier r) && unprovenanced
    | (ClassInternal | ClassConfidential | Pii | Phi), StableHandle => stable_identifier r && unprovenanced
    | ClassSecret, DropValue => negb (stable_identifier r) && unprovenanced
    | _, _ => false
    end in
  fail_if (negb allowed) UnsupportedClassAction.

(** ** Pointers *)

Definition slash : ascii := Ascii.ascii_of_N 47.
Definition tilde : ascii := Ascii.ascii_of_N 126.
Definition digit0 : ascii := Ascii.ascii_of_N 48.
Definition digit1 : ascii := Ascii.ascii_of_N 49.

(** The loop over the bytes: [~] is followed by [0] or [1]. *)
Fixpoint escapes_ok (s : string) : bool :=
  match s with
  | EmptyString => true
  | String c s' =>
      if bool_decide (c = tilde) then
        match s' with
        | String d r => (bool_decide (d = digit0) || bool_decide (d = digit1)) && escapes_ok r
        | EmptyString => false
        end
      else escapes_ok s'
  end.

Definition validate_pointer (p : string) : result PrivacyError unit :=
  if bool_decide (p = "") then Ok tt
  else
    fail_if (negb (starts_with (String slash "") p)) InvalidPointer;;
    fail_if (negb (escapes_ok p)) InvalidPointer.

(** [s.replace(c, w)] for a character, [s.replace(&[c, d], w)] for two *)
Fixpoint replace_byte (c : ascii) (w s : string) : string :=
  match s with
  | EmptyString => ""
  | String a s => if bool_decide (a = c) then w +:+ replace_byte c w s else String a (replace_byte c w s)
  end.
Fixpoint replace_pair (c d : ascii) (w s : string) : string :=
  match s with
  | String a (String b r as s') =>
      if bool_decide (a = c) && bool_decide (b = d) then w +:+ replace_pair c d w r
      else String a (replace_pair c d w s')
  | _ => s
  end.

Definition encode_pointer_token (token : string) : string :=
  replace_byte slash "~1" (replace_byte tilde "~0" token).
Definition decode_pointer_token (token : string) : string :=
  replace_pair tilde digit0 (String tilde "") (replace_pair tilde digit1 (String slash "") token).

Definition decode_pointer (p : string) : list string :=
  match p with
  | EmptyString => []
  | String _ s => decode_pointer_token <$> split_byte slash s
  end.

(** [format!("{pointer}/{token}")] *)
Definition child_pointer (p token : string) : string := p +:+ String slash token.

(** The prefixes of a pointer that end before a [/]: those of its characters after
    the first, then the empty one. *)
Fixpoint prefixes_at_slash (before s : string) : list string :=
  match s with
  | EmptyString => []
  | String c s =>
      (if bool_decide (c = slash) then [before] else []) ++ prefixes_at_slash (before +:+ String c "") s
  end.
Definition ancestors (p : string) : list string :=
  match p with
  | EmptyString => []
  | String c s => prefixes_at_slash (String c "") s ++ [""]
  end.

(** [binary_search_by] on the rules, which are sorted and have distinct pointers *)
Definition rule_at (rs : list RedactionRule) (p : string) : option RedactionRule :=
  list_find (fun r => pointer r = p) rs ≫= fun x => Some x.2.

Definition contains_unsafe_overlaps (rs : list RedactionRule) : bool :=
  existsb (fun r => existsb (fun a => is_some_and (rule_at rs a) (fun x => negb (bool_decide (redaction x = Keep))))
                      (ancestors (pointer r))) rs.

(** ** Construction *)

Definition rule_bytes (total : N) (r : RedactionRule) : result PrivacyError N :=
  n ← ok_or (checked_mul (slen (pointer r)) 6) LimitExceeded;
  ok_or (v ← checked_add total n;
         p ← checked_mul (from_option slen 0%N (fictional_provenance r)) 6;
         v ← checked_add v p;
         checked_add v 128) LimitExceeded.

Definition check_rule (seen : list string) (r : RedactionRule) : result PrivacyError (list string) :=
  fail_if ((PRIVACY_MAX_LINE_BYTES <? slen (pointer r))%N
    || is_some_and (fictional_provenance r) (fun v => PRIVACY_MAX_LINE_BYTES <? slen v)%N) LimitExceeded;;
  fail_if (is_some_and (fictional_provenance r) (fun v => negb (valid_public_label v) || sensitive_text v))
    MalformedPolicy;;
  validate_pointer (pointer r);;
  fail_if (bool_decide (pointer r ∈ seen)) DuplicateRule;;
  validate_rule_pair r;;
  Ok (pointer r :: seen).

Definition new_versioned (policy_id : string) (policy_revision : N) (key_generation : string)
    (rs : list RedactionRule) : result PrivacyError PrivacyPolicy :=
  fail_if (PRIVACY_MAX_RECORDS <? len rs)%N LimitExceeded;;
  fail_if (negb (valid_public_label policy_id) || (policy_revision =? 0)%N
    || negb (valid_public_label key_generation) || sensitive_text policy_id || sensitive_text key_generation)
    MalformedPolicy;;
  policy_bytes ← try_fold rule_bytes (saturating_add (slen policy_id) (slen key_generation)) rs;
  fail_if (PRIVACY_MAX_TOTAL_BYTES <? policy_bytes)%N LimitExceeded;;
  try_fold check_rule [] rs;;
  let sorted := sort_by_key pointer rs in
  fail_if (contains_unsafe_overlaps sorted) OverlappingRule;;
  Ok {| pp_policy_id := policy_id; pp_policy_revision := policy_revision; pp_key_generation := key_generation;
        rules := sorted |}.

(** ** Objects and arrays

    The members of an object are a [BTreeMap], so a list in key order. *)

(** [*map.get_mut(key) = v] *)
Definition obj_set (key : string) (v : json) (m : list (string * json)) : list (string * json) :=
  (fun kv => if bool_decide (kv.1 = key) then (kv.1, v) else kv) <$> m.

Definition obj_remove (key : string) (m : list (string * json)) : list (string * json) :=
  filter (fun kv => kv.1 <> key) m.

Fixpoint obj_insert (key : string) (v : json) (m : list (string * json)) : list (string * json) :=
  match m with
  | [] => [(key, v)]
  | (k, w) :: rest =>
      match cmp key k with
      | Lt => (key, v) :: m
      | Eq => (key, v) :: rest
      | Gt => (k, w) :: obj_insert key v rest
      end
  end.

(** [token.parse::<usize>()] of a token of digits *)
Definition parse_array_index (token : string) : option N :=
  if bool_decide (token = "0") || (negb (starts_with "0" token) && str_all is_ascii_digit token) then
    if bool_decide (token = "") || (u64_max <? decimal_value token 0)%N then None
    else Some (decimal_value token 0)
  else None.

(** [values.get_mut(index)], as the position *)
Definition slot (token : string) (l : list json) : option nat :=
  i ← parse_array_index token; if (i <? len l)%N then Some (N.to_nat i) else None.

(** ** Rules on records *)

Section redaction.
Context `{HmacSha256, UrlBase64}.
Context (run_id : string) (policy : PrivacyPolicy) (key : string).

(** What handles and field names are computed over, after their domain *)
Definition scope_frames (last : string) : string :=
  frame run_id +:+ frame (pp_policy_id policy) +:+ frame (be64 (pp_policy_revision policy))
  +:+ frame (pp_key_generation policy) +:+ frame last.

Definition HANDLE_DOMAIN : string := "SMESH-A2A" +:+ nul +:+ "trace-privacy-handle" +:+ nul +:+ "v1" +:+ nul.
Definition FIELD_DOMAIN : string := "SMESH-A2A" +:+ nul +:+ "trace-privacy-field" +:+ nul +:+ "v1" +:+ nul.

Definition stable_handle (identifier : string) : string :=
  "hmac-sha256:" +:+ url_encode (hmac key (HANDLE_DOMAIN +:+ scope_frames identifier)).

Definition redacted_field_name (p : string) : string :=
  "redacted-field-hmac-sha256:" +:+ url_encode (hmac key (FIELD_DOMAIN +:+ scope_frames p)).

Definition placeholder_name (c : DataClass) : option string :=
  match c with
  | ClassInternal => Some "INTERNAL"
  | ClassConfidential => Some "CONFIDENTIAL"
  | Pii => Some "PII"
  | Phi => Some "PHI"
  | _ => None
  end.

Definition apply_at_value (r : RedactionRule) (v : json) : result PrivacyError json :=
  match redaction r with
  | Keep => Ok v
  | Placeholder =>
      name ← ok_or (placeholder_name (class r)) UnsupportedClassAction;
      Ok (JString ("[REDACTED:" +:+ name +:+ "]"))
  | DropValue => Ok JNull
  | StableHandle =>
      match v with
      | JString (String c s) => Ok (JString (stable_handle (String c s)))
      | _ => Err InvalidStableIdentifier
      end
  end.

(** The last token of a pointer, in the container it names a value of *)
Definition apply_last (r : RedactionRule) (last : string) (v : json) : result PrivacyError json :=
  match v with
  | JObject m =>
      old ← ok_or (assoc last m) UnmatchedRule;
      match redaction r with
      | DropValue => Ok (JObject (obj_remove last m))
      | Keep => new ← apply_at_value r old; Ok (JObject (obj_set last new m))
      | _ =>
          let rest := obj_remove last m in
          new ← apply_at_value r old;
          let public_key := redacted_field_name (pointer r) in
          fail_if (is_some (assoc public_key rest)) MalformedInput;;
          Ok (JObject (obj_insert public_key new rest))
      end
  | JArray l =>
      i ← ok_or (slot last l) UnmatchedRule;
      old ← ok_or (l !! i) UnmatchedRule;
      new ← (if bool_decide (redaction r = DropValue) then Ok JNull else apply_at_value r old);
      Ok (JArray (<[i := new]> l))
  | _ => Err UnmatchedRule
  end.

(** The walk down the tokens before the last *)
Fixpoint apply_tokens (r : RedactionRule) (tokens : list string) (v : json) : result PrivacyError json :=
  match tokens with
  | [] => apply_at_value r v
  | [last] => apply_last r last v
  | token :: rest =>
      match v with
      | JObject m =>
          child ← ok_or (assoc token m) UnmatchedRule;
          new ← apply_tokens r rest child;
          Ok (JObject (obj_set token new m))
      | JArray l =>
          i ← ok_or (slot token l) UnmatchedRule;
          child ← ok_or (l !! i) UnmatchedRule;
          new ← apply_tokens r rest child;
          Ok (JArray (<[i := new]> l))
      | _ => Err UnmatchedRule
      end
  end.

Definition apply_rule (v : json) (r : RedactionRule) : result PrivacyError json :=
  apply_tokens r (decode_pointer (pointer r)) v.
End redaction.

(** ** Loops over a stack *)

(** [while let Some(x) = stack.pop()]: [visit] gives what is pushed, in order.
    The result with no fuel left is not reached: see [drain_fuel]. *)
Fixpoint drain_stack {E S A} (fuel : nat) (out : E) (visit : S -> A -> result E (S * list A)) (s : S) (stack : list A) :
    result E S :=
  match stack with
  | [] => Ok s
  | x :: rest =>
      match fuel with
      | O => Err out
      | Datatypes.S fuel => '(s, pushed) ← visit s x; drain_stack fuel out visit s (rev pushed ++ rest)
      end
  end.

(** The nodes of a value *)
Fixpoint json_size (v : json) : nat :=
  match v with
  | JArray l => S (list_sum (json_size <$> l))
  | JObject m => S (list_sum ((fun kv => json_size kv.2) <$> m))
  | _ => 1
  end.

(** ** Classification *)

(** A value with its pointer, and whether it is a member of an object *)
Definition classify_node (rs : list RedactionRule) (_ : unit) (node : json * string * bool) :
    result PrivacyError (unit * list (json * string * bool)) :=
  let '(v, p, object_member) := node in
  let matching_rule := rule_at rs p in
  fail_if (object_member && negb (is_some matching_rule)) UnclassifiedValue;;
  if is_some_and matching_rule (fun r => negb (bool_decide (redaction r = Keep))) then Ok (tt, [])
  else
    match v with
    | JObject ((_ :: _) as m) =>
        Ok (tt, (fun kv => (kv.2, child_pointer p (encode_pointer_token kv.1), true)) <$> m)
    | JArray ((_ :: _) as l) =>
        Ok (tt, imap (fun i child => (child, child_pointer p (pretty (N.of_nat i)), false)) l)
    | _ => fail_if (negb (is_some matching_rule)) UnclassifiedValue;; Ok (tt, [])
    end.

Definition ensure_fully_classified (root : json) (policy : PrivacyPolicy) : result PrivacyError unit :=
  drain_stack (json_size root) LimitExceeded (classify_node (rules policy)) tt [(root, "", false)].
