(* ===== verification/Privacy.v ===== *)
(** * Public traces

    [trace_privacy.rs], the projection of a restricted trace to a public one:
    bounded parsing of records, redaction of each record by every rule, the
    semantic scan of the result, the public and the restricted manifest, and the
    verification that replays it.  [serde_json] and the hash primitives are
    parameters; the visitor that refuses duplicate keys is modelled on the raw
    document [serde_json] hands it. *)

From S2P Require Import Prelude Text Protocol Policy Scanner Redaction.

(** ** Data *)

Definition PUBLIC_MANIFEST_SCHEMA : string := "trace-privacy-public-manifest/1".
Definition RESTRICTED_MANIFEST_SCHEMA : string := "trace-privacy-restricted-manifest/1".
Definition MAX_POINTER_WORK_BYTES : N := PRIVACY_MAX_TOTAL_BYTES.

Inductive ArtifactClassification := PublicArtifact | InternalArtifact | ConfidentialArtifact | SecretArtifact.
Inductive TraceArtifactOrigin := Fictional | Sanitized | Mixed | RestrictedSource | ConfidentialAudit.

Record ProjectionReceipt := {
  projector_id : string; projector_version : string; pr_input_digest : string; pr_output_digest : string;
  output_byte_length : N }.

Record RedactionLogEntry := {
  record_index : N; entry_pointer : string; entry_class : DataClass; entry_action : RedactionAction }.

Record TraceArtifactProvenance := {
  producer : string; provenance_policy_id : string; origin : TraceArtifactOrigin; fictional_sources : list string }.
Record TraceArtifactBinding := { classification : ArtifactClassification; provenance : TraceArtifactProvenance }.
Record PublicProjectionReceipt := {
  public_projector_id : string; public_projector_version : string; receipt_commitment : string }.

Record PublicTraceManifest := {
  pm_schema_version : string; pm_run_id : string; pm_policy_id : string; pm_policy_revision : N;
  pm_key_generation : string; pm_artifact : TraceArtifactBinding; pm_policy_commitment : string;
  pm_output_digest : string; pm_action_log_commitment : string;
  pm_projection_receipts : list PublicProjectionReceipt }.

Record RestrictedStoragePolicy := {
  public_export_forbidden : bool; authenticated_encryption_required : bool; authorization_required : bool;
  audit_required : bool }.

Record RestrictedTraceManifest := {
  rm_schema_version : string; rm_run_id : string; rm_policy_id : string; rm_policy_revision : N;
  rm_key_generation : string; rm_artifact : TraceArtifactBinding; rm_source_artifact : TraceArtifactBinding;
  rm_action_log_artifact : TraceArtifactBinding; rm_policy_digest : string; rm_source_digest : string;
  rm_action_log_digest : string; rm_public_manifest_digest : string;
  rm_projection_receipts : list ProjectionReceipt; rm_storage_policy : RestrictedStoragePolicy }.

Record SanitizedTrace := {
  public_bytes : string; action_log : list RedactionLogEntry; action_log_bytes : string;
  public_manifest : PublicTraceManifest; restricted_manifest : RestrictedTraceManifest }.

#[global] Instance SanitizedTrace_eq_dec : EqDecision SanitizedTrace.
Proof.
  assert (EqDecision ProjectionReceipt) by solve_decision.
  assert (EqDecision RedactionLogEntry) by solve_decision.
  assert (EqDecision ArtifactClassification) by solve_decision.
  assert (EqDecision TraceArtifactOrigin) by solve_decision.
  assert (EqDecision TraceArtifactProvenance) by solve_decision.
  assert (EqDecision TraceArtifactBinding) by solve_decision.
  assert (EqDecision PublicProjectionReceipt) by solve_decision.
  assert (EqDecision PublicTraceManifest) by solve_decision.
  assert (EqDecision RestrictedStoragePolicy) by solve_decision.
  assert (EqDecision RestrictedTraceManifest) by solve_decision.
  solve_decision.
Defined.

(** A policy document as it is decoded, before validation *)
Record UncheckedPrivacyPolicy := {
  un_policy_id : string; un_policy_revision : N; un_key_generation : string; un_rules : list RedactionRule }.

(** [serde_json].  [raw_from_slice] gives a document with the members of its objects
    as they are written, repeated keys included. *)
Class PrivacyCodec := {
  raw_from_slice : string -> option json;
  record_to_vec : json -> result string string;
  text_to_vec : string -> result string string;
  log_to_vec : list RedactionLogEntry -> result string string;
  policy_to_vec : PrivacyPolicy -> result string string;
  receipt_to_vec : ProjectionReceipt -> result string string;
  manifest_to_vec : PublicTraceManifest -> result string string;
  policy_from_slice : string -> option UncheckedPrivacyPolicy }.

(** ** Parsing *)

(** [UniqueValueVisitor]: objects with distinct keys, as maps *)
Fixpoint unique_value (raw : json) : option json :=
  match raw with
  | JArray l =>
      JArray <$> (fix go l := match l with
                              | [] => Some []
                              | x :: l => y ← unique_value x; ys ← go l; Some (y :: ys)
                              end) l
  | JObject m =>
      JObject <$> (fix go m values :=
                     match m with
                     | [] => Some values
                     | (k, x) :: m =>
                         if is_some (assoc k values) then None
                         else y ← unique_value x; go m (obj_insert k y values)
                     end) m []
  | _ => Some raw
  end.

Fixpoint decimal_len_from (fuel : nat) (value length : N) : N :=
  match fuel with
  | O => length
  | S fuel => if (10 <=? value)%N then decimal_len_from fuel (value / 10) (length + 1) else length
  end.
(** A number has at most as many decimal digits as binary ones. *)
Definition decimal_len (value : N) : N := decimal_len_from (N.to_nat (N.size value)) value 1.

Fixpoint count_escapes (s : string) : N :=
  match s with
  | EmptyString => 0
  | String c s => (if byte_in "~/" c then 1 else 0) + count_escapes s
  end.

(** A child is pushed with its depth and the length of its pointer, which counts
    as work. *)
Definition push_child (max_work depth pointer_len : N) (acc : N * list (json * N * N)) (child : json * result PrivacyError N) :
    result PrivacyError (N * list (json * N * N)) :=
  token_len ← child.2;
  n ← ok_or (n ← checked_add pointer_len 1; checked_add n token_len) LimitExceeded;
  work ← ok_or (checked_add acc.1 n) LimitExceeded;
  fail_if (max_work <? work)%N LimitExceeded;;
  Ok (work, acc.2 ++ [(child.1, (depth + 1)%N, n)]).

Definition escaped_key_len (key : string) : result PrivacyError N :=
  ok_or (checked_add (slen key) (count_escapes key)) LimitExceeded.

(** The children of a value with the lengths of their tokens *)
Definition sized_children (v : json) : list (json * result PrivacyError N) :=
  match v with
  | JArray l => imap (fun i child => (child, Ok (decimal_len (N.of_nat i)))) l
  | JObject m => (fun kv => (kv.2, escaped_key_len kv.1)) <$> m
  | _ => []
  end.

Definition bound_node (max_work : N) (acc : N * N) (node : json * N * N) :
    result PrivacyError ((N * N) * list (json * N * N)) :=
  let '(v, depth, pointer_len) := node in
  records ← ok_or (checked_add acc.1 1) LimitExceeded;
  fail_if ((PRIVACY_MAX_RECORDS <? records)%N || (MAX_DEPTH <? depth)%N) LimitExceeded;;
  '(work, pushed) ← try_fold (push_child max_work depth pointer_len) (acc.2, []) (sized_children v);
  Ok ((records, work), pushed).

Definition validate_tree_bounds (root : json) (max_work : N) : result PrivacyError (N * N) :=
  drain_stack (json_size root) LimitExceeded (bound_node max_work) (0%N, 0%N) [(root, 1%N, 0%N)].

Definition is_object (v : json) : bool := match v with JObject _ => true | _ => false end.

(** The lines of a package, each with its checks *)
Definition check_line (count : N) (line : string) : result PrivacyError N :=
  fail_if (bool_decide (line = "")) MalformedInput;;
  count ← ok_or (checked_add count 1) LimitExceeded;
  fail_if ((PRIVACY_MAX_RECORDS <? count)%N || (PRIVACY_MAX_LINE_BYTES <? slen line)%N) LimitExceeded;;
  Ok count.

(** [bytes.ends_with(b"\n")], with the bytes before it *)
Fixpoint strip_newline (s : string) : option string :=
  match s with
  | EmptyString => None
  | String c EmptyString => if bool_decide (c = newline) then Some "" else None
  | String c s => String c <$> strip_newline s
  end.

Section parsing.
Context `{PrivacyCodec}.

(** The values so far, the decoded nodes and the pointer work *)
Definition parse_line (acc : list json * N * N) (line : string) : result PrivacyError (list json * N * N) :=
  let '(records, decoded_nodes, pointer_work) := acc in
  raw ← ok_or (raw_from_slice line) MalformedInput;
  value ← ok_or (unique_value raw) MalformedInput;
  fail_if (negb (is_object value)) MalformedInput;;
  fail_if (MAX_POINTER_WORK_BYTES <? pointer_work)%N LimitExceeded;;
  '(nodes, work) ← validate_tree_bounds value (MAX_POINTER_WORK_BYTES - pointer_work);
  decoded_nodes ← ok_or (checked_add decoded_nodes nodes) LimitExceeded;
  pointer_work ← ok_or (checked_add pointer_work work) LimitExceeded;
  fail_if ((PRIVACY_MAX_RECORDS <? decoded_nodes)%N || (MAX_POINTER_WORK_BYTES <? pointer_work)%N) LimitExceeded;;
  Ok (records ++ [value], decoded_nodes, pointer_work).

Definition package_lines (bytes : string) : result PrivacyError (list string * bool) :=
  fail_if (bool_decide (bytes = "") || (PRIVACY_MAX_TOTAL_BYTES <? slen bytes)%N) LimitExceeded;;
  if contains (String newline "") bytes then
    body ← ok_or (strip_newline bytes) MalformedInput;
    fail_if (bool_decide (body = "")) MalformedInput;;
    let lines := split_byte newline body in
    try_fold check_line 0%N lines;;
    Ok (lines, true)
  else
    fail_if (PRIVACY_MAX_LINE_BYTES <? slen bytes)%N LimitExceeded;;
    Ok ([bytes], false).

Definition parse_records (bytes : string) : result PrivacyError (list json * bool) :=
  '(lines, jsonl) ← package_lines bytes;
  '(records, _, _) ← try_fold parse_line ([], 0%N, 0%N) lines;
  Ok (records, jsonl).

Definition serialize_line (output : string) (record : json) : result PrivacyError string :=
  line ← map_err (fun _ => LimitExceeded) (record_to_vec record);
  fail_if ((PRIVACY_MAX_LINE_BYTES <? slen line)%N
    || (PRIVACY_MAX_TOTAL_BYTES <? saturating_add (slen output) (slen line + 1))%N) LimitExceeded;;
  Ok (output +:+ line +:+ String newline "").

(** [records[0]] exists: a package has at least one line. *)
Definition serialize_records (records : list json) (jsonl : bool) : result PrivacyError string :=
  if jsonl then try_fold serialize_line "" records
  else match records with
       | first :: _ => map_err (fun _ => LimitExceeded) (record_to_vec first)
       | [] => Err LimitExceeded
       end.
End parsing.

(** ** The scan *)

Section scanning.
Context `{UrlBase64, PrivacyCodec}.

Definition member_ok (kv : string * json) : bool :=
  let name := semantic_key (kv.1) in
  let holds p := is_some_and (as_str kv.2) p in
  negb (negb (is_redacted_field_name kv.1) && (sensitive_text kv.1 || sensitive_key_name name))
  && negb (bool_decide (name ∈ ["patientid"; "mrn"; "insuranceid"; "insurancememberid"; "memberid"])
           && negb (holds (fun text => is_stable_handle text || is_redaction_placeholder text)))
  && negb (bool_decide (name ∈ ["patientname"; "clinicalnotes"; "diagnosis"; "condition"])
           && negb (holds is_redaction_placeholder)).

Definition scan_node (_ : unit) (v : json) : result PrivacyError (unit * list json) :=
  match v with
  | JObject m => fail_if (negb (forallb member_ok m)) SensitiveContent;; Ok (tt, snd <$> m)
  | JArray l => Ok (tt, l)
  | JString text => fail_if (sensitive_text text) SensitiveContent;; Ok (tt, [])
  | _ => Ok (tt, [])
  end.

Definition scan_public_trace (bytes : string) : result PrivacyError unit :=
  '(records, _) ← parse_records bytes;
  drain_stack (list_sum (json_size <$> records)) LimitExceeded scan_node tt (rev records).
End scanning.

(** ** Manifests *)

Section manifests.
Context `{Sha256, HmacSha256, UrlBase64, PrivacyCodec}.

Definition COMMITMENT_DOMAIN : string := "SMESH-A2A" +:+ nul +:+ "trace-privacy-commitment" +:+ nul +:+ "v1" +:+ nul.
Definition DIGEST_DOMAIN : string := "SMESH-A2A" +:+ nul +:+ "trace-privacy" +:+ nul +:+ "v1" +:+ nul.

Definition frames (parts : list string) : string := foldr (fun part rest => frame part +:+ rest) "" parts.

Definition privacy_commitment (key label : string) (parts : list string) : string :=
  "hmac-sha256:" +:+ url_encode (hmac key (COMMITMENT_DOMAIN +:+ frames (label :: parts))).

Definition privacy_digest (label : string) (parts : list string) : string :=
  sha256_tag (sha256 (DIGEST_DOMAIN +:+ frames (label :: parts))).

Definition policy_bytes_of (policy : PrivacyPolicy) : result PrivacyError string :=
  map_err (fun _ => LimitExceeded) (policy_to_vec policy).

Definition policy_digest (policy : PrivacyPolicy) : result PrivacyError string :=
  bytes ← policy_bytes_of policy; Ok (privacy_digest "policy" [bytes]).

Definition policy_commitment (run_id : string) (policy : PrivacyPolicy) (key : string) : result PrivacyError string :=
  bytes ← policy_bytes_of policy; Ok (privacy_commitment key "policy" [run_id; bytes]).

(** What is committed to for a run of a policy *)
Definition run_parts (run_id : string) (policy : PrivacyPolicy) (last : string) : list string :=
  [run_id; pp_policy_id policy; be64 (pp_policy_revision policy); pp_key_generation policy; last].

Definition public_projection_receipt (run_id : string) (policy : PrivacyPolicy) (key : string)
    (receipt : ProjectionReceipt) : result PrivacyError PublicProjectionReceipt :=
  bytes ← map_err (fun _ => LimitExceeded) (receipt_to_vec receipt);
  Ok {| public_projector_id := projector_id receipt; public_projector_version := projector_version receipt;
        receipt_commitment := privacy_commitment key "projection-receipt" (run_parts run_id policy bytes) |}.

(** [sort] and [dedup] *)
Fixpoint dedup (l : list string) : list string :=
  match l with
  | x :: (y :: _) as rest => if bool_decide (x = y) then dedup rest else x :: dedup rest
  | _ => l
  end.

Definition origin_of (rs : list RedactionRule) : TraceArtifactOrigin :=
  let public_rules := length (filter (fun r => class r = ClassPublic) rs) in
  if (public_rules =? length rs)%nat then Fictional
  else if (public_rules =? 0)%nat then Sanitized else Mixed.

Definition binding (c : ArtifactClassification) (by_ : string) (policy : PrivacyPolicy) (o : TraceArtifactOrigin)
    (sources : list string) : TraceArtifactBinding := {|
  classification := c;
  provenance := {| producer := by_; provenance_policy_id := pp_policy_id policy; origin := o;
                   fictional_sources := sources |} |}.

Definition make_public_manifest (run_id : string) (policy : PrivacyPolicy) (public log : string)
    (receipts : list ProjectionReceipt) (key : string) : result PrivacyError PublicTraceManifest :=
  let sources := dedup (sort_by_key (fun s : string => s) (omap fictional_provenance (rules policy))) in
  commitment ← policy_commitment run_id policy key;
  public_receipts ← try_map (public_projection_receipt run_id policy key) receipts;
  Ok {| pm_schema_version := PUBLIC_MANIFEST_SCHEMA;
        pm_run_id := run_id;
        pm_policy_id := pp_policy_id policy;
        pm_policy_revision := pp_policy_revision policy;
        pm_key_generation := pp_key_generation policy;
        pm_artifact := binding PublicArtifact "trace-privacy/redactor-v1" policy (origin_of (rules policy)) sources;
        pm_policy_commitment := commitment;
        pm_output_digest := privacy_digest "public-output" [public];
        pm_action_log_commitment := privacy_commitment key "action-log" (run_parts run_id policy log);
        pm_projection_receipts := public_receipts |}.

Definition make_restricted_manifest (run_id : string) (policy : PrivacyPolicy) (source log : string)
    (public : PublicTraceManifest) (receipts : list ProjectionReceipt) : result PrivacyError RestrictedTraceManifest :=
  public_bytes ← map_err (fun _ => LimitExceeded) (manifest_to_vec public);
  digest ← policy_digest policy;
  Ok {| rm_schema_version := RESTRICTED_MANIFEST_SCHEMA;
        rm_run_id := run_id;
        rm_policy_id := pp_policy_id policy;
        rm_policy_revision := pp_policy_revision policy;
        rm_key_generation := pp_key_generation policy;
        rm_artifact := binding ConfidentialArtifact "trace-privacy/restricted-audit-v1" policy ConfidentialAudit [];
        rm_source_artifact := binding SecretArtifact "trace-privacy/restricted-source-v1" policy RestrictedSource [];
        rm_action_log_artifact := binding ConfidentialArtifact "trace-privacy/action-log-v1" policy ConfidentialAudit [];
        rm_policy_digest := digest;
        rm_source_digest := privacy_digest "restricted-source" [source];
        rm_action_log_digest := privacy_digest "action-log" [log];
        rm_public_manifest_digest := privacy_digest "public-manifest" [public_bytes];
        rm_projection_receipts := receipts;
        rm_storage_policy := {| public_export_forbidden := true; authenticated_encryption_required := true;
                                authorization_required := true; audit_required := true |} |}.

Definition receipt_digest_ok (value : string) : bool :=
  (slen value =? 71)%N
  && is_some_and (strip_prefix "sha256:" value)
       (str_all (fun c => is_ascii_hexdigit c && negb (is_ascii_uppercase c))).

Definition check_projection_receipt (seen : list (string * string)) (r : ProjectionReceipt) :
    result PrivacyError (list (string * string)) :=
  fail_if (negb (valid_public_label (projector_id r)) || negb (valid_public_label (projector_version r))
    || sensitive_text (projector_id r) || sensitive_text (projector_version r)
    || negb (receipt_digest_ok (pr_input_digest r)) || negb (receipt_digest_ok (pr_output_digest r))
    || bool_decide ((projector_id r, projector_version r) ∈ seen)) MalformedInput;;
  Ok ((projector_id r, projector_version r) :: seen).

(** The receipts in order, when they are valid *)
Definition validate_projection_receipts (receipts : list ProjectionReceipt) :
    result PrivacyError (list ProjectionReceipt) :=
  fail_if (128 <? len receipts)%N LimitExceeded;;
  let sorted := sort_by_key (fun r => (projector_id r, projector_version r)) receipts in
  try_fold check_projection_receipt [] sorted;;
  Ok sorted.

(** ** The projection *)

Definition rule_log_bytes (total : N) (r : RedactionRule) : result PrivacyError N :=
  bytes ← map_err (fun _ => LimitExceeded) (text_to_vec (pointer r));
  ok_or (v ← checked_add total (slen bytes); checked_add v 96) LimitExceeded.

Definition log_entries (index : nat) (rs : list RedactionRule) : list RedactionLogEntry :=
  (fun r => {| record_index := N.of_nat index; entry_pointer := pointer r; entry_class := class r;
               entry_action := redaction r |}) <$> rs.

(** One record: classified, then transformed by every rule in order *)
Definition redact_record (run_id : string) (policy : PrivacyPolicy) (key : string) (v : json) :
    result PrivacyError json :=
  ensure_fully_classified v policy;;
  try_fold (apply_rule run_id policy key) v (rules policy).

Definition action_budget (policy : PrivacyPolicy) (records : N) : result PrivacyError unit :=
  action_count ← ok_or (checked_mul (len (rules policy)) records) LimitExceeded;
  per_record ← try_fold rule_log_bytes 2%N (rules policy);
  fail_if ((PRIVACY_MAX_TOTAL_BYTES / 64 <? action_count)%N
    || is_none_or (checked_mul per_record records) (fun bytes => PRIVACY_MAX_TOTAL_BYTES <? bytes)%N) LimitExceeded.

Definition sanitize_public_trace_with_receipts (source run_id key : string) (policy : PrivacyPolicy)
    (receipts : list ProjectionReceipt) : result PrivacyError SanitizedTrace :=
  fail_if (negb (valid_public_label run_id) || sensitive_text run_id) MalformedInput;;
  receipts ← validate_projection_receipts receipts;
  '(records, jsonl) ← parse_records source;
  action_budget policy (len records);;
  redacted ← try_map (redact_record run_id policy key) records;
  let log := concat (imap (fun i _ => log_entries i (rules policy)) redacted) in
  public ← serialize_records redacted jsonl;
  log_bytes ← map_err (fun _ => LimitExceeded) (log_to_vec log);
  fail_if ((PRIVACY_MAX_TOTAL_BYTES <? slen public)%N || (PRIVACY_MAX_TOTAL_BYTES <? slen log_bytes)%N) LimitExceeded;;
  scan_public_trace public;;
  manifest ← make_public_manifest run_id policy public log_bytes receipts key;
  restricted ← make_restricted_manifest run_id policy source log_bytes manifest receipts;
  Ok {| public_bytes := public; action_log := log; action_log_bytes := log_bytes; public_manifest := manifest;
        restricted_manifest := restricted |}.

Definition sanitize_public_trace (source run_id key : string) (policy : PrivacyPolicy) :
    result PrivacyError SanitizedTrace :=
  sanitize_public_trace_with_receipts source run_id key policy [].

Definition verify_sanitized_trace (sanitized : SanitizedTrace) (source expected_run_id key : string)
    (policy : PrivacyPolicy) (expected_receipts : list ProjectionReceipt) : result PrivacyError unit :=
  expected ← sanitize_public_trace_with_receipts source expected_run_id key policy expected_receipts;
  fail_if (negb (bool_decide (sanitized = expected))) VerificationFailed.

Definition privacy_policy_from_json (bytes : string) : result PrivacyError PrivacyPolicy :=
  fail_if (PRIVACY_MAX_TOTAL_BYTES <? slen bytes)%N LimitExceeded;;
  raw ← ok_or (policy_from_slice bytes) MalformedPolicy;
  decoded ← map_err (fun _ => MalformedPolicy)
    (new_versioned (un_policy_id raw) (un_policy_revision raw) (un_key_generation raw) (un_rules raw));
  new_versioned (pp_policy_id decoded) (pp_policy_revision decoded) (pp_key_generation decoded) (rules decoded).
End manifests.
