(* ===== verification/Pointers.v ===== *)
(** * JSON pointers

    RFC 6901 pointers as [trace_privacy.rs] writes and reads them: the pointer of a
    list of tokens and the tokens of a pointer are inverse to each other, the
    tokens of a shorter path give one of the pointer's ancestors, and the index of
    an array slot is its canonical decimal. *)

From stdpp Require Import pretty.
From S2P Require Import Prelude Text Protocol Scanner Redaction.

(** The pointer of a path, as [ensure_fully_classified] builds it *)
Fixpoint pointer_of (tokens : list string) : string :=
  match tokens with
  | [] => ""
  | t :: ts => String slash (encode_pointer_token t) +:+ pointer_of ts
  end.

Lemma pointer_of_snoc ts t : pointer_of (ts ++ [t]) = child_pointer (pointer_of ts) (encode_pointer_token t).
Proof.
  unfold child_pointer. induction ts as [|u ts IH]; cbn [app pointer_of].
  - by rewrite string_app_nil_r.
  - by rewrite IH, string_app_assoc.
Qed.

(** ** Tokens *)

Lemma replace_pair_other c d w a s : a <> c -> replace_pair c d w (String a s) = String a (replace_pair c d w s).
Proof. intros Hne. destruct s as [|b s]; [done|]. cbn. by rewrite bool_decide_eq_false_2. Qed.

Lemma replace_pair_here c d w s : replace_pair c d w (String c (String d s)) = w +:+ replace_pair c d w s.
Proof. cbn. by rewrite (bool_decide_eq_true_2 (c = c)), (bool_decide_eq_true_2 (d = d)). Qed.

Lemma replace_pair_half c d w b s : b <> d ->
  replace_pair c d w (String c (String b s)) = String c (replace_pair c d w (String b s)).
Proof. intros Hne. cbn. by rewrite (bool_decide_eq_false_2 (b = d)), andb_false_r. Qed.

Lemma app_one c s : String c "" +:+ s = String c s.
Proof. done. Qed.

Lemma decode_slash s :
  decode_pointer_token (String tilde (String digit1 s)) = String slash (decode_pointer_token s).
Proof. unfold decode_pointer_token. rewrite replace_pair_here. rewrite app_one. by rewrite replace_pair_other. Qed.

Lemma decode_tilde s :
  decode_pointer_token (String tilde (String digit0 s)) = String tilde (decode_pointer_token s).
Proof.
  unfold decode_pointer_token. rewrite replace_pair_half, (replace_pair_other tilde digit1) by done. by rewrite replace_pair_here.
Qed.

Lemma decode_other c s : c <> tilde -> decode_pointer_token (String c s) = String c (decode_pointer_token s).
Proof. intros Hc. unfold decode_pointer_token. by rewrite !replace_pair_other. Qed.

Lemma encode_slash s : encode_pointer_token (String slash s) = String tilde (String digit1 (encode_pointer_token s)).
Proof. done. Qed.

Lemma encode_tilde s : encode_pointer_token (String tilde s) = String tilde (String digit0 (encode_pointer_token s)).
Proof. done. Qed.

Lemma encode_other c s : c <> tilde -> c <> slash ->
  encode_pointer_token (String c s) = String c (encode_pointer_token s).
Proof.
  intros Ht Hs. unfold encode_pointer_token. cbn. rewrite (bool_decide_eq_false_2 (c = tilde)) by done.
  cbn. by rewrite bool_decide_eq_false_2.
Qed.

Lemma decode_encode_token t : decode_pointer_token (encode_pointer_token t) = t.
Proof.
  induction t as [|c t IH]; [done|]. destruct (decide (c = tilde)) as [->|Ht].
  { by rewrite encode_tilde, decode_tilde, IH. }
  destruct (decide (c = slash)) as [->|Hs]; [by rewrite encode_slash, decode_slash, IH|].
  by rewrite encode_other, decode_other, IH.
Qed.

(** No slash *)
Definition slash_free (s : string) : bool := str_all (fun c => negb (bool_decide (c = slash))) s.

Lemma encode_slash_free t : slash_free (encode_pointer_token t) = true.
Proof.
  induction t as [|c t IH]; [done|]. destruct (decide (c = tilde)) as [->|Ht]; [by rewrite encode_tilde|].
  destruct (decide (c = slash)) as [->|Hs]; [by rewrite encode_slash|].
  rewrite encode_other by done. unfold slash_free in *. cbn [str_all]. by rewrite bool_decide_eq_false_2, IH.
Qed.

Lemma escapes_tail c s : c <> tilde -> escapes_ok (String c s) = escapes_ok s.
Proof. intros Hc. cbn. by rewrite bool_decide_eq_false_2. Qed.

Lemma encode_decode_token_fuel n t : (String.length t <= n)%nat -> escapes_ok t = true -> slash_free t = true ->
  encode_pointer_token (decode_pointer_token t) = t.
Proof.
  revert t. induction n as [|n IH]; intros [|c t] Hlen He Hs; simpl in Hlen; try done; [lia|].
  apply andb_true_iff in Hs as [Hc%negb_true_iff%bool_decide_eq_false Hs].
  destruct (decide (c = tilde)) as [->|Ht].
  - destruct t as [|d t]; [done|]. simpl in Hlen, He. apply andb_true_iff in He as [Hd He].
    apply andb_true_iff in Hs as [_ Hs].
    apply orb_true_iff in Hd as [->%bool_decide_eq_true| ->%bool_decide_eq_true].
    + rewrite decode_tilde, encode_tilde, IH by (done || lia). done.
    + rewrite decode_slash, encode_slash, IH by (done || lia). done.
  - rewrite escapes_tail in He by done. rewrite decode_other, encode_other, IH by (done || lia). done.
Qed.

Lemma encode_decode_token t : escapes_ok t = true -> slash_free t = true ->
  encode_pointer_token (decode_pointer_token t) = t.
Proof. by apply (encode_decode_token_fuel (String.length t)). Qed.

(** ** Splitting *)

Lemma split_byte_cons c s : exists first rest, split_byte c s = first :: rest.
Proof. destruct s as [|a s]; cbn; [eauto|]. case_bool_decide; [eauto|]. destruct (split_byte c s); eauto. Qed.

(** The tokens joined again *)
Definition joined_tokens (l : list string) : string := foldr (fun t rest => String slash t +:+ rest) "" l.

Lemma split_joined s : joined_tokens (split_byte slash s) = String slash s.
Proof.
  induction s as [|a s IH]; [done|]. cbn [split_byte]. case_bool_decide as Ha.
  - subst. change (String slash (joined_tokens (split_byte slash s)) = String slash (String slash s)). by rewrite IH.
  - destruct (split_byte_cons slash s) as (first & rest & Heq). rewrite Heq in *.
    change (String slash (first +:+ joined_tokens rest) = String slash s) in IH. injection IH as <-. done.
Qed.

Lemma split_slash_free s : Forall (fun t => slash_free t = true) (split_byte slash s).
Proof.
  induction s as [|a s IH]; [by constructor|]. cbn [split_byte]. case_bool_decide as Ha; [by constructor|].
  destruct (split_byte_cons slash s) as (first & rest & Heq). rewrite Heq in *.
  inversion IH; subst. constructor; [|done].
  unfold slash_free in *. cbn [str_all]. by rewrite bool_decide_eq_false_2.
Qed.

Lemma split_escapes_fuel n s : (String.length s <= n)%nat -> escapes_ok s = true ->
  Forall (fun t => escapes_ok t = true) (split_byte slash s).
Proof.
  revert s. induction n as [|n IH]; intros [|a s] Hlen He; simpl in Hlen; try (by constructor); [lia|].
  destruct (decide (a = tilde)) as [->|Ht].
  - destruct s as [|d s]; [done|]. simpl in Hlen. cbn [escapes_ok] in He. rewrite bool_decide_eq_true_2 in He by done. apply andb_true_iff in He as [Hd He].
    assert (d <> slash) as Hds by (intros ->; by rewrite !bool_decide_eq_false_2 in Hd).
    cbn [split_byte]. rewrite (bool_decide_eq_false_2 (tilde = slash)), (bool_decide_eq_false_2 (d = slash)) by done.
    assert (Forall (fun t => escapes_ok t = true) (split_byte slash s)) as Hs by (apply IH; [lia|done]).
    destruct (split_byte_cons slash s) as (first & rest & Heq). rewrite Heq in *.
    inversion Hs; subst. constructor; [|done]. cbn [escapes_ok]. by rewrite Hd.
  - rewrite escapes_tail in He by done.
    assert (Forall (fun t => escapes_ok t = true) (split_byte slash s)) as Hs by (apply IH; [lia|done]).
    cbn [split_byte]. case_bool_decide as Hc; [by constructor|].
    destruct (split_byte_cons slash s) as (first & rest & Heq). rewrite Heq in *.
    inversion Hs; subst. constructor; [|done]. by rewrite escapes_tail.
Qed.

Lemma split_encoded t s : slash_free t = true ->
  split_byte slash (t +:+ String slash s) = t :: split_byte slash s.
Proof.
  induction t as [|c t IH]; intros Hs.
  - change (split_byte slash (String slash s) = "" :: split_byte slash s). cbn [split_byte].
    by rewrite bool_decide_eq_true_2.
  - apply andb_true_iff in Hs as [Hc%negb_true_iff%bool_decide_eq_false Hs].
    rewrite string_app_cons. cbn [split_byte]. by rewrite bool_decide_eq_false_2, IH.
Qed.

Lemma split_one t : slash_free t = true -> split_byte slash t = [t].
Proof.
  induction t as [|c t IH]; intros Hs; [done|].
  apply andb_true_iff in Hs as [Hc%negb_true_iff%bool_decide_eq_false Hs].
  cbn [split_byte]. by rewrite bool_decide_eq_false_2, IH.
Qed.

(** ** Round trips *)

Lemma decode_pointer_of ts : decode_pointer (pointer_of ts) = ts.
Proof.
  destruct ts as [|t ts]; [done|]. cbn [pointer_of]. rewrite string_app_cons. cbn [decode_pointer].
  revert t. induction ts as [|u ts IH]; intros t; cbn [pointer_of].
  - rewrite string_app_nil_r, split_one by apply encode_slash_free. cbn. by rewrite decode_encode_token.
  - rewrite string_app_cons, split_encoded by apply encode_slash_free.
    rewrite fmap_cons, IH. by rewrite decode_encode_token.
Qed.

Lemma pointer_of_joined l : Forall (fun t => escapes_ok t = true) l -> Forall (fun t => slash_free t = true) l ->
  pointer_of (decode_pointer_token <$> l) = joined_tokens l.
Proof.
  induction 1 as [|t l Ht Hl IH]; inversion 1; subst; [done|]. rewrite fmap_cons. cbn [pointer_of].
  rewrite IH, encode_decode_token by done. done.
Qed.

Lemma validate_pointer_Ok p : validate_pointer p = Ok tt ->
  p = "" \/ exists s, p = String slash s /\ escapes_ok s = true.
Proof.
  unfold validate_pointer. case_bool_decide as Hp; [by left|]. intros Hok. right. inv_ok.
  unfold starts_with, is_some, is_some_and in *.
  destruct (strip_prefix (String slash "") p) as [s|] eqn:Hs; [|done]. apply strip_prefix_Some in Hs as ->.
  exists s. split; [done|]. match goal with H : escapes_ok _ = true |- _ => rename H into He end.
  change (String slash "" +:+ s) with (String slash s) in He. by rewrite escapes_tail in He.
Qed.

Lemma pointer_of_decode p : validate_pointer p = Ok tt -> pointer_of (decode_pointer p) = p.
Proof.
  intros [->|(s & -> & He)]%validate_pointer_Ok; [done|]. cbn [decode_pointer].
  rewrite pointer_of_joined; [apply split_joined|by apply (split_escapes_fuel (String.length s))|apply split_slash_free].
Qed.

Lemma escapes_app t s : escapes_ok t = true -> escapes_ok (t +:+ s) = escapes_ok s.
Proof.
  remember (String.length t) as n eqn:Hn. revert t Hn. induction (lt_wf n) as [n _ IH]; intros [|c t] -> He; [done|].
  destruct (decide (c = tilde)) as [->|Hc].
  - destruct t as [|d t]; [done|]. cbn [escapes_ok] in He. rewrite bool_decide_eq_true_2 in He by done.
    apply andb_true_iff in He as [Hd He]. rewrite !string_app_cons. cbn [escapes_ok].
    rewrite (bool_decide_eq_true_2 (tilde = tilde)), Hd by done. apply (IH (String.length t)); [simpl; lia|done|done].
  - rewrite escapes_tail in He by done. rewrite string_app_cons, escapes_tail by done.
    apply (IH (String.length t)); [simpl; lia|done|done].
Qed.

Lemma encode_escapes t : escapes_ok (encode_pointer_token t) = true.
Proof.
  induction t as [|c t IH]; [done|]. destruct (decide (c = tilde)) as [->|Ht]; [by rewrite encode_tilde|].
  destruct (decide (c = slash)) as [->|Hs]; [by rewrite encode_slash|].
  by rewrite encode_other, escapes_tail.
Qed.

Lemma pointer_of_valid ts : validate_pointer (pointer_of ts) = Ok tt.
Proof.
  assert (escapes_ok (pointer_of ts) = true) as He.
  { induction ts as [|t ts IH]; [done|]. cbn [pointer_of]. rewrite string_app_cons, escapes_tail by done.
    by rewrite escapes_app by apply encode_escapes. }
  unfold validate_pointer. case_bool_decide; [done|]. rewrite He. by destruct ts.
Qed.

(** The pointers the rules of a policy may have are read as paths and written back
    unchanged, and every path has a valid pointer that is read back as that path, so
    a rule names one place of a record. *)
Theorem pointer_roundtrip :
  (forall p, validate_pointer p = Ok tt -> pointer_of (decode_pointer p) = p) /\
  (forall ts, validate_pointer (pointer_of ts) = Ok tt /\ decode_pointer (pointer_of ts) = ts).
Proof. auto using pointer_of_decode, pointer_of_valid, decode_pointer_of. Qed.

(** ** Ancestors *)

Lemma prefixes_at_slash_elem before a s :
  before +:+ a ∈ prefixes_at_slash before (a +:+ String slash s).
Proof.
  revert before. induction a as [|c a IH]; intros before.
  - rewrite string_app_nil_r. change ("" +:+ String slash s) with (String slash s). cbn [prefixes_at_slash].
    rewrite bool_decide_eq_true_2 by done. set_solver.
  - rewrite string_app_cons. cbn [prefixes_at_slash]. apply elem_of_app. right.
    specialize (IH (before +:+ String c "")). by rewrite <- string_app_assoc in IH.
Qed.

Lemma ancestors_elem a s : a +:+ String slash s <> "" -> a ∈ ancestors (a +:+ String slash s).
Proof.
  intros _. destruct a as [|c a]; cbn [String.append ancestors]; [set_solver|].
  apply elem_of_app. left. apply (prefixes_at_slash_elem (String c "")).
Qed.

Lemma pointer_of_app ts us : pointer_of (ts ++ us) = pointer_of ts +:+ pointer_of us.
Proof. induction ts as [|t ts IH]; [done|]. cbn [app pointer_of]. by rewrite IH, string_app_assoc. Qed.

Lemma prefix_ancestor ts u us : pointer_of ts ∈ ancestors (pointer_of (ts ++ u :: us)).
Proof.
  rewrite pointer_of_app. cbn [pointer_of]. rewrite string_app_cons. apply ancestors_elem.
  by destruct (pointer_of ts).
Qed.

(** ** Array slots *)

Lemma pretty_char d : (d < 10)%N -> pretty_N_char d = Ascii.ascii_of_N (48 + d).
Proof.
  intros Hd. assert (d ∈ [0; 1; 2; 3; 4; 5; 6; 7; 8; 9]%N) as Hin.
  { rewrite !elem_of_cons. lia. }
  repeat (apply elem_of_cons in Hin as [->|Hin]; [done|]). by apply elem_of_nil in Hin.
Qed.

Lemma pretty_decimal s a w : (0 < a)%N -> str_all is_ascii_digit s = true ->
  pretty_N_go (decimal_value s a) w = pretty_N_go a (s +:+ w).
Proof.
  revert a. induction s as [|c s IH]; intros a Ha Hs; [done|].
  apply andb_true_iff in Hs as [Hc Hs]. cbn [decimal_value].
  assert (48 <= code c <= 57)%N as Hd by (unfold is_ascii_digit, in_range in Hc; inv_ok; lia).
  rewrite IH by (done || lia). rewrite pretty_N_go_step by lia.
  replace ((a * 10 + (code c - 48)) `div` 10)%N with a by (apply (N.div_unique _ _ _ (code c - 48)); lia).
  replace ((a * 10 + (code c - 48)) `mod` 10)%N with (code c - 48)%N by (apply (N.mod_unique _ _ a); lia).
  rewrite pretty_char by lia. by replace (Ascii.ascii_of_N (48 + (code c - 48))) with c
    by (apply code_inj; rewrite code_ascii; lia).
Qed.

Lemma decimal_value_pos s a : (0 < a)%N -> (0 < decimal_value s a)%N.
Proof. revert a. induction s as [|c s IH]; intros a Ha; cbn [decimal_value]; [done|]. apply IH. lia. Qed.

(** The index of a slot is written without leading zeros, so its token is the one
    the classification uses. *)
Lemma parse_array_index_pretty token i : parse_array_index token = Some i -> token = pretty i.
Proof.
  unfold parse_array_index. destruct (decide (token = "0")) as [->|Hne].
  { vm_compute. by intros [= <-]. }
  rewrite (bool_decide_eq_false_2 (token = "0")) by done. cbn [orb].
  destruct (negb _ && _) eqn:Hd; [|done]. case_match eqn:Hr; [done|]. intros [= <-].
  apply andb_true_iff in Hd as [Hz Hd]. apply orb_false_iff in Hr as [Hr%bool_decide_eq_false _].
  destruct token as [|c s]; [done|]. cbn [decimal_value]. pose proof Hd as Hd'.
  apply andb_true_iff in Hd' as [Hc Hs].
  assert (48 <= code c <= 57)%N as Hdig by (unfold is_ascii_digit, in_range in Hc; inv_ok; lia).
  assert (code c <> 48)%N as Hc0.
  { intros Heq. unfold starts_with in Hz. simpl in Hz. rewrite bool_decide_eq_true_2 in Hz; [done|].
    apply code_inj. by rewrite Heq. }
  pose proof (decimal_value_pos s (0 * 10 + (code c - 48)) ltac:(lia)).
  unfold pretty, pretty_N. rewrite decide_False by lia.
  rewrite pretty_decimal, string_app_nil_r, pretty_N_go_step by (done || lia).
  rewrite (N.div_small (0 * 10 + _)), (N.mod_small (0 * 10 + _)), pretty_N_go_0, pretty_char by lia.
  f_equal. apply code_inj. rewrite code_ascii; lia.
Qed.

Lemma slot_pretty token l i : slot token l = Some i -> token = pretty (N.of_nat i) /\ (i < length l)%nat.
Proof.
  unfold slot. destruct (parse_array_index token) as [n|] eqn:Hp; [|done]. cbn. case_match eqn:Hl; [|done].
  intros [= <-]. apply parse_array_index_pretty in Hp as ->. apply N.ltb_lt in Hl. unfold len in Hl.
  rewrite N2Nat.id. split; [done|lia].
Qed.

Lemma digits_encode t : str_all is_ascii_digit t = true -> encode_pointer_token t = t.
Proof.
  induction t as [|c t IH]; intros Ht; [done|]. apply andb_true_iff in Ht as [Hc Ht].
  rewrite encode_other, IH by (done || by intros ->). done.
Qed.

Lemma pretty_go_digits x s : str_all is_ascii_digit s = true -> str_all is_ascii_digit (pretty_N_go x s) = true.
Proof.
  revert s. induction (N.lt_wf_0 x) as [x _ IH]; intros s Hs.
  destruct (decide (0 < x)%N) as [Hx|Hx]; [|by replace x with 0%N by lia].
  rewrite pretty_N_go_step by done. apply IH; [apply N.div_lt; lia|].
  cbn [str_all]. rewrite Hs, andb_true_r, pretty_char by (apply N.mod_lt; lia).
  pose proof (N.mod_lt x 10 ltac:(lia)) as Hd. generalize dependent (x `mod` 10)%N. intros d Hd.
  unfold is_ascii_digit, in_range. rewrite code_ascii by lia. apply andb_true_iff. split; apply N.leb_le; lia.
Qed.

Lemma pretty_encode (n : N) : encode_pointer_token (pretty n) = pretty n.
Proof.
  apply digits_encode. unfold pretty, pretty_N. case_decide; [done|]. by apply pretty_go_digits.
Qed.
