(* ===== verification/Erasure.v ===== *)
(** * What a rule does not look at

    The value of a record with its hidden parts erased, and the lemma that a rule
    does the same to two records that agree up to the parts still to be hidden. *)

From stdpp Require Import pretty.
From S2P Require Import Prelude Text Protocol Scanner Redaction Pointers.

(** The paths that go on below a token *)
Definition under (token : string) (H : list (list string)) : list (list string) :=
  omap (fun path => match path with
                    | t :: ts => if bool_decide (t = token) then Some ts else None
                    | [] => None
                    end) H.

(** The value with the values at the paths of [H] erased *)
Fixpoint erase (H : list (list string)) (v : json) : json :=
  if bool_decide ([] ∈ H) then JNull
  else
    match v with
    | JArray l =>
        JArray ((fix go i l := match l with
                               | [] => []
                               | x :: l => erase (under (pretty (N.of_nat i)) H) x :: go (S i) l
                               end) 0%nat l)
    | JObject m => JObject ((fun kv => (kv.1, erase (under kv.1 H) kv.2)) <$> m)
    | _ => v
    end.

Definition agree (H : list (list string)) (v w : json) : Prop := erase H v = erase H w.

(** ** Paths *)

Lemma elem_of_under t H p : p ∈ under t H <-> t :: p ∈ H.
Proof.
  unfold under. rewrite list_elem_of_omap. split.
  - intros ([|u q] & Hin & Heq); [done|]. case_bool_decide; [|done]. by simplify_eq.
  - intros Hin. exists (t :: p). by rewrite bool_decide_eq_true_2.
Qed.

Definition without (path : list string) (H : list (list string)) : list (list string) :=
  filter (fun p => p <> path) H.

Lemma under_without_same t p H : under t (without (t :: p) H) = without p (under t H).
Proof.
  unfold without, under. induction H as [|q H IH]; [done|]. rewrite filter_cons. cbn [omap list_omap].
  destruct q as [|u q]; [rewrite decide_True by done; cbn [omap list_omap]; apply IH|].
  destruct (decide (u = t)) as [->|Hne].
  - rewrite (bool_decide_eq_true_2 (t = t)) by done. rewrite filter_cons.
    destruct (decide (q = p)) as [->|Hq].
    + rewrite !decide_False by naive_solver. apply IH.
    + rewrite !decide_True by naive_solver. cbn [omap list_omap].
      rewrite (bool_decide_eq_true_2 (t = t)) by done. by rewrite <- IH.
  - rewrite (bool_decide_eq_false_2 (u = t)) by done. rewrite decide_True by naive_solver. cbn [omap list_omap].
    rewrite (bool_decide_eq_false_2 (u = t)) by done. apply IH.
Qed.

Lemma under_without_other t u p H : t <> u -> under t (without (u :: p) H) = under t H.
Proof.
  intros Hne. unfold without, under. induction H as [|q H IH]; [done|]. rewrite filter_cons. cbn [omap list_omap].
  destruct (decide (q <> u :: p)) as [Hq|Hq].
  - cbn [omap list_omap]. by rewrite IH.
  - apply dec_stable in Hq as ->. rewrite (bool_decide_eq_false_2 (u = t)) by done. apply IH.
Qed.

Lemma without_id p H : p ∉ H -> without p H = H.
Proof.
  unfold without. intros Hp. induction H as [|q H IH]; [done|]. rewrite filter_cons_True by set_solver.
  f_equal. set_solver.
Qed.

Lemma not_in_without p q H : p ∉ H -> p ∉ without q H.
Proof. unfold without. rewrite list_elem_of_filter. tauto. Qed.

Lemma under_nil t : under t [] = [].
Proof. done. Qed.

(** ** Agreement *)

Definition members_agree (H : list (list string)) : list (string * json) -> list (string * json) -> Prop :=
  Forall2 (fun kv kv' => kv.1 = kv'.1 /\ agree (under kv.1 H) kv.2 kv'.2).

Definition items_agree (H : list (list string)) (l l' : list json) : Prop :=
  length l = length l' /\
  forall i x x', l !! i = Some x -> l' !! i = Some x' -> agree (under (pretty (N.of_nat i)) H) x x'.

Lemma erase_hidden H v : [] ∈ H -> erase H v = JNull.
Proof. intros Hin. destruct v; cbn [erase]; by rewrite bool_decide_eq_true_2. Qed.

Lemma erase_array H l : [] ∉ H ->
  erase H (JArray l) = JArray (imap (fun i x => erase (under (pretty (N.of_nat i)) H) x) l).
Proof.
  intros Hin. cbn [erase]. rewrite bool_decide_eq_false_2 by done. f_equal.
  assert (forall k, (fix go i l := match l with
      | [] => []
      | x :: l => erase (under (pretty (N.of_nat i)) H) x :: go (S i) l
      end) k l = imap (fun i x => erase (under (pretty (N.of_nat (k + i))) H) x) l) as Hgo.
  { induction l as [|x l IH]; intros k; [done|]. cbn [imap]. rewrite IH. f_equal.
    - by rewrite Nat.add_0_r.
    - apply imap_ext. intros i y _. cbn. by rewrite Nat.add_succ_r. }
  apply (Hgo 0%nat).
Qed.

Lemma erase_object H m : [] ∉ H ->
  erase H (JObject m) = JObject ((fun kv => (kv.1, erase (under kv.1 H) kv.2)) <$> m).
Proof. intros Hin. cbn [erase]. by rewrite bool_decide_eq_false_2. Qed.

Definition scalar (v : json) : Prop := match v with JArray _ | JObject _ => False | _ => True end.

Lemma erase_scalar H v : [] ∉ H -> scalar v -> erase H v = v.
Proof. intros Hin Hs. destruct v; try done; cbn [erase]; by rewrite bool_decide_eq_false_2. Qed.

Lemma imap_eq_items {B} (f : nat -> json -> B) l l' :
  imap f l = imap f l' <-> length l = length l' /\ forall i x x', l !! i = Some x -> l' !! i = Some x' -> f i x = f i x'.
Proof.
  split.
  - intros Heq. split.
    + apply (f_equal length) in Heq. by rewrite !length_imap in Heq.
    + intros i x x' Hx Hx'. apply (f_equal (lookup i)) in Heq. rewrite !list_lookup_imap, Hx, Hx' in Heq.
      by injection Heq.
  - intros [Hlen Hall]. apply list_eq_same_length with (length l); [by rewrite length_imap..|].
    intros i y y' _ Hy Hy'. rewrite list_lookup_imap in Hy, Hy'.
    destruct (l !! i) as [x|] eqn:Hx; [|done]. destruct (l' !! i) as [x'|] eqn:Hx'; [|done].
    simplify_eq/=. by apply Hall.
Qed.

Lemma agree_arrays H l l' : [] ∉ H -> agree H (JArray l) (JArray l') <-> items_agree H l l'.
Proof.
  intros Hin. unfold agree. rewrite !erase_array by done. unfold items_agree, agree.
  rewrite <- (imap_eq_items (fun i x => erase (under (pretty (N.of_nat i)) H) x)).
  split; [by intros [= ->]|by intros ->].
Qed.

Lemma agree_objects H m m' : [] ∉ H -> agree H (JObject m) (JObject m') <-> members_agree H m m'.
Proof.
  intros Hin. unfold agree. rewrite !erase_object by done. split.
  - intros [= Heq]. revert m' Heq. induction m as [|[k x] m IH]; intros [|[k' x'] m'] Heq; try done; [constructor|].
    injection Heq as -> Hx Hm. constructor; [done|]. by apply IH.
  - intros Hm. f_equal. induction Hm as [|[k x] [k' x'] m m' [Hk Hx] Hm IH]; [done|]. simpl in Hk, Hx. subst k'.
    rewrite !fmap_cons. cbn [fst snd]. unfold agree in Hx. by rewrite Hx, IH.
Qed.

(** Values that agree and are not hidden have the same shape. *)
Lemma agree_cases H v w : [] ∉ H -> agree H v w ->
  (scalar v /\ w = v) \/
  (exists l l', v = JArray l /\ w = JArray l' /\ items_agree H l l') \/
  (exists m m', v = JObject m /\ w = JObject m' /\ members_agree H m m').
Proof.
  intros Hin Ha. destruct v as [| | | |l|m].
  1-4: left; split; [done|]; unfold agree in Ha; rewrite erase_scalar in Ha by done;
    destruct w; try (by rewrite erase_scalar in Ha by done);
    [by rewrite erase_array in Ha|by rewrite erase_object in Ha].
  - right. left. destruct w as [| | | |l'|m'].
    1-4: by unfold agree in Ha; rewrite erase_array, erase_scalar in Ha.
    + exists l, l'. by rewrite <- agree_arrays.
    + by unfold agree in Ha; rewrite erase_array, erase_object in Ha.
  - right. right. destruct w as [| | | |l'|m'].
    1-4: by unfold agree in Ha; rewrite erase_object, erase_scalar in Ha.
    + by unfold agree in Ha; rewrite erase_array, erase_object in Ha.
    + exists m, m'. by rewrite <- agree_objects.
Qed.

Lemma erase_nil v : erase [] v = v.
Proof.
  induction v as [| | | |l IH|m IH] using json_ind'; [done..| |].
  - rewrite erase_array by set_solver. f_equal. induction IH as [|x l Hx IH IHl]; [done|]. cbn [imap].
    rewrite under_nil, Hx. f_equal. etrans; [|apply IHl]. by apply imap_ext.
  - rewrite erase_object by set_solver. f_equal. induction IH as [|[k x] m Hx IH IHm]; [done|].
    rewrite fmap_cons. cbn [fst snd] in *. rewrite under_nil. by rewrite Hx, IHm.
Qed.

Lemma agree_nil v w : agree [] v w -> v = w.
Proof. unfold agree. by rewrite !erase_nil. Qed.

Lemma agree_refl H v : agree H v v.
Proof. done. Qed.

(** ** Members and items *)

(** [H'] hides below the other tokens what [H] does. *)
Definition same_elsewhere (t : string) (H H' : list (list string)) : Prop :=
  forall u, u <> t -> under u H' = under u H.

Lemma without_elsewhere t p H : same_elsewhere t H (without (t :: p) H).
Proof. intros u Hu. by apply under_without_other. Qed.

Lemma assoc_agree H m m' k : members_agree H m m' ->
  (assoc k m = None /\ assoc k m' = None) \/
  exists x x', assoc k m = Some x /\ assoc k m' = Some x' /\ agree (under k H) x x'.
Proof.
  induction 1 as [|[j x] [j' x'] m m' [Hj Hx] _ IH]; [by left|]. simpl in Hj, Hx. subst j'. cbn [assoc].
  case_bool_decide as Hk; [|done]. subst. right. by exists x, x'.
Qed.

Lemma obj_remove_agree H H' m m' k : members_agree H m m' -> same_elsewhere k H H' ->
  members_agree H' (obj_remove k m) (obj_remove k m').
Proof.
  intros Hm Hsame. unfold obj_remove. induction Hm as [|[j x] [j' x'] m m' [Hj Hx] _ IH]; [constructor|].
  simpl in Hj, Hx. subst j'. rewrite !filter_cons. cbn [fst]. case_decide as Hk; [|done].
  constructor; [|done]. simpl. by rewrite Hsame.
Qed.

Lemma obj_set_agree H H' m m' k x x' : members_agree H m m' -> same_elsewhere k H H' ->
  agree (under k H') x x' -> members_agree H' (obj_set k x m) (obj_set k x' m').
Proof.
  intros Hm Hsame Hx. unfold obj_set. induction Hm as [|[j y] [j' y'] m m' [Hj Hy] _ IH]; [constructor|].
  simpl in Hj, Hy. subst j'. rewrite !fmap_cons. cbn [fst snd]. constructor; [|done].
  case_bool_decide as Hk; [by subst|]. simpl. by rewrite Hsame.
Qed.

Lemma obj_insert_agree H m m' k x : members_agree H m m' -> members_agree H (obj_insert k x m) (obj_insert k x m').
Proof.
  induction 1 as [|[j y] [j' y'] m m' [Hj Hy] Hm IH]; [by constructor|]. simpl in Hj, Hy. subst j'.
  cbn [obj_insert]. destruct (cmp k j); constructor; try (split; done); [exact Hm|by constructor|exact IH].
Qed.

Lemma items_lookup H l l' i : items_agree H l l' ->
  (l !! i = None /\ l' !! i = None) \/
  exists x x', l !! i = Some x /\ l' !! i = Some x' /\ agree (under (pretty (N.of_nat i)) H) x x'.
Proof.
  intros [Hlen Hall]. destruct (l !! i) as [x|] eqn:Hx.
  - apply lookup_lt_Some in Hx as Hi. rewrite Hlen in Hi. apply lookup_lt_is_Some in Hi as [x' Hx'].
    right. exists x, x'. auto.
  - left. split; [done|]. apply lookup_ge_None. rewrite <- Hlen. by apply lookup_ge_None.
Qed.

Lemma items_insert H H' l l' i x x' : items_agree H l l' -> same_elsewhere (pretty (N.of_nat i)) H H' ->
  agree (under (pretty (N.of_nat i)) H') x x' -> items_agree H' (<[i := x]> l) (<[i := x']> l').
Proof.
  intros [Hlen Hall] Hsame Hx. split; [by rewrite !length_insert|]. intros j y y' Hy Hy'.
  destruct (decide (j = i)) as [->|Hne].
  - apply list_lookup_insert_Some in Hy as [(_ & -> & _)|(? & _)]; [|done].
    by apply list_lookup_insert_Some in Hy' as [(_ & -> & _)|(? & _)].
  - rewrite list_lookup_insert_ne in Hy, Hy' by done. rewrite Hsame; [by apply Hall|].
    intros Heq%(inj pretty). lia.
Qed.

Lemma slot_agree H l l' t : items_agree H l l' -> slot t l' = slot t l.
Proof. intros [Hlen _]. unfold slot, len. by rewrite Hlen. Qed.

(** ** Rules *)

Definition hides (r : RedactionRule) : bool :=
  bool_decide (redaction r = Placeholder) || bool_decide (redaction r = DropValue).

Definition results_agree (H : list (list string)) (a b : result PrivacyError json) : Prop :=
  match a, b with
  | Ok v, Ok w => agree H v w
  | Err e, Err e' => e = e'
  | _, _ => False
  end.

(** No path of [H] ends strictly above [path]. *)
Definition clear_above (H : list (list string)) (path : list string) : Prop :=
  forall p u us, p ∈ H -> path <> p ++ u :: us.

Lemma clear_above_under H t p : clear_above H (t :: p) -> clear_above (under t H) p.
Proof. intros Hc q u us Hq%elem_of_under ->. by eapply (Hc (t :: q)). Qed.

Lemma clear_above_here H t p : clear_above H (t :: p) -> [] ∉ H.
Proof. intros Hc Hin. by apply (Hc [] t p). Qed.

Section rules.
Context `{mac : HmacSha256, url : UrlBase64}.
Context (run_id : string) (policy : PrivacyPolicy) (key : string) (r : RedactionRule).

(** A rule that does not keep a value gives the same one, or the same error, for
    values that agree. *)
Lemma apply_at_value_same H v w : agree H v w -> ([] ∈ H -> hides r = true) -> redaction r <> Keep ->
  apply_at_value run_id policy key r v = apply_at_value run_id policy key r w.
Proof.
  intros Ha Hh Hk. unfold apply_at_value, hides in *. destruct (redaction r) eqn:Hr; [done|done| |done].
  assert ([] ∉ H) as Hin by (intros Hin; by apply Hh in Hin).
  by destruct (agree_cases H v w Hin Ha) as [[_ ->]|[(l & l' & -> & -> & _)|(m & m' & -> & -> & _)]].
Qed.

Lemma apply_at_value_agree H v w : agree H v w -> ([] ∈ H -> hides r = true) ->
  results_agree (without [] H) (apply_at_value run_id policy key r v) (apply_at_value run_id policy key r w).
Proof.
  intros Ha Hh. destruct (decide (redaction r = Keep)) as [Hk|Hk].
  - assert ([] ∉ H) by (intros Hin; apply Hh in Hin; unfold hides in Hin; by rewrite Hk in Hin).
    unfold apply_at_value. rewrite Hk. by rewrite without_id.
  - rewrite (apply_at_value_same H v w) by done. by destruct (apply_at_value _ _ _ r w).
Qed.

(** Kept values are not hidden, hidden values are replaced, handles are equal: in
    each case the new values agree with nothing hidden but what [H] hides below
    them. *)
Lemma apply_last_agree H t v w : agree H v w -> clear_above H [t] -> ([t] ∈ H -> hides r = true) ->
  results_agree (without [t] H) (apply_last run_id policy key r t v) (apply_last run_id policy key r t w).
Proof.
  intros Ha Hc Hh. pose proof (clear_above_here _ _ _ Hc) as Hin.
  pose proof (not_in_without [] [t] H Hin) as Hin'.
  pose proof (without_elsewhere t [] H) as Hsame.
  destruct (agree_cases H v w Hin Ha) as [[Hs ->]|[(l & l' & -> & -> & Hl)|(m & m' & -> & -> & Hm)]].
  - by destruct v.
  - cbn [apply_last]. rewrite (slot_agree H l l' t Hl). destruct (slot t l) as [i|] eqn:Hi; [|done].
    apply slot_pretty in Hi as [-> _]. cbn [ok_or mbind result_bind].
    destruct (items_lookup H l l' i Hl) as [[-> ->]|(x & x' & -> & -> & Hx)]; [done|]. cbn [ok_or mbind result_bind].
    case_bool_decide; cbn [mbind result_bind results_agree].
    { apply agree_arrays; [done|]. by apply (items_insert H). }
    assert ([] ∈ under (pretty (N.of_nat i)) H -> hides r = true) as Hh' by (rewrite elem_of_under; done).
    pose proof (apply_at_value_agree _ x x' Hx Hh') as Hv. rewrite <- under_without_same in Hv.
    destruct (apply_at_value _ _ _ r x), (apply_at_value _ _ _ r x'); try done. cbn [mbind result_bind results_agree] in *.
    apply agree_arrays; [done|]. by apply (items_insert H).
  - cbn [apply_last]. destruct (assoc_agree H m m' t Hm) as [[-> ->]|(x & x' & -> & -> & Hx)]; [done|].
    cbn [ok_or mbind result_bind].
    assert ([] ∈ under t H -> hides r = true) as Hh' by (rewrite elem_of_under; done).
    pose proof (apply_at_value_agree _ x x' Hx Hh') as Hv. rewrite <- under_without_same in Hv.
    pose proof (obj_remove_agree H _ m m' t Hm Hsame) as Hrem.
    destruct (decide (redaction r = Keep)) as [Hk|Hk].
    { rewrite Hk. destruct (apply_at_value _ _ _ r x), (apply_at_value _ _ _ r x'); try done.
      apply agree_objects; [done|]. by apply (obj_set_agree H). }
    rewrite (apply_at_value_same _ x x' Hx Hh' Hk).
    destruct (redaction r) eqn:Hr; [done| | |by apply agree_objects].
    all: destruct (apply_at_value _ _ _ r x') as [new|]; [|done]; cbn [mbind result_bind].
    all: destruct (assoc_agree _ _ _ (redacted_field_name run_id policy key (pointer r)) Hrem)
      as [[-> ->]|(y & y' & -> & -> & _)]; [|done].
    all: apply agree_objects; [done|]; by apply obj_insert_agree.
Qed.

Lemma apply_tokens_cons t u us v :
  apply_tokens run_id policy key r (t :: u :: us) v =
  match v with
  | JObject m =>
      child ← ok_or (assoc t m) UnmatchedRule;
      new ← apply_tokens run_id policy key r (u :: us) child;
      Ok (JObject (obj_set t new m))
  | JArray l =>
      i ← ok_or (slot t l) UnmatchedRule;
      child ← ok_or (l !! i) UnmatchedRule;
      new ← apply_tokens run_id policy key r (u :: us) child;
      Ok (JArray (<[i := new]> l))
  | _ => Err UnmatchedRule
  end.
Proof. done. Qed.

Lemma apply_tokens_agree H ts v w : agree H v w -> clear_above H ts -> (ts ∈ H -> hides r = true) ->
  results_agree (without ts H) (apply_tokens run_id policy key r ts v) (apply_tokens run_id policy key r ts w).
Proof.
  revert H v w. induction ts as [|t ts IH]; intros H v w Ha Hc Hh; [by apply apply_at_value_agree|].
  destruct ts as [|u us]; [by apply apply_last_agree|].
  rewrite !apply_tokens_cons. generalize dependent (u :: us). intros ts IH Hc Hh.
  pose proof (clear_above_here _ _ _ Hc) as Hin. pose proof (not_in_without [] (t :: ts) H Hin) as Hin'.
  pose proof (without_elsewhere t ts H) as Hsame. pose proof (clear_above_under _ _ _ Hc) as Hc'.
  assert (ts ∈ under t H -> hides r = true) as Hh' by (rewrite elem_of_under; done).
  destruct (agree_cases H v w Hin Ha) as [[Hs ->]|[(l & l' & -> & -> & Hl)|(m & m' & -> & -> & Hm)]].
  - by destruct v.
  - rewrite (slot_agree H l l' t Hl).
    destruct (slot t l) as [i|] eqn:Hi; [|done]. apply slot_pretty in Hi as [-> _]. cbn [ok_or mbind result_bind].
    destruct (items_lookup H l l' i Hl) as [[-> ->]|(x & x' & -> & -> & Hx)]; [done|]. cbn [ok_or mbind result_bind].
    pose proof (IH _ x x' Hx Hc' Hh') as Hv. rewrite <- under_without_same in Hv.
    destruct (apply_tokens _ _ _ r ts x), (apply_tokens _ _ _ r ts x'); try done.
    apply agree_arrays; [done|]. by apply (items_insert H).
  - destruct (assoc_agree H m m' t Hm) as [[-> ->]|(x & x' & -> & -> & Hx)]; [done|]. cbn [ok_or mbind result_bind].
    pose proof (IH _ x x' Hx Hc' Hh') as Hv. rewrite <- under_without_same in Hv.
    destruct (apply_tokens _ _ _ r ts x), (apply_tokens _ _ _ r ts x'); try done.
    apply agree_objects; [done|]. by apply (obj_set_agree H).
Qed.
End rules.
