(* ===== verification/Classified.v ===== *)
(** * Policies and the classification of records

    What a constructed policy guarantees, and [ensure_fully_classified] against a
    recursive definition: every value that is not below a transformed one has a
    rule, but for non-empty containers in arrays. *)

From stdpp Require Import pretty.
From S2P Require Import Prelude Text Protocol Scanner Redaction Pointers Erasure.

(** ** Constructed policies *)

Record rules_ok (rs : list RedactionRule) : Prop := {
  ok_distinct : NoDup (pointer <$> rs);
  ok_pointers : Forall (fun r => validate_pointer (pointer r) = Ok tt) rs;
  ok_pairs : Forall (fun r => validate_rule_pair r = Ok tt) rs;
  ok_overlaps : contains_unsafe_overlaps rs = false }.

Lemma check_rules_Ok seen rs seen' : try_fold check_rule seen rs = Ok seen' ->
  NoDup (pointer <$> rs) /\ (forall p, p ∈ pointer <$> rs -> p ∉ seen) /\
  Forall (fun r => validate_pointer (pointer r) = Ok tt) rs /\ Forall (fun r => validate_rule_pair r = Ok tt) rs.
Proof.
  revert seen. induction rs as [|r rs IH]; intros seen Hf; [by split_and!; try constructor; set_solver|].
  cbn [try_fold] in Hf. apply bind_Ok_inv in Hf as (s1 & Hr & Hf). unfold check_rule in Hr. inv_ok.
  apply IH in Hf as (Hnd & Hseen & Hp & Hv). rewrite fmap_cons. split_and!.
  - constructor; [|done]. intros Hin%Hseen. set_solver.
  - intros p [->|Hin]%elem_of_cons; [done|]. apply Hseen in Hin. set_solver.
  - by constructor.
  - by constructor.
Qed.

Lemma new_versioned_ok id rev gen rs policy : new_versioned id rev gen rs = Ok policy -> rules_ok (rules policy).
Proof.
  unfold new_versioned. intros Hok.
  repeat match type of Hok with _ ≫= _ = Ok _ => apply bind_Ok_inv in Hok as (? & ? & Hok) end.
  apply Ok_inj in Hok as <-. cbn [rules].
  match goal with H : try_fold check_rule _ _ = _ |- _ => apply check_rules_Ok in H as (Hnd & _ & Hp & Hv) end.
  match goal with H : fail_if (contains_unsafe_overlaps _) _ = _ |- _ => apply fail_if_Ok in H end.
  pose proof (sort_by_key_perm pointer rs) as Hperm. split; [by rewrite Hperm|by rewrite Hperm|by rewrite Hperm|done].
Qed.

Lemma rule_at_Some rs p r : rule_at rs p = Some r -> r ∈ rs /\ pointer r = p.
Proof.
  unfold rule_at. destruct (list_find _ rs) as [[i x]|] eqn:Hf; [|done]. cbn. intros [= <-].
  apply list_find_Some in Hf as (Hi & Hp & _). split; [by eapply list_elem_of_lookup_2|done].
Qed.

Lemma rule_at_elem rs r : NoDup (pointer <$> rs) -> r ∈ rs -> rule_at rs (pointer r) = Some r.
Proof.
  intros Hnd Hr. unfold rule_at. destruct (list_find _ rs) as [[i x]|] eqn:Hf.
  - apply list_find_Some in Hf as (Hi & Hp & _). cbn. f_equal.
    by apply (NoDup_fmap_inj_on pointer rs); [done|eapply list_elem_of_lookup_2|..].
  - apply list_find_None in Hf. rewrite Forall_forall in Hf. by apply Hf in Hr.
Qed.

(** ** Hidden paths *)

Definition hidden (rs : list RedactionRule) : list (list string) :=
  (fun r => decode_pointer (pointer r)) <$> filter (fun r => hides r = true) rs.

Lemma elem_of_hidden rs p : p ∈ hidden rs <-> exists r, r ∈ rs /\ hides r = true /\ decode_pointer (pointer r) = p.
Proof.
  unfold hidden. rewrite list_elem_of_fmap. setoid_rewrite list_elem_of_filter. naive_solver.
Qed.

Lemma hides_not_keep r : hides r = true -> redaction r <> Keep.
Proof. unfold hides. by intros Hh Hk; rewrite Hk in Hh. Qed.

(** A rule that hides a value is not strictly above another rule. *)
Lemma hidden_clear rs r : rules_ok rs -> r ∈ rs -> clear_above (hidden rs) (decode_pointer (pointer r)).
Proof.
  intros Hok Hr p u us (r' & Hr' & Hh & <-)%elem_of_hidden Heq.
  pose proof (ok_pointers _ Hok) as Hp. rewrite Forall_forall in Hp.
  pose proof (prefix_ancestor (decode_pointer (pointer r')) u us) as Hanc.
  rewrite <- Heq, !pointer_of_decode in Hanc by auto.
  pose proof (ok_overlaps _ Hok) as Hno. unfold contains_unsafe_overlaps in Hno.
  enough (existsb (fun r => existsb (fun a => is_some_and (rule_at rs a) (fun x => negb (bool_decide (redaction x = Keep))))
                      (ancestors (pointer r))) rs = true) by congruence.
  apply existsb_exists. exists r. split; [by apply list_elem_of_In|]. apply existsb_exists.
  exists (pointer r'). split; [by apply list_elem_of_In|]. rewrite rule_at_elem by (apply Hok || done).
  simpl. apply negb_true_iff, bool_decide_eq_false. by apply hides_not_keep.
Qed.

Lemma decode_pointer_inj rs r r' : rules_ok rs -> r ∈ rs -> r' ∈ rs ->
  decode_pointer (pointer r) = decode_pointer (pointer r') -> r = r'.
Proof.
  intros Hok Hr Hr' Heq. pose proof (ok_pointers _ Hok) as Hp. rewrite Forall_forall in Hp.
  apply (f_equal pointer_of) in Heq. rewrite !pointer_of_decode in Heq by auto.
  by apply (NoDup_fmap_inj_on pointer rs); [apply Hok|..].
Qed.

Section fold.
Context `{mac : HmacSha256, url : UrlBase64}.
Context (run_id : string) (policy : PrivacyPolicy) (key : string).

(** The rules give the same record, or the same error, for records that agree but
    for what they hide. *)
Lemma apply_rules_same rs rest v w : rules_ok rs -> NoDup rest -> (forall r, r ∈ rest -> r ∈ rs) ->
  agree (hidden rest) v w ->
  try_fold (apply_rule run_id policy key) v rest = try_fold (apply_rule run_id policy key) w rest.
Proof.
  intros Hok. revert v w. induction rest as [|r rest IH]; intros v w Hnd Hsub Ha; [by apply agree_nil in Ha as ->|].
  apply NoDup_cons in Hnd as [Hr Hnd]. assert (r ∈ rs) as Hrs by (apply Hsub; set_solver).
  set (path := decode_pointer (pointer r)).
  assert (path ∉ hidden rest) as Hfresh.
  { intros (r' & Hr' & _ & Heq)%elem_of_hidden. apply Hr.
    by rewrite <- (decode_pointer_inj rs r' r Hok (Hsub r' ltac:(set_solver)) Hrs Heq). }
  assert (without path (hidden (r :: rest)) = hidden rest) as Hrest.
  { unfold hidden. rewrite filter_cons. case_decide; [|by apply without_id].
    rewrite fmap_cons. unfold without. rewrite filter_cons_False by naive_solver. by apply without_id. }
  assert (clear_above (hidden (r :: rest)) path) as Hclear.
  { intros p u us (r' & Hr' & Hh & Hp)%elem_of_hidden. apply (hidden_clear rs r Hok Hrs).
    apply elem_of_hidden. eauto. }
  assert (path ∈ hidden (r :: rest) -> hides r = true) as Hhides.
  { intros (r' & [->|Hr']%elem_of_cons & Hh & Hp)%elem_of_hidden; [done|]. destruct Hfresh. apply elem_of_hidden. eauto. }
  cbn [try_fold]. pose proof (apply_tokens_agree run_id policy key r _ _ v w Ha Hclear Hhides) as Hv. rewrite Hrest in Hv.
  change (apply_tokens run_id policy key r path v) with (apply_rule run_id policy key v r) in Hv.
  change (apply_tokens run_id policy key r path w) with (apply_rule run_id policy key w r) in Hv.
  destruct (apply_rule _ _ _ v r), (apply_rule _ _ _ w r); simpl in Hv; try done.
  - apply IH; [done| |done]. intros r' Hr'. apply Hsub. set_solver.
  - by subst.
Qed.
End fold.

(** ** Stack loops *)

Lemma forallb_rev {A} (f : A -> bool) l : forallb f (rev l) = forallb f l.
Proof.
  induction l as [|x l IH]; [done|]. cbn [rev forallb]. rewrite forallb_app, IH. cbn. by rewrite andb_true_r, andb_comm.
Qed.

Lemma list_sum_cons (x : nat) l : list_sum (x :: l) = (x + list_sum l)%nat.
Proof. done. Qed.

Lemma list_sum_rev_app (l k : list nat) : list_sum (rev l ++ k) = (list_sum l + list_sum k)%nat.
Proof.
  rewrite list_sum_app. f_equal. induction l as [|x l IH]; [done|]. cbn [rev]. rewrite list_sum_app, !list_sum_cons, IH. change (list_sum []) with 0%nat. lia.
Qed.

(** A loop that only checks its nodes: it fails exactly when some node below the
    stack does, whatever the order, and the fuel is enough. *)
Lemma drain_fuel {E A} (out e : E) (visit : unit -> A -> result E (unit * list A)) (deep : A -> bool) (size : A -> nat) :
  (forall x, (0 < size x)%nat) ->
  (forall x, (visit tt x = Err e /\ deep x = false) \/
     exists pushed, visit tt x = Ok (tt, pushed) /\ deep x = forallb deep pushed /\
       (list_sum (size <$> pushed) < size x)%nat) ->
  forall fuel stack, (list_sum (size <$> stack) <= fuel)%nat ->
  drain_stack fuel out visit tt stack = if forallb deep stack then Ok tt else Err e.
Proof.
  intros Hpos Hvisit fuel. induction fuel as [|fuel IH]; intros [|x stack] Hf; cbn [drain_stack forallb]; try done.
  all: rewrite fmap_cons, list_sum_cons in Hf; pose proof (Hpos x).
  { lia. }
  destruct (Hvisit x) as [[-> ->]|(pushed & -> & -> & Hs)]; [done|]. cbn [mbind result_bind].
  rewrite IH, forallb_app, forallb_rev; [done|].
  rewrite fmap_app. change (size <$> rev pushed) with (map size (rev pushed)). rewrite map_rev, list_sum_rev_app. change (map size pushed) with (size <$> pushed). lia.
Qed.

Lemma json_size_pos v : (0 < json_size v)%nat.
Proof. destruct v; cbn; lia. Qed.

(** ** The classification, by recursion *)

Definition container (v : json) : bool :=
  match v with JObject (_ :: _) | JArray (_ :: _) => true | _ => false end.

(** [b]: the value is a member of an object. *)
Fixpoint classified (rs : list RedactionRule) (p : string) (b : bool) (v : json) : bool :=
  let below :=
    match v with
    | JObject m => forallb (fun kv => classified rs (child_pointer p (encode_pointer_token kv.1)) true kv.2) m
    | JArray l =>
        (fix go i l := match l with
                       | [] => true
                       | x :: l => classified rs (child_pointer p (pretty (N.of_nat i))) false x && go (S i) l
                       end) 0%nat l
    | _ => true
    end in
  match rule_at rs p with
  | Some r => negb (bool_decide (redaction r = Keep)) || below
  | None => negb b && container v && below
  end.

Definition classified_node (rs : list RedactionRule) (x : json * string * bool) : bool :=
  classified rs x.1.2 x.2 x.1.1.

Lemma classified_array_go rs p l k :
  (fix go i l := match l with
                 | [] => true
                 | x :: l => classified rs (child_pointer p (pretty (N.of_nat i))) false x && go (S i) l
                 end) k l
  = forallb (classified_node rs)
      (imap (fun i child => (child, child_pointer p (pretty (N.of_nat (k + i))), false)) l).
Proof.
  revert k. induction l as [|x l IH]; intros k; [done|]. cbn [imap forallb]. rewrite IH. f_equal.
  - by rewrite Nat.add_0_r.
  - f_equal. apply imap_ext. intros i y _. cbn. by rewrite Nat.add_succ_r.
Qed.

Lemma size_imap {B} (f : nat -> json -> B) (size : B -> nat) (l : list json) :
  (forall i x, size (f i x) = json_size x) -> size <$> imap f l = json_size <$> l.
Proof.
  revert f. induction l as [|x l IH]; intros f Hf; [done|]. cbn [imap]. rewrite !fmap_cons, Hf. f_equal.
  apply IH. intros i y. apply Hf.
Qed.

Lemma forallb_fmap {A B} (f : A -> B) (g : B -> bool) l : forallb g (f <$> l) = forallb (fun x => g (f x)) l.
Proof. induction l as [|x l IH]; [done|]. rewrite fmap_cons. cbn. by rewrite IH. Qed.

(** The nodes a visit pushes *)
Definition children (p : string) (v : json) : list (json * string * bool) :=
  match v with
  | JObject m => (fun kv => (kv.2, child_pointer p (encode_pointer_token kv.1), true)) <$> m
  | JArray l => imap (fun i child => (child, child_pointer p (pretty (N.of_nat i)), false)) l
  | _ => []
  end.

Lemma classified_eq rs p b v :
  classified rs p b v =
  match rule_at rs p with
  | Some r => negb (bool_decide (redaction r = Keep)) || forallb (classified_node rs) (children p v)
  | None => negb b && container v && forallb (classified_node rs) (children p v)
  end.
Proof.
  destruct v as [| | | |l|m]; try done.
  - cbn [classified]. rewrite (classified_array_go rs p l 0). cbn [children].
    done.
  - cbn [classified children]. rewrite forallb_fmap. done.
Qed.

Lemma children_size p v : (list_sum ((fun y => json_size y.1.1) <$> children p v) < json_size v)%nat.
Proof.
  destruct v as [| | | |l|m]; try (cbn; lia).
  - cbn [children json_size]. rewrite (size_imap _ _ l); [|done]. lia.
  - cbn [children json_size]. rewrite <- list_fmap_compose. unfold compose. cbn. lia.
Qed.

Lemma classify_node_eq rs p b v :
  classify_node rs tt (v, p, b) =
  match rule_at rs p with
  | Some r => if bool_decide (redaction r = Keep) then Ok (tt, children p v) else Ok (tt, [])
  | None => if negb b && container v then Ok (tt, children p v) else Err UnclassifiedValue
  end.
Proof.
  unfold classify_node, is_some_and. destruct (rule_at rs p) as [r|]; cbn [is_some negb andb].
  - rewrite andb_false_r. cbn. destruct (bool_decide _); cbn [negb]; [|done].
    by destruct v as [| | | |[|x l]|[|x m]].
  - rewrite andb_true_r. destruct b; [done|]. by destruct v as [| | | |[|x l]|[|x m]].
Qed.

Lemma classify_node_deep rs x :
  (classify_node rs tt x = Err UnclassifiedValue /\ classified_node rs x = false) \/
  exists pushed, classify_node rs tt x = Ok (tt, pushed) /\
    classified_node rs x = forallb (classified_node rs) pushed /\
    (list_sum ((fun y => json_size y.1.1) <$> pushed) < json_size x.1.1)%nat.
Proof.
  destruct x as [[v p] b]. rewrite classify_node_eq. change (classified_node rs (v, p, b)) with (classified rs p b v).
  cbn [fst snd]. rewrite classified_eq. pose proof (children_size p v). pose proof (json_size_pos v).
  destruct (rule_at rs p) as [r|].
  - right. destruct (bool_decide _); eexists; (split; [done|]); (split; [done|]); cbn; lia.
  - destruct (negb b && container v); [right|left]; [|done]. eexists. by split.
Qed.

(** The loop of the source decides the recursive classification. *)
Lemma ensure_eq policy v :
  ensure_fully_classified v policy =
  if classified (rules policy) "" false v then Ok tt else Err UnclassifiedValue.
Proof.
  unfold ensure_fully_classified.
  rewrite (drain_fuel LimitExceeded UnclassifiedValue (classify_node (rules policy))
    (classified_node (rules policy)) (fun y => json_size y.1.1)).
  - cbn [forallb]. by rewrite andb_true_r.
  - intros y. apply json_size_pos.
  - apply classify_node_deep.
  - cbn. lia.
Qed.

(** ** The classification looks at nothing hidden *)

Lemma forallb_Forall2 {A} (f : A -> bool) l l' : Forall2 (fun x y => f x = f y) l l' -> forallb f l = forallb f l'.
Proof. induction 1 as [|x y l l' Hxy _ IH]; [done|]. cbn. by rewrite Hxy, IH. Qed.

Lemma hidden_rule rs path : rules_ok rs -> path ∈ hidden rs ->
  exists r, rule_at rs (pointer_of path) = Some r /\ hides r = true.
Proof.
  intros Hok (r & Hr & Hh & <-)%elem_of_hidden. exists r. split; [|done].
  pose proof (ok_pointers _ Hok) as Hp. rewrite Forall_forall in Hp.
  rewrite pointer_of_decode by auto. apply rule_at_elem; [apply Hok|done].
Qed.

Definition hidden_below (rs : list RedactionRule) (path : list string) (H : list (list string)) : Prop :=
  forall ts, ts ∈ H <-> path ++ ts ∈ hidden rs.

Lemma hidden_below_under rs path H t : hidden_below rs path H -> hidden_below rs (path ++ [t]) (under t H).
Proof. intros Hb ts. rewrite elem_of_under, (Hb (t :: ts)). by rewrite <- app_assoc. Qed.

Lemma child_index path i : child_pointer (pointer_of path) (pretty (N.of_nat i)) = pointer_of (path ++ [pretty (N.of_nat i)]).
Proof. by rewrite pointer_of_snoc, pretty_encode. Qed.

Lemma classified_agree rs v : rules_ok rs -> forall w path b H, hidden_below rs path H -> agree H v w ->
  classified rs (pointer_of path) b v = classified rs (pointer_of path) b w.
Proof.
  intros Hok. induction v as [|?|?|?|l IH|m IH] using json_ind'; intros w path c H Hb Ha.
  all: destruct (decide ([] ∈ H)) as [Hin|Hin];
    [apply Hb in Hin; rewrite app_nil_r in Hin; apply (hidden_rule rs path Hok) in Hin as (r & Hr & Hh%hides_not_keep);
     rewrite !classified_eq, Hr; by rewrite bool_decide_eq_false_2|].
  all: apply agree_cases in Ha as [[Hs ->]|[(l1 & l2 & Hv & -> & Hitems)|(m1 & m2 & Hv & -> & Hmem)]]; try done;
    injection Hv as ->; rewrite !classified_eq.
  - assert (forallb (classified_node rs) (children (pointer_of path) (JArray l1)) =
            forallb (classified_node rs) (children (pointer_of path) (JArray l2))) as ->.
    { apply forallb_Forall2. cbn [children]. destruct Hitems as [Hlen Hitems]. apply Forall2_same_length_lookup.
      rewrite !length_imap. split; [done|]. intros i x x' Hx Hx'. rewrite list_lookup_imap in Hx, Hx'.
      destruct (l1 !! i) as [y|] eqn:Hy; [|done]. destruct (l2 !! i) as [y'|] eqn:Hy'; [|done]. simplify_eq/=.
      unfold classified_node. cbn [fst snd]. rewrite child_index. rewrite Forall_lookup in IH.
      eapply IH; [done|by apply hidden_below_under|by apply Hitems]. }
    destruct l1, l2; destruct Hitems as [Hlen _]; done.
  - assert (forallb (classified_node rs) (children (pointer_of path) (JObject m1)) =
            forallb (classified_node rs) (children (pointer_of path) (JObject m2))) as ->.
    { apply forallb_Forall2. cbn [children]. revert IH. induction Hmem as [|[k x] [k' x'] m1 m2 [Hk Hx] _ IHm]; intros IH; [constructor|].
      simpl in Hk, Hx. subst k'. inversion IH; subst. constructor; [|by apply IHm]. unfold classified_node. cbn [fst snd].
      rewrite <- pointer_of_snoc. eauto using hidden_below_under. }
    destruct Hmem; done.
Qed.

Lemma ensure_agree policy v w : rules_ok (rules policy) -> agree (hidden (rules policy)) v w ->
  ensure_fully_classified v policy = ensure_fully_classified w policy.
Proof.
  intros Hok Ha. rewrite !ensure_eq.
  by pose proof (classified_agree _ v Hok w [] false (hidden (rules policy)) (fun ts => iff_refl _) Ha) as [= ->].
Qed.

(** ** What is published *)

Section published.
Context (rs : list RedactionRule) (root : json).

(** The values of the record that no rule above them transforms, each with its
    pointer and whether it is a member of an object *)
Inductive published : string -> bool -> json -> Prop :=
  | published_root : published "" false root
  | published_child p b v x :
      published p b v -> (forall r, rule_at rs p = Some r -> redaction r = Keep) -> x ∈ children p v ->
      published x.1.2 x.2 x.1.1.

(** A value that needs a rule of its own *)
Definition needs_rule (b : bool) (v : json) : bool := b || negb (container v).

Lemma classified_published p b v : classified rs "" false root = true -> published p b v -> classified rs p b v = true.
Proof.
  intros Hroot. induction 1 as [|p b v [[y q] c] Hv IH Hkeep Hx]; [done|]. rewrite classified_eq in IH.
  assert (forallb (classified_node rs) (children p v) = true) as Hall.
  { destruct (rule_at rs p) as [r|].
    - by rewrite (bool_decide_eq_true_2 (redaction r = Keep)) in IH by auto.
    - by apply andb_true_iff in IH as [_ IH]. }
  rewrite forallb_forall in Hall. apply (Hall (y, q, c)). by apply list_elem_of_In.
Qed.

Lemma published_classified n p b v : (json_size v <= n)%nat -> published p b v ->
  (forall q c x, published q c x -> needs_rule c x = true -> is_Some (rule_at rs q)) -> classified rs p b v = true.
Proof.
  intros Hn Hv Hall. revert p b v Hn Hv. induction n as [|n IH]; intros p b v Hn Hv.
  { pose proof (json_size_pos v). lia. }
  assert ((forall r, rule_at rs p = Some r -> redaction r = Keep) -> forallb (classified_node rs) (children p v) = true) as Hbelow.
  { intros Hkeep. apply forallb_forall. intros [[x q] c] Hx%list_elem_of_In. apply IH.
    - pose proof (children_size p v) as Hsize. apply list_elem_of_split in Hx as (l1 & l2 & Heq).
      rewrite Heq, fmap_app, list_sum_app, fmap_cons, list_sum_cons in Hsize.
      cbn [fst snd] in *. lia.
    - by apply (published_child p b v (x, q, c)). }
  rewrite classified_eq. destruct (rule_at rs p) as [r|] eqn:Hr.
  - case_bool_decide; [|done]. cbn. apply Hbelow. by intros r' [= <-].
  - destruct (needs_rule b v) eqn:Hneeds; [by apply Hall in Hv as [r ?]; [congruence|]|].
    unfold needs_rule in Hneeds. apply orb_false_iff in Hneeds as [-> ->%negb_false_iff]. by apply Hbelow.
Qed.
End published.

(** The stack loop accepts a record exactly when every value it publishes that is
    an object member, a scalar or an empty container has a rule. *)
Theorem classified_exactly policy v :
  ensure_fully_classified v policy = Ok tt <->
  forall p b x, published (rules policy) v p b x -> needs_rule b x = true -> is_Some (rule_at (rules policy) p).
Proof.
  rewrite ensure_eq. split.
  - destruct (classified _ _ _ _) eqn:Hc; [|done]. intros _ p b x Hx Hneeds.
    apply (classified_published _ _ _ _ _ Hc) in Hx. rewrite classified_eq in Hx.
    destruct (rule_at _ p); [by eexists|]. unfold needs_rule in Hneeds. by destruct b, (container x).
  - intros Hall. by rewrite (published_classified _ v (json_size v) "" false v (Nat.le_refl _) (published_root _ _) Hall).
Qed.

(** What a rule of a constructed policy may do, by the class it gives *)
Definition lawful (r : RedactionRule) : Prop :=
  match redaction r with
  | Keep => class r = ClassPublic /\ exists s, fictional_provenance r = Some s /\ s <> ""
  | DropValue => class r = ClassSecret /\ fictional_provenance r = None
  | Placeholder => class r ∈ [ClassInternal; ClassConfidential; Pii; Phi] /\ fictional_provenance r = None
  | StableHandle => class r ∈ [ClassInternal; ClassConfidential; Pii; Phi] /\ stable_identifier r = true
  end.

Lemma rule_pair_lawful r : validate_rule_pair r = Ok tt -> lawful r.
Proof.
  unfold validate_rule_pair, lawful. intros Hok. apply fail_if_Ok, negb_false_iff in Hok. revert Hok.
  destruct (redaction r), (class r), (fictional_provenance r) as [s|], (stable_identifier r);
    cbn [is_some is_some_and negb andb]; try done; intros Hs; split; try done; try set_solver.
  all: exists s; split; [done|]; by apply negb_true_iff, bool_decide_eq_false in Hs.
Qed.

(** C16: Under a policy that [new_versioned] built, every published value that needs a
    rule has one, and the rule keeps it only as fictional public data; anything
    else is hidden, dropped or replaced by a handle. *)
Theorem kept_is_public id rev gen rs policy v p b x :
  new_versioned id rev gen rs = Ok policy -> ensure_fully_classified v policy = Ok tt ->
  published (rules policy) v p b x -> needs_rule b x = true ->
  exists r, r ∈ rules policy /\ pointer r = p /\ lawful r.
Proof.
  intros Hok%new_versioned_ok Hens Hx Hneeds. rewrite ensure_eq in Hens.
  destruct (classified _ _ _ _) eqn:Hc; [|done]. apply (classified_published _ _ _ _ _ Hc) in Hx.
  rewrite classified_eq in Hx. destruct (rule_at _ p) as [r|] eqn:Hr.
  - apply rule_at_Some in Hr as [Hin Hp]. exists r. split_and!; [done..|]. apply rule_pair_lawful.
    pose proof (ok_pairs _ Hok) as Hpairs. rewrite Forall_forall in Hpairs. by apply Hpairs.
  - unfold needs_rule in Hneeds. by destruct b, (container x).
Qed.
