(* ===== verification/Kept.v ===== *)
(** * What redaction leaves alone

    A scalar whose path no transforming rule reaches is at the same path of the
    redacted record: members moved to a redacted name and values replaced in place
    are never on the way to it. *)

From S2P Require Import Prelude Text Protocol Policy Scanner Redaction Privacy Pointers Erasure.

(** The value at a path, as a rule finds it *)
Fixpoint value_at (path : list string) (v : json) : option json :=
  match path with
  | [] => Some v
  | t :: ts =>
      match v with
      | JObject m => x ← assoc t m; value_at ts x
      | JArray l => i ← slot t l; x ← l !! i; value_at ts x
      | _ => None
      end
  end.

(** ** Members *)

Lemma assoc_cons k j x m : assoc k ((j, x) :: m) = if bool_decide (j = k) then Some x else assoc k m.
Proof. done. Qed.

Lemma assoc_remove t k m : t <> k -> assoc t (obj_remove k m) = assoc t m.
Proof.
  intros Hne. unfold obj_remove. induction m as [|[j x] m IH]; [done|]. rewrite filter_cons. cbn [fst].
  destruct (decide (j = k)) as [->|Hj].
  - rewrite decide_False, assoc_cons by auto. by rewrite (bool_decide_eq_false_2 (k = t)).
  - rewrite decide_True, !assoc_cons by done. by rewrite IH.
Qed.

Lemma assoc_set t k v m : assoc t (obj_set k v m) = if bool_decide (t = k) then (fun _ => v) <$> assoc t m else assoc t m.
Proof.
  unfold obj_set. induction m as [|[j x] m IH]; [by case_bool_decide|]. rewrite fmap_cons. cbn [fst].
  destruct (decide (j = k)) as [->|Hj].
  - rewrite (bool_decide_eq_true_2 (k = k)), !assoc_cons by done.
    destruct (decide (t = k)) as [->|Ht]; [by rewrite !bool_decide_eq_true_2|].
    rewrite (bool_decide_eq_false_2 (t = k)) in * by done. by rewrite (bool_decide_eq_false_2 (k = t)).
  - rewrite (bool_decide_eq_false_2 (j = k)), !assoc_cons, IH by done.
    destruct (decide (j = t)) as [->|Ht]; [by rewrite bool_decide_eq_true_2, bool_decide_eq_false_2|].
    by rewrite (bool_decide_eq_false_2 (j = t)).
Qed.

Lemma assoc_insert_other t k v m : t <> k -> assoc t (obj_insert k v m) = assoc t m.
Proof.
  intros Hne. induction m as [|[j x] m IH]; cbn [obj_insert].
  { rewrite assoc_cons. by rewrite (bool_decide_eq_false_2 (k = t)). }
  destruct (cmp k j) eqn:Hc; rewrite !assoc_cons.
  - apply cmp_eq in Hc as ->. by rewrite (bool_decide_eq_false_2 (j = t)).
  - by rewrite (bool_decide_eq_false_2 (k = t)).
  - by rewrite IH.
Qed.

(** ** Rules *)

Section kept.
Context `{mac : HmacSha256, url : UrlBase64}.
Context (run_id : string) (policy : PrivacyPolicy) (key : string).

Lemma keep_at_value r v v' : redaction r = Keep -> apply_at_value run_id policy key r v = Ok v' -> v' = v.
Proof. intros Hk. unfold apply_at_value. rewrite Hk. by intros [= ->]. Qed.

Lemma value_at_slot t ts l i j y z x :
  slot t l = Some i -> l !! i = Some y ->
  (i = j -> value_at ts z = Some x) -> (i <> j -> value_at ts y = Some x) ->
  value_at (t :: ts) (JArray (<[j := z]> l)) = Some x.
Proof.
  intros Hi Hy Hz Hne. cbn [value_at]. assert (slot t (<[j := z]> l) = Some i) as ->.
  { unfold slot, len in *. by rewrite length_insert. }
  cbn. destruct (decide (i = j)) as [->|Hij].
  - rewrite list_lookup_insert_eq by (by eapply lookup_lt_Some). by apply Hz.
  - rewrite list_lookup_insert_ne, Hy by done. by apply Hne.
Qed.

Lemma value_at_set t ts m k y z x : assoc t m = Some y ->
  (t = k -> value_at ts z = Some x) -> (t <> k -> value_at ts y = Some x) ->
  value_at (t :: ts) (JObject (obj_set k z m)) = Some x.
Proof.
  intros Hy Hz Hne. cbn [value_at]. rewrite assoc_set, Hy. case_bool_decide; cbn; auto.
Qed.

Lemma slot_inj t u l i : slot t l = Some i -> slot u l = Some i -> t = u.
Proof. intros [-> _]%slot_pretty [-> _]%slot_pretty. done. Qed.

Lemma value_at_object t ts m x : value_at (t :: ts) (JObject m) = Some x ->
  exists y, assoc t m = Some y /\ value_at ts y = Some x.
Proof. cbn [value_at]. destruct (assoc t m) as [y|]; [|done]. intros Hx. by exists y. Qed.

Lemma value_at_array t ts l x : value_at (t :: ts) (JArray l) = Some x ->
  exists i y, slot t l = Some i /\ l !! i = Some y /\ value_at ts y = Some x.
Proof.
  cbn [value_at]. destruct (slot t l) as [i|]; [|done]. cbn. destruct (l !! i) as [y|] eqn:Hy; [|done].
  intros Hx. by exists i, y.
Qed.

Lemma apply_last_keeps r last v v' t ts x :
  apply_last run_id policy key r last v = Ok v' -> value_at (t :: ts) v = Some x ->
  (t = last -> redaction r = Keep) -> value_at (t :: ts) v' = Some x.
Proof.
  unfold apply_last. intros Hv Hx Hkeep. destruct v as [| | | |l|m]; try done.
  - apply value_at_array in Hx as (i & y & Hi & Hy & Hx). inv_ok.
    match goal with H : slot last l = Some ?j, H' : l !! ?j = Some ?a |- _ => rename H into Hj, H' into Ha end.
    eapply value_at_slot; [done..| |done]. intros ->. pose proof (slot_inj _ _ _ _ Hi Hj) as ->.
    match goal with H : (if _ then _ else _) = Ok ?a1 |- _ => rename H into Hnew end.
    rewrite Hkeep in Hnew by done. rewrite bool_decide_eq_false_2 in Hnew by done.
    apply keep_at_value in Hnew as ->; [|by apply Hkeep]. congruence.
  - apply value_at_object in Hx as (y & Hy & Hx). apply bind_Ok_inv in Hv as (old & Hold%ok_or_Ok & Hv).
    destruct (decide (redaction r = Keep)) as [Hr|Hr].
    + rewrite Hr in Hv. inv_ok. eapply value_at_set; [done| |done]. intros ->.
      match goal with H : apply_at_value _ _ _ _ _ = _ |- _ => apply keep_at_value in H as -> end; [congruence|done].
    + assert (t <> last) as Hne by auto. destruct (redaction r); try done; inv_ok; cbn [value_at].
      all: try (rewrite assoc_insert_other; [|intros ->]).
      all: rewrite ?assoc_remove in * by done; try (rewrite Hy; done).
      all: match goal with H : is_some _ = false |- _ => by rewrite Hy in H end.
Qed.

Lemma apply_tokens_keeps r path : forall v v' p x,
  apply_tokens run_id policy key r path v = Ok v' -> value_at p v = Some x -> scalar x ->
  (path `prefix_of` p -> redaction r = Keep) -> value_at p v' = Some x.
Proof.
  induction path as [|token rest IH]; intros v v' p x Hv Hx Hs Hkeep.
  { apply keep_at_value in Hv as ->; [done|]. apply Hkeep, prefix_nil. }
  destruct p as [|t ts].
  { injection Hx as ->. destruct x; try done; by destruct rest. }
  assert (t = token -> rest `prefix_of` ts -> redaction r = Keep) as Hrest.
  { intros -> Hp. apply Hkeep. by apply prefix_cons. }
  destruct rest as [|token' rest']; [eapply apply_last_keeps; [done..|]; intros; by apply Hrest, prefix_nil|].
  rewrite apply_tokens_cons in Hv. destruct v as [| | | |l|m]; try done.
  - apply value_at_array in Hx as (i & y & Hi & Hy & Hx). inv_ok.
    match goal with H : slot token l = Some ?j |- _ => rename H into Hj end.
    eapply value_at_slot; [done..| |done]. intros ->. pose proof (slot_inj _ _ _ _ Hi Hj) as ->. simplify_eq. eauto.
  - apply value_at_object in Hx as (y & Hy & Hx). inv_ok.
    eapply value_at_set; [done| |done]. intros ->. simplify_eq. eauto.
Qed.

(** A scalar that no rule at or above its path transforms is published as it is, at
    its own path. *)
Theorem kept_values_survive v v' p x :
  redact_record run_id policy key v = Ok v' -> value_at p v = Some x -> scalar x ->
  (forall r, r ∈ rules policy -> decode_pointer (pointer r) `prefix_of` p -> redaction r = Keep) ->
  value_at p v' = Some x.
Proof.
  unfold redact_record. intros Hv Hx Hs Hkeep. apply bind_Ok_inv in Hv as (_ & _ & Hv). revert v Hv Hx Hkeep.
  induction (rules policy) as [|r rs IH]; intros v Hv Hx Hkeep; cbn [try_fold] in Hv; [by injection Hv as ->|].
  apply bind_Ok_inv in Hv as (w & Hw & Hv). apply (IH w); [done| |by intros r' Hr'; apply Hkeep; set_solver].
  eapply apply_tokens_keeps; [done..|]. apply Hkeep. set_solver.
Qed.
End kept.
