(* ===== verification/TreeBounds.v ===== *)
(** * The bounds of a record

    [validate_tree_bounds] against the tree it walks: the nodes it counts are the
    values of the record, and the work it charges is the total length of their
    pointers. *)

From stdpp Require Import pretty.
From S2P Require Import Prelude Text Protocol Policy Scanner Redaction Privacy Pointers Erasure Classified.

Local Open Scope N_scope.

(** The values of a record, by their pointers and depths *)
Fixpoint tree_nodes (p : string) (d : N) (v : json) : list (string * N) :=
  (p, d) ::
  match v with
  | JObject m => flat_map (fun kv => tree_nodes (child_pointer p (encode_pointer_token kv.1)) (d + 1) kv.2) m
  | JArray l =>
      (fix go i l := match l with
                     | [] => []
                     | x :: l => tree_nodes (child_pointer p (pretty (N.of_nat i))) (d + 1) x ++ go (S i) l
                     end) 0%nat l
  | _ => []
  end.

Definition nodes_below (p : string) (d : N) (v : json) : list (string * N) :=
  flat_map (fun x => tree_nodes x.1.2 (d + 1) x.1.1) (children p v).

Definition pointer_bytes (nodes : list (string * N)) : N := foldr (fun n total => slen n.1 + total) 0 nodes.

Definition within_bounds (max_work : N) (nodes : list (string * N)) : bool :=
  (len nodes <=? PRIVACY_MAX_RECORDS) && forallb (fun n => n.2 <=? MAX_DEPTH) nodes
  && (pointer_bytes nodes <=? max_work).

Lemma flat_map_fmap {A B C} (f : A -> B) (g : B -> list C) l : flat_map g (f <$> l) = flat_map (fun x => g (f x)) l.
Proof. induction l as [|x l IH]; [done|]. rewrite fmap_cons. cbn. by rewrite IH. Qed.

Lemma tree_nodes_eq p d v : tree_nodes p d v = (p, d) :: nodes_below p d v.
Proof.
  unfold nodes_below. destruct v as [| | | |l|m]; [done..| |].
  - cbn [tree_nodes children]. f_equal. assert (forall k, (fix go i l := match l with
      | [] => []
      | x :: l => tree_nodes (child_pointer p (pretty (N.of_nat i))) (d + 1) x ++ go (S i) l
      end) k l = flat_map (fun x => tree_nodes x.1.2 (d + 1) x.1.1)
        (imap (fun i child => (child, child_pointer p (pretty (N.of_nat (k + i))), false)) l)) as Hgo.
    { induction l as [|x l IH]; intros k; [done|]. cbn [imap flat_map fst snd]. rewrite IH, Nat.add_0_r. f_equal.
      f_equal. apply imap_ext. intros i y _. cbn. by rewrite Nat.add_succ_r. }
    apply (Hgo 0%nat).
  - cbn [tree_nodes children]. by rewrite flat_map_fmap.
Qed.

(** ** Lengths of tokens *)

Lemma decimal_len_from_pretty fuel x s : x < 2 ^ N.of_nat fuel -> 0 < x ->
  decimal_len_from fuel x (slen s + 1) = slen (pretty_N_go x s).
Proof.
  revert x s. induction fuel as [|fuel IH]; intros x s Hx Hpos; [cbn in Hx; lia|].
  cbn [decimal_len_from]. rewrite pretty_N_go_step by done. destruct (10 <=? x) eqn:H10.
  - apply N.leb_le in H10. rewrite <- slen_cons with (c := pretty_N_char (x mod 10)). apply IH.
    + rewrite Nat2N.inj_succ, N.pow_succ_r' in Hx. apply N.Div0.div_lt_upper_bound. lia.
    + apply N.div_str_pos. lia.
  - apply N.leb_gt in H10. rewrite N.div_small by done. symmetry. apply slen_cons.
Qed.

Lemma decimal_len_pretty i : decimal_len i = slen (pretty i).
Proof.
  unfold decimal_len. destruct (decide (i = 0)) as [->|Hi]; [done|].
  rewrite (decimal_len_from_pretty _ i ""); [|rewrite N2Nat.id; apply N.size_gt|lia].
  unfold pretty, pretty_N. by rewrite decide_False.
Qed.

Lemma escaped_len k : slen k + count_escapes k = slen (encode_pointer_token k).
Proof.
  induction k as [|c k IH]; [done|]. destruct (decide (c = tilde)) as [->|Ht].
  { rewrite encode_tilde, !slen_cons, <- IH. cbn [count_escapes]. change (byte_in "~/" tilde) with true. cbv match. lia. }
  destruct (decide (c = slash)) as [->|Hs].
  { rewrite encode_slash, !slen_cons, <- IH. cbn [count_escapes]. change (byte_in "~/" slash) with true. cbv match. lia. }
  rewrite encode_other, !slen_cons, <- IH by done. cbn [count_escapes].
  assert (byte_in "~/" c = false) as ->; [|lia]. change "~/" with (String tilde (String slash "")). cbn [byte_in].
  by rewrite !bool_decide_eq_false_2.
Qed.

(** ** Pushing the children of a value *)

(** A child of the walk, against its pointer *)
Definition sized_as (p : string) (child : json * result PrivacyError N) (x : json * string * bool) : Prop :=
  child.1 = x.1.1 /\
  ((exists n, child.2 = Ok n /\ slen p + 1 + n = slen x.1.2) \/
   (child.2 = Err LimitExceeded /\ u64_max < slen x.1.2)).

Lemma slen_child p t : slen (child_pointer p t) = slen p + 1 + slen t.
Proof. unfold child_pointer, slen. rewrite !string_length_app. cbn. lia. Qed.

Lemma sized_children_as p v : Forall2 (sized_as p) (sized_children v) (children p v).
Proof.
  destruct v as [| | | |l|m]; try constructor; cbn [sized_children children].
  - apply Forall2_same_length_lookup. rewrite !length_imap. split; [done|]. intros i x y Hx Hy.
    rewrite list_lookup_imap in Hx. rewrite list_lookup_imap in Hy. destruct (l !! i) as [z|]; [|done]. simplify_eq/=. split; [done|left].
    eexists. split; [done|]. cbn. by rewrite slen_child, decimal_len_pretty.
  - apply Forall2_fmap. apply Forall_Forall2_diag. apply Forall_true. intros [k x]. split; [done|].
    cbn [fst snd]. unfold escaped_key_len, checked_add. rewrite escaped_len, slen_child.
    destruct (_ <=? _) eqn:Hc; cbn [ok_or]; [left|right].
    + eexists. split; [done|lia].
    + split; [done|]. apply N.leb_gt in Hc. lia.
Qed.

Definition children_bytes (cs : list (json * string * bool)) : N := foldr (fun x total => slen x.1.2 + total) 0 cs.

Lemma checked_add_eq a b : checked_add a b = if a + b <=? u64_max then Some (a + b) else None.
Proof. done. Qed.

Ltac split_leb :=
  repeat match goal with
  | |- context [?a <=? ?b] => destruct (N.leb_spec a b)
  | |- context [?a <? ?b] => destruct (N.ltb_spec a b)
  end.

Lemma push_child_eq max_work d p work acc c x : max_work <= u64_max -> sized_as p c x ->
  push_child max_work d (slen p) (work, acc) c =
  if work + slen x.1.2 <=? max_work then Ok (work + slen x.1.2, acc ++ [(x.1.1, d + 1, slen x.1.2)])
  else Err LimitExceeded.
Proof.
  intros Hmax [Hc Hx]. unfold push_child. rewrite Hc. cbn [fst snd].
  destruct Hx as [(n & -> & Hn)|[-> Hn]]; cbn [mbind result_bind].
  - rewrite <- Hn, !checked_add_eq. destruct (N.leb_spec (slen p + 1) u64_max); cbn [mbind option_bind ok_or result_bind];
      rewrite ?checked_add_eq; split_leb; cbn [mbind option_bind ok_or result_bind fail_if];
      rewrite ?checked_add_eq; split_leb; cbn [mbind option_bind ok_or result_bind fail_if]; split_leb;
      cbn [mbind option_bind ok_or result_bind fail_if]; (done || lia).
  - split_leb; [lia|done].
Qed.

Lemma push_children max_work d p cs xs work acc : max_work <= u64_max -> work <= max_work ->
  Forall2 (sized_as p) cs xs ->
  try_fold (push_child max_work d (slen p)) (work, acc) cs =
  if work + children_bytes xs <=? max_work
  then Ok (work + children_bytes xs, acc ++ ((fun x => (x.1.1, d + 1, slen x.1.2)) <$> xs))
  else Err LimitExceeded.
Proof.
  intros Hmax Hwork Hcs. revert work acc Hwork. induction Hcs as [|c x cs xs Hcx _ IH]; intros work acc Hwork.
  { cbn. rewrite N.add_0_r, app_nil_r. by rewrite (proj2 (N.leb_le _ _) Hwork). }
  cbn [try_fold]. rewrite (push_child_eq _ _ _ _ _ _ x Hmax Hcx).
  change (children_bytes (x :: xs)) with (slen x.1.2 + children_bytes xs). rewrite N.add_assoc.
  destruct (N.leb_spec (work + slen x.1.2) max_work) as [Hle|Hgt]; cbn [mbind result_bind].
  - rewrite IH by done. rewrite fmap_cons, <- app_assoc. done.
  - destruct (N.leb_spec (work + slen x.1.2 + children_bytes xs) max_work); [lia|done].
Qed.

(** ** The walk *)

(** A value on the stack with its depth and pointer; the walk has only the length
    of the pointer. *)
Definition on_stack (x : json * N * string) : json * N * N := (x.1.1, x.1.2, slen x.2).
Definition all_nodes (stack : list (json * N * string)) := flat_map (fun x => tree_nodes x.2 x.1.2 x.1.1) stack.
Definition all_below (stack : list (json * N * string)) := flat_map (fun x => nodes_below x.2 x.1.2 x.1.1) stack.
Definition stacked (p : string) (d : N) (v : json) : list (json * N * string) :=
  (fun x => (x.1.1, d + 1, x.1.2)) <$> children p v.

Lemma pointer_bytes_app l k : pointer_bytes (l ++ k) = pointer_bytes l + pointer_bytes k.
Proof. unfold pointer_bytes. induction l as [|x l IH]; [done|]. cbn. rewrite IH. lia. Qed.

#[local] Instance pointer_bytes_perm : Proper ((≡ₚ) ==> (=)) pointer_bytes.
Proof. intros l k Hp. unfold pointer_bytes. induction Hp; cbn; lia. Qed.

Lemma depths_perm (f : string * N -> bool) l k : l ≡ₚ k -> forallb f l = forallb f k.
Proof. induction 1 as [|x l k _ IH|x y l|? ? ? _ IH _ IH']; cbn; [done|by rewrite IH|by destruct (f x), (f y)|congruence]. Qed.

Lemma flat_map_rev_perm {A B} (f : A -> list B) l : flat_map f (rev l) ≡ₚ flat_map f l.
Proof. apply Permutation_flat_map. symmetry. apply Permutation_rev. Qed.

Lemma all_nodes_stacked p d v : all_nodes (stacked p d v) = nodes_below p d v.
Proof. unfold all_nodes, stacked, nodes_below. by rewrite flat_map_fmap. Qed.

Lemma below_bytes p d v :
  pointer_bytes (nodes_below p d v) = children_bytes (children p v) + pointer_bytes (all_below (stacked p d v)).
Proof.
  rewrite <- all_nodes_stacked. unfold stacked, all_nodes, all_below. rewrite !flat_map_fmap. cbn [fst snd].
  induction (children p v) as [|x l IH]; [done|]. cbn [flat_map]. rewrite !pointer_bytes_app, IH, tree_nodes_eq.
  unfold children_bytes, pointer_bytes. cbn. lia.
Qed.

(** What the walk ends with, from a state and the nodes to come *)
Definition verdict (max_work records work : N) (nodes below : list (string * N)) : result PrivacyError (N * N) :=
  if (records + len nodes <=? PRIVACY_MAX_RECORDS) && forallb (fun n => n.2 <=? MAX_DEPTH) nodes
     && (work + pointer_bytes below <=? max_work)
  then Ok (records + len nodes, work + pointer_bytes below) else Err LimitExceeded.

Lemma verdict_perm max_work records work nodes nodes' below below' : nodes ≡ₚ nodes' -> below ≡ₚ below' ->
  verdict max_work records work nodes below = verdict max_work records work nodes' below'.
Proof.
  intros Hn Hb. unfold verdict, len. pose proof (pointer_bytes_perm _ _ Hb) as ->.
  by rewrite (depths_perm _ _ _ Hn), (Permutation_length Hn).
Qed.

Lemma flat_map_pushed {A B} (f : A -> list B) l rest : flat_map f (rev l ++ rest) ≡ₚ flat_map f l ++ flat_map f rest.
Proof. by rewrite flat_map_app, flat_map_rev_perm. Qed.

Lemma verdict_step max_work records work p d v rest :
  verdict max_work records work (all_nodes ((v, d, p) :: rest)) (all_below ((v, d, p) :: rest)) =
  if (records + 1 <=? PRIVACY_MAX_RECORDS) && (d <=? MAX_DEPTH) && (work + children_bytes (children p v) <=? max_work)
  then verdict max_work (records + 1) (work + children_bytes (children p v))
         (all_nodes (rev (stacked p d v) ++ rest)) (all_below (rev (stacked p d v) ++ rest))
  else Err LimitExceeded.
Proof.
  rewrite (verdict_perm _ _ _ (all_nodes (rev (stacked p d v) ++ rest)) (nodes_below p d v ++ all_nodes rest)
    (all_below (rev (stacked p d v) ++ rest)) (all_below (stacked p d v) ++ all_below rest)).
  2: rewrite <- all_nodes_stacked.
  2,3: apply flat_map_pushed.
  change (all_nodes ((v, d, p) :: rest)) with (tree_nodes p d v ++ all_nodes rest).
  change (all_below ((v, d, p) :: rest)) with (nodes_below p d v ++ all_below rest).
  rewrite tree_nodes_eq. unfold verdict, len. cbn [app forallb fst snd length]. rewrite Nat2N.inj_succ, !pointer_bytes_app, below_bytes.
  set (n := N.of_nat _). set (c := children_bytes _). set (b := pointer_bytes (all_below (stacked p d v))).
  set (e := pointer_bytes (all_below rest)). set (all := forallb _ _).
  replace (records + N.succ n) with (records + 1 + n) by lia. replace (work + (c + b + e)) with (work + c + (b + e)) by lia.
  destruct (d <=? MAX_DEPTH), all; rewrite ?andb_false_r, ?andb_true_r; cbn [andb];
    split_leb; cbn [andb]; try done; lia.
Qed.

Lemma bound_node_eq max_work records work p d v : max_work <= u64_max -> work <= max_work ->
  records <= PRIVACY_MAX_RECORDS ->
  bound_node max_work (records, work) (on_stack (v, d, p)) =
  if (records + 1 <=? PRIVACY_MAX_RECORDS) && (d <=? MAX_DEPTH) && (work + children_bytes (children p v) <=? max_work)
  then Ok ((records + 1, work + children_bytes (children p v)), on_stack <$> stacked p d v)
  else Err LimitExceeded.
Proof.
  intros Hmax Hw Hr. unfold bound_node, on_stack at 1. cbn [fst snd].
  rewrite checked_add_eq, (proj2 (N.leb_le (records + 1) u64_max)) by (unfold PRIVACY_MAX_RECORDS, u64_max in *; lia).
  cbn [ok_or mbind result_bind].
  rewrite (push_children max_work d p _ (children p v) work [] Hmax Hw (sized_children_as p v)).
  unfold stacked. rewrite <- list_fmap_compose. unfold compose, on_stack. cbn [fst snd app].
  destruct (N.ltb_spec PRIVACY_MAX_RECORDS (records + 1)), (N.ltb_spec MAX_DEPTH d);
    cbn [orb fail_if mbind result_bind]; split_leb; cbn [andb]; (done || lia).
Qed.

Lemma stacked_size p d v : (list_sum ((fun x => json_size x.1.1) <$> stacked p d v) < json_size v)%nat.
Proof. unfold stacked. rewrite <- list_fmap_compose. apply (children_size p v). Qed.

Lemma walk_eq max_work fuel stack records work : max_work <= u64_max -> work <= max_work ->
  records <= PRIVACY_MAX_RECORDS -> (list_sum ((fun x => json_size x.1.1) <$> stack) <= fuel)%nat ->
  drain_stack fuel LimitExceeded (bound_node max_work) (records, work) (on_stack <$> stack) =
  verdict max_work records work (all_nodes stack) (all_below stack).
Proof.
  intros Hmax. revert stack records work. induction fuel as [|fuel IH]; intros [|[[v d] p] stack] records work Hw Hr Hf.
  1,3: unfold verdict; cbn; rewrite !N.add_0_r; split_leb; (done || lia).
  all: rewrite fmap_cons, list_sum_cons in Hf; cbn [fst snd] in Hf; pose proof (json_size_pos v).
  { lia. }
  rewrite verdict_step, fmap_cons. cbn [drain_stack]. rewrite bound_node_eq by done. pose proof (stacked_size p d v).
  destruct (_ && _) eqn:Hc; [|done]. cbn [mbind result_bind]. apply andb_true_iff in Hc as [[Hc _]%andb_true_iff Hc'].
  apply N.leb_le in Hc, Hc'. rewrite <- IH; [|done..|].
  - f_equal. rewrite fmap_app. f_equal. symmetry. apply map_rev.
  - rewrite fmap_app. change (_ <$> rev ?l) with (map (fun x : json * N * string => json_size x.1.1) (rev l)).
    rewrite map_rev, list_sum_rev_app. change (map ?f ?l) with (f <$> l). lia.
Qed.

(** The walk accepts a record exactly when it has few enough values, none too deep,
    and pointers of a small enough total length; it gives their number and that
    length, whatever the order of the walk. *)
Theorem tree_bounds_exact root max_work : max_work <= u64_max ->
  validate_tree_bounds root max_work =
  let nodes := tree_nodes "" 1 root in
  if within_bounds max_work nodes then Ok (len nodes, pointer_bytes nodes) else Err LimitExceeded.
Proof.
  intros Hmax. unfold validate_tree_bounds.
  change [(root, 1, 0)] with (on_stack <$> [(root, 1, "")]).
  rewrite walk_eq; [|done|lia|done|cbn; lia]. unfold verdict, all_nodes, all_below, within_bounds. cbn [flat_map fst snd].
  rewrite !app_nil_r, tree_nodes_eq. by rewrite !N.add_0_l.
Qed.
