(* ===== verification/CanonicalPolicy.v ===== *)
(** * Policies do not depend on the order of their rules

    A constructed policy holds its rules in pointer order: any order of the same
    rules gives the same policy, so the second validation of a decoded policy
    changes nothing. *)

From S2P Require Import Prelude Text Protocol Policy Scanner Redaction Privacy Classified.

Local Open Scope N_scope.

(** ** The size of the rules *)

(** What a rule counts for in the size of a policy *)
Definition rule_cost (r : RedactionRule) : N :=
  slen (pointer r) * 6 + from_option slen 0 (fictional_provenance r) * 6 + 128.

Definition rules_cost (rs : list RedactionRule) : N := foldr (fun r total => rule_cost r + total) 0 rs.

Lemma rule_bytes_eq total r :
  rule_bytes total r = if total + rule_cost r <=? u64_max then Ok (total + rule_cost r) else Err LimitExceeded.
Proof.
  unfold rule_bytes, rule_cost, checked_mul, checked_add. set (a := slen (pointer r) * 6).
  set (b := from_option slen 0 (fictional_provenance r) * 6).
  repeat match goal with
  | |- context [?x <=? ?y] => destruct (N.leb_spec x y); cbn [mbind option_bind result_bind ok_or]
  end; try lia; try done.
  f_equal. lia.
Qed.

Lemma rules_cost_eq total rs : total <= u64_max ->
  try_fold rule_bytes total rs = if total + rules_cost rs <=? u64_max then Ok (total + rules_cost rs) else Err LimitExceeded.
Proof.
  revert total. induction rs as [|r rs IH]; intros total Ht.
  { cbn. rewrite N.add_0_r. by rewrite (proj2 (N.leb_le _ _) Ht). }
  cbn [try_fold]. rewrite rule_bytes_eq. change (rules_cost (r :: rs)) with (rule_cost r + rules_cost rs). rewrite N.add_assoc.
  destruct (N.leb_spec (total + rule_cost r) u64_max); cbn [mbind result_bind]; [by apply IH|].
  by destruct (N.leb_spec (total + rule_cost r + rules_cost rs) u64_max); [lia|].
Qed.

#[local] Instance rules_cost_perm : Proper ((≡ₚ) ==> (=)) rules_cost.
Proof. intros l k Hp. unfold rules_cost. induction Hp; cbn; lia. Qed.

(** ** The checks of the rules *)

(** A rule that is valid by itself *)
Definition sound_rule (r : RedactionRule) : Prop := check_rule [] r = Ok [pointer r].

Lemma check_rule_eq seen r :
  check_rule seen r = Ok (pointer r :: seen) <-> sound_rule r /\ pointer r ∉ seen.
Proof.
  unfold sound_rule, check_rule. rewrite (bool_decide_eq_false_2 (pointer r ∈ [])) by set_solver.
  do 3 match goal with |- (?x ≫= _) = _ <-> _ => destruct x; cbn [mbind result_bind]; [|naive_solver] end.
  case_bool_decide; cbn [fail_if mbind result_bind]; [naive_solver|].
  destruct (validate_rule_pair r); cbn [mbind result_bind]; naive_solver.
Qed.

Lemma check_rule_Ok seen r seen' : check_rule seen r = Ok seen' -> seen' = pointer r :: seen.
Proof. unfold check_rule. intros Hok. by inv_ok. Qed.

Lemma check_rules_iff seen rs :
  (exists seen', try_fold check_rule seen rs = Ok seen') <->
  Forall sound_rule rs /\ NoDup (pointer <$> rs) /\ (forall p, p ∈ pointer <$> rs -> p ∉ seen).
Proof.
  revert seen. induction rs as [|r rs IH]; intros seen.
  { split; [|by eexists]. intros _. split_and!; [constructor|constructor|set_solver]. }
  cbn [try_fold]. rewrite fmap_cons, Forall_cons, NoDup_cons. split.
  - intros [seen' Hs]. apply bind_Ok_inv in Hs as (s1 & Hr & Hs). pose proof (check_rule_Ok _ _ _ Hr) as ->.
    apply check_rule_eq in Hr as [Hr Hfresh]. destruct (proj1 (IH (pointer r :: seen))) as (Hall & Hnd & Hdis); [by eexists|].
    split_and!; [done|done| |done|].
    + intros Hin%Hdis. set_solver.
    + intros p [->|Hp]%elem_of_cons; [done|]. apply Hdis in Hp. set_solver.
  - intros ([Hr Hall] & [Hfresh Hnd] & Hdis). rewrite (proj2 (check_rule_eq seen r)).
    + cbn [mbind result_bind]. apply IH. split_and!; [done..|]. intros p Hp. specialize (Hdis p). set_solver.
    + split; [done|]. apply Hdis. set_solver.
Qed.

(** ** Construction *)

Lemma new_versioned_perm id rev gen rs rs' policy :
  new_versioned id rev gen rs = Ok policy -> rs' ≡ₚ rs -> new_versioned id rev gen rs' = Ok policy.
Proof.
  intros Hok Hp. pose proof Hok as Hok'. unfold new_versioned in Hok'.
  repeat match type of Hok' with _ ≫= _ = Ok _ => apply bind_Ok_inv in Hok' as (? & ? & Hok') end.
  assert (try_fold rule_bytes (saturating_add (slen id) (slen gen)) rs' =
          try_fold rule_bytes (saturating_add (slen id) (slen gen)) rs) as Hbytes.
  { rewrite !rules_cost_eq by (unfold saturating_add; lia). by rewrite (rules_cost_perm _ _ Hp). }
  match goal with H : try_fold check_rule _ _ = Ok ?s |- _ =>
    destruct (proj1 (check_rules_iff [] rs) (ex_intro _ s H)) as (Hsound & Hnd & _) end.
  assert (exists s, try_fold check_rule [] rs' = Ok s) as [s Hs].
  { apply check_rules_iff. rewrite Hp. split_and!; [done..|set_solver]. }
  assert (sort_by_key pointer rs' = sort_by_key pointer rs) as Hsort.
  { apply sort_by_key_unique; [|done]. intros a b Ha Hb. rewrite Hp in Ha, Hb. by apply (NoDup_fmap_inj_on pointer rs). }
  unfold new_versioned, len. rewrite (Permutation_length Hp), Hbytes, Hs, Hsort. rewrite <- Hok.
  unfold new_versioned, len. by repeat match goal with H : _ = Ok _ |- _ => rewrite H; clear H; cbn [mbind result_bind] end.
Qed.

(** The second validation of [from_json], on a decoded policy *)
Definition revalidate (policy : PrivacyPolicy) : result PrivacyError PrivacyPolicy :=
  new_versioned (pp_policy_id policy) (pp_policy_revision policy) (pp_key_generation policy) (rules policy).

(** The same rules in another order give the same policy; in particular the rules of
    a constructed policy are accepted again, unchanged, as decoding a policy document
    relies on. *)
Theorem policy_canonical id rev gen rs rs' policy :
  new_versioned id rev gen rs = Ok policy -> rs' ≡ₚ rs ->
  new_versioned id rev gen rs' = Ok policy /\ revalidate policy = Ok policy.
Proof.
  unfold revalidate. intros Hok Hp. split; [by eapply new_versioned_perm|].
  assert (pp_policy_id policy = id /\ pp_policy_revision policy = rev /\ pp_key_generation policy = gen /\
          rules policy = sort_by_key pointer rs) as (-> & -> & -> & ->).
  { unfold new_versioned in Hok.
    repeat match type of Hok with _ ≫= _ = Ok _ => apply bind_Ok_inv in Hok as (? & ? & Hok) end.
    by apply Ok_inj in Hok as <-. }
  apply (new_versioned_perm _ _ _ rs); [done|]. apply sort_by_key_perm.
Qed.
