(* ===== verification/PublicTrace.v ===== *)
(** * What a public trace gives away

    The projection of [Privacy.v] against its promise: the public artifacts depend
    on nothing a policy hides, what is published passes the scanner at every depth,
    and a stable handle stands for one identifier. *)

From stdpp Require Import pretty.
From S2P Require Import Prelude Text Protocol Policy Scanner Redaction Privacy Pointers Erasure Classified.

(** ** The scan *)

Section scan.
Context `{url : UrlBase64, codec : PrivacyCodec}.

(** The values of a document, itself included *)
Inductive occurs : json -> json -> Prop :=
  | occurs_here v : occurs v v
  | occurs_item x y l : occurs x y -> y ∈ l -> occurs x (JArray l)
  | occurs_member x k y m : occurs x y -> (k, y) ∈ m -> occurs x (JObject m).

Definition clean_here (v : json) : bool :=
  match v with
  | JString text => negb (sensitive_text text)
  | JObject m => forallb member_ok m
  | _ => true
  end.

Fixpoint clean (v : json) : bool :=
  clean_here v &&
  match v with
  | JArray l => forallb clean l
  | JObject m => forallb (fun kv => clean kv.2) m
  | _ => true
  end.

Lemma clean_exactly v : clean v = true <-> forall x, occurs x v -> clean_here x = true.
Proof.
  split.
  - intros Hv x Hx. induction Hx as [v|x y l _ IH Hin|x k y m _ IH Hin].
    + destruct v; apply andb_true_iff in Hv; tauto.
    + apply IH. apply andb_true_iff in Hv as [_ Hv]. rewrite forallb_forall in Hv. by apply Hv, list_elem_of_In.
    + apply IH. apply andb_true_iff in Hv as [_ Hv]. rewrite forallb_forall in Hv. by apply (Hv (k, y)), list_elem_of_In.
  - induction v as [|?|?|?|l IH|m IH] using json_ind'; intros Hall; cbn [clean];
      (apply andb_true_iff; split; [by apply Hall; constructor|]); try done; rewrite Forall_forall in IH; apply forallb_forall.
    + intros y Hy%list_elem_of_In. apply IH; [done|]. intros x Hx. apply Hall. by eapply occurs_item.
    + intros [k y] Hy%list_elem_of_In. apply (IH (k, y)); [done|]. intros x Hx. apply Hall. by eapply occurs_member.
Qed.

Lemma scan_node_deep v :
  (scan_node tt v = Err SensitiveContent /\ clean v = false) \/
  exists pushed, scan_node tt v = Ok (tt, pushed) /\ clean v = forallb clean pushed /\
    (list_sum (json_size <$> pushed) < json_size v)%nat.
Proof.
  destruct v as [|b|n|t|l|m]; cbn [scan_node clean clean_here].
  1-3: right; exists []; split_and!; (done || cbn; lia).
  - destruct (sensitive_text t); [by left|]. right. exists []. split_and!; (done || cbn; lia).
  - right. exists l. split_and!; [done..|]. cbn [json_size]. lia.
  - destruct (forallb member_ok m); [|by left]. right. exists (snd <$> m). split_and!; [done| |].
    + by rewrite forallb_fmap.
    + cbn [json_size]. rewrite <- list_fmap_compose. unfold compose. lia.
Qed.

Lemma scan_eq bytes :
  scan_public_trace bytes =
  '(records, _) ← parse_records bytes; if forallb clean records then Ok tt else Err SensitiveContent.
Proof.
  unfold scan_public_trace. destruct (parse_records bytes) as [[records jsonl]|]; [|done]. cbn [mbind result_bind].
  rewrite (drain_fuel LimitExceeded SensitiveContent scan_node clean json_size); [by rewrite forallb_rev|..].
  - apply json_size_pos.
  - apply scan_node_deep.
  - change (json_size <$> rev records) with (map json_size (rev records)). rewrite map_rev.
    pose proof (list_sum_rev_app (map json_size records) []) as Hsum. rewrite app_nil_r in Hsum. rewrite Hsum. cbn.
    change (map json_size records) with (json_size <$> records). lia.
Qed.
End scan.

(** ** Noninterference *)

Section projection.
Context `{sha : Sha256, mac : HmacSha256, url : UrlBase64, codec : PrivacyCodec}.

(** What leaves the restricted store: everything but the restricted manifest *)
Definition public_part (st : SanitizedTrace) : string * list RedactionLogEntry * string * PublicTraceManifest :=
  (public_bytes st, action_log st, action_log_bytes st, public_manifest st).

Definition public_result (r : result PrivacyError SanitizedTrace) :
    result PrivacyError (string * list RedactionLogEntry * string * PublicTraceManifest) :=
  st ← r; Ok (public_part st).

Lemma redact_record_same run_id policy key v w : rules_ok (rules policy) -> agree (hidden (rules policy)) v w ->
  redact_record run_id policy key v = redact_record run_id policy key w.
Proof.
  intros Hok Ha. unfold redact_record. rewrite (ensure_agree policy v w Hok Ha).
  destruct (ensure_fully_classified w policy); [|done]. cbn [mbind result_bind].
  apply (apply_rules_same run_id policy key (rules policy)); [done| |done|done].
  apply (NoDup_fmap_1 pointer), Hok.
Qed.

Lemma redact_records_same run_id policy key vs ws : rules_ok (rules policy) ->
  Forall2 (agree (hidden (rules policy))) vs ws ->
  try_map (redact_record run_id policy key) vs = try_map (redact_record run_id policy key) ws.
Proof.
  intros Hok. induction 1 as [|v w vs ws Ha _ IH]; [done|]. cbn [try_map].
  by rewrite (redact_record_same run_id policy key v w), IH.
Qed.

(** The last step: the restricted manifest, which alone names the source *)
Definition sealed_with (run_id source : string) (policy : PrivacyPolicy) (receipts : list ProjectionReceipt)
    (public : string * list RedactionLogEntry * string * PublicTraceManifest) : result PrivacyError SanitizedTrace :=
  let '(bytes, log, log_bytes, manifest) := public in
  restricted ← make_restricted_manifest run_id policy source log_bytes manifest receipts;
  Ok {| public_bytes := bytes; action_log := log; action_log_bytes := log_bytes; public_manifest := manifest;
        restricted_manifest := restricted |}.

Lemma sealed_with_public run_id source source' policy receipts public :
  public_result (sealed_with run_id source policy receipts public) =
  public_result (sealed_with run_id source' policy receipts public).
Proof.
  destruct public as [[[bytes log] log_bytes] manifest]. unfold public_result, sealed_with, make_restricted_manifest.
  destruct (map_err _ _); [|done]. cbn [mbind result_bind]. by destruct (policy_digest policy).
Qed.

(** C8: Two sources whose records agree but for the values that the policy replaces by
    placeholders or drops give the same public bytes, action log and public
    manifest, or are refused with the same error. *)
Theorem sanitize_noninterference id rev gen rs policy source source' records records' jsonl run_id key receipts :
  new_versioned id rev gen rs = Ok policy ->
  parse_records source = Ok (records, jsonl) -> parse_records source' = Ok (records', jsonl) ->
  Forall2 (agree (hidden (rules policy))) records records' ->
  public_result (sanitize_public_trace_with_receipts source run_id key policy receipts) =
  public_result (sanitize_public_trace_with_receipts source' run_id key policy receipts).
Proof.
  intros Hok%new_versioned_ok Hs Hs' Hagree. unfold sanitize_public_trace_with_receipts.
  destruct (fail_if _ _); [|done]. cbn [mbind result_bind].
  destruct (validate_projection_receipts receipts) as [sorted|]; [|done]. cbn [mbind result_bind].
  rewrite Hs, Hs'. cbn [mbind result_bind]. unfold len. rewrite (Forall2_length _ _ _ Hagree).
  destruct (action_budget _ _); [|done]. cbn [mbind result_bind].
  rewrite (redact_records_same run_id policy key _ _ Hok Hagree).
  destruct (try_map _ _) as [redacted|]; [|done]. cbn [mbind result_bind].
  destruct (serialize_records redacted jsonl) as [public|]; [|done]. cbn [mbind result_bind].
  destruct (map_err _ (log_to_vec _)) as [log_bytes|]; [|done]. cbn [mbind result_bind].
  destruct (fail_if _ _); [|done]. cbn [mbind result_bind].
  destruct (scan_public_trace public); [|done]. cbn [mbind result_bind].
  destruct (make_public_manifest _ _ _ _ _ _) as [manifest|]; [|done].
  apply (sealed_with_public run_id source source' policy sorted (public, _, log_bytes, manifest)).
Qed.

(** ** Clean output *)

Lemma sanitize_Ok source run_id key policy receipts st :
  sanitize_public_trace_with_receipts source run_id key policy receipts = Ok st ->
  (slen (public_bytes st) <= PRIVACY_MAX_TOTAL_BYTES)%N /\ scan_public_trace (public_bytes st) = Ok tt.
Proof. unfold sanitize_public_trace_with_receipts. intros Hok. by inv_ok. Qed.

(** C17: Published bytes are within the size limit and parse again, and no string and no
    object member at any depth of them is what the scanner calls sensitive. *)
Theorem sanitized_is_clean source run_id key policy receipts st :
  sanitize_public_trace_with_receipts source run_id key policy receipts = Ok st ->
  (slen (public_bytes st) <= PRIVACY_MAX_TOTAL_BYTES)%N /\
  exists records jsonl, parse_records (public_bytes st) = Ok (records, jsonl) /\
    forall record x, record ∈ records -> occurs x record -> clean_here x = true.
Proof.
  intros [Hlen Hscan]%sanitize_Ok. split; [done|]. rewrite scan_eq in Hscan.
  destruct (parse_records _) as [[records jsonl]|]; [|done]. cbn [mbind result_bind] in Hscan.
  exists records, jsonl. split; [done|]. destruct (forallb clean records) eqn:Hclean; [|done].
  rewrite forallb_forall in Hclean. intros record x Hr%list_elem_of_In. by apply clean_exactly, Hclean.
Qed.

(** ** Handles *)

Lemma scope_frames_inj run_id policy last run_id' policy' last' :
  (forall s, s ∈ [run_id; pp_policy_id policy; pp_key_generation policy; last] ++
                 [run_id'; pp_policy_id policy'; pp_key_generation policy'; last'] -> (slen s <= u64_max)%N) ->
  scope_frames run_id policy last = scope_frames run_id' policy' last' ->
  run_id = run_id' /\ pp_policy_id policy = pp_policy_id policy' /\
  be64 (pp_policy_revision policy) = be64 (pp_policy_revision policy') /\
  pp_key_generation policy = pp_key_generation policy' /\ last = last'.
Proof.
  intros Hlen Heq. unfold scope_frames in Heq. rewrite <- (string_app_nil_r (frame last)), <- (string_app_nil_r (frame last')) in Heq.
  repeat (apply frame_inj in Heq as [? Heq]; [|first [done|apply Hlen; set_solver]..]). done.
Qed.

(** Lengths and revisions of 64 bits *)
Definition in_width (run_id : string) (policy : PrivacyPolicy) (last : string) : Prop :=
  Forall (fun s => (slen s <= u64_max)%N) [run_id; pp_policy_id policy; pp_key_generation policy; last] /\
  (pp_policy_revision policy <= u64_max)%N.

Definition same_scope (run_id : string) (policy : PrivacyPolicy) (run_id' : string) (policy' : PrivacyPolicy) : Prop :=
  run_id = run_id' /\ pp_policy_id policy = pp_policy_id policy' /\
  pp_policy_revision policy = pp_policy_revision policy' /\ pp_key_generation policy = pp_key_generation policy'.

Lemma scoped_tag_inj key prefix domain run_id policy last run_id' policy' last' : url_laws ->
  in_width run_id policy last -> in_width run_id' policy' last' ->
  prefix +:+ url_encode (hmac key (domain +:+ scope_frames run_id policy last)) =
  prefix +:+ url_encode (hmac key (domain +:+ scope_frames run_id' policy' last')) ->
  (same_scope run_id policy run_id' policy' /\ last = last') \/ hmac_collision key.
Proof.
  intros laws [Hw Hr] [Hw' Hr'] [Heq|]%tag_inj; [left|by right|done]. apply app_length_inj in Heq as [_ Heq]; [|done].
  apply scope_frames_inj in Heq as (? & ? & Hrev%be64_inj & ? & ?); [by unfold same_scope|done..|].
  rewrite Forall_forall in Hw, Hw'. intros s Hs. apply elem_of_app in Hs as [Hs|Hs]; auto.
Qed.

(** Under one key, handles are equal only for the same identifier, run and policy
    version, and field names only for the same pointer, run and policy version; a
    field name never carries the tag of a handle.  Anything else is a collision of
    the keyed hash. *)
Theorem stable_handles_bind key run_id policy x run_id' policy' x' :
  url_laws -> in_width run_id policy x -> in_width run_id' policy' x' ->
  (stable_handle run_id policy key x = stable_handle run_id' policy' key x' ->
     (same_scope run_id policy run_id' policy' /\ x = x') \/ hmac_collision key) /\
  (redacted_field_name run_id policy key x = redacted_field_name run_id' policy' key x' ->
     (same_scope run_id policy run_id' policy' /\ x = x') \/ hmac_collision key) /\
  (redacted_field_name run_id policy key x = "redacted-field-" +:+ stable_handle run_id' policy' key x' ->
     hmac_collision key).
Proof.
  intros laws Hw Hw'. split_and!; [by apply scoped_tag_inj..|].
  unfold stable_handle, redacted_field_name. intros Heq.
  apply (tag_inj _ "redacted-field-hmac-sha256:") in Heq as [Heq|]; [|done..]. discriminate Heq.
Qed.
End projection.
