(* ===== verification/PrivacyRuns.v ===== *)
(** * A run of the privacy projection

    A concrete policy, key and codec, and two records that differ in what the policy
    hides: the theorems on the projection are applied to them. *)

From stdpp Require Import pretty.
From S2P Require Import Prelude Text Protocol Policy Scanner Redaction Privacy Pointers Erasure Classified.
From S2P Require Import Kept TreeBounds CanonicalPolicy PublicTrace RatifiedRuns.

(** ** Instances: the checksum and the encodings of the ratification run *)

#[local] Existing Instance run_sha256.
#[local] Existing Instance run_hmac.
#[local] Existing Instance run_url.

(** ** Policy and records *)

Definition rule (p : string) (c : DataClass) (a : RedactionAction) : RedactionRule := {|
  pointer := p; class := c; redaction := a; stable_identifier := bool_decide (a = StableHandle);
  fictional_provenance := if bool_decide (a = Keep) then Some "fixture-v1" else None |}.

Definition trace_rules : list RedactionRule :=
  [rule "/steps/0" ClassPublic Keep; rule "/member" Pii StableHandle; rule "/name" Pii Placeholder;
   rule "/kind" ClassPublic Keep; rule "/steps" ClassPublic Keep; rule "/token" ClassSecret DropValue].

Definition trace_policy : PrivacyPolicy :=
  match new_versioned "policy-a" 3 "gen-1" trace_rules with
  | Ok p => p
  | Err _ => {| pp_policy_id := ""; pp_policy_revision := 0; pp_key_generation := ""; rules := [] |}
  end.

Definition visit (name token : string) : json :=
  JObject [("kind", JString "visit"); ("member", JString "m-17"); ("name", JString name);
           ("steps", JArray [JString "intake"]); ("token", JString token)].

Definition redacted_visit : json :=
  match redact_record "run-7" trace_policy "key" (visit "Ada" "t0") with Ok v => v | Err _ => JNull end.

(** ** A codec of these documents *)

Fixpoint render (v : json) : string :=
  match v with
  | JString s => "'" +:+ s +:+ "'"
  | JArray l => "[" +:+ foldr (fun x rest => render x +:+ "," +:+ rest) "]" l
  | JObject m => "{" +:+ foldr (fun kv rest => "'" +:+ kv.1 +:+ "':" +:+ render kv.2 +:+ "," +:+ rest) "}" m
  | _ => "null"
  end.

Definition documents : list json := [visit "Ada" "t0"; visit "Grace" "t1"; redacted_visit].

#[local] Instance trace_codec : PrivacyCodec := {|
  raw_from_slice s := snd <$> list_find (fun d => render d = s) documents;
  record_to_vec v := Ok (render v);
  text_to_vec s := Ok s;
  log_to_vec l := Ok (String.concat "" (entry_pointer <$> l));
  policy_to_vec p := Ok (pp_policy_id p);
  receipt_to_vec r := Ok (projector_id r);
  manifest_to_vec m := Ok (pm_output_digest m);
  policy_from_slice _ := None |}.

Definition source_of (v : json) : string := render v +:+ String newline "".

Definition ada : json := visit "Ada" "t0".
Definition grace : json := visit "Grace" "t1".

Lemma trace_policy_ok : new_versioned "policy-a" 3 "gen-1" trace_rules = Ok trace_policy.
Proof. vm_compute. reflexivity. Qed.

Lemma ada_parses : parse_records (source_of ada) = Ok ([ada], true).
Proof. vm_compute. reflexivity. Qed.

Lemma grace_parses : parse_records (source_of grace) = Ok ([grace], true).
Proof. vm_compute. reflexivity. Qed.

Lemma ada_grace_agree : Forall2 (agree (hidden (rules trace_policy))) [ada] [grace].
Proof. constructor; [vm_compute; reflexivity|constructor]. Qed.

Definition sanitized_ada : result PrivacyError SanitizedTrace :=
  sanitize_public_trace_with_receipts (source_of ada) "run-7" "key" trace_policy [].

Definition the_trace : SanitizedTrace := Eval vm_compute in
  match sanitized_ada with
  | Ok st => st
  | Err _ =>
      {| public_bytes := ""; action_log := []; action_log_bytes := "";
         public_manifest := {| pm_schema_version := ""; pm_run_id := ""; pm_policy_id := ""; pm_policy_revision := 0;
           pm_key_generation := ""; pm_artifact := binding PublicArtifact "" trace_policy Fictional [];
           pm_policy_commitment := ""; pm_output_digest := ""; pm_action_log_commitment := "";
           pm_projection_receipts := [] |};
         restricted_manifest := {| rm_schema_version := ""; rm_run_id := ""; rm_policy_id := ""; rm_policy_revision := 0;
           rm_key_generation := ""; rm_artifact := binding PublicArtifact "" trace_policy Fictional [];
           rm_source_artifact := binding PublicArtifact "" trace_policy Fictional [];
           rm_action_log_artifact := binding PublicArtifact "" trace_policy Fictional []; rm_policy_digest := "";
           rm_source_digest := ""; rm_action_log_digest := ""; rm_public_manifest_digest := "";
           rm_projection_receipts := [];
           rm_storage_policy := {| public_export_forbidden := true; authenticated_encryption_required := true;
             authorization_required := true; audit_required := true |} |} |}
  end.

Lemma ada_sanitizes : sanitized_ada = Ok the_trace.
Proof. vm_compute. reflexivity. Qed.

(** ** The theorems on the run *)

Lemma sanitize_noninterference_witness :
  public_result sanitized_ada =
  public_result (sanitize_public_trace_with_receipts (source_of grace) "run-7" "key" trace_policy []).
Proof.
  apply (sanitize_noninterference "policy-a" 3 "gen-1" trace_rules trace_policy _ _ [ada] [grace] true).
  - exact trace_policy_ok.
  - exact ada_parses.
  - exact grace_parses.
  - exact ada_grace_agree.
Defined.

Lemma sanitized_is_clean_witness :
  exists records jsonl, parse_records (public_bytes the_trace) = Ok (records, jsonl) /\
    forall record x, record ∈ records -> occurs x record -> clean_here x = true.
Proof. exact (proj2 (sanitized_is_clean (source_of ada) "run-7" "key" trace_policy [] the_trace ada_sanitizes)). Defined.

Lemma kept_is_public_witness : exists r, r ∈ rules trace_policy /\ pointer r = "/kind" /\ lawful r.
Proof.
  apply (kept_is_public "policy-a" 3 "gen-1" trace_rules trace_policy ada "/kind" true (JString "visit")).
  - exact trace_policy_ok.
  - vm_compute. reflexivity.
  - apply (published_child _ _ "" false ada (JString "visit", "/kind", true)); [constructor|done|].
    unfold children. cbn. apply elem_of_cons. by left.
  - reflexivity.
Defined.

Lemma kept_values_survive_witness : value_at ["steps"; "0"] redacted_visit = Some (JString "intake").
Proof.
  apply (kept_values_survive "run-7" trace_policy "key" ada).
  - vm_compute. reflexivity.
  - vm_compute. reflexivity.
  - exact I.
  - assert (Forall (fun r => decode_pointer (pointer r) `prefix_of` ["steps"; "0"] -> redaction r = Keep) (rules trace_policy)) as Hall.
    { vm_compute. repeat constructor; intros [l Hl]; discriminate Hl. }
    intros r Hr. rewrite Forall_forall in Hall. by apply Hall.
Defined.

Lemma tree_bounds_exact_witness :
  validate_tree_bounds ada 1000 = Ok (7, 37)%N /\ validate_tree_bounds ada 10 = Err LimitExceeded.
Proof.
  split.
  - rewrite (tree_bounds_exact ada 1000 ltac:(vm_compute; discriminate)). vm_compute. reflexivity.
  - rewrite (tree_bounds_exact ada 10 ltac:(vm_compute; discriminate)). vm_compute. reflexivity.
Defined.

(** The checksum gives two identifiers one handle: that is a collision of it. *)
Lemma stable_handles_bind_witness :
  (same_scope "run-7" trace_policy "run-7" trace_policy /\ "m-17" = "m-71") \/ hmac_collision "key".
Proof.
  apply (stable_handles_bind "key" "run-7" trace_policy "m-17" "run-7" trace_policy "m-71" run_url_laws).
  1,2: split; [repeat constructor; vm_compute; discriminate|vm_compute; discriminate].
  vm_compute. reflexivity.
Defined.

Lemma policy_canonical_witness :
  new_versioned "policy-a" 3 "gen-1" (rev trace_rules) = Ok trace_policy /\ revalidate trace_policy = Ok trace_policy.
Proof.
  apply (policy_canonical "policy-a" 3 "gen-1" trace_rules (rev trace_rules) trace_policy).
  - exact trace_policy_ok.
  - symmetry. apply Permutation_rev.
Defined.
