(* ===== verification/Callback.v ===== *)
(** * Callback destinations and requests

    [push.rs]: canonical callback URLs, the addresses a callback may reach, request
    signatures, one delivery attempt, retries, readiness and the push policy.  The
    [url] and [httpdate] crates, the resolver, the files of an enrollment and the
    HTTP exchange are parameters. *)

From stdpp Require Import pretty.
From S2P Require Import Prelude Text Scanner.

Local Open Scope N_scope.

Definition PUSH_MAX_POLICY_BYTES : N := 256 * 1024.
Definition PUSH_MAX_URL_BYTES : N := 2048.
Definition MAX_PATH_BYTES : N := 1024.
Definition MAX_SECRET_BYTES : N := 4096.
Definition MIN_SECRET_BYTES : N := 32.

Inductive PushSecurityError :=
  | InvalidPolicy | EnrollmentDenied | InvalidDestination | InvalidSecret | UnsafeDns | DnsUnavailable
  | TransportUnavailable.

(** An error that is returned, or a panic *)
Inductive push_fault := Refused (e : PushSecurityError) | Panicked.

Definition resolve_push_config_path (canonical deprecated : option string) :
    result PushSecurityError (option string) :=
  fail_if (bool_decide (canonical = Some "") || bool_decide (deprecated = Some "")
           || (is_some canonical && is_some deprecated)) InvalidPolicy;;
  Ok (match canonical with Some path => Some path | None => deprecated end).

(** ** URLs *)

(** What [url::Url::parse] gives, as far as it is looked at *)
Record ParsedUrl := {
  url_scheme : string; url_username : string; url_password : option string; url_query : option string;
  url_fragment : option string; url_host_str : option string; url_path : string;
  url_port_or_known_default : option N }.

Class UrlParser := url_parse : string -> option ParsedUrl.

Record CanonicalCallbackUrl := { canonical : string; target_host : string; target_port : N; target_path : string }.

#[global] Instance CanonicalCallbackUrl_eq_dec : EqDecision CanonicalCallbackUrl.
Proof. solve_decision. Defined.

Definition ends_with_byte (c : ascii) (s : string) : bool :=
  match rev (String.list_ascii_of_string s) with d :: _ => bool_decide (d = c) | [] => false end.

Definition dot : ascii := Ascii.ascii_of_N 46.
Definition dash : ascii := Ascii.ascii_of_N 45.
Definition path_slash : ascii := Ascii.ascii_of_N 47.

(** [parse::<u16>()] and [parse::<u64>()]: an optional plus sign and digits *)
Definition parse_unsigned (max : N) (s : string) : option N :=
  let digits := default s (strip_prefix "+" s) in
  if negb (bool_decide (digits = "")) && str_all is_ascii_digit digits && (decimal_value digits 0 <=? max)
  then Some (decimal_value digits 0) else None.

Definition octet_text (s : string) : bool :=
  str_all is_ascii_digit s && (1 <=? slen s) && (slen s <=? 3)
  && (bool_decide (s = "0") || negb (starts_with "0" s)) && (decimal_value s 0 <=? 255).

(** [host.parse::<Ipv4Addr>().is_ok()].  A text that is an IPv6 address has a colon,
    which no label may have. *)
Definition ipv4_text (s : string) : bool :=
  let parts := split_byte dot s in (len parts =? 4) && forallb octet_text parts.

Definition label_ok (label : string) : bool :=
  negb (bool_decide (label = "") || (63 <? slen label) || starts_with "-" label || ends_with_byte dash label
        || negb (str_all (fun c => is_ascii_lowercase c || is_ascii_digit c || bool_decide (c = dash)) label)).

Definition host_ok (host : string) : bool :=
  negb (bool_decide (host = "") || (253 <? slen host) || ends_with_byte dot host || contains "*" host
        || negb (bool_decide (host = lowercase host)) || ipv4_text host
        || existsb (fun label => negb (label_ok label)) (split_byte dot host)).

Definition path_ok (path : string) : bool :=
  negb (bool_decide (path = "") || (MAX_PATH_BYTES <? slen path) || negb (starts_with "/" path)
        || starts_with "//" path
        || existsb (fun s => bool_decide (s = ".") || bool_decide (s = "..")) (split_byte path_slash path)).

Definition input_ok (input : string) : bool :=
  negb (bool_decide (input = "") || (PUSH_MAX_URL_BYTES <? slen input) || negb (is_ascii input)
        || negb (str_all (fun c => negb (in_range 0 31 c || (code c =? 127) || (code c =? 92))) input)
        || contains "%" input).

Definition canonical_text (host : string) (port : N) (path : string) : string :=
  "https://" +:+ host +:+ ":" +:+ pretty port +:+ path.

Definition bad_destination : push_fault := Refused InvalidDestination.

(** [&input[8..]], which panics on a shorter text *)
Definition after_scheme (input : string) : result push_fault string :=
  fail_if (slen input <? 8) Panicked;;
  Ok (String.substring 8 (String.length input - 8) input).

Definition parse `{UrlParser} (input : string) : result push_fault CanonicalCallbackUrl :=
  fail_if (negb (input_ok input)) bad_destination;;
  parsed ← ok_or (url_parse input) bad_destination;
  fail_if (negb (bool_decide (url_scheme parsed = "https")) || negb (bool_decide (url_username parsed = ""))
           || is_some (url_password parsed) || is_some (url_query parsed) || is_some (url_fragment parsed))
    bad_destination;;
  host ← ok_or (url_host_str parsed) bad_destination;
  fail_if (negb (host_ok host)) bad_destination;;
  rest ← after_scheme input;
  '(authority, _) ← ok_or (split_once path_slash rest) bad_destination;
  port_text ← ok_or (suffix ← strip_prefix host authority; strip_prefix ":" suffix) bad_destination;
  port ← ok_or (parse_unsigned 65535 port_text) bad_destination;
  fail_if (port =? 0) bad_destination;;
  let path := url_path parsed in
  fail_if (negb (path_ok path)) bad_destination;;
  let text := canonical_text host port path in
  fail_if (negb (bool_decide (text = input))) bad_destination;;
  Ok {| canonical := text; target_host := host; target_port := port; target_path := path |}.

(** ** Addresses

    An address is its number: [u32::from] and [u128::from] of the octets. *)

Inductive IpAddr := V4 (ip : N) | V6 (ip : N).

#[global] Instance IpAddr_eq_dec : EqDecision IpAddr.
Proof. solve_decision. Defined.

Definition octets (a b c d : N) : N := ((a * 256 + b) * 256 + c) * 256 + d.

(** [MAX << (width - prefix)] in [width] bits, and zero for prefix zero *)
Definition prefix_mask (width prefix : N) : N :=
  if prefix =? 0 then 0 else N.land (N.shiftl (N.ones width) (width - prefix)) (N.ones width).

Definition addr_in (width value base prefix : N) : bool :=
  N.land value (prefix_mask width prefix) =? N.land base (prefix_mask width prefix).

Definition v4_in : N -> N -> N -> bool := addr_in 32.
Definition v6_in : N -> N -> N -> bool := addr_in 128.

Definition blocked_v4 : list (N * N) :=
  [(octets 0 0 0 0, 8); (octets 10 0 0 0, 8); (octets 100 64 0 0, 10); (octets 127 0 0 0, 8);
   (octets 169 254 0 0, 16); (octets 172 16 0 0, 12); (octets 192 0 0 0, 24); (octets 192 0 2 0, 24);
   (octets 192 31 196 0, 24); (octets 192 52 193 0, 24); (octets 192 88 99 0, 24); (octets 192 168 0 0, 16);
   (octets 192 175 48 0, 24); (octets 198 18 0 0, 15); (octets 198 51 100 0, 24); (octets 203 0 113 0, 24);
   (octets 224 0 0 0, 4); (octets 240 0 0 0, 4)].

Definition is_public_v4 (ip : N) : bool :=
  negb (existsb (fun b => v4_in ip b.1 b.2) blocked_v4).

(** The first two groups of an IPv6 address *)
Definition groups2 (a b : N) : N := N.shiftl (a * 65536 + b) 96.

Definition blocked_v6 : list (N * N) :=
  [(groups2 0x2001 0, 23); (groups2 0x2001 2, 48); (groups2 0x2001 0xdb8, 32); (groups2 0x2002 0, 16);
   (groups2 0x3fff 0, 20)].

Definition is_public_v6 (ip : N) : bool :=
  v6_in ip (groups2 0x2000 0) 3 && negb (existsb (fun b => v6_in ip b.1 b.2) blocked_v6).

Definition to_ipv4_mapped (ip : N) : option N :=
  if N.shiftr ip 32 =? 0xffff then Some (N.land ip (N.ones 32)) else None.

Definition is_public_callback_ip (ip : IpAddr) : bool :=
  match ip with
  | V4 ip => is_public_v4 ip
  | V6 ip => match to_ipv4_mapped ip with Some mapped => is_public_v4 mapped | None => is_public_v6 ip end
  end.

Definition normalized_ip (answer : IpAddr) : IpAddr :=
  match answer with V6 ip => from_option V4 answer (to_ipv4_mapped ip) | V4 _ => answer end.

Definition push_unique (unique : list IpAddr) (answer : IpAddr) : list IpAddr :=
  if bool_decide (normalized_ip answer ∈ unique) then unique else unique ++ [normalized_ip answer].

Definition validate_dns_answers (answers : list IpAddr) (max_answers : N) : result PushSecurityError (list IpAddr) :=
  fail_if (bool_decide (answers = []) || (max_answers <? len answers) || (max_answers =? 0)
           || existsb (fun a => negb (is_public_callback_ip a)) answers) UnsafeDns;;
  Ok (foldl push_unique [] answers).

Definition is_loopback (ip : IpAddr) : bool :=
  match ip with V4 ip => N.shiftr ip 24 =? 127 | V6 ip => ip =? 1 end.

Record SecureCallbackTransport := { max_answers : N; test_loopback_pinning : bool }.

Definition transport_new (answers : N) : result PushSecurityError SecureCallbackTransport :=
  fail_if (negb ((1 <=? answers) && (answers <=? 32))) InvalidPolicy;;
  Ok {| max_answers := answers; test_loopback_pinning := false |}.

(** [resolve] answers [None] when the lookup times out; [validated[0]] is indexed. *)
Definition resolve_attempt (t : SecureCallbackTransport)
    (resolve : string -> option (result PushSecurityError (list IpAddr))) (target : CanonicalCallbackUrl) :
    result push_fault (IpAddr * N) :=
  answers ← map_err Refused (match resolve (target_host target) with Some r => r | None => Err DnsUnavailable end);
  validated ←
    (if test_loopback_pinning t && negb (bool_decide (answers = [])) && (len answers <=? max_answers t)
        && forallb is_loopback answers
     then Ok answers
     else map_err Refused (validate_dns_answers answers (max_answers t)));
  pinned ← ok_or (head validated) Panicked;
  Ok (pinned, target_port target).

(** ** Signatures *)

Section signing.
Context `{Sha256, HmacSha256, UrlBase64}.

(** A signer is its secret. *)
Definition signer_new (secret : string) : result PushSecurityError string :=
  fail_if (negb ((MIN_SECRET_BYTES <=? slen secret) && (slen secret <=? MAX_SECRET_BYTES))) InvalidSecret;;
  Ok secret.

Definition signing_input (target endpoint_id event_id : string) (timestamp attempt : N)
    (key_generation body : string) : string :=
  "smesh-callback-signature/v1" +:+ frame "POST" +:+ frame target +:+ frame endpoint_id +:+ frame event_id
  +:+ be64 timestamp +:+ be_bytes 4 attempt +:+ frame key_generation +:+ sha256 body.

Definition sign (secret target endpoint_id event_id : string) (timestamp attempt : N)
    (key_generation body : string) : string :=
  "v1,hmac-sha256=" +:+
  url_encode (hmac secret (signing_input target endpoint_id event_id timestamp attempt key_generation body)).

Definition verify_callback (secret target endpoint_id event_id : string) (timestamp attempt : N)
    (key_generation body candidate : string) : bool :=
  bool_decide (sign secret target endpoint_id event_id timestamp attempt key_generation body = candidate).

Definition delivery_event_id (tenant task_id : string) (event_sequence task_revision : N) (config_id : string)
    (config_generation : N) : string :=
  hex (sha256 ("smesh-callback/v1" +:+ frame tenant +:+ frame task_id +:+ frame config_id
               +:+ be64 event_sequence +:+ be64 task_revision +:+ be64 config_generation)).
End signing.

(** ** Retries *)

Record RetryPolicy := { max_attempts : N; base_ms : N; max_ms : N; max_age_ms : N }.

Definition retry_policy_new (attempts base maximum age : N) : result PushSecurityError RetryPolicy :=
  fail_if ((attempts =? 0) || (32 <? attempts) || (base =? 0) || (maximum <? base) || (age <? maximum)) InvalidPolicy;;
  Ok {| max_attempts := attempts; base_ms := base; max_ms := maximum; max_age_ms := age |}.

Definition can_attempt (p : RetryPolicy) (attempt age_ms : N) : bool :=
  (0 <? attempt) && (attempt <=? max_attempts p) && (age_ms <? max_age_ms p).

Definition saturating_mul (a b : N) : N := N.min (a * b) u64_max.

(** [1_u64.checked_shl(exponent)] is never out of range below 64. *)
Definition full_jitter_ms (p : RetryPolicy) (attempt sample : N) : option N :=
  if negb (can_attempt p attempt 0) then None
  else
    let exponent := N.min (attempt - 1) 63 in
    let ceiling := N.min (saturating_mul (base_ms p) (N.shiftl 1 exponent)) (max_ms p) in
    Some (sample mod saturating_add ceiling 1).

Definition clamp (x lo hi : N) : N := N.min (N.max x lo) hi.

Definition clamp_delay_ms (p : RetryPolicy) (requested_ms : option N) (attempt sample : N) : option N :=
  selected ← match requested_ms with Some ms => Some ms | None => full_jitter_ms p attempt sample end;
  Some (clamp selected (base_ms p) (max_ms p)).

Inductive DeliveryDisposition := Delivered | Retry | Permanent.

Definition classify_status (status : N) : DeliveryDisposition :=
  if (200 <=? status) && (status <=? 299) then Delivered
  else if bool_decide (status ∈ [408; 425; 429; 500; 502; 503; 504]) then Retry
  else Permanent.

(** [parse_http_date]: the seconds since the epoch of an IMF-fixdate *)
Definition retry_after_seconds_at (parse_http_date : string -> option N) (status : N) (values : list string)
    (now minimum maximum : N) : option N :=
  if negb (bool_decide (status ∈ [429; 503])) || (maximum <? minimum) then None
  else
    match values with
    | [value] =>
        seconds ←
          match parse_unsigned u64_max value with
          | Some delta => Some delta
          | None =>
              deadline ← parse_http_date value;
              if now <? deadline then Some (deadline - now) else None
          end;
        Some (clamp seconds minimum maximum)
    | _ => None
    end.

(** ** Policies *)

Record RawEnrollment := {
  raw_tenant : string; raw_endpoint_id : string; raw_url : string; raw_event : string; raw_auth : string;
  raw_key_generation : string; raw_secret_file : string; raw_ca_file : option string;
  raw_mtls_cert_file : option string; raw_mtls_key_file : option string }.

Record PushBounds := {
  enabled : bool; push_policy_id : string; push_policy_revision : N; push_policy_digest : string;
  max_pending : N; max_configs_per_task : N; max_configs_per_tenant : N; worker_count : N; claim_batch : N;
  claim_lease_ms : N; dns_timeout_ms : N; max_dns_answers : N; connect_timeout_ms : N; request_timeout_ms : N;
  max_response_bytes : N; push_max_attempts : N; base_retry_ms : N; max_retry_ms : N; max_delivery_age_ms : N }.

Record RawPolicy := { schema : string; raw_bounds : PushBounds; raw_enrollments : list RawEnrollment }.

Record PushEnrollment := {
  enr_tenant : string; enr_endpoint_id : string; enr_url : CanonicalCallbackUrl; enr_key_generation : string;
  enr_secret_file : string; enr_ca_file : option string; enr_mtls_cert_file : option string;
  enr_mtls_key_file : option string }.

Record PushPolicy := { bounds : PushBounds; enrollments : list PushEnrollment }.

Definition bounded_id (value : string) : bool :=
  negb (bool_decide (value = "")) && (slen value <=? 128)
  && str_all (fun c => is_ascii_alphanumeric c || byte_in "-_." c) value.

Definition between (lo hi n : N) : bool := (lo <=? n) && (n <=? hi).

Definition push_digest_ok (value : string) : bool :=
  (slen value =? 71)
  && is_some_and (strip_prefix "sha256:" value)
       (str_all (fun c => is_ascii_hexdigit c && negb (is_ascii_uppercase c))).

Definition bounds_ok (b : PushBounds) : bool :=
  bounded_id (push_policy_id b) && negb (push_policy_revision b =? 0) && push_digest_ok (push_policy_digest b)
  && between 1 1000000 (max_pending b) && between 1 32 (max_configs_per_task b)
  && between 1 (max_pending b) (max_configs_per_tenant b) && between 1 64 (worker_count b)
  && between 1 1000 (claim_batch b) && between 1000 300000 (claim_lease_ms b)
  && between 10 30000 (dns_timeout_ms b) && between 1 32 (max_dns_answers b)
  && between 10 30000 (connect_timeout_ms b) && between (connect_timeout_ms b) 120000 (request_timeout_ms b)
  && between 1 65536 (max_response_bytes b) && between 1 32 (push_max_attempts b)
  && negb (base_retry_ms b =? 0) && between (base_retry_ms b) 3600000 (max_retry_ms b)
  && between (max_retry_ms b) 604800000 (max_delivery_age_ms b).

(** [Path::is_absolute] *)
Definition is_absolute (path : string) : bool := starts_with "/" path.

Definition enrollment_ok (e : RawEnrollment) : bool :=
  bounded_id (raw_tenant e) && bounded_id (raw_endpoint_id e) && bounded_id (raw_key_generation e)
  && bool_decide (raw_event e = "terminal") && bool_decide (raw_auth e = "hmac-sha256")
  && is_absolute (raw_secret_file e) && is_none_or (raw_ca_file e) is_absolute
  && is_none_or (raw_mtls_cert_file e) is_absolute && is_none_or (raw_mtls_key_file e) is_absolute
  && Bool.eqb (is_some (raw_mtls_cert_file e)) (is_some (raw_mtls_key_file e)).

Section policies.
Context `{UrlParser}.

(** The enrollments accepted so far, whose identities and URLs a new one must not repeat *)
Definition enroll (accepted : list PushEnrollment) (e : RawEnrollment) : result push_fault (list PushEnrollment) :=
  fail_if (negb (enrollment_ok e)) (Refused InvalidPolicy);;
  url ← parse (raw_url e);
  fail_if (existsb (fun x => bool_decide (enr_tenant x = raw_tenant e)
                      && bool_decide (enr_endpoint_id x = raw_endpoint_id e)) accepted
           || existsb (fun x => bool_decide (enr_tenant x = raw_tenant e) && bool_decide (enr_url x = url)) accepted)
    (Refused InvalidPolicy);;
  Ok (accepted ++ [{| enr_tenant := raw_tenant e; enr_endpoint_id := raw_endpoint_id e; enr_url := url;
                      enr_key_generation := raw_key_generation e; enr_secret_file := raw_secret_file e;
                      enr_ca_file := raw_ca_file e; enr_mtls_cert_file := raw_mtls_cert_file e;
                      enr_mtls_key_file := raw_mtls_key_file e |}]).

Definition validate_raw_policy (raw : RawPolicy) : result push_fault PushPolicy :=
  fail_if (negb (bool_decide (schema raw = "smesh-push/1")) || negb (bounds_ok (raw_bounds raw))
           || (enabled (raw_bounds raw) && bool_decide (raw_enrollments raw = []))
           || (10000 <? len (raw_enrollments raw))) (Refused InvalidPolicy);;
  accepted ← try_fold enroll [] (raw_enrollments raw);
  Ok {| bounds := raw_bounds raw; enrollments := accepted |}.

(** [RetryPolicy::new(..).expect(..)] *)
Definition retry_policy (p : PushPolicy) : result push_fault RetryPolicy :=
  map_err (fun _ => Panicked)
    (retry_policy_new (push_max_attempts (bounds p)) (base_retry_ms (bounds p)) (max_retry_ms (bounds p))
       (max_delivery_age_ms (bounds p))).

Definition enrollment (p : PushPolicy) (tenant endpoint_id exact_url : string) : result push_fault PushEnrollment :=
  requested ← parse exact_url;
  ok_or (snd <$> list_find (fun e => enr_tenant e = tenant /\ enr_endpoint_id e = endpoint_id /\ enr_url e = requested)
           (enrollments p)) (Refused EnrollmentDenied).
End policies.

(** ** One attempt *)

Inductive CallbackTransportError :=
  | DnsUnsafe | TransportDnsUnavailable | Tls | Configuration | Connect | Timeout | Reset | ResponseTooLarge.
Inductive attempt_fault := Transport (e : CallbackTransportError) | AttemptPanicked.

#[global] Instance CallbackTransportError_eq_dec : EqDecision CallbackTransportError.
Proof. solve_decision. Defined.

(** The files of an enrollment, and what the TLS libraries read from them *)
Class PushFiles := {
  read_private_file : string -> N -> result PushSecurityError string;
  pem_certificates : string -> option (list string);
  pem_private_keys : string -> option (list string);
  certificate_from_der : string -> bool;
  identity_from_pem : string -> bool }.

(** The error of an exchange, as it is classified *)
Record wire_error := { is_timeout : bool; chain_contains_rustls : bool; is_connect : bool }.

Record WireResponse := {
  wire_status : N; wire_headers : list (string * string); wire_chunks : list (result wire_error string) }.

Record CallbackRequest := {
  request_socket : IpAddr * N; request_url : string; request_headers : list (string * string); request_body : string }.

Inductive exchange_outcome := ClientUnbuilt | SendFailed (e : wire_error) | Responded (r : WireResponse).

Record CallbackResponse := { resp_status : N; resp_disposition : DeliveryDisposition; resp_retry_after : option N }.

(** Standard base64, for the digest header *)
Class StandardBase64 := base64_encode : string -> string.

Section attempt.
Context `{Sha256, HmacSha256, UrlBase64, StandardBase64, PushFiles}.

Definition parse_certificates (bytes : string) : result PushSecurityError (list string) :=
  certificates ← ok_or (pem_certificates bytes) InvalidSecret;
  fail_if (bool_decide (certificates = [])) InvalidSecret;;
  Ok certificates.

Definition validate_identity_material (cert_bytes key_bytes : string) : result PushSecurityError unit :=
  parse_certificates cert_bytes;;
  keys ← ok_or (pem_private_keys key_bytes) InvalidSecret;
  fail_if (negb (len keys =? 1)) InvalidSecret.

Definition load_signer (e : PushEnrollment) : result PushSecurityError string :=
  secret ← read_private_file (enr_secret_file e) MAX_SECRET_BYTES;
  signer_new secret.

Definition mtls_files (e : PushEnrollment) : option (string * string) :=
  match enr_mtls_cert_file e, enr_mtls_key_file e with
  | Some cert, Some key => Some (cert, key)
  | _, _ => None
  end.

Definition check_ca (e : PushEnrollment) : result PushSecurityError (list string) :=
  match enr_ca_file e with
  | None => Ok []
  | Some path => bytes ← read_private_file path PUSH_MAX_POLICY_BYTES; parse_certificates bytes
  end.

Definition check_identity (e : PushEnrollment) : result PushSecurityError unit :=
  match mtls_files e with
  | None => Ok tt
  | Some (cert_path, key_path) =>
      cert_bytes ← read_private_file cert_path PUSH_MAX_POLICY_BYTES;
      key_bytes ← read_private_file key_path (64 * 1024);
      validate_identity_material cert_bytes key_bytes;;
      fail_if (negb (identity_from_pem (cert_bytes +:+ key_bytes))) InvalidSecret
  end.

Definition validate_material (p : PushPolicy) : result PushSecurityError unit :=
  try_each (fun e => load_signer e;; check_ca e;; check_identity e) (enrollments p).

Definition content_digest_header (body : string) : string := "sha-256=:" +:+ base64_encode (sha256 body) +:+ ":".

Definition signed_headers (target endpoint_id event_id : string) (timestamp attempt : N)
    (key_generation secret body : string) : list (string * string) :=
  [("Content-Type", "application/a2a+json");
   ("Content-Digest", content_digest_header body);
   ("X-Smesh-Callback-Version", "1");
   ("X-Smesh-Callback-Event-Id", event_id);
   ("X-Smesh-Callback-Endpoint-Id", endpoint_id);
   ("X-Smesh-Callback-Timestamp", pretty timestamp);
   ("X-Smesh-Callback-Attempt", pretty attempt);
   ("X-Smesh-Callback-Key-Generation", key_generation);
   ("X-Smesh-Callback-Signature", sign secret target endpoint_id event_id timestamp attempt key_generation body);
   ("Idempotency-Key", event_id)].

Definition callback_headers (e : PushEnrollment) (secret event_id : string) (timestamp attempt : N) (body : string) :
    list (string * string) :=
  signed_headers (canonical (enr_url e)) (enr_endpoint_id e) event_id timestamp attempt (enr_key_generation e) secret body.

(** A send that is not bound to an enrollment *)
Definition send_signed (t : SecureCallbackTransport) (resolve : string -> option (result PushSecurityError (list IpAddr)))
    (exchange : CallbackRequest -> exchange_outcome) (target : CanonicalCallbackUrl) (endpoint_id event_id : string)
    (timestamp attempt : N) (key_generation secret body : string) : result push_fault DeliveryDisposition :=
  fail_if ((256 * 1024 <? slen body) || (attempt =? 0)) (Refused InvalidPolicy);;
  pinned ← resolve_attempt t resolve target;
  match exchange {| request_socket := pinned; request_url := canonical target;
                    request_headers := signed_headers (canonical target) endpoint_id event_id timestamp attempt
                                         key_generation secret body;
                    request_body := body |} with
  | ClientUnbuilt => Err (Refused InvalidPolicy)
  | SendFailed _ => Err (Refused TransportUnavailable)
  | Responded r => Ok (classify_status (wire_status r))
  end.

Definition classify_reqwest_error (e : wire_error) : CallbackTransportError :=
  if is_timeout e then Timeout else if chain_contains_rustls e then Tls else if is_connect e then Connect else Reset.

Definition count_received (limit total : N) (parts : list string) : result attempt_fault N :=
  ok_or (n ← foldl (fun acc part => a ← acc; checked_add a (slen part)) (Some total) parts;
         if n <=? limit then Some n else None) (Transport ResponseTooLarge).

Definition count_header (limit total : N) (header : string * string) : result attempt_fault N :=
  count_received limit total [header.1; header.2].

Definition count_chunk (limit total : N) (chunk : result wire_error string) : result attempt_fault N :=
  bytes ← map_err (fun e => Transport (classify_reqwest_error e)) chunk;
  count_received limit total [bytes].

(** [HeaderValue::to_str]: visible ASCII, spaces and tabs *)
Definition header_text (value : string) : bool := str_all (fun c => in_range 32 126 c || (code c =? 9)) value.

Definition retry_after_of (parse_http_date : string -> option N) (now : N) (r : WireResponse) : option N :=
  let values := snd <$> filter (fun h => lowercase h.1 = "retry-after") (wire_headers r) in
  if forallb header_text values then retry_after_seconds_at parse_http_date (wire_status r) values now 0 (u64_max / 1000)
  else None.

Definition transport_fault (e : push_fault) : attempt_fault :=
  match e with
  | Refused UnsafeDns => Transport DnsUnsafe
  | Refused DnsUnavailable => Transport TransportDnsUnavailable
  | Refused _ => Transport Configuration
  | Panicked => AttemptPanicked
  end.

Definition configuration {A} (r : result PushSecurityError A) : result attempt_fault A :=
  map_err (fun _ => Transport Configuration) r.

Definition read_response (max_bytes : N) (parse_http_date : string -> option N) (now : N) (r : WireResponse) :
    result attempt_fault CallbackResponse :=
  header_bytes ← try_fold (count_header max_bytes) 0 (wire_headers r);
  try_fold (count_chunk max_bytes) header_bytes (wire_chunks r);;
  Ok {| resp_status := wire_status r; resp_disposition := classify_status (wire_status r);
        resp_retry_after := retry_after_of parse_http_date now r |}.

(** [now] is the system clock when the response is read. *)
Definition send_enrollment (t : SecureCallbackTransport)
    (resolve : string -> option (result PushSecurityError (list IpAddr)))
    (exchange : CallbackRequest -> exchange_outcome) (parse_http_date : string -> option N) (now : N)
    (e : PushEnrollment) (event_id : string) (timestamp attempt : N) (body : string) (max_bytes : N) :
    result attempt_fault CallbackResponse :=
  fail_if (bool_decide (body = "") || (256 * 1024 <? slen body) || (attempt =? 0) || (max_bytes =? 0))
    (Transport Configuration);;
  secret ← configuration (load_signer e);
  certificates ← configuration (check_ca e);
  fail_if (negb (forallb certificate_from_der certificates)) (Transport Configuration);;
  configuration (check_identity e);;
  pinned ← map_err transport_fault (resolve_attempt t resolve (enr_url e));
  match exchange {| request_socket := pinned; request_url := canonical (enr_url e);
                    request_headers := callback_headers e secret event_id timestamp attempt body;
                    request_body := body |} with
  | ClientUnbuilt => Err (Transport Configuration)
  | SendFailed error =>
      let classified := classify_reqwest_error error in
      Err (Transport (if bool_decide (classified = Reset) && is_some (mtls_files e) then Tls else classified))
  | Responded r => read_response max_bytes parse_http_date now r
  end.

(** *** Loading a policy; [toml_from_str] is the TOML parser. *)

Definition push_parse_bytes `{UrlParser} (toml_from_str : string -> option RawPolicy) (bytes : string) :
    result push_fault PushPolicy :=
  fail_if (bool_decide (bytes = "") || (PUSH_MAX_POLICY_BYTES <? slen bytes)) (Refused InvalidPolicy);;
  fail_if (negb (utf8_valid bytes)) (Refused InvalidPolicy);;
  raw ← ok_or (toml_from_str bytes) (Refused InvalidPolicy);
  validate_raw_policy raw.

Definition push_load `{UrlParser} (toml_from_str : string -> option RawPolicy) (path : string) :
    result push_fault PushPolicy :=
  bytes ← map_err Refused (read_private_file path PUSH_MAX_POLICY_BYTES);
  policy ← push_parse_bytes toml_from_str bytes;
  map_err Refused (validate_material policy);;
  Ok policy.
End attempt.
