(* ===== verification/Readiness.v ===== *)
(** * Push readiness

    [PushReadiness] of [push.rs]: four atomics that callback workers and the card
    builder share.  [mark_worker_ready] and [mark_fatal] are several atomic accesses
    each; [readiness_step] interleaves them at these accesses. *)

From S2P Require Import Prelude Text.

Local Open Scope N_scope.

Definition saturating_inc16 (n : N) : N := N.min (n + 1) u16_max.

Record PushReadiness := { ready : bool; fatal : bool; expected_workers : N; ready_workers : N }.

Definition for_workers (worker_count : N) : option PushReadiness :=
  if worker_count =? 0 then None
  else Some {| ready := false; fatal := false; expected_workers := worker_count; ready_workers := 0 |}.

Definition set_ready (b : bool) (s : PushReadiness) : PushReadiness :=
  {| ready := b; fatal := fatal s; expected_workers := expected_workers s; ready_workers := ready_workers s |}.
Definition set_fatal (s : PushReadiness) : PushReadiness :=
  {| ready := ready s; fatal := true; expected_workers := expected_workers s; ready_workers := ready_workers s |}.
Definition set_ready_workers (n : N) (s : PushReadiness) : PushReadiness :=
  {| ready := ready s; fatal := fatal s; expected_workers := expected_workers s; ready_workers := n |}.

Definition configure_workers (worker_count : N) (s : PushReadiness) : PushReadiness * bool :=
  if (worker_count =? 0) || ready s || fatal s || negb (ready_workers s =? 0) then (s, false)
  else ({| ready := ready s; fatal := fatal s; expected_workers := worker_count; ready_workers := ready_workers s |}, true).

Definition is_ready (s : PushReadiness) : bool := ready s && negb (fatal s).
Definition is_fatal (s : PushReadiness) : bool := fatal s.

(** ** Threads *)

(** A call at its next atomic access *)
Inductive readiness_call :=
  | MarkStart
  | MarkExpected
  | MarkUpdate (expected : N)
  | MarkRecheck
  | MarkStore
  | FatalStore
  | FatalClear
  | MarkDone
  | FatalDone.

(** One access of a call: where it goes on, and the atomics after it *)
Definition access (c : readiness_call) (s : PushReadiness) : readiness_call * PushReadiness :=
  match c with
  | MarkStart => (if fatal s then MarkDone else MarkExpected, s)
  | MarkExpected => (MarkUpdate (expected_workers s), s)
  | MarkUpdate expected =>
      let prior := ready_workers s in
      (if expected <=? saturating_inc16 prior then MarkRecheck else MarkDone,
       set_ready_workers (N.min (saturating_inc16 prior) expected) s)
  | MarkRecheck => (if fatal s then MarkDone else MarkStore, s)
  | MarkStore => (MarkDone, set_ready true s)
  | FatalStore => (FatalClear, set_fatal s)
  | FatalClear => (FatalDone, set_ready false s)
  | MarkDone | FatalDone => (c, s)
  end.

(** Calls run to their end without interruption *)
Definition mark_worker_ready (s : PushReadiness) : PushReadiness :=
  let '(c, s) := access MarkStart s in
  let '(c, s) := access c s in
  let '(c, s) := access c s in
  let '(c, s) := access c s in
  (access c s).2.

Definition mark_fatal (s : PushReadiness) : PushReadiness := let '(c, s) := access FatalStore s in (access c s).2.

(** Any call of the running ones makes its next access, or a new one begins. *)
Inductive readiness_step : list readiness_call * PushReadiness -> list readiness_call * PushReadiness -> Prop :=
  | step_access calls s i c c' s' :
      calls !! i = Some c -> access c s = (c', s') -> readiness_step (calls, s) (<[i := c']> calls, s')
  | step_mark calls s : readiness_step (calls, s) (calls ++ [MarkStart], s)
  | step_fatal calls s : readiness_step (calls, s) (calls ++ [FatalStore], s).

(** ** What readiness says *)

Definition is_mark (c : readiness_call) : bool :=
  match c with FatalStore | FatalClear | FatalDone => false | _ => true end.
(** A mark that has counted itself, or given up *)
Definition past_update (c : readiness_call) : bool :=
  match c with MarkRecheck | MarkStore | MarkDone => true | _ => false end.
Definition about_to_store (c : readiness_call) : bool := match c with MarkRecheck | MarkStore => true | _ => false end.
Definition finished (c : readiness_call) : bool := match c with MarkDone | FatalDone => true | _ => false end.

(** The number of calls of a kind *)
Definition count (p : readiness_call -> bool) (calls : list readiness_call) : N := len (filter (fun c => p c = true) calls).

Lemma count_app p l k : count p (l ++ k) = count p l + count p k.
Proof. unfold count, len. rewrite filter_app, length_app. lia. Qed.

Lemma count_insert p calls i c c' : calls !! i = Some c ->
  count p (<[i := c']> calls) + (if p c then 1 else 0) = count p calls + (if p c' then 1 else 0).
Proof.
  intros Hi. pose proof (lookup_lt_Some _ _ _ Hi) as Hlt. rewrite insert_take_drop by done.
  rewrite <- (take_drop_middle calls i c Hi) at 3.
  rewrite !count_app. change (c' :: drop (S i) calls) with ([c'] ++ drop (S i) calls).
  change (c :: drop (S i) calls) with ([c] ++ drop (S i) calls). rewrite !count_app.
  assert (forall d, count p [d] = if p d then 1 else 0) as Hone.
  { intros d. unfold count. rewrite filter_cons. by destruct (p d). }
  rewrite !Hone. lia.
Qed.

Record readiness_ok (n : N) (calls : list readiness_call) (s : PushReadiness) : Prop := {
  ok_expected : expected_workers s = n;
  ok_updates : forall e, MarkUpdate e ∈ calls -> e = n;
  ok_counted : ready_workers s <= N.min n (count past_update calls);
  ok_exact : fatal s = false -> ready_workers s = N.min n (count past_update calls);
  ok_storing : forall c, c ∈ calls -> about_to_store c = true -> ready_workers s = n;
  ok_ready : ready s = true -> ready_workers s = n;
  ok_pending : fatal s = false -> ready_workers s = n -> ready s = true \/ exists c, c ∈ calls /\ about_to_store c = true;
  ok_clearing : FatalClear ∈ calls -> fatal s = true }.

Lemma elem_insert {A} (l : list A) i x y : x ∈ <[i := y]> l -> x = y \/ x ∈ l.
Proof.
  intros [j Hj]%list_elem_of_lookup. apply list_lookup_insert_Some in Hj as [(_ & -> & _)|[_ Hj]]; [by left|right].
  by eapply list_elem_of_lookup_2.
Qed.

Lemma insert_elem {A} (l : list A) i x y : l !! i = Some x -> y ∈ <[i := y]> l.
Proof. intros Hi%lookup_lt_Some. apply (list_elem_of_lookup_2 _ i). by apply list_lookup_insert_eq. Qed.

Lemma elem_keep {A} (l : list A) i x y z : l !! i = Some x -> z ∈ l -> z <> x -> z ∈ <[i := y]> l.
Proof.
  intros Hi [j Hj]%list_elem_of_lookup Hne. apply (list_elem_of_lookup_2 _ j).
  rewrite list_lookup_insert_ne; [done|]. intros ->. congruence.
Qed.

Section invariant.
Context (n : N) (Hn : 1 <= n <= u16_max).

Lemma readiness_ok_start s : for_workers n = Some s -> readiness_ok n [] s.
Proof.
  unfold for_workers. destruct (n =? 0); [done|]. intros [= <-]. split; change (count past_update []) with 0;
    cbn; try done; try set_solver; intros; lia.
Qed.

(** A call that begins has counted nothing yet. *)
Lemma readiness_ok_begin calls s c : readiness_ok n calls s -> c = MarkStart \/ c = FatalStore ->
  readiness_ok n (calls ++ [c]) s.
Proof.
  intros [He Hu Hc Hx Hs Hr Hp Hf] Hnew.
  assert (count past_update (calls ++ [c]) = count past_update calls) as Hcount.
  { rewrite count_app. replace (count past_update [c]) with 0; [lia|]. by destruct Hnew as [-> | ->]. }
  split; rewrite ?Hcount; try done.
  - intros e [Hin|Hin]%elem_of_app; [auto|]. destruct Hnew as [-> | ->]; set_solver.
  - intros d [Hin|Hin]%elem_of_app; [by apply Hs|]. destruct Hnew as [-> | ->]; apply list_elem_of_singleton in Hin as ->; done.
  - intros Hfatal Hcap. destruct (Hp Hfatal Hcap) as [|(d & Hd & ?)]; [by left|right]. exists d. split; [|done].
    apply elem_of_app. by left.
  - intros [Hin|Hin]%elem_of_app; [auto|]. destruct Hnew as [-> | ->]; set_solver.
Qed.

(** A call moves and the atomics stay. *)
Lemma readiness_ok_quiet calls s i c c' : readiness_ok n calls s -> calls !! i = Some c ->
  (forall e, c' = MarkUpdate e -> e = n) ->
  (past_update c' = past_update c \/ fatal s = true /\ past_update c = false) ->
  (about_to_store c' = true -> ready_workers s = n) ->
  (about_to_store c = true -> about_to_store c' = true \/ fatal s = true \/ ready s = true) ->
  (c' = FatalClear -> fatal s = true) ->
  readiness_ok n (<[i := c']> calls) s.
Proof.
  intros [He Hu Hc Hx Hs Hr Hp Hf] Hi Hupd Hpast Hstore Hleft Hclear.
  pose proof (count_insert past_update calls i c c' Hi) as Hcount.
  split; try done.
  - intros e [<-|Hin]%elem_insert; [by apply Hupd|by apply Hu].
  - destruct (past_update c), (past_update c'); lia || (by destruct Hpast as [|[_ ?]]).
  - intros Hfatal. destruct Hpast as [Hpast|[? _]]; [|congruence]. rewrite Hpast in Hcount. rewrite Hx by done. lia.
  - intros d [->|Hin]%elem_insert; [done|by apply Hs].
  - intros Hfatal Hcap. destruct (Hp Hfatal Hcap) as [|(d & Hd & Hstored)]; [by left|].
    destruct (about_to_store c) eqn:Hcs.
    + destruct Hleft as [?|[?|?]]; [done| |congruence|by left]. right. exists c'. split; [by eapply insert_elem|done].
    + right. exists d. split; [|done]. eapply elem_keep; [done..|]. intros ->. congruence.
  - intros [<-|Hin]%elem_insert; [by apply Hclear|by apply Hf].
Qed.

(** The counter: it saturates at [n]. *)
Lemma readiness_ok_update calls s i e : readiness_ok n calls s -> calls !! i = Some (MarkUpdate e) ->
  readiness_ok n (<[i := if e <=? saturating_inc16 (ready_workers s) then MarkRecheck else MarkDone]> calls)
    (set_ready_workers (N.min (saturating_inc16 (ready_workers s)) e) s).
Proof.
  intros [He Hu Hc Hx Hs Hr Hp Hf] Hi. pose proof (list_elem_of_lookup_2 _ _ _ Hi) as Hin.
  pose proof (Hu _ Hin) as ->. set (inc := saturating_inc16 (ready_workers s)).
  assert (inc = ready_workers s + 1 \/ inc = n /\ ready_workers s = n) as Hinc
    by (unfold inc, saturating_inc16, u16_max in *; lia).
  set (c' := if n <=? inc then MarkRecheck else MarkDone).
  pose proof (count_insert past_update calls i _ c' Hi) as Hcount.
  assert (past_update c' = true) as Hpast by (unfold c'; by destruct (n <=? inc)). rewrite Hpast in Hcount. cbn in Hcount.
  assert (about_to_store c' = (n <=? inc)) as Hstore by (unfold c'; by destruct (n <=? inc)).
  split; cbn; try done.
  - intros e [Heq|He']%elem_insert; [|by apply Hu]. unfold c' in Heq. by destruct (n <=? inc).
  - lia.
  - intros Hfatal. rewrite Hx in * by done. lia.
  - intros d [->|Hd]%elem_insert Hd'; [rewrite Hstore in Hd'; apply N.leb_le in Hd'; lia|]. apply Hs in Hd; [lia|done].
  - intros Hready%Hr. lia.
  - intros Hfatal Hcap. right. exists c'. split; [by eapply insert_elem|]. rewrite Hstore. apply N.leb_le. lia.
  - intros [Heq|Hd]%elem_insert; [|by apply Hf]. unfold c' in Heq. by destruct (n <=? inc).
Qed.

Lemma readiness_ok_fatal calls s : readiness_ok n calls s -> readiness_ok n calls (set_fatal s).
Proof. intros [He Hu Hc Hx Hs Hr Hp Hf]. by split. Qed.

Lemma readiness_ok_ready calls s : readiness_ok n calls s -> MarkStore ∈ calls -> readiness_ok n calls (set_ready true s).
Proof. intros [He Hu Hc Hx Hs Hr Hp Hf] Hin. split; cbn; try done; [by intros _; apply (Hs _ Hin)|by left]. Qed.

Lemma readiness_ok_clear calls s : readiness_ok n calls s -> FatalClear ∈ calls -> readiness_ok n calls (set_ready false s).
Proof. intros [He Hu Hc Hx Hs Hr Hp Hf] Hin. apply Hf in Hin. split; cbn; try done. congruence. Qed.

Lemma readiness_ok_access calls s i c c' s' : readiness_ok n calls s -> calls !! i = Some c -> access c s = (c', s') ->
  readiness_ok n (<[i := c']> calls) s'.
Proof.
  intros Hok Hi Hstep. pose proof (list_elem_of_lookup_2 _ _ _ Hi) as Hin.
  destruct c; cbn in Hstep; injection Hstep as <- <-.
  - eapply readiness_ok_quiet; [done..| | | | |]; destruct (fatal s); by auto.
  - eapply readiness_ok_quiet; [done..| | | | |]; try by auto. intros e [= <-]. apply Hok.
  - by apply readiness_ok_update.
  - pose proof (ok_storing _ _ _ Hok _ Hin eq_refl). eapply readiness_ok_quiet; [done..| | | | |]; destruct (fatal s); by auto.
  - eapply readiness_ok_quiet; [by apply readiness_ok_ready|done|..]; by auto.
  - eapply readiness_ok_quiet; [by apply readiness_ok_fatal|done|..]; by auto.
  - eapply readiness_ok_quiet; [by apply readiness_ok_clear|done|..]; by auto.
  - eapply readiness_ok_quiet; [done..| | | | |]; by auto.
  - eapply readiness_ok_quiet; [done..| | | | |]; by auto.
Qed.
End invariant.

Lemma count_le (p q : readiness_call -> bool) calls : (forall c, p c = true -> q c = true) -> count p calls <= count q calls.
Proof.
  intros Hpq. unfold count, len. induction calls as [|c calls IH]; [done|]. rewrite !filter_cons.
  pose proof (Hpq c). destruct (p c), (q c); cbn [decide]; simpl; try lia; naive_solver.
Qed.

Lemma count_finished calls : forallb finished calls = true -> count past_update calls = count is_mark calls.
Proof.
  unfold count. induction calls as [|c calls IH]; [done|]. cbn [forallb]. intros [Hc Hl]%andb_true_iff.
  specialize (IH Hl). rewrite !filter_cons. destruct c; try done; simpl; unfold len in *; simpl; lia.
Qed.

Lemma readiness_steps_ok n x y : 1 <= n <= u16_max -> rtc readiness_step x y -> readiness_ok n x.1 x.2 -> readiness_ok n y.1 y.2.
Proof.
  intros Hn. induction 1 as [x|x y z Hstep _ IH]; [done|]. intros Hok. apply IH.
  destruct Hstep; cbn in *; [by eapply readiness_ok_access|apply readiness_ok_begin; auto..].
Qed.

Lemma fatal_sticky x y : rtc readiness_step x y -> fatal x.2 = true -> fatal y.2 = true.
Proof.
  induction 1 as [x|x y z Hstep _ IH]; [done|]. intros Hf. apply IH. destruct Hstep as [calls s i c c' s' _ Ha| |]; try done.
  cbn in *. destruct c; injection Ha as <- <-; done.
Qed.

(** C25: Whatever calls run and however their atomic accesses interleave: readiness is
    only reported once as many marks have begun as workers are expected; when every
    call has ended and none was fatal, it is reported exactly from that number on;
    and once a fatal call has stored its flag it is never reported again. *)
Theorem readiness_exact n s0 calls s : n <= u16_max -> for_workers n = Some s0 ->
  rtc readiness_step ([], s0) (calls, s) ->
  (is_ready s = true -> n <= count is_mark calls) /\
  (forallb finished calls = true -> fatal s = false -> is_ready s = (n <=? count is_mark calls)) /\
  (fatal s = true -> forall calls' s', rtc readiness_step (calls, s) (calls', s') -> is_ready s' = false).
Proof.
  intros Hn Hs0 Hrun. assert (1 <= n) as Hpos by (unfold for_workers in Hs0; destruct (N.eqb_spec n 0); [done|lia]).
  pose proof (readiness_steps_ok n _ _ (conj Hpos Hn) Hrun (readiness_ok_start n (conj Hpos Hn) s0 Hs0)) as Hok. cbn in Hok.
  destruct Hok as [_ _ Hc Hx _ Hr Hp _]. split_and!.
  - unfold is_ready. intros [Hready _]%andb_true_iff. apply Hr in Hready.
    pose proof (count_le past_update is_mark calls). assert (forall c, past_update c = true -> is_mark c = true) by (by intros []).
    specialize (H H0). lia.
  - intros Hdone Hfatal. unfold is_ready. rewrite Hfatal, andb_true_r.
    rewrite <- (count_finished calls Hdone). specialize (Hx Hfatal). destruct (N.leb_spec n (count past_update calls)).
    + destruct (Hp Hfatal) as [|(c & Hin & Hs)]; [lia|done|]. rewrite forallb_forall in Hdone.
      apply list_elem_of_In, Hdone in Hin. by destruct c.
    + destruct (ready s); [|done]. specialize (Hr eq_refl). lia.
  - intros Hfatal calls' s' Hrest. pose proof (fatal_sticky _ _ Hrest Hfatal) as Hf. cbn in Hf.
    unfold is_ready. rewrite Hf. apply andb_false_r.
Qed.

(** ** A run: two marks, one after the other *)

Definition two_workers : PushReadiness := {| ready := false; fatal := false; expected_workers := 2; ready_workers := 0 |}.

Lemma two_marks_run :
  rtc readiness_step ([], two_workers) ([MarkDone; MarkDone], mark_worker_ready (mark_worker_ready two_workers)).
Proof.
  eapply rtc_l; [apply (step_mark [])|]. eapply rtc_l; [apply step_mark|]. cbn [app].
  do 3 (eapply rtc_l; [eapply (step_access _ _ 0); reflexivity|]; cbn).
  do 5 (eapply rtc_l; [eapply (step_access _ _ 1); reflexivity|]; cbn). apply rtc_refl.
Qed.

Lemma readiness_exact_witness :
  is_ready (mark_worker_ready (mark_worker_ready two_workers)) = (2 <=? count is_mark [MarkDone; MarkDone]).
Proof.
  apply (readiness_exact 2 two_workers [MarkDone; MarkDone]);
    [vm_compute; discriminate|reflexivity|exact two_marks_run|reflexivity|reflexivity].
Defined.
