(* ===== verification/Destinations.v ===== *)
(** * Where callbacks may go

    The canonical text of a URL determines its host, port and path whatever the URL
    library says; the address filter is the table of reserved ranges; the socket of
    an attempt is a public address of the resolver's answer. *)

From stdpp Require Import pretty.
From S2P Require Import Prelude Text Scanner Pointers Callback.

Local Open Scope N_scope.

(** ** Texts of URLs *)

Definition colon : ascii := Ascii.ascii_of_N 58.

Definition free_of (c : ascii) (s : string) : bool := str_all (fun d => negb (bool_decide (d = c))) s.

(** Two texts split at the same byte *)
Lemma split_at_byte c s s' t t' : free_of c s = true -> free_of c s' = true ->
  s +:+ String c t = s' +:+ String c t' -> s = s' /\ t = t'.
Proof.
  revert s'. induction s as [|a s IH]; intros [|a' s'] Hs Hs' Heq.
  - by injection Heq as ->.
  - injection Heq as ? ?. subst. apply andb_true_iff in Hs' as [Hc _]. by rewrite bool_decide_eq_true_2 in Hc.
  - injection Heq as ? ?. subst. apply andb_true_iff in Hs as [Hc _]. by rewrite bool_decide_eq_true_2 in Hc.
  - injection Heq as -> Heq. apply andb_true_iff in Hs as [_ Hs], Hs' as [_ Hs']. by destruct (IH s' Hs Hs' Heq) as [-> ->].
Qed.

(** The bytes of a text are those of its pieces, and the separators. *)
Lemma split_byte_all p c s : p c = true -> forallb (str_all p) (split_byte c s) = true -> str_all p s = true.
Proof.
  intros Hc. induction s as [|a s IH]; [done|]. cbn [split_byte]. case_bool_decide as Ha.
  - subst. intros [_ Hs]%andb_true_iff. cbn [str_all]. by rewrite Hc, IH.
  - destruct (split_byte c s) as [|first rest].
    + cbn. rewrite !andb_true_r. intros ->. by rewrite IH.
    + cbn [forallb str_all]. intros [[-> Hf]%andb_true_iff Hr]%andb_true_iff. apply IH. cbn [forallb]. by rewrite Hf, Hr.
Qed.

Lemma existsb_negb {A} (p : A -> bool) l : existsb (fun x => negb (p x)) l = negb (forallb p l).
Proof. induction l as [|x l IH]; [done|]. cbn. rewrite IH. by destruct (p x). Qed.

Lemma host_labels h : host_ok h = true -> forallb label_ok (split_byte dot h) = true.
Proof.
  unfold host_ok. rewrite existsb_negb, !negb_orb, !negb_involutive, !andb_true_iff. by intros [_ Hl].
Qed.

Lemma host_free_of_colon h : host_ok h = true -> free_of colon h = true.
Proof.
  intros Hl%host_labels. apply (split_byte_all _ dot); [done|]. rewrite forallb_forall in *.
  intros label Hlabel%Hl. unfold label_ok in Hlabel. rewrite !negb_orb, !negb_involutive, !andb_true_iff in Hlabel.
  destruct Hlabel as [_ Hchars]. revert Hchars. apply str_all_impl. intros c.
  destruct (decide (c = colon)) as [->|Hne]; [done|]. intros _. by rewrite bool_decide_eq_false_2.
Qed.

Lemma path_starts path : path_ok path = true -> exists rest, path = String path_slash rest.
Proof.
  unfold path_ok. rewrite !negb_orb, !andb_true_iff, !negb_involutive. intros [[[_ Hs] _] _].
  unfold starts_with, is_some in Hs. destruct (strip_prefix "/" path) as [r|] eqn:Hr; [|done].
  apply strip_prefix_Some in Hr as ->. by exists r.
Qed.

Lemma pretty_free (n : N) : free_of path_slash (pretty n) = true.
Proof.
  pose proof (pretty_go_digits n "" eq_refl) as Hgo. unfold pretty, pretty_N. case_decide; [done|].
  revert Hgo. apply str_all_impl. intros c Hc. destruct (decide (c = path_slash)) as [->|Hne]; [done|].
  by rewrite bool_decide_eq_false_2.
Qed.

Lemma canonical_text_inj h n p h' n' p' : host_ok h = true -> path_ok p = true -> host_ok h' = true -> path_ok p' = true ->
  canonical_text h n p = canonical_text h' n' p' -> h = h' /\ n = n' /\ p = p'.
Proof.
  intros Hh%host_free_of_colon [r ->]%path_starts Hh'%host_free_of_colon [r' ->]%path_starts Heq.
  unfold canonical_text in Heq. apply app_length_inj in Heq as [_ Heq]; [|done].
  destruct (split_at_byte colon h h' _ _ Hh Hh' Heq) as [-> Heq'].
  apply split_at_byte in Heq' as [Hn ->]; [|apply pretty_free..]. by apply (inj pretty) in Hn as ->.
Qed.

Record url_ok (s : string) (u : CanonicalCallbackUrl) : Prop := {
  url_text : canonical u = s;
  url_parts : s = canonical_text (target_host u) (target_port u) (target_path u);
  url_host : host_ok (target_host u) = true;
  url_port : 1 <= target_port u <= 65535;
  url_rest : path_ok (target_path u) = true }.

Lemma parse_unsigned_le max s n : parse_unsigned max s = Some n -> n <= max.
Proof. unfold parse_unsigned. case_match eqn:Hc; [|done]. intros [= <-]. apply andb_true_iff in Hc as [_ Hc]. by apply N.leb_le. Qed.

Lemma parse_Ok (P : UrlParser) s u : parse s = Ok u -> url_ok s u.
Proof.
  unfold parse. intros Hok. inv_ok.
  match goal with H : parse_unsigned _ _ = _ |- _ => apply parse_unsigned_le in H end.
  split; cbn; try done. lia.
Qed.

Lemma url_ok_unique s u u' : url_ok s u -> url_ok s u' -> u' = u.
Proof.
  intros [Ht Hp Hh Hn Hr] [Ht' Hp' Hh' Hn' Hr']. rewrite Hp in Hp'.
  apply canonical_text_inj in Hp' as (Eh & En & Er); [|done..]. destruct u, u'; simpl in *. congruence.
Qed.

(** C31: An accepted URL is its text: it prints as what was given, which reads
    [https://host:port/path] with a decimal port from 1 to 65535, and any URL library
    that accepts the text too, whatever it answers, gives the same host, port and
    path. *)
Theorem destination_is_its_text (P P' : UrlParser) s u :
  parse (H := P) s = Ok u ->
  url_ok s u /\ parse (H := P) (canonical u) = Ok u /\
  (forall s' u', parse (H := P') s' = Ok u' ->
     (target_host u', target_port u', target_path u') = (target_host u, target_port u, target_path u) <-> s' = s) /\
  (forall u', parse (H := P') s = Ok u' -> u' = u).
Proof.
  intros Hs. pose proof (parse_Ok P s u Hs) as Hok. split_and!; [done|by rewrite (url_text _ _ Hok)| |].
  - intros s' u' Hs'%parse_Ok. split.
    + intros [= Hh Hn Hp]. rewrite (url_parts _ _ Hok), (url_parts _ _ Hs'). by rewrite Hh, Hn, Hp.
    + intros ->. by rewrite (url_ok_unique s u u' Hok Hs').
  - intros u' Hs'%parse_Ok. by eapply url_ok_unique.
Qed.

(** What the URL standard makes of a scheme and a host without slashes *)
Record bare_host (parsed : ParsedUrl) (h : string) : Prop := {
  bare_scheme : url_scheme parsed = "https";
  bare_user : url_username parsed = "" /\ url_password parsed = None;
  bare_rest : url_query parsed = None /\ url_fragment parsed = None;
  bare_name : url_host_str parsed = Some h }.

(** C38: A library that reads [https:a] as the host [a], as the URL standard has it, makes
    the parser panic: the text is shorter than the eight bytes that are skipped. *)
Theorem short_url_panics (P : UrlParser) parsed :
  url_parse "https:a" = Some parsed -> bare_host parsed "a" -> parse "https:a" = Err Panicked.
Proof.
  intros Hp [Hs [Hu Hw] [Hq Hf] Hh]. unfold parse. rewrite Hp. cbn [ok_or mbind result_bind].
  rewrite Hs, Hu, Hw, Hq, Hf, Hh. reflexivity.
Qed.

(** ** Addresses *)

(** Inclusive ranges of addresses *)
Definition in_ranges (ranges : list (N * N)) (ip : N) : Prop := exists r, r ∈ ranges /\ r.1 <= ip <= r.2.

(** The IPv4 ranges that are not public, in full *)
Definition reserved_v4 : list (N * N) :=
  [(octets 0 0 0 0, octets 0 255 255 255); (octets 10 0 0 0, octets 10 255 255 255);
   (octets 100 64 0 0, octets 100 127 255 255); (octets 127 0 0 0, octets 127 255 255 255);
   (octets 169 254 0 0, octets 169 254 255 255); (octets 172 16 0 0, octets 172 31 255 255);
   (octets 192 0 0 0, octets 192 0 0 255); (octets 192 0 2 0, octets 192 0 2 255);
   (octets 192 31 196 0, octets 192 31 196 255); (octets 192 52 193 0, octets 192 52 193 255);
   (octets 192 88 99 0, octets 192 88 99 255); (octets 192 168 0 0, octets 192 168 255 255);
   (octets 192 175 48 0, octets 192 175 48 255); (octets 198 18 0 0, octets 198 19 255 255);
   (octets 198 51 100 0, octets 198 51 100 255); (octets 203 0 113 0, octets 203 0 113 255);
   (octets 224 0 0 0, octets 239 255 255 255); (octets 240 0 0 0, octets 255 255 255 255)].

(** The first 48 bits of an IPv6 address, then zeros or ones *)
Definition first48 (a b c : N) : N := ((a * 65536 + b) * 65536 + c) * 2 ^ 80.
Definition last48 (a b c : N) : N := first48 a b c + (2 ^ 80 - 1).

Definition global_v6 : N * N := (first48 0x2000 0 0, last48 0x3fff 0xffff 0xffff).
Definition reserved_v6 : list (N * N) :=
  [(first48 0x2001 0 0, last48 0x2001 0x1ff 0xffff); (first48 0x2001 2 0, last48 0x2001 2 0);
   (first48 0x2001 0xdb8 0, last48 0x2001 0xdb8 0xffff);
   (first48 0x2002 0 0, last48 0x2002 0xffff 0xffff); (first48 0x3fff 0 0, last48 0x3fff 0x0fff 0xffff)].

Definition public_v6 (ip : N) : Prop := global_v6.1 <= ip <= global_v6.2 /\ ~ in_ranges reserved_v6 ip.

Definition public_address (ip : IpAddr) : Prop :=
  match ip with
  | V4 ip => ~ in_ranges reserved_v4 ip
  | V6 ip =>
      if (0xffff * 2 ^ 32 <=? ip) && (ip <? 0x10000 * 2 ^ 32) then ~ in_ranges reserved_v4 (ip mod 2 ^ 32)
      else public_v6 ip
  end.

Definition address_ok (ip : IpAddr) : Prop := match ip with V4 ip => ip < 2 ^ 32 | V6 ip => ip < 2 ^ 128 end.

Lemma land_mask width prefix v : prefix <= width -> v < 2 ^ width ->
  N.land v (prefix_mask width prefix) = v / 2 ^ (width - prefix) * 2 ^ (width - prefix).
Proof.
  intros Hp Hv. unfold prefix_mask. destruct (N.eqb_spec prefix 0) as [->|Hne].
  - rewrite N.land_0_r, N.sub_0_r, N.div_small by done. done.
  - rewrite <- N.shiftr_div_pow2, <- N.shiftl_mul_pow2. apply N.bits_inj. intros i.
    rewrite !N.land_spec. destruct (N.ltb_spec i (width - prefix)) as [Hlt|Hge].
    + rewrite !N.shiftl_spec_low by done. by rewrite andb_false_l, andb_false_r.
    + rewrite !N.shiftl_spec_high' , N.shiftr_spec' by done.
      replace (i - (width - prefix) + (width - prefix)) with i by lia.
      destruct (N.ltb_spec i width) as [Hw|Hw].
      * rewrite !N.ones_spec_low by lia. by rewrite !andb_true_r.
      * rewrite (N.ones_spec_high width i) by lia. rewrite !andb_false_r. symmetry.
        destruct (decide (v = 0)) as [->|Hv0]; [apply N.bits_0|]. apply N.bits_above_log2. apply N.log2_lt_pow2; [lia|].
        eapply N.lt_le_trans; [exact Hv|]. by apply N.pow_le_mono_r.
Qed.

(** A prefix is the range from its base to the next multiple of its size. *)
Lemma addr_in_range width v base prefix : prefix <= width -> v < 2 ^ width -> base < 2 ^ width ->
  base mod 2 ^ (width - prefix) = 0 ->
  addr_in width v base prefix = (base <=? v) && (v <=? base + (2 ^ (width - prefix) - 1)).
Proof.
  intros Hp Hv Hb Hmod. unfold addr_in. rewrite !land_mask by done. set (d := 2 ^ (width - prefix)) in *.
  assert (0 < d) as Hd by (unfold d; apply N.neq_0_lt_0, N.pow_nonzero; done).
  pose proof (N.div_mod' base d) as Hbase. rewrite Hmod, N.add_0_r in Hbase.
  pose proof (N.div_mod' v d) as Hval. pose proof (N.mod_lt v d ltac:(lia)) as Hlt.
  set (q := v / d) in *. set (k := base / d) in *. set (r := v mod d) in *. apply eq_true_iff_eq.
  rewrite N.eqb_eq, andb_true_iff, !N.leb_le. split.
  - intros Heq. nia.
  - intros [H1 H2]. assert (q = k) as -> by nia. done.
Qed.

Definition prefix_range (width : N) (b : N * N) : N * N := (b.1, b.1 + (2 ^ (width - b.2) - 1)).

Definition aligned (width : N) (b : N * N) : bool :=
  (b.2 <=? width) && (b.1 <? 2 ^ width) && (b.1 mod 2 ^ (width - b.2) =? 0).

Lemma aligned_in width ip b : aligned width b = true -> ip < 2 ^ width ->
  addr_in width ip b.1 b.2 = true <-> (prefix_range width b).1 <= ip <= (prefix_range width b).2.
Proof.
  unfold aligned, prefix_range. rewrite !andb_true_iff, N.leb_le, N.ltb_lt, N.eqb_eq. intros [[Hp Hb] Hm] Hip.
  rewrite addr_in_range by done. cbn [fst snd]. by rewrite andb_true_iff, !N.leb_le.
Qed.

Lemma blocked_ranges width l ip : forallb (aligned width) l = true -> ip < 2 ^ width ->
  existsb (fun b => addr_in width ip b.1 b.2) l = true <-> in_ranges (prefix_range width <$> l) ip.
Proof.
  intros Hall Hip. rewrite forallb_forall in Hall. rewrite existsb_exists. unfold in_ranges. split.
  - intros (b & Hb & Hin). exists (prefix_range width b). split; [by apply list_elem_of_fmap_2, list_elem_of_In|].
    by apply aligned_in; [apply Hall| |].
  - intros (r & (b & -> & Hb%list_elem_of_In)%list_elem_of_fmap & Hin). exists b. split; [done|].
    by apply aligned_in; [apply Hall| |].
Qed.

Lemma reserved_v4_table : prefix_range 32 <$> blocked_v4 = reserved_v4.
Proof. vm_compute. reflexivity. Qed.

Lemma reserved_v6_table : prefix_range 128 <$> blocked_v6 = reserved_v6.
Proof. vm_compute. reflexivity. Qed.

Lemma is_public_v4_exact ip : ip < 2 ^ 32 -> is_public_v4 ip = true <-> ~ in_ranges reserved_v4 ip.
Proof.
  intros Hip. unfold is_public_v4. rewrite negb_true_iff, <- not_true_iff_false. unfold v4_in.
  rewrite (blocked_ranges 32 blocked_v4 ip ltac:(vm_compute; reflexivity) Hip). by rewrite reserved_v4_table.
Qed.

Lemma is_public_v6_exact ip : ip < 2 ^ 128 -> is_public_v6 ip = true <-> public_v6 ip.
Proof.
  intros Hip. unfold is_public_v6, public_v6. rewrite andb_true_iff, negb_true_iff, <- not_true_iff_false. unfold v6_in.
  rewrite (blocked_ranges 128 blocked_v6 ip ltac:(vm_compute; reflexivity) Hip), reserved_v6_table.
  rewrite (aligned_in 128 ip (groups2 0x2000 0, 3) ltac:(vm_compute; reflexivity) Hip).
  assert (prefix_range 128 (groups2 0x2000 0, 3) = global_v6) as -> by (vm_compute; reflexivity). done.
Qed.

Lemma mapped_exact ip : to_ipv4_mapped ip =
  if (0xffff * 2 ^ 32 <=? ip) && (ip <? 0x10000 * 2 ^ 32) then Some (ip mod 2 ^ 32) else None.
Proof.
  unfold to_ipv4_mapped. rewrite N.shiftr_div_pow2, N.land_ones. set (d := 2 ^ 32).
  pose proof (N.div_mod' ip d) as Hdiv. pose proof (N.mod_lt ip d ltac:(done)) as Hlt.
  destruct (N.eqb_spec (ip / d) 0xffff) as [Heq|Hne].
  - rewrite Heq in Hdiv. destruct (N.leb_spec (0xffff * d) ip), (N.ltb_spec ip (0x10000 * d)); cbn; try done;
      exfalso; set (r := ip mod d) in *; clearbody d r; lia.
  - destruct (N.leb_spec (0xffff * d) ip), (N.ltb_spec ip (0x10000 * d)); cbn; try done.
    exfalso. apply Hne. assert (0 < d) by done. set (q := ip / d) in *. set (r := ip mod d) in *. clearbody d q r. nia.
Qed.

Lemma public_callback_ip_exact ip : address_ok ip -> is_public_callback_ip ip = true <-> public_address ip.
Proof.
  destruct ip as [ip|ip]; intros Hip; cbn [address_ok is_public_callback_ip public_address] in *.
  - by apply is_public_v4_exact.
  - rewrite mapped_exact. destruct (_ && _); [|by apply is_public_v6_exact].
    apply is_public_v4_exact. by apply N.mod_lt.
Qed.

(** ** Resolution *)

Definition unmapped (ip : IpAddr) : Prop := normalized_ip ip = ip.

Lemma normalized_unmapped ip : unmapped (normalized_ip ip).
Proof. unfold unmapped, normalized_ip. destruct ip as [ip|ip]; [done|]. by destruct (to_ipv4_mapped ip) eqn:Hm; cbn; [|rewrite Hm]. Qed.

Lemma normalized_public ip : address_ok ip -> public_address ip -> public_address (normalized_ip ip) /\ address_ok (normalized_ip ip).
Proof.
  destruct ip as [ip|ip]; [done|]. unfold normalized_ip, public_address, address_ok. rewrite mapped_exact.
  destruct (_ && _) eqn:Hm; cbn [from_option].
  - intros _ Hp. split; [done|]. by apply N.mod_lt.
  - rewrite Hm. done.
Qed.

Lemma push_unique_elem unique answers x :
  x ∈ foldl push_unique unique answers <-> x ∈ unique \/ exists a, a ∈ answers /\ x = normalized_ip a.
Proof.
  revert unique. induction answers as [|a answers IH]; intros unique; cbn [foldl]; [set_solver|].
  rewrite IH. unfold push_unique. case_bool_decide; set_solver.
Qed.

Lemma push_unique_head unique answers x : head unique = Some x -> head (foldl push_unique unique answers) = Some x.
Proof.
  revert unique. induction answers as [|a answers IH]; intros unique Hx; cbn [foldl]; [done|].
  apply IH. unfold push_unique. case_bool_decide; [done|]. by destruct unique.
Qed.

Lemma validated_head a answers : head (foldl push_unique [] (a :: answers)) = Some (normalized_ip a).
Proof. cbn [foldl]. apply push_unique_head. unfold push_unique. by rewrite bool_decide_eq_false_2 by set_solver. Qed.

(** In a transport that does not pin test servers, an attempt connects to the port of
    its URL at the first address the resolver gave, in IPv4 form if it is a mapped
    one; this and every other address of the answer are public, and no answer makes
    it panic. *)
Theorem callback_pins_public t resolve target :
  test_loopback_pinning t = false ->
  (forall answers, resolve (target_host target) = Some (Ok answers) -> Forall address_ok answers) ->
  resolve_attempt t resolve target <> Err Panicked /\
  forall ip port, resolve_attempt t resolve target = Ok (ip, port) ->
    port = target_port target /\ public_address ip /\ unmapped ip /\
    exists answers, resolve (target_host target) = Some (Ok (answers)) /\ Forall public_address answers /\
      (len answers <= max_answers t) /\ normalized_ip <$> head answers = Some ip.
Proof.
  intros Hprod Hwidth. unfold resolve_attempt. rewrite Hprod. cbn [andb].
  destruct (resolve (target_host target)) as [[answers|e]|]; cbn [map_err mbind result_bind]; [|by split..].
  specialize (Hwidth answers eq_refl). unfold validate_dns_answers. destruct (fail_if _ _) as [|e] eqn:Hchecks; [|by split].
  apply fail_if_Ok in Hchecks. rewrite existsb_negb, !orb_false_iff, negb_false_iff in Hchecks.
  destruct Hchecks as [[[Hne%bool_decide_eq_false Hmax] _] Hpub]. apply N.ltb_ge in Hmax.
  assert (Forall public_address answers) as Hall.
  { rewrite forallb_forall in Hpub. rewrite Forall_forall in *. intros x Hx.
    apply public_callback_ip_exact; [by apply Hwidth|]. by apply Hpub, list_elem_of_In. }
  destruct answers as [|first answers]; [done|]. cbn [mbind result_bind map_err]. rewrite validated_head. cbn [ok_or mbind result_bind].
  split; [done|]. intros ip port [= <- <-]. inversion Hall; inversion Hwidth; subst.
  split_and!; [done|by apply normalized_public|apply normalized_unmapped|]. by exists (first :: answers).
Qed.
