(* ===== verification/Enrollments.v ===== *)
(** * Push policies

    A policy that is accepted has its enrollments one for one, each identity and each
    destination once in a tenant, and looks them up exactly. *)

From S2P Require Import Prelude Text Scanner Callback Destinations.

Local Open Scope N_scope.

Section enrollments.
Context `{UrlParser}.

(** What is kept of an enrollment *)
Definition enrolls (r : RawEnrollment) (e : PushEnrollment) : Prop :=
  enr_tenant e = raw_tenant r /\ enr_endpoint_id e = raw_endpoint_id r /\ enr_key_generation e = raw_key_generation r /\
  enr_secret_file e = raw_secret_file r /\ enr_ca_file e = raw_ca_file r /\
  (enr_mtls_cert_file e, enr_mtls_key_file e) = (raw_mtls_cert_file r, raw_mtls_key_file r) /\
  canonical (enr_url e) = raw_url r /\ parse (raw_url r) = Ok (enr_url e).

Definition identity_of (e : PushEnrollment) : string * string := (enr_tenant e, enr_endpoint_id e).
Definition destination_of (e : PushEnrollment) : string * CanonicalCallbackUrl := (enr_tenant e, enr_url e).

Record enrolled (raws : list RawEnrollment) (accepted : list PushEnrollment) : Prop := {
  enrolled_all : Forall2 enrolls raws accepted;
  enrolled_identities : NoDup (identity_of <$> accepted);
  enrolled_destinations : NoDup (destination_of <$> accepted) }.

Lemma fresh_pair {A B C} `{EqDecision B, EqDecision C} (f : A -> B) (g : A -> C) l t v :
  existsb (fun x => bool_decide (f x = t) && bool_decide (g x = v)) l = false -> (t, v) ∉ (fun x => (f x, g x)) <$> l.
Proof.
  intros Hfresh (x & [= -> ->] & Hx%list_elem_of_In)%list_elem_of_fmap. apply not_true_iff_false in Hfresh. apply Hfresh.
  apply existsb_exists. exists x. by rewrite !bool_decide_eq_true_2.
Qed.

Lemma NoDup_snoc {A} (l : list A) x : NoDup l -> x ∉ l -> NoDup (l ++ [x]).
Proof. intros Hl Hx. apply NoDup_app. split_and!; [done|set_solver|apply NoDup_singleton]. Qed.

Lemma enroll_enrolled raws accepted r accepted' :
  enrolled raws accepted -> enroll accepted r = Ok accepted' -> enrolled (raws ++ [r]) accepted'.
Proof.
  intros [Hall Hids Hdests] Hok. unfold enroll in Hok. inv_ok.
  match goal with H : parse _ = Ok ?u |- _ => pose proof (url_text _ _ (parse_Ok _ _ _ H)) as Htext end.
  split; [apply Forall2_app; [done|repeat constructor; done]|..]; rewrite fmap_app; apply NoDup_snoc; try done;
    by apply fresh_pair.
Qed.

Lemma validated_enrolled raw policy : validate_raw_policy raw = Ok policy ->
  bounds policy = raw_bounds raw /\ bounds_ok (bounds policy) = true /\ enrolled (raw_enrollments raw) (enrollments policy).
Proof.
  unfold validate_raw_policy. intros Hok. inv_ok. split_and!; [done..|].
  eapply try_fold_ind; [|intros pre r acc acc' Hacc _; by apply enroll_enrolled|done]. by repeat constructor.
Qed.

Lemma enrolled_find raws accepted e : enrolled raws accepted -> e ∈ accepted ->
  snd <$> list_find (fun x => enr_tenant x = enr_tenant e /\ enr_endpoint_id x = enr_endpoint_id e /\ enr_url x = enr_url e)
    accepted = Some e.
Proof.
  intros [_ Hids _] He. destruct (list_find _ accepted) as [[i x]|] eqn:Hf.
  - apply list_find_Some in Hf as (Hi & (Ht & Hp & Hu) & _). cbn. f_equal.
    apply list_elem_of_lookup in He as [j Hj]. assert (i = j) as <-; [|congruence].
    apply (NoDup_lookup _ _ _ (identity_of e) Hids); rewrite list_lookup_fmap; [rewrite Hi|by rewrite Hj].
    cbn. unfold identity_of. by rewrite Ht, Hp.
  - apply list_find_None in Hf. rewrite Forall_forall in Hf. by destruct (Hf e He).
Qed.

Lemma retry_bounds policy : bounds_ok (bounds policy) = true ->
  (1 <= base_retry_ms (bounds policy) <= max_retry_ms (bounds policy)) /\
  (max_retry_ms (bounds policy) <= 3600000) /\ (max_retry_ms (bounds policy) <= max_delivery_age_ms (bounds policy)) /\
  (1 <= push_max_attempts (bounds policy) <= 32).
Proof.
  unfold bounds_ok, between. rewrite !andb_true_iff, !N.leb_le, !negb_true_iff, !N.eqb_neq. lia.
Qed.

Lemma retry_policy_Ok policy : bounds_ok (bounds policy) = true -> retry_policy policy = Ok {|
  max_attempts := push_max_attempts (bounds policy); base_ms := base_retry_ms (bounds policy);
  max_ms := max_retry_ms (bounds policy); max_age_ms := max_delivery_age_ms (bounds policy) |}.
Proof.
  intros Hbounds. pose proof (retry_bounds policy Hbounds) as (? & ? & ? & ?). unfold retry_policy, retry_policy_new.
  rewrite (proj2 (N.eqb_neq _ _)), (proj2 (N.ltb_ge _ _)), (proj2 (N.eqb_neq _ _)), (proj2 (N.ltb_ge _ _)),
    (proj2 (N.ltb_ge _ _)) by lia. done.
Qed.

(** An accepted policy keeps the bounds and every enrollment of the document, in
    order, with its canonical URL; within a tenant each endpoint and each URL occurs
    once; its retry policy exists; and a lookup answers exactly the enrollment of
    that tenant and endpoint whose URL is the given text. *)
Theorem push_policy_sound raw policy : validate_raw_policy raw = Ok policy ->
  bounds policy = raw_bounds raw /\ enrolled (raw_enrollments raw) (enrollments policy) /\
  (exists retry, retry_policy policy = Ok retry) /\
  forall tenant endpoint url e, enrollment policy tenant endpoint url = Ok e <->
    e ∈ enrollments policy /\ (enr_tenant e, enr_endpoint_id e, canonical (enr_url e)) = (tenant, endpoint, url).
Proof.
  intros (Hbounds & Hok & Henr)%validated_enrolled. split_and!; [done..|by eexists; apply retry_policy_Ok|].
  intros tenant endpoint url e. unfold enrollment. split.
  - intros Hf. destruct (parse url) as [u|] eqn:Hu; [|done]. cbn [mbind result_bind] in Hf. apply ok_or_Ok in Hf.
    destruct (list_find _ _) as [[i x]|] eqn:Hx; [|done]. injection Hf as <-.
    apply list_find_Some in Hx as (Hi & (<- & <- & <-) & _). split; [by eapply list_elem_of_lookup_2|].
    by rewrite (url_text _ _ (parse_Ok _ _ _ Hu)).
  - intros [He [= <- <- <-]]. pose proof (enrolled_all _ _ Henr) as Hall.
    apply list_elem_of_lookup in He as Hi. destruct Hi as [i Hi].
    destruct (Forall2_lookup_r _ _ _ _ _ Hall Hi) as (r & _ & Hr). destruct Hr as (_ & _ & _ & _ & _ & _ & Htext & Hparse).
    rewrite Htext, Hparse. cbn [mbind result_bind]. by rewrite (enrolled_find _ _ _ Henr He).
Qed.
End enrollments.
