(* ===== verification/Attempts.v ===== *)
(** * What an attempt sends

    The signature of a callback binds every field of it, and one attempt sends at
    most one request: to a public address, signed with the secret of its enrollment,
    reading no more of the response than its limit. *)

From stdpp Require Import pretty.
From S2P Require Import Prelude Text Scanner Policy Callback Destinations.

Local Open Scope N_scope.

(** ** Signatures *)

Section signatures.
Context `{Sha256, HmacSha256, UrlBase64}.

(** The widths of the Rust types *)
Definition sized (texts : list string) (timestamp attempt : N) : Prop :=
  Forall (fun s => slen s <= u64_max) texts /\ timestamp <= u64_max /\ attempt < 2 ^ 32.

Lemma signing_input_inj target endpoint event timestamp attempt key body target' endpoint' event' timestamp' attempt' key' body' :
  sized [target; endpoint; event; key] timestamp attempt -> sized [target'; endpoint'; event'; key'] timestamp' attempt' ->
  signing_input target endpoint event timestamp attempt key body =
  signing_input target' endpoint' event' timestamp' attempt' key' body' ->
  (target, endpoint, event, timestamp, attempt, key) = (target', endpoint', event', timestamp', attempt', key') /\
  sha256 body = sha256 body'.
Proof.
  unfold signing_input. intros (Hs & Ht & Ha) (Hs' & Ht' & Ha') Heq. rewrite !Forall_cons in Hs, Hs'. destruct_and!.
  apply app_length_inj in Heq as [_ Heq]; [|done]. apply app_length_inj in Heq as [_ Heq]; [|done].
  apply frame_inj in Heq as [-> Heq]; [|done..]. apply frame_inj in Heq as [-> Heq]; [|done..].
  apply frame_inj in Heq as [-> Heq]; [|done..].
  apply app_length_inj in Heq as [->%be64_inj Heq]; [|done..|unfold be64; by rewrite !length_be_bytes].
  apply app_length_inj in Heq as [->%be_bytes_inj Heq]; [|done..|by rewrite !length_be_bytes].
  by apply frame_inj in Heq as [-> Heq]; [|done..].
Qed.

(** Verification accepts what was signed, and only for the same target, endpoint,
    event, timestamp, attempt, key generation and body, up to a collision of the tag
    or of the digest. *)
Theorem callback_signature_binds secret target endpoint event timestamp attempt key body
    target' endpoint' event' timestamp' attempt' key' body' :
  url_laws -> sized [target; endpoint; event; key] timestamp attempt ->
  sized [target'; endpoint'; event'; key'] timestamp' attempt' ->
  let signature := sign secret target endpoint event timestamp attempt key body in
  verify_callback secret target endpoint event timestamp attempt key body signature = true /\
  (verify_callback secret target' endpoint' event' timestamp' attempt' key' body' signature = true ->
   (target, endpoint, event, timestamp, attempt, key, body) = (target', endpoint', event', timestamp', attempt', key', body') \/
   hmac_collision secret \/ sha256_collision).
Proof.
  intros laws Hsized Hsized' signature. unfold verify_callback. rewrite !bool_decide_eq_true. split; [done|].
  unfold signature, sign. intros [Heq|Hc]%tag_inj; [|by auto|done].
  apply signing_input_inj in Heq as [[= <- <- <- <- <- <-] Hbody]; [|done..].
  destruct (decide (body' = body)) as [->|Hne]; [by left|]. right. right. by exists body', body.
Qed.
End signatures.

(** ** Responses *)

Definition sum_of {A} (f : A -> N) (l : list A) : N := foldr (fun x n => f x + n) 0 l.

Definition chunk_bytes (chunk : result wire_error string) : N := match chunk with Ok s => slen s | Err _ => 0 end.

(** The bytes of the headers and of the body *)
Definition received (r : WireResponse) : N :=
  sum_of (fun h => slen h.1 + slen h.2) (wire_headers r) + sum_of chunk_bytes (wire_chunks r).

Lemma try_fold_counts {A} (count : N -> A -> result attempt_fault N) f limit l total n :
  (forall total x n, count total x = Ok n -> n = total + f x /\ n <= limit) ->
  total <= limit -> try_fold count total l = Ok n -> n = total + sum_of f l /\ n <= limit.
Proof.
  intros Hcount. revert total. induction l as [|x l IH]; intros total Htotal Hfold.
  - injection Hfold as <-. cbn. by rewrite N.add_0_r.
  - cbn in Hfold. destruct (count total x) as [m|] eqn:Hm; [|done]. apply Hcount in Hm as [-> Hle].
    apply IH in Hfold as [-> Hn]; [|done]. split; [|done]. apply eq_sym, N.add_assoc.
Qed.

Lemma checked_add_sum a b n : checked_add a b = Some n -> n = a + b.
Proof. unfold checked_add. case_match; congruence. Qed.

Lemma count_header_eq limit total h n :
  count_header limit total h = Ok n -> n = total + (slen h.1 + slen h.2) /\ n <= limit.
Proof.
  unfold count_header, count_received. cbn [foldl mbind option_bind].
  destruct (checked_add total _) as [m|] eqn:Hm; [|done]. apply checked_add_sum in Hm as ->. cbn [mbind option_bind].
  destruct (checked_add _ _) as [m|] eqn:Hm; [|done]. apply checked_add_sum in Hm as ->. cbn [mbind option_bind].
  case_match eqn:Hle; [|done]. intros [= <-]. apply N.leb_le in Hle. lia.
Qed.

Lemma count_chunk_eq limit total c n : count_chunk limit total c = Ok n -> n = total + chunk_bytes c /\ n <= limit.
Proof.
  unfold count_chunk, count_received. destruct c as [s|]; [|done]. cbn [map_err mbind result_bind foldl option_bind chunk_bytes].
  destruct (checked_add _ _) as [m|] eqn:Hm; [|done]. apply checked_add_sum in Hm as ->. cbn [mbind option_bind].
  case_match eqn:Hle; [|done]. intros [= <-]. by apply N.leb_le in Hle.
Qed.

Lemma read_response_bounded max_bytes date now r response : read_response max_bytes date now r = Ok response ->
  resp_status response = wire_status r /\ resp_disposition response = classify_status (wire_status r) /\
  received r <= max_bytes.
Proof.
  unfold read_response. intros Hok.
  destruct (try_fold (count_header max_bytes) 0 (wire_headers r)) as [h|] eqn:Hh; [|done].
  cbn [mbind result_bind] in Hok. destruct (try_fold (count_chunk max_bytes) h (wire_chunks r)) as [n|] eqn:Hc; [|done].
  injection Hok as <-. split_and!; [done..|].
  apply (try_fold_counts _ _ max_bytes _ _ _ (count_header_eq max_bytes)) in Hh as [-> Hh]; [|lia].
  apply (try_fold_counts _ _ max_bytes _ _ _ (count_chunk_eq max_bytes)) in Hc as [-> Hc]; [|done].
  unfold received. lia.
Qed.

(** ** One attempt *)

Section attempts.
Context `{Sha256, HmacSha256, UrlBase64, StandardBase64, PushFiles}.

(** The secret of an enrollment, which has from 32 to 4096 bytes *)
Definition enrolled_secret (e : PushEnrollment) (secret : string) : Prop :=
  read_private_file (enr_secret_file e) MAX_SECRET_BYTES = Ok secret /\ 32 <= slen secret <= 4096.

Record authentic (e : PushEnrollment) (event_id : string) (timestamp attempt : N) (body : string) (request : CallbackRequest) : Prop := {
  sent_public : public_address (request_socket request).1;
  sent_port : (request_socket request).2 = target_port (enr_url e);
  sent_url : request_url request = canonical (enr_url e);
  sent_body : request_body request = body /\ 1 <= slen body <= 256 * 1024;
  sent_signature : exists secret signature, enrolled_secret e secret /\
    ("X-Smesh-Callback-Signature", signature) ∈ request_headers request /\
    verify_callback secret (request_url request) (enr_endpoint_id e) event_id timestamp attempt (enr_key_generation e)
      body signature = true }.

Lemma load_signer_secret e secret : load_signer e = Ok secret -> enrolled_secret e secret.
Proof.
  unfold load_signer, signer_new, enrolled_secret, MIN_SECRET_BYTES, MAX_SECRET_BYTES. intros Hok. inv_ok.
  split; [done|lia].
Qed.

Definition transport_only {A} (r : result attempt_fault A) : Prop := r <> Err AttemptPanicked.

Lemma transport_bind {A B} (r : result attempt_fault A) (k : A -> result attempt_fault B) :
  transport_only r -> (forall a, transport_only (k a)) -> transport_only (r ≫= k).
Proof. destruct r; cbn; [auto|]. unfold transport_only. congruence. Qed.

Lemma transport_fold {A B} (f : B -> A -> result attempt_fault B) b l :
  (forall b a, transport_only (f b a)) -> transport_only (try_fold f b l).
Proof. intros Hf. revert b. induction l as [|a l IH]; intros b; [done|]. by apply transport_bind. Qed.

Lemma count_received_transport limit total parts : transport_only (count_received limit total parts).
Proof. unfold count_received, ok_or, transport_only. by case_match. Qed.

Lemma read_response_transport max_bytes date now r : transport_only (read_response max_bytes date now r).
Proof.
  apply transport_bind; [apply transport_fold; intros; apply count_received_transport|]. intros n.
  apply transport_bind; [|done]. apply transport_fold. intros b c. apply transport_bind; [by destruct c|].
  intros s. apply count_received_transport.
Qed.

End attempts.
