(* ===== verification/Delivery.v ===== *)
(** * Callback deliveries

    [callback_worker.rs] over the types of [callback_authority.rs]: the accounting of
    a request, and the worker that takes one leased delivery from the authority to
    its end.  What the authority, the quota, the sender, the clock and the stop
    signal answer may depend on everything that happened before: an [Environment]
    gives each answer from the history of calls, and the worker extends it. *)

From stdpp Require Import pretty.
From S2P Require Import Prelude Text Protocol Policy Quota Scanner Callback.

(** ** Data *)

Definition max_i64 : Z := 9223372036854775807.
Definition min_i64 : Z := -9223372036854775808.
Definition saturating_i64 (z : Z) : Z := Z.max min_i64 (Z.min z max_i64).

Definition valid_callback_id (value : string) : bool :=
  negb (bool_decide (value = "")) && (slen value <=? 128)%N && is_ascii value
  && str_all (fun c => is_ascii_alphanumeric c || byte_in "-_.:" c) value.

Definition valid_callback_digest : string -> bool := push_digest_ok.

Definition lease_duration_new (value : Z) : result A2AError Z :=
  fail_if (negb ((1000 <=? value)%Z && (value <=? 300000)%Z)) (invalid_request "invalid callback lease duration");;
  Ok value.

Record DeliveryFence := {
  fence_tenant_scope : string; fence_event_id : string; fence_config_id : string; lease_owner : string;
  lease_token : string; lease_epoch : N }.

Definition fence_ok (f : DeliveryFence) : bool :=
  valid_callback_id (fence_tenant_scope f) && valid_callback_id (fence_event_id f)
  && valid_callback_id (fence_config_id f) && valid_callback_id (lease_owner f)
  && negb (bool_decide (lease_token f = "")) && (slen (lease_token f) <=? 128)%N && is_ascii (lease_token f)
  && negb (lease_epoch f =? 0)%N.

Definition fence_new (f : DeliveryFence) : result A2AError DeliveryFence :=
  fail_if (negb (fence_ok f)) (invalid_request "invalid callback delivery fence");; Ok f.

Record DeliveryClaimCommand := { claim_owner : string; claim_duration : Z; batch_limit : N }.

Definition claim_new (owner : string) (duration : Z) (limit : N) : result A2AError DeliveryClaimCommand :=
  fail_if (negb (valid_callback_id owner) || negb (between 1 1000 limit))
    (invalid_request "invalid callback claim command");;
  Ok {| claim_owner := owner; claim_duration := duration; batch_limit := limit |}.

Record CallbackLease := {
  fence : DeliveryFence; lease_task_id : string; lease_config_id : string; lease_canonical_url : string;
  enrollment_id : string; enrollment_generation : N; payload : string; payload_digest : string;
  lease_attempt : N; created_at : Z; expires_at : Z; lease_expires_at : Z; owner_account_id : string;
  lease_principal_scope : string }.

Definition lease_ok (l : CallbackLease) : bool :=
  valid_callback_id (lease_task_id l) && valid_callback_id (lease_config_id l) && valid_callback_id (enrollment_id l)
  && negb (enrollment_generation l =? 0)%N && negb (bool_decide (lease_canonical_url l = ""))
  && (slen (lease_canonical_url l) <=? 2048)%N && negb (bool_decide (payload l = ""))
  && (slen (payload l) <=? 256 * 1024)%N && valid_callback_digest (payload_digest l)
  && between 1 32 (lease_attempt l) && (0 <? created_at l)%Z && (created_at l <=? expires_at l)%Z
  && (0 <? lease_expires_at l)%Z && valid_callback_id (owner_account_id l)
  && negb (bool_decide (lease_principal_scope l = "")) && (slen (lease_principal_scope l) <=? 256)%N
  && is_ascii (lease_principal_scope l).

Definition new_authoritative (l : CallbackLease) : result A2AError CallbackLease :=
  fail_if (negb (lease_ok l)) (invalid_request "invalid callback lease");; Ok l.

Inductive CallbackDeliveryState :=
  | StatePending | StateLeased | StateDelivered | StateRetry | StateDead | StateCanceled.
Inductive CallbackDeliveryDisposition := FailRetry | FailDead.
Inductive CallbackDeliveryCategory :=
  | CatTransport | CatDns | CatTls | CatTimeout | CatHttp | CatPolicy | CatPayload.

Record CallbackFailCommand := {
  failed_fence : DeliveryFence; disposition : CallbackDeliveryDisposition; category : CallbackDeliveryCategory;
  error_digest : string; retry_at : option Z }.

Definition fail_command_new (c : CallbackFailCommand) : result A2AError CallbackFailCommand :=
  let retries := match disposition c with FailRetry => true | FailDead => false end in
  fail_if (negb (valid_callback_digest (error_digest c)) || negb (Bool.eqb retries (is_some (retry_at c)))
           || is_some_and (retry_at c) (fun t => (t <=? 0)%Z)) (invalid_request "invalid callback failure command");;
  Ok c.

Inductive CallbackQuotaDecision := Reserved | Exhausted (retry_after_millis : N) | QuotaUnavailable.

(** ** Accounting *)

Definition crlf : string := String (Ascii.ascii_of_N 13) (String newline "").

Definition add_header (total : N) (header : string * N) : option N :=
  checked_add total (slen header.1 + 2 + header.2 + 2)%N.

Section accounting.
Context `{UrlParser}.

Definition callback_request_accounted_bytes (target endpoint_id event_id : string) (timestamp attempt : N)
    (key_generation : string) (payload_bytes : N) : option N :=
  url ← url_parse target;
  host ← url_host_str url;
  port ← url_port_or_known_default url;
  let authority := host +:+ ":" +:+ pretty port in
  let digest_value_len := (slen "sha-256=::" + 44)%N in
  let signature_len := (slen "v1,hmac-sha256=" + 43)%N in
  let start := slen ("POST " +:+ url_path url +:+ " HTTP/1.1" +:+ crlf) in
  total ← foldl (fun total header => t ← total; add_header t header) (Some start)
    [("host", slen authority);
     ("content-type", slen "application/a2a+json");
     ("content-digest", digest_value_len);
     ("x-smesh-callback-version", 1%N);
     ("x-smesh-callback-event-id", slen event_id);
     ("x-smesh-callback-endpoint-id", slen endpoint_id);
     ("x-smesh-callback-timestamp", slen (pretty timestamp));
     ("x-smesh-callback-attempt", slen (pretty attempt));
     ("x-smesh-callback-key-generation", slen key_generation);
     ("x-smesh-callback-signature", signature_len);
     ("idempotency-key", slen event_id);
     ("content-length", slen (pretty payload_bytes))];
  t ← checked_add total 2;
  checked_add t payload_bytes.
End accounting.

(** ** Quota *)

Definition QUOTA_EXCEEDED : Z := -32010.

Section egress.
Context `{Sha256}.

Definition callback_quota_semantic_id (event_id config_id : string) (attempt : N) : string :=
  let digest := content_digest ("callback-delivery/v1" +:+ nul +:+ event_id +:+ nul +:+ config_id +:+ nul +:+ pretty attempt) in
  "callback-quota-" +:+ String.substring 7 32 digest.

(** [charge] is the charge of the database. *)
Definition reserve_public_egress (policy : QuotaPolicy) (charge : QuotaIntent -> Z -> result A2AError unit)
    (lease : CallbackLease) (exact_bytes : N) (now : Z) : CallbackQuotaDecision :=
  match new_subject (fence_tenant_scope (fence lease)) (owner_account_id lease) (lease_principal_scope lease) with
  | Err _ => QuotaUnavailable
  | Ok subject =>
      let semantic_id :=
        callback_quota_semantic_id (fence_event_id (fence lease)) (lease_config_id lease) (lease_attempt lease) in
      match egress_intent policy subject semantic_id exact_bytes 1 with
      | Err _ => QuotaUnavailable
      | Ok intent =>
          match charge intent now with
          | Ok _ => Reserved
          | Err error => if (err_code error =? QUOTA_EXCEEDED)%Z then Exhausted 1000 else QuotaUnavailable
          end
      end
  end.
End egress.

(** ** The environment *)

Inductive event :=
  | Revoked (f : DeliveryFence)
  | Renewed (f : DeliveryFence) (duration : Z) (answer : result A2AError (option Z))
  | ReservedEgress (bytes : N) (now : Z) (answer : CallbackQuotaDecision)
  | FenceValidated (f : DeliveryFence) (duration : Z) (answer : result A2AError bool)
  | SendStarted (e : PushEnrollment) (timestamp : N)
  | SendEnded (answer : result CallbackTransportError CallbackResponse)
  | SendDropped
  | Committed (f : DeliveryFence) (answer : result A2AError bool)
  | TimeRead (answer : result A2AError Z)
  | Sampled (sample : N)
  | FailureRecorded (c : CallbackFailCommand) (answer : result A2AError CallbackDeliveryState)
  | Claimed (c : DeliveryClaimCommand) (answer : result A2AError (list CallbackLease))
  | MarkedReady
  | MarkedFatal.

Abbreviation event_log := (list event).

(** What ends the wait of the select loop first *)
Inductive wake := SendReady (r : result CallbackTransportError CallbackResponse) | StopRequested | RenewDue.

Class Environment := {
  env_renew : event_log -> DeliveryFence -> Z -> result A2AError (option Z);
  env_reserve : event_log -> CallbackLease -> N -> Z -> CallbackQuotaDecision;
  env_validate : event_log -> DeliveryFence -> Z -> result A2AError bool;
  env_poll : event_log -> wake;
  env_commit : event_log -> DeliveryFence -> result A2AError bool;
  env_time : event_log -> result A2AError Z;
  env_sample : event_log -> N;
  env_fail : event_log -> CallbackFailCommand -> result A2AError CallbackDeliveryState;
  env_claim : event_log -> DeliveryClaimCommand -> result A2AError (list CallbackLease);
  env_stopped : event_log -> bool }.

(** The worker waits for its sender, or its task has panicked. *)
Inductive stalled := StillSending | TaskPanicked.

Abbreviation call A := (action event_log stalled A).

(** A call: its answer, recorded *)
Definition ask {A} (answer : event_log -> A) (record : A -> event) : call A := fun h =>
  let a := answer h in (h ++ [record a], Ok a).

Definition note (e : event) : call unit := fun h => (h ++ [e], Ok tt).

(** ** One delivery *)

Section worker.
Context `{Sha256, UrlParser, Environment}.
Context (policy : PushPolicy).

Definition transport_category (error : CallbackTransportError) : CallbackDeliveryCategory * bool :=
  match error with
  | DnsUnsafe => (CatDns, true)
  | TransportDnsUnavailable => (CatDns, false)
  | Tls => (CatTls, true)
  | Configuration => (CatPolicy, true)
  | Timeout => (CatTimeout, false)
  | Connect | Reset => (CatTransport, false)
  | ResponseTooLarge => (CatHttp, true)
  end.

Definition category_label (c : CallbackDeliveryCategory) : string :=
  match c with
  | CatTransport => "transport" | CatDns => "dns" | CatTls => "tls" | CatTimeout => "timeout"
  | CatHttp => "http" | CatPolicy => "policy" | CatPayload => "payload"
  end.

Definition failure_digest (c : CallbackDeliveryCategory) : string :=
  sha256_tag (sha256 ("smesh-callback-failure/v1:" +:+ category_label c)).

Definition renew (f : DeliveryFence) (duration : Z) : call (result A2AError (option Z)) :=
  ask (fun h => env_renew h f duration) (Renewed f duration).

Definition fail_delivery (lease : CallbackLease) (d : CallbackDeliveryDisposition) (c : CallbackDeliveryCategory)
    (at_ : option Z) : call unit :=
  match fail_command_new {| failed_fence := fence lease; disposition := d; category := c;
                            error_digest := failure_digest c; retry_at := at_ |} with
  | Ok command => ask (fun h => env_fail h command) (FailureRecorded command);; mret tt
  | Err _ => mret tt
  end.

Definition retry_or_dead_at (lease : CallbackLease) (c : CallbackDeliveryCategory) (requested : option N) (now : Z) :
    call unit :=
  match retry_policy policy with
  | Err _ => pure_ (Err TaskPanicked)
  | Ok retry =>
      let next_attempt := N.min (lease_attempt lease + 1) 65535 in
      if (push_max_attempts (bounds policy) <? next_attempt)%N then fail_delivery lease FailDead c None
      else
        sample ← ask env_sample Sampled;
        match clamp_delay_ms retry requested next_attempt sample with
        | None => fail_delivery lease FailDead c None
        | Some delay =>
            let retry_at := saturating_i64 (now + Z.min (Z.of_N delay) max_i64) in
            if (expires_at lease <=? retry_at)%Z then fail_delivery lease FailDead c None
            else fail_delivery lease FailRetry c (Some retry_at)
        end
  end.

Definition retry_or_dead (lease : CallbackLease) (c : CallbackDeliveryCategory) (requested : option N) : call unit :=
  now ← ask env_time TimeRead;
  match now with
  | Ok now => retry_or_dead_at lease c requested now
  | Err _ => mret tt
  end.

(** The select loop, with fuel for its turns *)
Fixpoint wait (fuel : nat) (f : DeliveryFence) (duration : Z) :
    call (option (result CallbackTransportError CallbackResponse)) :=
  match fuel with
  | O => pure_ (Err StillSending)
  | S fuel => fun h =>
      match env_poll h with
      | SendReady r => (note (SendEnded r);; mret (Some r)) h
      | StopRequested => (note SendDropped;; mret None) h
      | RenewDue =>
          (answer ← renew f duration;
           match answer with
           | Ok (Some _) => wait fuel f duration
           | _ => note SendDropped;; mret None
           end) h
      end
  end.

Definition settle (lease : CallbackLease) (outcome : option (result CallbackTransportError CallbackResponse)) :
    call unit :=
  match outcome with
  | Some (Ok response) =>
      match resp_disposition response with
      | Delivered => ask (fun h => env_commit h (fence lease)) (Committed (fence lease));; mret tt
      | Retry => retry_or_dead lease CatHttp ((fun s => saturating_mul s 1000) <$> resp_retry_after response)
      | Permanent => fail_delivery lease FailDead CatHttp None
      end
  | Some (Err error) =>
      let '(c, permanent) := transport_category error in
      if permanent then fail_delivery lease FailDead c None else retry_or_dead lease c None
  | None => mret tt
  end.

(** [self.policy.enrollment(..)] for the lease; a panic ends the task. *)
Definition lease_enrollment (lease : CallbackLease) : call (option PushEnrollment) :=
  match enrollment policy (fence_tenant_scope (fence lease)) (enrollment_id lease) (lease_canonical_url lease) with
  | Ok e => mret (Some e)
  | Err Panicked => pure_ (Err TaskPanicked)
  | Err (Refused _) => mret None
  end.

Definition revoke (lease : CallbackLease) : call unit := note (Revoked (fence lease)).

Definition attempt_delivery (fuel : nat) (lease : CallbackLease) (duration : Z) (timestamp : N) : call unit :=
  again ← lease_enrollment lease;
  match again with
  | None => revoke lease
  | Some e =>
      valid ← ask (fun h => env_validate h (fence lease) duration) (FenceValidated (fence lease) duration);
      match valid with
      | Ok true =>
          note (SendStarted e timestamp);;
          outcome ← wait fuel (fence lease) duration;
          settle lease outcome
      | _ => mret tt
      end
  end.

Definition reserve_and_send (fuel : nat) (lease : CallbackLease) (duration : Z) (e : PushEnrollment) (now : Z) : call unit :=
  let timestamp := Z.to_N (Z.max now 0 / 1000) in
  match callback_request_accounted_bytes (lease_canonical_url lease) (enrollment_id lease) (fence_event_id (fence lease))
          timestamp (lease_attempt lease) (enr_key_generation e) (slen (payload lease)) with
  | None => fail_delivery lease FailDead CatPayload None
  | Some exact_bytes =>
      decision ← ask (fun h => env_reserve h lease exact_bytes now) (ReservedEgress exact_bytes now);
      match decision with
      | Exhausted ms => retry_or_dead_at lease CatPolicy (Some ms) now
      | QuotaUnavailable => retry_or_dead_at lease CatPolicy None now
      | Reserved => attempt_delivery fuel lease duration timestamp
      end
  end.

Definition process_delivery (fuel : nat) (lease : CallbackLease) (duration : Z) : call unit :=
  found ← lease_enrollment lease;
  match found with
  | None => revoke lease
  | Some e =>
      if negb ((lease_attempt lease <=? push_max_attempts (bounds policy))%N
               && (enrollment_generation lease =? push_policy_revision (bounds policy))%N)
         || negb (bool_decide (enr_endpoint_id e = enrollment_id lease))
      then revoke lease
      else if negb (bool_decide (content_digest (payload lease) = payload_digest lease))
      then fail_delivery lease FailDead CatPayload None
      else
        renewed ← renew (fence lease) duration;
        match renewed with
        | Ok (Some lease_until) =>
            let now := saturating_i64 (lease_until - duration) in
            if (expires_at lease <=? now)%Z then fail_delivery lease FailDead CatPolicy None
            else reserve_and_send fuel lease duration e now
        | _ => mret tt
        end
  end.

(** ** The loop of a worker *)

(** [false] once the stop signal is seen *)
Fixpoint process_each (fuel : nat) (duration : Z) (leases : list CallbackLease) : call bool :=
  match leases with
  | [] => mret true
  | lease :: leases => fun h =>
      if env_stopped h then (h, Ok false)
      else (_ ← process_delivery fuel lease duration; process_each fuel duration leases) h
  end.

(** [turns] bounds the turns of the loop; [errors] counts consecutive errors and
    [started] says whether the first cycle is complete. *)
Fixpoint worker_loop (turns fuel : nat) (claim : DeliveryClaimCommand) (errors : N) (started : bool) : call unit :=
  match turns with
  | O => mret tt
  | S turns => fun h =>
      if env_stopped h then (h, Ok tt)
      else
        (answer ← ask (fun h => env_claim h claim) (Claimed claim);
         match answer with
         | Ok leases =>
             (if started then mret tt else note MarkedReady);;
             on ← process_each fuel (claim_duration claim) leases;
             if (on : bool) then worker_loop turns fuel claim 0 true else mret tt
         | Err _ =>
             let errors := N.min (errors + 1) 255 in
             if (5 <=? errors)%N then note MarkedFatal else worker_loop turns fuel claim errors started
         end) h
  end.

Definition run_worker (turns fuel : nat) (owner : string) : call unit :=
  match (duration ← lease_duration_new (Z.of_N (claim_lease_ms (bounds policy)));
         claim_new owner duration (claim_batch (bounds policy))) with
  | Ok claim => worker_loop turns fuel claim 0 false
  | Err _ => note MarkedFatal
  end.
End worker.
