(* ===== verification/Accounting.v ===== *)
(** * What an attempt is charged

    The egress a delivery reserves is the size of the request line, of the headers of
    the request it then sends, of the host and content-length headers and of the
    body. *)

From stdpp Require Import pretty.
From S2P Require Import Prelude Text Protocol Policy Quota Scanner Callback Destinations Attempts Delivery.

Local Open Scope N_scope.

Section accounting.
Context `{Sha256, HmacSha256, UrlBase64, StandardBase64, UrlParser}.

(** Padded base64 of 32 bytes has 44 characters. *)
Definition base64_law : Prop := forall b, String.length b = 32%nat -> String.length (base64_encode b) = 44%nat.

Definition header_line (h : string * string) : string := h.1 +:+ ": " +:+ h.2 +:+ crlf.

(** The text of a request *)
Definition rendered (path : string) (headers : list (string * string)) (body : string) : string :=
  "POST " +:+ path +:+ " HTTP/1.1" +:+ crlf +:+ String.concat "" (header_line <$> headers) +:+ crlf +:+ body.

Lemma slen_concat l : slen (String.concat "" l) = sum_of slen l.
Proof.
  induction l as [|s [|t l] IH]; [done|cbn; by rewrite N.add_0_r|].
  change (String.concat "" (s :: t :: l)) with (s +:+ "" +:+ String.concat "" (t :: l)). rewrite !slen_app, IH. done.
Qed.

(** Checked additions give the sum when it fits. *)
Lemma checked_add_fits a b : a + b <= u64_max -> checked_add a b = Some (a + b).
Proof. intros Hle. unfold checked_add. by rewrite (proj2 (N.leb_le _ _)). Qed.

Lemma add_headers_fits l start : start + sum_of (fun h => slen h.1 + 2 + h.2 + 2) l <= u64_max ->
  foldl (fun total header => t ← total; add_header t header) (Some start) l =
  Some (start + sum_of (fun h => slen h.1 + 2 + h.2 + 2) l).
Proof.
  revert start. induction l as [|h l IH]; intros start Hle; [by rewrite N.add_0_r|].
  change (sum_of (fun h => slen h.1 + 2 + h.2 + 2) (h :: l)) with
    (slen h.1 + 2 + h.2 + 2 + sum_of (fun h => slen h.1 + 2 + h.2 + 2) l) in *.
  cbn [foldl mbind option_bind]. unfold add_header at 2. rewrite checked_add_fits by lia. rewrite IH by lia. f_equal. lia.
Qed.

(** The headers of the request, with those the HTTP client adds *)
Definition all_headers (authority : string) (headers : list (string * string)) (body : string) : list (string * string) :=
  ("host", authority) :: headers ++ [("content-length", pretty (slen body))].

(** What the accounting counts of each header *)
Definition counted (h : string * string) : string * N := (h.1, slen h.2).

Lemma slen_rendered path headers body : slen (rendered path headers body) =
  slen ("POST " +:+ path +:+ " HTTP/1.1" +:+ crlf) + sum_of (fun h => slen h.1 + 2 + h.2 + 2) (counted <$> headers) + 2 + slen body.
Proof.
  unfold rendered. rewrite !slen_app, slen_concat. change (slen crlf) with 2.
  assert (sum_of slen (header_line <$> headers) = sum_of (fun h => slen h.1 + 2 + h.2 + 2) (counted <$> headers)) as ->; [|lia].
  induction headers as [|h headers IH]; [done|]. rewrite !fmap_cons.
  change (slen (header_line h) + sum_of slen (header_line <$> headers) =
    slen h.1 + 2 + slen h.2 + 2 + sum_of (fun h => slen h.1 + 2 + h.2 + 2) (counted <$> headers)).
  rewrite IH. unfold header_line. rewrite !slen_app. change (slen ": ") with 2. change (slen crlf) with 2. lia.
Qed.

Lemma slen_signature secret target endpoint event_id timestamp attempt key body : url_laws ->
  slen (sign secret target endpoint event_id timestamp attempt key body) = slen "v1,hmac-sha256=" + 43.
Proof. intros laws. unfold sign. rewrite slen_app. f_equal. unfold slen. by rewrite (url_length laws) by apply hmac_length. Qed.

Lemma slen_digest_header body : base64_law ->
  slen (content_digest_header body) = slen "sha-256=::" + 44.
Proof.
  intros base64. unfold content_digest_header. rewrite !slen_app. unfold slen at 2. by rewrite base64 by apply sha256_length.
Qed.

(** Names are counted by their length, in whatever case. *)
Definition same_size (a b : string * N) : Prop := slen a.1 = slen b.1 /\ a.2 = b.2.

Lemma same_sizes l k : Forall2 same_size l k ->
  sum_of (fun h => slen h.1 + 2 + h.2 + 2) l = sum_of (fun h => slen h.1 + 2 + h.2 + 2) k.
Proof. induction 1 as [|a b l k [Ha Hb] _ IH]; [done|]. unfold sum_of in *. cbn [foldr]. by rewrite Ha, Hb, IH. Qed.

(** C29: The bytes reserved for an attempt are the bytes of its request, if they fit. *)
Theorem accounted_is_rendered e secret event_id timestamp attempt body parsed host port :
  url_laws -> base64_law ->
  url_parse (canonical (enr_url e)) = Some parsed -> url_host_str parsed = Some host ->
  url_port_or_known_default parsed = Some port ->
  let request := rendered (url_path parsed) (all_headers (host +:+ ":" +:+ pretty port)
    (callback_headers e secret event_id timestamp attempt body) body) body in
  slen request <= u64_max ->
  callback_request_accounted_bytes (canonical (enr_url e)) (enr_endpoint_id e) event_id timestamp attempt
    (enr_key_generation e) (slen body) = Some (slen request).
Proof.
  intros laws base64 Hparse Hhost Hport request. unfold request. rewrite slen_rendered. intros Hfits.
  unfold callback_request_accounted_bytes.
  rewrite Hparse. cbn [mbind option_bind]. rewrite Hhost. cbn [mbind option_bind]. rewrite Hport. cbn [mbind option_bind].
  match goal with |- context [foldl _ (Some ?n) ?l] => set (start := n) in *; set (counts := l) end.
  match type of Hfits with context [counted <$> ?l] => assert (Forall2 same_size counts (counted <$> l)) as Hsame%same_sizes end.
  { repeat constructor; try done; cbn [counted fst snd]; [by rewrite slen_digest_header|by rewrite slen_signature]. }
  rewrite <- Hsame in *. rewrite add_headers_fits by lia. cbn [mbind option_bind]. rewrite checked_add_fits by lia. cbn [mbind option_bind].
  by rewrite checked_add_fits by lia.
Qed.
End accounting.
