(* ===== verification/Delivered.v ===== *)
(** * The protocol of a delivery

    What a worker owes the authority, as an automaton on the calls it makes for one
    lease: nothing is sent before the lease is renewed, the egress reserved and the
    fence validated; what settles the delivery comes last and follows from what
    happened.  [process_delivery] is shown to follow it in every environment. *)

From S2P Require Import Prelude Text Protocol Policy Quota Scanner Callback Destinations Enrollments Delivery.

(** ** The protocol *)

Inductive phase :=
  | Fresh
  | Expired
  | Leased (now : Z)
  | Paid (now : Z)
  | Guarded (now : Z)
  | InFlight
  | FenceLost
  | Answered (r : result CallbackTransportError CallbackResponse)
  | Retrying (now : Z)
  | Scheduling (now : Z)
  | Settled
  | Lost.

Section protocol.
Context `{UrlParser} (policy : PushPolicy) (lease : CallbackLease) (duration : Z).

(** The time of the database at a renewal, and the timestamp of a request *)
Definition renewal_time (lease_until : Z) : Z := saturating_i64 (lease_until - duration).
Definition timestamp_of (now : Z) : N := Z.to_N (Z.max now 0 / 1000).

Definition the_enrollment : option PushEnrollment :=
  match enrollment policy (fence_tenant_scope (fence lease)) (enrollment_id lease) (lease_canonical_url lease) with
  | Ok e => Some e
  | Err _ => None
  end.

Definition accounted (now : Z) : option N :=
  e ← the_enrollment;
  callback_request_accounted_bytes (lease_canonical_url lease) (enrollment_id lease) (fence_event_id (fence lease))
    (timestamp_of now) (lease_attempt lease) (enr_key_generation e) (slen (payload lease)).

Definition ours (f : DeliveryFence) (d : Z) : Prop := f = fence lease /\ d = duration.

Definition dead (c : CallbackFailCommand) : Prop :=
  failed_fence c = fence lease /\ disposition c = FailDead /\ retry_at c = None.

(** A retry: within the interval of the policy from now, before the delivery expires,
    and only when an attempt is left *)
Definition scheduled (now : Z) (c : CallbackFailCommand) : Prop :=
  failed_fence c = fence lease /\ disposition c = FailRetry /\
  (lease_attempt lease < push_max_attempts (bounds policy))%N /\
  exists t, retry_at c = Some t /\
    (now + Z.of_N (base_retry_ms (bounds policy)) <= t <= now + Z.of_N (max_retry_ms (bounds policy)))%Z /\
    (t < expires_at lease)%Z.

Definition retryable (r : result CallbackTransportError CallbackResponse) : Prop :=
  match r with
  | Ok response => resp_disposition response = Retry
  | Err error => (transport_category error).2 = false
  end.

Definition hopeless (r : result CallbackTransportError CallbackResponse) : Prop :=
  match r with
  | Ok response => resp_disposition response = Permanent
  | Err error => (transport_category error).2 = true
  end.

Inductive next : phase -> event -> phase -> Prop :=
  | next_revoked : next Fresh (Revoked (fence lease)) Settled
  | next_corrupt c a : dead c -> next Fresh (FailureRecorded c a) Settled
  | next_leased d until : d = duration -> (renewal_time until < expires_at lease)%Z ->
      next Fresh (Renewed (fence lease) d (Ok (Some until))) (Leased (renewal_time until))
  | next_expired d until : d = duration -> (expires_at lease <= renewal_time until)%Z ->
      next Fresh (Renewed (fence lease) d (Ok (Some until))) Expired
  | next_taken d a : (forall until, a <> Ok (Some until)) -> next Fresh (Renewed (fence lease) d a) Lost
  | next_expired_dead c a : dead c -> next Expired (FailureRecorded c a) Settled
  | next_unaccounted now c a : accounted now = None -> dead c -> next (Leased now) (FailureRecorded c a) Settled
  | next_paid now bytes : accounted now = Some bytes -> next (Leased now) (ReservedEgress bytes now Reserved) (Paid now)
  | next_refused now bytes a : accounted now = Some bytes -> a <> Reserved ->
      next (Leased now) (ReservedEgress bytes now a) (Retrying now)
  | next_guarded now d : d = duration -> next (Paid now) (FenceValidated (fence lease) d (Ok true)) (Guarded now)
  | next_unfenced now d a : a <> Ok true -> next (Paid now) (FenceValidated (fence lease) d a) Lost
  | next_sent now e : the_enrollment = Some e -> next (Guarded now) (SendStarted e (timestamp_of now)) InFlight
  | next_kept d until : d = duration -> next InFlight (Renewed (fence lease) d (Ok (Some until))) InFlight
  | next_fence_lost d a : (forall until, a <> Ok (Some until)) -> next InFlight (Renewed (fence lease) d a) FenceLost
  | next_dropped p : p = InFlight \/ p = FenceLost -> next p SendDropped Lost
  | next_answered r : next InFlight (SendEnded r) (Answered r)
  | next_committed response a : resp_disposition response = Delivered ->
      next (Answered (Ok response)) (Committed (fence lease) a) Settled
  | next_hopeless r c a : hopeless r -> dead c -> next (Answered r) (FailureRecorded c a) Settled
  | next_retryable r now : retryable r -> next (Answered r) (TimeRead (Ok now)) (Retrying now)
  | next_timeless r e : retryable r -> next (Answered r) (TimeRead (Err e)) Lost
  | next_exhausted now c a : dead c -> next (Retrying now) (FailureRecorded c a) Settled
  | next_sampled now s : next (Retrying now) (Sampled s) (Scheduling now)
  | next_scheduled now c a : dead c \/ scheduled now c -> next (Scheduling now) (FailureRecorded c a) Settled.

(** The phases along a list of events *)
Inductive follows : phase -> list event -> phase -> Prop :=
  | follows_nil p : follows p [] p
  | follows_cons p e q l r : next p e q -> follows q l r -> follows p (e :: l) r.

Lemma follows_app p l q k r : follows p l q -> follows q k r -> follows p (l ++ k) r.
Proof. induction 1; [done|]. intros Hk. econstructor; eauto. Qed.
End protocol.

(** ** Runs that follow it *)

Section adheres.
Context `{Sha256, UrlParser, Environment} (policy : PushPolicy) (lease : CallbackLease) (duration : Z).

Local Abbreviation follows := (follows policy lease duration).
Local Abbreviation next := (next policy lease duration).

(** From phase [p], the calls of [c] follow the protocol to a phase that [Q] admits. *)
Definition adheres {A} (c : call A) (p : phase) (Q : result stalled A -> phase -> Prop) : Prop :=
  forall h, exists new q, (c h).1 = h ++ new /\ follows p new q /\ Q (c h).2 q.

Lemma adheres_ret {A} (a : A) p (Q : result stalled A -> phase -> Prop) : Q (Ok a) p -> adheres (mret a) p Q.
Proof. intros HQ h. exists [], p. split_and!; [by rewrite app_nil_r|constructor|done]. Qed.

Lemma adheres_pure {A} (r : result stalled A) p (Q : result stalled A -> phase -> Prop) : Q r p -> adheres (pure_ r) p Q.
Proof. intros HQ h. exists [], p. split_and!; [by rewrite app_nil_r|constructor|done]. Qed.

Lemma adheres_bind {A B} (c : call A) (k : A -> call B) p Q :
  adheres c p (fun r q => match r with Ok a => adheres (k a) q Q | Err e => Q (Err e) q end) -> adheres (c ≫= k) p Q.
Proof.
  intros Hc h. destruct (Hc h) as (new & q & Hnew & Hfollows & Hq). unfold mbind, action_bind.
  destruct (c h) as [h' [a|e]]; simpl in *; subst; [|by exists new, q].
  destruct (Hq (h ++ new)) as (new' & q' & Hnew' & Hfollows' & Hq'). exists (new ++ new'), q'.
  split_and!; [by rewrite Hnew', app_assoc|by eapply follows_app|done].
Qed.

Lemma adheres_ask {A} (answer : event_log -> A) record p (Q : result stalled A -> phase -> Prop) :
  (forall h, exists q, next p (record (answer h)) q /\ Q (Ok (answer h)) q) -> adheres (ask answer record) p Q.
Proof.
  intros Hnext h. destruct (Hnext h) as (q & Hq & HQ). exists [record (answer h)], q. split_and!; [done| |done].
  econstructor; [done|constructor].
Qed.

Lemma adheres_note e p q (Q : result stalled unit -> phase -> Prop) : next p e q -> Q (Ok tt) q -> adheres (note e) p Q.
Proof. intros Hnext HQ h. exists [e], q. split_and!; [done| |done]. econstructor; [done|constructor]. Qed.

Lemma adheres_weaken {A} (c : call A) p (Q R : result stalled A -> phase -> Prop) :
  adheres c p Q -> (forall r q, Q r q -> R r q) -> adheres c p R.
Proof. intros Hc HQR h. destruct (Hc h) as (new & q & ? & ? & ?). exists new, q. auto. Qed.

(** How a delivery may end *)
Definition ended (r : result stalled unit) (p : phase) : Prop :=
  match r with
  | Ok _ => p = Settled \/ p = Lost
  | Err StillSending => p = InFlight
  | Err TaskPanicked => p = Fresh /\ parse (lease_canonical_url lease) = Err Panicked
  end.

(** *** Failures *)

Lemma failure_digest_ok c : valid_callback_digest (failure_digest c) = true.
Proof.
  unfold valid_callback_digest, push_digest_ok, failure_digest, sha256_tag.
  rewrite strip_prefix_app. cbn [is_some_and]. apply andb_true_iff. split.
  - apply N.eqb_eq. rewrite slen_app. unfold slen. rewrite length_hex, sha256_length. done.
  - pose proof (hex_lower (sha256 ("smesh-callback-failure/v1:" +:+ category_label c))) as Hh. revert Hh.
    rewrite !str_all_spec. intros Hh x Hx%Hh. revert Hx.
    unfold is_hex_lower, is_ascii_hexdigit, is_ascii_uppercase, is_ascii_digit, in_range.
    repeat match goal with |- context [(?a <=? ?b)%N] => destruct (N.leb_spec a b) end; cbn; try done; lia.
Qed.

Lemma fail_dead_adheres c p : (forall command a, dead lease command -> next p (FailureRecorded command a) Settled) ->
  adheres (fail_delivery lease FailDead c None) p ended.
Proof.
  intros Hnext. unfold fail_delivery, fail_command_new. cbn [disposition error_digest retry_at is_some Bool.eqb negb is_some_and].
  rewrite failure_digest_ok. cbn [negb orb fail_if mbind result_bind].
  apply adheres_bind, adheres_ask. intros h. exists Settled. split; [by apply Hnext|]. apply adheres_ret. by left.
Qed.

(** *** Retries *)

Context (Hbounds : bounds_ok (bounds policy) = true) (Hexpiry : (expires_at lease <= max_i64)%Z).

Lemma scheduled_adheres c now delay : (0 < now <= max_i64)%Z ->
  (lease_attempt lease < push_max_attempts (bounds policy))%N ->
  (base_retry_ms (bounds policy) <= delay <= max_retry_ms (bounds policy))%N ->
  (now + Z.of_N delay < expires_at lease)%Z ->
  adheres (fail_delivery lease FailRetry c (Some (now + Z.of_N delay)%Z)) (Scheduling now) ended.
Proof.
  intros Hnow Hattempt Hdelay Ht. pose proof (retry_bounds policy Hbounds) as (? & ? & ? & ?).
  remember (now + Z.of_N delay)%Z as t eqn:Heq.
  unfold fail_delivery, fail_command_new. cbn [disposition error_digest retry_at is_some Bool.eqb negb is_some_and].
  rewrite failure_digest_ok, (proj2 (Z.leb_gt t 0)) by lia. cbn [negb orb fail_if mbind result_bind].
  apply adheres_bind, adheres_ask. intros h. exists Settled. split; [|apply adheres_ret; by left].
  constructor. right. split_and!; [done..|]. exists t. split; [done|]. lia.
Qed.

Lemma saturating_exact now delay e : (0 < now <= max_i64)%Z -> (delay <= 3600000)%N -> (e <= max_i64)%Z ->
  (saturating_i64 (now + Z.min (Z.of_N delay) max_i64) < e)%Z ->
  saturating_i64 (now + Z.min (Z.of_N delay) max_i64) = (now + Z.of_N delay)%Z.
Proof. unfold saturating_i64, max_i64, min_i64. lia. Qed.

Lemma retry_at_adheres c requested now : (0 < now <= max_i64)%Z ->
  adheres (retry_or_dead_at policy lease c requested now) (Retrying now) ended.
Proof.
  intros Hnow. unfold retry_or_dead_at. rewrite (retry_policy_Ok policy Hbounds). pose proof (retry_bounds policy Hbounds) as (? & ? & ? & ?).
  destruct (N.ltb_spec (push_max_attempts (bounds policy)) (N.min (lease_attempt lease + 1) 65535)).
  { apply fail_dead_adheres. by constructor. }
  apply adheres_bind, adheres_ask. intros h. exists (Scheduling now). split; [constructor|].
  unfold clamp_delay_ms. destruct (match requested with Some _ => _ | None => _ end) as [selected|]; cbn [mbind option_bind].
  2: { apply fail_dead_adheres. constructor. by left. }
  set (delay := clamp _ _ _). destruct (Z.leb_spec (expires_at lease)
    (saturating_i64 (now + Z.min (Z.of_N delay) max_i64))).
  - apply fail_dead_adheres. constructor. by left.
  - assert (base_retry_ms (bounds policy) <= delay <= max_retry_ms (bounds policy))%N as Hdelay
      by (unfold delay, clamp; cbn [base_ms max_ms]; lia).
    rewrite (saturating_exact now delay (expires_at lease)) in * by (done || lia). apply scheduled_adheres; [done|lia|done|done].
Qed.

(** *** The delivery *)

(** The times of the database are positive and have 64 bits. *)
Record times_ok : Prop := {
  time_ok : forall h now, env_time h = Ok now -> (0 < now <= max_i64)%Z;
  renewal_ok : forall h until, env_renew h (fence lease) duration = Ok (Some until) -> (0 < until - duration)%Z }.

Context (Htimes : times_ok).

Lemma retry_or_dead_adheres c requested r : retryable r ->
  adheres (retry_or_dead policy lease c requested) (Answered r) ended.
Proof.
  intros Hr. unfold retry_or_dead. apply adheres_bind, adheres_ask. intros h. destruct (env_time h) as [now|e] eqn:Ht.
  - exists (Retrying now). split; [by constructor|]. by apply retry_at_adheres, (time_ok Htimes h).
  - exists Lost. split; [by constructor|]. apply adheres_ret. by right.
Qed.

Lemma settle_adheres outcome p : match outcome with Some r => p = Answered r | None => p = Lost end ->
  adheres (settle policy lease outcome) p ended.
Proof.
  destruct outcome as [[response|error]|]; intros ->; unfold settle.
  - destruct (resp_disposition response) eqn:Hd.
    + apply adheres_bind, adheres_ask. intros h. exists Settled. split; [by constructor|]. apply adheres_ret. by left.
    + by apply retry_or_dead_adheres.
    + apply fail_dead_adheres. intros command a. by apply next_hopeless.
  - destruct (transport_category error) as [c permanent] eqn:Hc. destruct permanent.
    + apply fail_dead_adheres. intros command a. apply next_hopeless. unfold hopeless. by rewrite Hc.
    + apply retry_or_dead_adheres. unfold retryable. by rewrite Hc.
  - apply adheres_ret. by right.
Qed.

(** What the wait may end with *)
Definition waited (r : result stalled (option (result CallbackTransportError CallbackResponse))) (q : phase) : Prop :=
  match r with
  | Ok (Some answer) => q = Answered answer
  | Ok None => q = Lost
  | Err StillSending => q = InFlight
  | Err TaskPanicked => False
  end.

Lemma drop_adheres p : p = InFlight \/ p = FenceLost -> adheres (note SendDropped;; mret None) p waited.
Proof. intros Hp. apply adheres_bind, (adheres_note _ _ Lost); [by constructor|]. by apply adheres_ret. Qed.

Lemma wait_adheres fuel : adheres (wait fuel (fence lease) duration) InFlight waited.
Proof.
  induction fuel as [|fuel IH]; [by apply adheres_pure|]. cbn [wait]. intros h.
  destruct (env_poll h) as [r| |].
  - revert h. change (adheres (note (SendEnded r);; mret (Some r)) InFlight waited).
    apply adheres_bind, (adheres_note _ _ (Answered r)); [constructor|]. by apply adheres_ret.
  - revert h. apply (drop_adheres InFlight). by left.
  - revert h. match goal with |- forall h, exists new q, (?c h).1 = _ /\ _ => change (adheres c InFlight waited) end.
    apply adheres_bind, adheres_ask. intros h. destruct (env_renew h (fence lease) duration) as [[until|]|e].
    + exists InFlight. split; [by constructor|]. exact IH.
    + exists FenceLost. split; [by constructor|]. apply drop_adheres. by right.
    + exists FenceLost. split; [by constructor|]. apply drop_adheres. by right.
Qed.

Lemma attempt_adheres fuel e now : the_enrollment policy lease = Some e ->
  adheres (attempt_delivery policy fuel lease duration (timestamp_of now)) (Paid now) ended.
Proof.
  intros He. unfold attempt_delivery, lease_enrollment. unfold the_enrollment in He.
  destruct (enrollment policy _ _ _) as [e'|] eqn:Hlookup; [|done]. injection He as ->.
  apply adheres_bind, adheres_ret, adheres_bind, adheres_ask. intros h.
  destruct (env_validate h (fence lease) duration) as [[]|].
  - exists (Guarded now). split; [by constructor|]. apply adheres_bind, (adheres_note _ _ InFlight).
    { constructor. unfold the_enrollment. by rewrite Hlookup. }
    apply adheres_bind. eapply adheres_weaken; [apply wait_adheres|]. intros [outcome|[]] q Hq; [|done|done].
    destruct outcome; by apply settle_adheres.
  - exists Lost. split; [by constructor|]. apply adheres_ret. by right.
  - exists Lost. split; [by constructor|]. apply adheres_ret. by right.
Qed.

Lemma reserve_adheres fuel e now : the_enrollment policy lease = Some e -> (0 < now <= max_i64)%Z ->
  adheres (reserve_and_send policy fuel lease duration e now) (Leased now) ended.
Proof.
  intros He Hnow. unfold reserve_and_send. fold (timestamp_of now).
  destruct (callback_request_accounted_bytes _ _ _ _ _ _ _) as [bytes|] eqn:Hb.
  - assert (accounted policy lease now = Some bytes) as Hacc by (unfold accounted; by rewrite He).
    apply adheres_bind, adheres_ask. intros h. destruct (env_reserve h lease bytes now) as [|ms|].
    + exists (Paid now). split; [by constructor|]. by apply (attempt_adheres fuel e).
    + exists (Retrying now). split; [by constructor|]. by apply retry_at_adheres.
    + exists (Retrying now). split; [by constructor|]. by apply retry_at_adheres.
  - apply fail_dead_adheres. intros command a. apply next_unaccounted. unfold accounted. by rewrite He.
Qed.

Lemma enrollment_panics tenant id url : enrollment policy tenant id url = Err Panicked -> parse url = Err Panicked.
Proof.
  unfold enrollment. destruct (parse url) as [u|e]; cbn [mbind result_bind]; [|by intros [= ->]].
  by destruct (list_find _ _).
Qed.

Lemma process_adheres fuel : adheres (process_delivery policy fuel lease duration) Fresh ended.
Proof.
  unfold process_delivery, lease_enrollment. apply adheres_bind.
  destruct (enrollment policy _ _ _) as [e|[error|]] eqn:Hlookup.
  - apply adheres_ret. destruct (_ || _); [by eapply adheres_note; [constructor|left]|].
    destruct (negb (bool_decide (content_digest _ = _))); [apply fail_dead_adheres; by constructor|].
    apply adheres_bind, adheres_ask. intros h. destruct (env_renew h (fence lease) duration) as [[until|]|error] eqn:Hr.
    + change (saturating_i64 (until - duration)) with (renewal_time duration until).
      destruct (Z.leb_spec (expires_at lease) (renewal_time duration until)).
      * exists Expired. split; [by constructor|]. apply fail_dead_adheres. by constructor.
      * exists (Leased (renewal_time duration until)). split; [by constructor|]. apply reserve_adheres.
        { unfold the_enrollment. by rewrite Hlookup. }
        apply (renewal_ok Htimes) in Hr. unfold renewal_time, saturating_i64, max_i64, min_i64 in *. lia.
    + exists Lost. split; [by constructor|]. apply adheres_ret. by right.
    + exists Lost. split; [by constructor|]. apply adheres_ret. by right.
  - apply adheres_ret. eapply adheres_note; [constructor|by left].
  - apply adheres_pure. split; [done|]. by eapply enrollment_panics.
Qed.
End adheres.

(** ** What the protocol says *)

Section consequences.
Context `{UrlParser} (policy : PushPolicy) (lease : CallbackLease) (duration : Z).

Local Abbreviation follows := (follows policy lease duration).
Local Abbreviation next := (next policy lease duration).

Lemma follows_split p l k r : follows p (l ++ k) r -> exists q, follows p l q /\ follows q k r.
Proof.
  revert p. induction l as [|e l IH]; intros p Hf; [exists p; split; [constructor|done]|].
  inversion Hf as [|? ? q ? ? Hnext Hrest]; subst. destruct (IH q Hrest) as (q' & ? & ?). exists q'. split; [|done].
  by econstructor.
Qed.

Lemma follows_one p e r : follows p [e] r -> next p e r.
Proof. intros Hf. inversion Hf as [|? ? q ? ? Hnext Hrest]; subst. by inversion Hrest; subst. Qed.

(** The calls before a request: what each of them answered *)
Definition clearance (now : Z) (l : list event) : Prop :=
  exists until bytes, now = renewal_time duration until /\ (now < expires_at lease)%Z /\
    accounted policy lease now = Some bytes /\
    l = [Renewed (fence lease) duration (Ok (Some until)); ReservedEgress bytes now Reserved;
         FenceValidated (fence lease) duration (Ok true)].

Definition reached (q : phase) (l : list event) : Prop :=
  match q with
  | Fresh => l = []
  | Leased now => exists until, now = renewal_time duration until /\ (now < expires_at lease)%Z /\
      l = [Renewed (fence lease) duration (Ok (Some until))]
  | Paid now => exists until bytes, now = renewal_time duration until /\ (now < expires_at lease)%Z /\
      accounted policy lease now = Some bytes /\
      l = [Renewed (fence lease) duration (Ok (Some until)); ReservedEgress bytes now Reserved]
  | Guarded now => clearance now l
  | Answered r => exists l0, l = l0 ++ [SendEnded r]
  | _ => True
  end.

Lemma follows_reached l q : follows Fresh l q -> reached q l.
Proof.
  revert q. induction l as [|e l IH] using rev_ind; intros q Hf; [by inversion Hf|].
  apply follows_split in Hf as (p & Hp%IH & Hnext%follows_one). destruct Hnext; subst; try done.
  - simpl in Hp. subst. by exists until.
  - destruct Hp as (until & -> & Hexp & ->). by exists until, bytes.
  - destruct Hp as (until & bytes & -> & Hexp & Hacc & ->). by exists until, bytes.
  - by exists l.
Qed.

Lemma settled_last e l r : follows Settled (e :: l) r -> False.
Proof. intros Hf. inversion Hf as [|? ? q ? ? Hnext _]; subst. inversion Hnext; naive_solver. Qed.

Definition settles (e : event) : bool :=
  match e with Revoked _ | Committed _ _ | FailureRecorded _ _ => true | _ => false end.

Lemma settles_next p e q : next p e q -> settles e = true -> q = Settled.
Proof. by destruct 1. Qed.
End consequences.

Section theorems.
Context `{Sha256, UrlParser, Environment}.

(** *** The wait ends *)

(** [c] does not wait for ever. *)
Definition ends {A} (c : call A) : Prop := forall h, (c h).2 <> Err StillSending.

Lemma ends_bind {A B} (c : call A) (k : A -> call B) : ends c -> (forall a, ends (k a)) -> ends (c ≫= k).
Proof.
  intros Hc Hk h. specialize (Hc h). unfold mbind, action_bind. destruct (c h) as [h' [a|e]]; [apply Hk|].
  simpl in *. congruence.
Qed.

Lemma ends_ask {A} (answer : event_log -> A) record : ends (ask answer record).
Proof. by intros h. Qed.

Ltac ends_step :=
  first [ done | apply ends_ask | apply ends_bind; [|intros ?] | case_match | progress intros ].

Lemma ends_fail lease d c t : ends (fail_delivery lease d c t).
Proof. unfold fail_delivery. repeat ends_step. Qed.

Lemma ends_retry_at policy lease c requested now : ends (retry_or_dead_at policy lease c requested now).
Proof. unfold retry_or_dead_at. repeat first [apply ends_fail | ends_step]. Qed.

(** From the [n]th call on, the sender has answered or the worker is stopped. *)
Definition answers_by (n : nat) : Prop := forall h, (n <= length h)%nat -> env_poll h <> RenewDue.

Lemma wait_ends n fuel f duration : answers_by n -> (n < fuel)%nat -> ends (wait fuel f duration).
Proof.
  intros Hn Hfuel h. assert (0 < fuel /\ n < length h + fuel)%nat as Hbound by lia. clear Hfuel. revert h Hbound.
  induction fuel as [|fuel IH]; intros h Hbound; [lia|]. cbn [wait]. destruct (env_poll h) eqn:Hpoll; [done..|].
  destruct (decide (n <= length h)%nat) as [Hle|Hgt]; [by destruct (Hn h Hle)|].
  unfold renew, ask, mbind, action_bind. cbn [fst snd]. destruct (env_renew h f duration) as [[until|]|]; [|done..].
  apply IH. rewrite length_app. cbn. lia.
Qed.

Lemma process_ends policy n fuel lease duration : answers_by n -> (n < fuel)%nat -> ends (process_delivery policy fuel lease duration).
Proof.
  intros Hn Hfuel. unfold process_delivery, reserve_and_send, attempt_delivery, lease_enrollment, revoke, renew, settle, retry_or_dead.
  repeat first [apply ends_fail | apply ends_retry_at | apply (wait_ends n) | ends_step].
Qed.

(** C6: In every environment the calls a worker makes for a lease follow the protocol: it
    ends with the delivery settled or the lease lost, or waits for its sender; it
    panics only before its first call, on a URL that makes the parser panic; and it
    does end, with more fuel than calls until the sender answers. *)
Theorem delivery_follows_protocol raw policy fuel lease duration h h' r :
  validate_raw_policy raw = Ok policy -> (expires_at lease <= max_i64)%Z -> times_ok lease duration ->
  process_delivery policy fuel lease duration h = (h', r) ->
  (exists new p, h' = h ++ new /\ follows policy lease duration Fresh new p /\ ended lease r p) /\
  (forall n, answers_by n -> (n < fuel)%nat -> r <> Err StillSending).
Proof.
  intros (_ & Hpolicy & _)%validated_enrolled Hexpiry Htimes Hrun. split.
  - destruct (process_adheres policy lease duration Hpolicy Hexpiry Htimes fuel h) as (new & p & Hnew & Hf & Hend).
    rewrite Hrun in Hnew, Hend. by exists new, p.
  - intros n Hn Hfuel. pose proof (process_ends policy n fuel lease duration Hn Hfuel h) as Hends. by rewrite Hrun in Hends.
Qed.

(** C9: A request is sent only as the fourth call, to the enrollment of the policy for
    the lease, after the lease was renewed at a time before the delivery expires, its
    exact bytes were reserved and its fence was validated; a delivery is committed
    only right after its request was answered with success; and whatever settles the
    delivery is the last call. *)
Theorem delivery_guarded raw policy fuel lease duration h h' r new :
  validate_raw_policy raw = Ok policy -> (expires_at lease <= max_i64)%Z -> times_ok lease duration ->
  process_delivery policy fuel lease duration h = (h', r) -> h' = h ++ new ->
  (forall l e ts k, new = l ++ SendStarted e ts :: k ->
     exists now, clearance policy lease duration now l /\ ts = timestamp_of now /\ the_enrollment policy lease = Some e) /\
  (forall l f a k, new = l ++ Committed f a :: k ->
     f = fence lease /\ exists l0 response, l = l0 ++ [SendEnded (Ok response)] /\ resp_disposition response = Delivered) /\
  (forall l e k, new = l ++ e :: k -> settles e = true -> k = []).
Proof.
  intros (_ & Hpolicy & _)%validated_enrolled Hexpiry Htimes Hrun Hnew.
  destruct (process_adheres policy lease duration Hpolicy Hexpiry Htimes fuel h) as (new' & p & Hnew' & Hf & _).
  rewrite Hrun in Hnew'. simpl in Hnew'. subst h'. apply app_inv_head in Hnew' as <-.
  assert (forall l e k, new = l ++ e :: k -> exists q q', follows policy lease duration Fresh l q /\
    next policy lease duration q e q' /\ follows policy lease duration q' k p) as Hat.
  { intros l e k ->. apply follows_split in Hf as (q & Hl & Hk). inversion Hk; subst. eauto. }
  split_and!.
  - intros l e ts k (q & q' & Hl%follows_reached & Hnext & _)%Hat. inversion Hnext; subst. by exists now.
  - intros l f a k (q & q' & Hl%follows_reached & Hnext & _)%Hat. inversion Hnext; subst. split; [done|].
    destruct Hl as [l0 ->]. by exists l0, response.
  - intros l e k (q & q' & _ & Hnext & Hk)%Hat Hs. apply (settles_next policy lease duration) in Hnext as ->; [|done].
    destruct k as [|e' k]; [done|]. by apply settled_last in Hk.
Qed.
End theorems.
