(* ===== verification/Workers.v ===== *)
(** * The life of a worker

    What a callback worker reports: it is ready once, after its first claim, and it
    is fatal only after five failed claims in a row. *)

From S2P Require Import Prelude Text Protocol Policy Quota Scanner Callback Destinations Enrollments Delivery.

(** ** Deliveries report nothing *)

Definition signals (e : event) : bool :=
  match e with Claimed _ _ | MarkedReady | MarkedFatal => true | _ => false end.

Create HintDb callbacks.

Section workers.
Context `{Sha256, UrlParser, Environment} (policy : PushPolicy).

(** The calls that [c] adds are calls for a lease. *)
Definition silent {A} (c : call A) : Prop := forall h, exists new, (c h).1 = h ++ new /\ Forall (fun e => signals e = false) new.

Lemma silent_pure {A} (r : result stalled A) : silent (pure_ r).
Proof. intros h. exists []. by rewrite app_nil_r. Qed.

Lemma silent_ret {A} (a : A) : silent (mret a).
Proof. intros h. exists []. by rewrite app_nil_r. Qed.

Lemma silent_bind {A B} (c : call A) (k : A -> call B) : silent c -> (forall a, silent (k a)) -> silent (c ≫= k).
Proof.
  intros Hc Hk h. destruct (Hc h) as (new & Hnew & Hq). unfold mbind, action_bind. destruct (c h) as [h' [a|e]]; cbn in *; subst.
  - destruct (Hk a (h ++ new)) as (new' & -> & Hq'). exists (new ++ new'). rewrite app_assoc, Forall_app. done.
  - by exists new.
Qed.

Lemma silent_ask {A} (answer : event_log -> A) record : (forall a, signals (record a) = false) -> silent (ask answer record).
Proof. intros Hr h. exists [record (answer h)]. split; [done|]. by constructor. Qed.

Lemma silent_note e : signals e = false -> silent (note e).
Proof. intros He h. exists [e]. split; [done|]. by constructor. Qed.

#[local] Hint Resolve silent_pure silent_ret silent_note : callbacks.

(** Case analysis on what a call answered, until only calls are left *)
Ltac silent_step :=
  first [ solve [eauto with callbacks] | apply silent_bind; [|intros ?] | apply silent_ask; done
        | case_match | progress intros ].
Ltac silence := repeat silent_step.

Lemma silent_fail lease d c t : silent (fail_delivery lease d c t).
Proof. unfold fail_delivery. silence. Qed.
#[local] Hint Resolve silent_fail : callbacks.

Lemma silent_retry_at lease c requested now : silent (retry_or_dead_at policy lease c requested now).
Proof. unfold retry_or_dead_at. silence. Qed.
#[local] Hint Resolve silent_retry_at : callbacks.

Lemma silent_retry lease c requested : silent (retry_or_dead policy lease c requested).
Proof. unfold retry_or_dead. silence. Qed.
#[local] Hint Resolve silent_retry : callbacks.

(** After a look at the history, it is enough that what follows is silent. *)
Ltac silent_from h := match goal with |- exists new, (?c h).1 = _ /\ _ => cut (silent c); [intros Hc; apply Hc|] end.

Lemma silent_wait fuel f duration : silent (wait fuel f duration).
Proof.
  induction fuel as [|fuel IH]; [apply silent_pure|]. cbn [wait]. intros h. unfold renew.
  destruct (env_poll h); silent_from h; silence.
Qed.
#[local] Hint Resolve silent_wait : callbacks.

Lemma silent_process fuel lease duration : silent (process_delivery policy fuel lease duration).
Proof.
  unfold process_delivery, reserve_and_send, attempt_delivery, lease_enrollment, revoke, renew, settle. silence.
Qed.

Lemma silent_each fuel duration leases : silent (process_each policy fuel duration leases).
Proof.
  induction leases as [|lease leases IH]; [apply silent_ret|]. cbn [process_each]. intros h.
  destruct (env_stopped h); [exists []; by rewrite app_nil_r|]. silent_from h.
  apply silent_bind; [apply silent_process|done].
Qed.

(** ** What is reported *)

(** The reports of a worker that has seen [errors] failed claims in a row, before or
    after its first cycle *)
Inductive worker_life (claim : DeliveryClaimCommand) : N -> bool -> list event -> Prop :=
  | life_ends n started : worker_life claim n started []
  | life_first n leases rest : worker_life claim 0 true rest ->
      worker_life claim n false (Claimed claim (Ok leases) :: MarkedReady :: rest)
  | life_claimed n leases rest : worker_life claim 0 true rest -> worker_life claim n true (Claimed claim (Ok leases) :: rest)
  | life_failed n started e rest : (n + 1 < 5)%N -> worker_life claim (n + 1) started rest ->
      worker_life claim n started (Claimed claim (Err e) :: rest)
  | life_fatal n started e : (n + 1 = 5)%N -> worker_life claim n started [Claimed claim (Err e); MarkedFatal].

Definition reports (l : list event) : list event := filter (fun e => signals e = true) l.

Lemma silent_reports l : Forall (fun e => signals e = false) l -> reports l = [].
Proof.
  intros Hl. unfold reports. induction Hl as [|e l He _ IH]; [done|]. rewrite filter_cons_False; [done|]. by rewrite He.
Qed.

Lemma reports_app l k : reports (l ++ k) = reports l ++ reports k.
Proof. apply filter_app. Qed.

(** From any history, [c] adds reports that [P] admits. *)
Definition reporting (P : list event -> Prop) (c : call unit) : Prop :=
  forall h, exists new, (c h).1 = h ++ new /\ P (reports new).

Lemma reporting_ret (P : list event -> Prop) : P [] -> reporting P (mret tt).
Proof. intros HP h. exists []. by rewrite app_nil_r. Qed.

Lemma reporting_weaken (P Q : list event -> Prop) c : reporting P c -> (forall l, P l -> Q l) -> reporting Q c.
Proof. intros Hc HPQ h. destruct (Hc h) as (new & -> & HP). exists new. auto. Qed.

Lemma reporting_ask {A} (P : list event -> Prop) (answer : event_log -> A) record (k : A -> call unit) :
  (forall a, signals (record a) = true) -> (forall a, reporting (fun l => P (record a :: l)) (k a)) ->
  reporting P (ask answer record ≫= k).
Proof.
  intros Hs Hk h. unfold ask, mbind, action_bind. cbn [fst snd]. destruct (Hk (answer h) (h ++ [record (answer h)])) as (new & -> & HP).
  exists (record (answer h) :: new). rewrite <- app_assoc. split; [done|]. unfold reports. by rewrite filter_cons_True.
Qed.

Lemma reporting_note (P : list event -> Prop) e (k : call unit) :
  signals e = true -> reporting (fun l => P (e :: l)) k -> reporting P (note e;; k).
Proof. intros He Hk. by apply (reporting_ask P (fun _ => tt) (fun _ => e) (fun _ => k)). Qed.

Lemma reporting_quiet {A} (P : list event -> Prop) (c : call A) (k : A -> call unit) :
  P [] -> silent c -> (forall a, reporting P (k a)) -> reporting P (c ≫= k).
Proof.
  intros HP Hc Hk h. destruct (Hc h) as (new & Hnew & Hq). unfold mbind, action_bind. destruct (c h) as [h' [a|e]]; cbn in *; subst.
  - destruct (Hk a (h ++ new)) as (new' & -> & HP'). exists (new ++ new'). by rewrite app_assoc, reports_app, (silent_reports new).
  - exists new. by rewrite (silent_reports new).
Qed.

Lemma loop_lifecycle turns fuel claim n started : (n < 5)%N ->
  reporting (worker_life claim n started) (worker_loop policy turns fuel claim n started).
Proof.
  revert n started. induction turns as [|turns IH]; intros n started Hn; [apply reporting_ret; constructor|].
  cbn [worker_loop]. intros h. destruct (env_stopped h); [exists []; rewrite app_nil_r; split; [done|constructor]|].
  revert h. apply reporting_ask; [done|]. intros [leases|e].
  - assert (reporting (worker_life claim 0 true) (on ← process_each policy fuel (claim_duration claim) leases;
      if (on : bool) then worker_loop policy turns fuel claim 0 true else mret tt)) as Hrest.
    { apply reporting_quiet; [constructor|apply silent_each|]. intros []; [by apply IH|apply reporting_ret; constructor]. }
    destruct started.
    + apply (reporting_weaken _ _ _ Hrest). by constructor.
    + apply reporting_note; [done|]. apply (reporting_weaken _ _ _ Hrest). by constructor.
  - rewrite N.min_l by lia. destruct (N.leb_spec 5 (n + 1)).
    + intros h. exists [MarkedFatal]. split; [done|]. apply life_fatal. lia.
    + apply (reporting_weaken _ _ _ (IH (n + 1)%N started ltac:(lia))). by constructor.
Qed.

(** Whatever happens, the reports of a worker of an accepted policy and a valid owner
    are its claims; it is marked ready at most once, right after its first claim that
    succeeds, and fatal right after the fifth failed claim in a row, which is the last
    thing it does. *)
Theorem worker_lifecycle raw owner turns fuel h h' r :
  validate_raw_policy raw = Ok policy -> valid_callback_id owner = true -> run_worker policy turns fuel owner h = (h', r) ->
  exists new claim, h' = h ++ new /\ claim_owner claim = owner /\ claim_duration claim = Z.of_N (claim_lease_ms (bounds policy)) /\
    batch_limit claim = claim_batch (bounds policy) /\ worker_life claim 0 false (reports new).
Proof.
  intros (_ & Hok & _)%validated_enrolled Howner Hrun. unfold run_worker in Hrun.
  unfold bounds_ok, between in Hok. rewrite !andb_true_iff, !N.leb_le in Hok. destruct_and!.
  unfold lease_duration_new, claim_new, between in Hrun.
  rewrite (proj2 (Z.leb_le 1000 _)), (proj2 (Z.leb_le _ 300000)), Howner, (proj2 (N.leb_le 1 _)), (proj2 (N.leb_le _ 1000)) in Hrun
    by lia.
  cbn [negb andb orb fail_if mbind result_bind] in Hrun. match type of Hrun with worker_loop _ _ _ ?c _ _ _ = _ => set (claim := c) in Hrun end.
  destruct (loop_lifecycle turns fuel claim 0 false ltac:(lia) h) as (new & Hnew & Hlife). rewrite Hrun in Hnew.
  by exists new, claim.
Qed.
End workers.
