(* ===== verification/CallbackRuns.v ===== *)
(** * Callbacks at work

    A policy with one enrollment, a resolver, files and an authority: the theorems on
    callbacks are applied to a delivery that commits, one that is retried and a worker
    that starts. *)

From stdpp Require Import pretty.
From S2P Require Import Prelude Text Protocol Policy Quota Scanner RatifiedRuns.
From S2P Require Import Callback Destinations Enrollments Attempts Delivery Accounting Delivered Workers.

#[local] Existing Instance run_sha256.
#[local] Existing Instance run_hmac.
#[local] Existing Instance run_url.

(** ** URLs *)

Definition hook : string := "https://hooks.example:8443/done".

Definition hook_parsed : ParsedUrl := {|
  url_scheme := "https"; url_username := ""; url_password := None; url_query := None; url_fragment := None;
  url_host_str := Some "hooks.example"; url_path := "/done"; url_port_or_known_default := Some 8443%N |}.

Definition bare_parsed : ParsedUrl := {|
  url_scheme := "https"; url_username := ""; url_password := None; url_query := None; url_fragment := None;
  url_host_str := Some "a"; url_path := "/"; url_port_or_known_default := Some 443%N |}.

#[local] Instance hook_parser : UrlParser := fun s =>
  if bool_decide (s = hook) then Some hook_parsed
  else if bool_decide (s = "https:a") then Some bare_parsed else None.

Definition hook_url : CanonicalCallbackUrl := {|
  canonical := hook; target_host := "hooks.example"; target_port := 8443; target_path := "/done" |}.

Lemma hook_parse : parse hook = Ok hook_url.
Proof. vm_compute. reflexivity. Qed.

Lemma destination_is_its_text_witness : url_ok hook hook_url /\ parse (canonical hook_url) = Ok hook_url.
Proof.
  pose proof (destination_is_its_text hook_parser hook_parser hook hook_url hook_parse) as (Hok & Hagain & _).
  split; [exact Hok|exact Hagain].
Defined.

Lemma short_url_panics_witness : parse "https:a" = Err Panicked.
Proof. apply (short_url_panics hook_parser bare_parsed); [reflexivity|]. by split. Defined.

(** ** A policy *)

Definition hook_bounds : PushBounds := {|
  enabled := true; push_policy_id := "push"; push_policy_revision := 1;
  push_policy_digest := "sha256:0123456789abcdef0123456789abcdef0123456789abcdef0123456789abcdef";
  max_pending := 100; max_configs_per_task := 4; max_configs_per_tenant := 10; worker_count := 1; claim_batch := 8;
  claim_lease_ms := 60000; dns_timeout_ms := 1000; max_dns_answers := 4; connect_timeout_ms := 1000;
  request_timeout_ms := 5000; max_response_bytes := 4096; push_max_attempts := 3; base_retry_ms := 1000;
  max_retry_ms := 60000; max_delivery_age_ms := 3600000 |}.

Definition hook_raw : RawPolicy := {|
  schema := "smesh-push/1"; raw_bounds := hook_bounds;
  raw_enrollments := [{| raw_tenant := "tenant"; raw_endpoint_id := "hook"; raw_url := hook; raw_event := "terminal";
    raw_auth := "hmac-sha256"; raw_key_generation := "g1"; raw_secret_file := "/run/secret"; raw_ca_file := None;
    raw_mtls_cert_file := None; raw_mtls_key_file := None |}] |}.

Definition hook_enrollment : PushEnrollment := {|
  enr_tenant := "tenant"; enr_endpoint_id := "hook"; enr_url := hook_url; enr_key_generation := "g1";
  enr_secret_file := "/run/secret"; enr_ca_file := None; enr_mtls_cert_file := None; enr_mtls_key_file := None |}.

Definition hook_policy : PushPolicy := {| bounds := hook_bounds; enrollments := [hook_enrollment] |}.

Lemma hook_policy_ok : validate_raw_policy hook_raw = Ok hook_policy.
Proof. vm_compute. reflexivity. Qed.

Lemma push_policy_sound_witness : enrollment hook_policy "tenant" "hook" hook = Ok hook_enrollment.
Proof.
  apply (push_policy_sound hook_raw hook_policy hook_policy_ok). split; [apply list_elem_of_here|reflexivity].
Defined.

(** ** An attempt *)

Definition hook_secret : string := "0123456789abcdef0123456789abcdef".

#[local] Instance hook_files : PushFiles := {|
  read_private_file path max := if bool_decide (path = "/run/secret") then Ok hook_secret else Err InvalidSecret;
  pem_certificates _ := None; pem_private_keys _ := None; certificate_from_der _ := false; identity_from_pem _ := false |}.

#[local] Instance hook_base64 : StandardBase64 := fun s => s +:+ "============".

Definition hook_transport : SecureCallbackTransport := {| max_answers := 4; test_loopback_pinning := false |}.

(** One answer, mapped into IPv6: 93.184.215.14 *)
Definition hook_answer : IpAddr := V6 (0xffff * 2 ^ 32 + octets 93 184 215 14).
Definition hook_resolver (host : string) : option (result PushSecurityError (list IpAddr)) := Some (Ok [hook_answer]).

Definition answer_with (status : N) (request : CallbackRequest) : exchange_outcome :=
  Responded {| wire_status := status; wire_headers := [("retry-after", "7")]; wire_chunks := [Ok "ok"] |}.

Definition hook_send (x : CallbackRequest -> exchange_outcome) : result attempt_fault CallbackResponse :=
  send_enrollment hook_transport hook_resolver x (fun _ => None) 0 hook_enrollment "event" 1700000000 1 "{}" 4096.


Definition hook_signature : string := sign hook_secret hook "hook" "event" 1700000000 1 "g1" "{}".

Lemma callback_signature_binds_witness :
  verify_callback hook_secret hook "hook" "event" 1700000000 1 "g1" "{}" hook_signature = true.
Proof.
  apply (callback_signature_binds hook_secret hook "hook" "event" 1700000000 1 "g1" "{}"
           hook "hook" "event" 1700000000 2 "g1" "{}" run_url_laws).
  1,2: split; [repeat constructor; vm_compute; discriminate|by split; vm_compute].
Defined.

Definition hook_request : string :=
  rendered "/done" (all_headers "hooks.example:8443"
    (callback_headers hook_enrollment hook_secret "event" 1700000000 1 "{}") "{}") "{}".

Lemma accounted_is_rendered_witness : slen hook_request = 495%N /\
  callback_request_accounted_bytes hook "hook" "event" 1700000000 1 "g1" 2 = Some (slen hook_request).
Proof.
  split; [vm_compute; reflexivity|].
  apply (accounted_is_rendered hook_enrollment hook_secret "event" 1700000000 1 "{}" hook_parsed "hooks.example" 8443%N run_url_laws).
  - intros b Hb. unfold base64_encode, hook_base64. rewrite string_length_app, Hb. reflexivity.
  - reflexivity.
  - reflexivity.
  - reflexivity.
  - vm_compute. discriminate.
Defined.

(** ** Deliveries *)

Definition hook_fence : DeliveryFence := {|
  fence_tenant_scope := "tenant"; fence_event_id := "event"; fence_config_id := "config"; lease_owner := "worker-0";
  lease_token := "token"; lease_epoch := 1 |}.

Definition hook_lease : CallbackLease := {|
  fence := hook_fence; lease_task_id := "task"; lease_config_id := "config"; lease_canonical_url := hook;
  enrollment_id := "hook"; enrollment_generation := 1; payload := "{}"; payload_digest := content_digest "{}";
  lease_attempt := 1; created_at := 1700000000000; expires_at := 1700003600000; lease_expires_at := 1700000060000;
  owner_account_id := "account"; lease_principal_scope := "scope" |}.

(** An authority whose clock stands still; the request is answered with [status] after
    the lease was renewed once while it was in flight. *)
Definition hook_env (status : N) : Environment := {|
  env_renew _ _ duration := Ok (Some (1700000000000 + duration)%Z);
  env_reserve _ _ _ _ := Reserved;
  env_validate _ _ _ := Ok true;
  env_poll h := if (length h <=? 4)%nat then RenewDue
    else SendReady (match hook_send (answer_with status) with Ok r => Ok r | Err _ => Err Reset end);
  env_commit _ _ := Ok true;
  env_time _ := Ok 1700000000000%Z;
  env_sample _ := 12345%N;
  env_fail _ _ := Ok StateRetry;
  env_claim h _ := Ok (if bool_decide (h = []) then [hook_lease] else []);
  env_stopped _ := false |}.

Definition hook_calls (status : N) (settled : list event) : list event :=
  [Renewed hook_fence 60000 (Ok (Some 1700000060000%Z)); ReservedEgress 495 1700000000000 Reserved;
   FenceValidated hook_fence 60000 (Ok true); SendStarted hook_enrollment 1700000000;
   Renewed hook_fence 60000 (Ok (Some 1700000060000%Z));
   SendEnded (Ok {| resp_status := status; resp_disposition := classify_status status;
                    resp_retry_after := if (status =? 503)%N then Some 7%N else None |})] ++ settled.

Definition retry_scheduled : list event :=
  [TimeRead (Ok 1700000000000%Z); Sampled 12345;
   FailureRecorded {| failed_fence := hook_fence; disposition := FailRetry; category := CatHttp;
                      error_digest := failure_digest CatHttp; retry_at := Some 1700000007000%Z |} (Ok StateRetry)].

Lemma hook_times status : times_ok (H1 := hook_env status) hook_lease 60000.
Proof. split; [intros h now [= <-]|intros h until [= <-]]; by vm_compute. Qed.

Lemma hook_expiry : (expires_at hook_lease <= max_i64)%Z.
Proof. vm_compute. discriminate. Qed.

Lemma hook_delivered :
  process_delivery (H1 := hook_env 204) hook_policy 3 hook_lease 60000 [] = (hook_calls 204 [Committed hook_fence (Ok true)], Ok tt).
Proof. vm_compute. reflexivity. Qed.

Lemma hook_answers status : answers_by (H1 := hook_env status) 5.
Proof. intros h Hh. cbn. by rewrite (proj2 (Nat.leb_gt _ _)). Qed.

Lemma hook_run_retried :
  process_delivery (H1 := hook_env 503) hook_policy 6 hook_lease 60000 [] = (hook_calls 503 retry_scheduled, Ok tt).
Proof. vm_compute. reflexivity. Qed.

Lemma delivery_follows_protocol_witness :
  (exists p, follows hook_policy hook_lease 60000 Fresh (hook_calls 503 retry_scheduled) p /\ (p = Settled \/ p = Lost)) /\
  (process_delivery (H1 := hook_env 503) hook_policy 6 hook_lease 60000 []).2 <> Err StillSending.
Proof.
  destruct (delivery_follows_protocol (H1 := hook_env 503) hook_raw hook_policy 6 hook_lease 60000 [] _ _
    hook_policy_ok hook_expiry (hook_times 503) hook_run_retried) as [(new & p & Hnew & Hf & Hend) Hends].
  cbn [app] in Hnew. subst new. split.
  - exists p. split; [exact Hf|exact Hend].
  - rewrite hook_run_retried. apply (Hends 5%nat (hook_answers 503)). lia.
Defined.

Lemma delivery_guarded_witness : exists now,
  clearance hook_policy hook_lease 60000 now (take 3 (hook_calls 204 [Committed hook_fence (Ok true)])) /\
  1700000000%N = timestamp_of now.
Proof.
  destruct (delivery_guarded (H1 := hook_env 204) hook_raw hook_policy 3 hook_lease 60000 [] _ _ _
    hook_policy_ok hook_expiry (hook_times 204) hook_delivered eq_refl) as (Hsent & _ & _).
  destruct (Hsent (take 3 (hook_calls 204 [Committed hook_fence (Ok true)])) hook_enrollment 1700000000%N _ eq_refl)
    as (now & Hclear & Hts & _).
  exists now. split; [exact Hclear|exact Hts].
Defined.

Lemma worker_lifecycle_witness : exists new claim,
  (run_worker (H1 := hook_env 204) hook_policy 2 3 "worker-0" []).1 = new /\ worker_life claim 0 false (reports new) /\
  length (reports new) = 3.
Proof.
  destruct (worker_lifecycle (H1 := hook_env 204) hook_policy hook_raw "worker-0" 2 3 [] _ _ hook_policy_ok eq_refl
    (surjective_pairing _)) as (new & claim & Hnew & _ & _ & _ & Hlife).
  cbn [app] in Hnew. exists new, claim. split; [exact Hnew|]. split; [exact Hlife|].
  rewrite <- Hnew. vm_compute. reflexivity.
Defined.
